(* ===== verification/_CoqProject ===== *)
-Q . S2P
Prelude.v
Machine.v
Vsa.v
VsaInv.v
VsaSpec.v
VsaConc.v
VsaLinear.v
VsaReads.v
Counter.v
Effects.v
Store.v
Ledger.v
CoreMetrics.v
Worker.v
WorkerSpec.v
Api.v
Doubles.v
WorkerProps.v
ApiSpec.v
Service.v
Races.v
Durable.v
Redis.v
Kafka.v
Retries.v
Postgres.v
OpenAddr.v
TfdTypes.v
TfdShard.v
TfdShardSpec.v
TfdState.v
TfdStateSpec.v
TfdPipeline.v
TfdPipelineSpec.v
TfdLimits.v
TfdService.v
TfdServiceSpec.v
Churn.v
ChurnSpec.v
ChurnView.v
ChurnViewSpec.v
ServiceTelemetry.v
Overlap.v
OverlapSpec.v
Concurrent.v
ConcurrentLedger.v
ConcurrentSteps.v
ConcurrentAccount.v
ConcurrentPlaces.v
ConcurrentSpec.v
ConcurrentCode.v
EndToEnd.v
Harness.v
HarnessVsa.v
HarnessVsaSpec.v
HarnessSpec.v
Json.v
Sinks.v
SinksRead.v
SinksSpec.v
TfdRanges.v
Proxy.v
ProxySpec.v
ProxyConc.v
ProxyConcSpec.v
ProxyCode.v
Sim.v
SimSpec.v
SimMain.v
Loadgen.v
ApiMain.v
ApiMainSpec.v
HarnessMain.v
HarnessFloat.v
HarnessMainSpec.v
AtomicLimiter.v
