(* ===== verification/Prelude.v ===== *)
(** * The VSA rate limiter: verification development (root file)

    The repository is a rate limiter in Go built on an accumulator, the VSA: a
    durable budget (the scalar) and the net of what memory has consumed and not
    yet saved (the vector, spread over stripes).  Two services use the idea: the
    rate-limiter API, with a store of accumulators, a worker that commits their
    vectors to a backend, and telemetry; and the TFD plugin, a pipeline that
    merges the increments of independent cells in a scalar lane and keeps ordered
    events in a vector lane.

    ** Parts, files and code

    - [Prelude], [Machine], [Effects], [OpenAddr]: shared.  [Prelude] has Go's
      machine integers (wrapped [int64] and [uint64], the congruence [≡ₘ] with
      its [Proper] instances, the hint database [go] and the tactics [eqm_solve],
      [unwrap], [case_Z]) and sums of lists; [Machine] the atomics: a program is
      a tree of atomic actions, run alone ([exec]) or interleaved by a scheduler
      (a step relation over threads and one mutex); [Effects] sequential code
      with shared objects as a state-and-panic monad with total-correctness
      triples; [OpenAddr] linear probing.
    - [Vsa] ([src/vsa.go]): every method over the object's atomics, with all the
      options.  [VsaInv]: what each method does; [VsaSpec]: the two-number
      contract ([Spec]) and the refinement of it; [VsaConc]: interleavings;
      [VsaLinear]: the calls under the mutex have an order; [VsaReads]: what the reads that take no lock can see of them.
      [AtomicLimiter] ([benchmarks/atomic_limiter.go]): the baseline it is
      compared with, a compare-and-swap loop per call, interleaved by action.
    - [Counter]: the interface the service asks of an accumulator (classes
      [Counter] and [CounterLaws]), and its instance for [vsa.go].
    - [Store] ([core/store.go]), with [Ledger], its abstract state: a map from
      keys to objects on a heap, each a balance, the time of its last use and its
      commit latch.
    - [CoreMetrics] ([core/metrics.go], [core/persistence.go]): process counters,
      the [Persister] interface and the mock backend.
    - [Worker] ([core/worker.go]), [WorkerSpec], [WorkerProps]: commit cycle,
      final flush and eviction, over any [Persister] and any telemetry ([Churn]).
    - [Api] ([api/server.go]) and [ApiSpec]: the handlers and their answers.
    - [Doubles]: concrete backends and services the witnesses run on.
    - [Service]: histories of requests, cycles, flushes and evictions, one after
      the other.  [Overlap] and [OverlapSpec]: the commit loop cut into the steps
      that requests can come between.  [Concurrent]: everything at once, any number
      of handlers cut into their calls on the store and the accumulator, the
      commit loop in its steps, eviction call by call; [ConcurrentSteps] is what
      each step does to the books, [ConcurrentLedger], [ConcurrentAccount] and
      [ConcurrentPlaces] the invariants, [ConcurrentSpec] the theorems,
      [ConcurrentCode] that undisturbed calls are the code and that every request
      is answered.  [Races]: short interleavings that lose or double units.
    - [EndToEnd]: the concurrent service on the shim and a durable adapter.
    - [Durable] ([persistence/types.go], [shim.go]), [Redis], [Kafka] (with
      [clients.go] and [factory.go]), [Retries], [Postgres]: the adapters.  The
      Redis commands, the clients and the Kafka producer are classes with their
      documented behaviour as laws and a concrete instance each.
    - [TfdTypes] ([types.go], [classifier.go]), [TfdShard] and [TfdShardSpec]
      ([saccumulator*.go]), [TfdState] and [TfdStateSpec] ([vsa_integration.go],
      [reconstruct.go]), [TfdPipeline] and [TfdPipelineSpec] ([vactors.go],
      [sservice.go], [pipeline.go]), [TfdRanges], [TfdLimits]: the plugin under
      [src/plugin/tfd].  [TfdService] and [TfdServiceSpec]: [sservice.go] again,
      with senders, callers of [Flush], [Start] and [Stop] and the goroutine as
      threads over its channels.
    - [Json], [Sinks], [SinksRead], [SinksSpec] ([internal/sinks]): the two
      append-only logs over a file whose writes may fail or be short, through
      [bufio.Writer], and their readers; a record type is an instance of
      [Logged] with laws ([LoggedLaws]).
    - [Proxy], [ProxySpec] ([cmd/tfd-proxy]) and [Sim], [SimSpec]
      ([cmd/tfd-sim]): the programs that put the pipeline before the sinks, a
      handler or a turn of the generator in one step.  [ProxyConc] and
      [ProxyConcSpec] cut every request of the proxy at its calls, over the
      threads of [TfdService], the router without a lock as it is: two requests in
      it at once that touch the same memory have no outcome ([race]); [ProxyCode]
      says that a request left undisturbed is the handler of [Proxy].  [SimMain] has the simulator's generator, handlers
      and [main] as threads, from the start to the deferred calls.
    - [Churn], [ChurnSpec], [ChurnView], [ChurnViewSpec] ([telemetry/churn]):
      counters, rolling window, ranking of the keys by IEEE 754 factors, and the
      rendered lines; [ServiceTelemetry]: the service over this telemetry.
    - [ApiMain], [ApiMainSpec] ([cmd/ratelimiter-api], [PrintFinalMetrics]): the
      server's flags, wiring, shutdown and summary.
    - [Loadgen] ([tools/http-loadgen]): the requests the load generator sends.
    - [Harness] and [HarnessVsa] ([benchmarks/harness/main.go]) with [HarnessSpec]
      and [HarnessVsaSpec]: the simulated datastore, the six producers (the batching
      one cut at its mutex, the VSA one into the steps of its loop), and the
      figures of the summary.  [HarnessMain] is its command: flags, the operations
      drawn, the workers as threads over any of the six producers and its background
      goroutines, the report; [HarnessFloat] bounds its rounded numbers and
      [HarnessMainSpec] has the run.

    ** What the theorems show

    - The accumulator, alone: it refines the contract of a budget and a pending
      amount for every sequence of calls within [op_ok] (amounts in [int64], no
      commit of [MinInt64], no overflow of the fast path's test); no call panics; a
      commit of anything but [MinInt64] never changes what is available; admissions stay within the budget.  Interleaved: N
      goroutines racing for s0 tokens all finish with exactly min(N, s0)
      admitted, no interleaving unbalances the ledger, and the calls are
      linearizable: one order, which keeps that of real time, gives every one the
      result it returned ([calls_linearize]).  These hold of the
      exact gate, the interleaved ones without the fast path; the cached gate, the grouped gate and the fast path over-admit,
      and a theorem each shows how.  Under any options, a vector read without the
      lock is off by at most what moved meanwhile, and two runs show it above every
      net there was, and negative.  The baseline's loops end in every interleaving
      and account for every call.
    - Everything at once, call by call (a call on an accumulator is one step):
      whatever the interleaving of handlers, commit passes, flushes and evictions,
      nothing panics; the units admitted and not refunded
      are accepted, pending or stranded, up to an overcharge, and both what is
      stranded and the overcharge are bounded by the races that happened; a key's
      200 answers are at most its limit per instance, plus its refunds; a request
      is answered after five of its own calls.  On the shim and an adapter that
      keeps its contract, the durable counters have lost exactly the vectors of
      the accepted batches and a part of each refused one, if they have room
      ([durable_service]).
    - The rate limiter: over any sequential history a unit admitted and not
      refunded is pending in memory or accepted by the backend; a graceful flush
      persists everything; a commit cycle persists what is due and nothing else,
      and a refused one changes no balance; eviction loses nothing.  With
      requests between the steps of a commit pass, a key still gets exactly its
      limit, and the backend is ahead by at most one unit for each release that
      crossed a pass.  The whole life of the command, shutdown included, keeps
      these.  [WorkerProps] and [Races] have the cases where the code does lose
      or double units.
    - Persistence: a call of the Redis adapter charges each entry of a prefix of its
      batch once, whatever the network loses or sends twice
      ([redis_batch_charges_once]), and Kafka keeps the same contract; the shim's
      fresh ids charge every call anew; a refused Redis update and every Postgres batch are lost.
    - TFD: as long as the cells of the run have distinct non-zero packed ids and all
      fit one shard's table ([fits], which the default flags of the proxy and the
      simulator do not ensure), once the pipeline is stopped, what it has sunk and persisted
      reconstructs the state of the one ordered log; accumulation and compression
      keep sums and the largest sequence numbers; the vector lane is FIFO.  With its callers as threads the
      service keeps every send until its goroutine ends, and serves every request
      it has taken; a flush that the stop overtakes is never answered.
      [TfdLimits] has what happens outside the conditions: cells are confused, or a
      probe never ends.
    - Files: when the writes succeed the logs read back as what was appended;
      whatever they answer and wherever the process stops, as a prefix of it; the
      first error is final; and a file only grows.  So under [fits], and as long as
      the writes succeed, the proxy answers with the sums of everything it accepted,
      across a restart.  With its requests as threads, in the runs without a race in
      the router, each cell of an answer is the sum at a moment, none before the query began;
      the moments of two cells may differ ([state_answers_moments]).  The simulator,
      which refines the same pipeline, logs what it counts, under the same conditions,
      if its generator and handlers are done when [main] leaves
      ([quiet_exit_keeps_everything]), and
      loses what they count later ([late_turns_are_lost]).
    - Telemetry: a publication reports exactly what was observed in its window;
      sampling takes its share; the baseline equals the process's admissions; the
      keys shown are those of the largest churn.
    - The harness: batching writes every operation once, the PN-counter and the
      histogram count, and stopping the VSA producer leaves nothing uncommitted.  A
      whole run panics nowhere, runs each worker's share in order, counts it, and after
      the stop has written or committed all of it ([bench_keeps_every_operation]);
      [bench_start_outcome] says exactly which flags panic before, and what an
      interval that is not positive does.

    ** Conventions, bounds and fuel

    [None] is a panic or a call that never returns.  Go's maps and [sync.Map] are
    [gmap]; where the code ranges over one, the order is an argument and the
    theorems hold of every order.  Clock readings, randomness, the choice of a
    stripe and the text of a float are arguments; a [float64] that is compared is
    a [spec_float].  A probe takes one step per slot of its table: if no slot has
    stopped it by then none will, which [full_table_probe_diverges] proves;
    [table_size] takes 8 doublings, enough for the 64 batches the table path
    allows.  The JSON parser has twice the length of its text and two more in
    fuel, a turn for each byte and each level; [bufio]'s loop two turns, for
    after one the buffer is empty.  A commit pass takes at most two steps per key
    and two more ([undisturbed_steps_are_the_pass]); n calls of the baseline at
    most n(4n+1)+4n actions; a handler at most five calls, a request that the TFD
    goroutine has taken one step per envelope and one more.  [nextPow2] and the other loops recurse on what they
    consume.

    ** Not modelled

    [net/http] itself ([ListenAndServe], headers, timeouts, the HTTP client), the
    metrics and health endpoints, the registration of Prometheus collectors, the
    parsing of the command line (the flags' defaults and corrections are
    modelled), log lines.  Random sources, clocks and the pace of tickers: what
    they give is an argument, and a tick is an event that may come at any time;
    sleeps take no step.  Network clients are parameters.  The harness's profiling
    endpoint, and how much memory its slices need.  Telemetry's [humanRate] is never
    called.  The terminal of the live display: its lines are
    modelled, what the escape codes make of them is not.

    In [Concurrent] a call on an accumulator is one step ([VsaConc] and [VsaReads]
    have what is inside), and so is a batch sent to the backend and the reading of
    a key by the commit loop; counters and telemetry are written in the step of the
    call they count.  In [ProxyConc] the process is running: its deferred calls are
    those of [Proxy].

    ** What is left

    Every component is modelled.  What could be added: the torn
    reads of [VsaReads] in the account of [Concurrent]; the deferred calls of the
    proxy among the steps of [ProxyConc], as [SimMain] has them for the simulator;
    the terminal as a state that the live display writes on. *)
From Stdlib Require Export ZArith Lia.
From stdpp Require Export base numbers list gmap sets strings option.

#[global] Set Default Goal Selector "!".

Open Scope Z_scope.

(** ** Machine integers

    Go's [int64] and [int] (64-bit platforms) are integers in
    [[-2^63, 2^63)], [uint64] is [[0, 2^64)]; arithmetic wraps around. *)
Abbreviation M64 := 18446744073709551616 (only parsing).
Abbreviation H64 := 9223372036854775808 (only parsing).

Definition wrap64 (z : Z) : Z := (z + H64) mod M64 - H64.
Definition u64 (z : Z) : Z := z mod M64.
Definition MinInt64 : Z := - H64.
Definition MaxInt64 : Z := H64 - 1.

Definition add64 (a b : Z) : Z := wrap64 (a + b).
Definition sub64 (a b : Z) : Z := wrap64 (a - b).
Definition mul64 (a b : Z) : Z := wrap64 (a * b).
Definition neg64 (a : Z) : Z := wrap64 (- a).

(** Go's [/] and [%] on [int] truncate towards zero; the only quotient that
    leaves the type, [MinInt64 / -1], wraps. *)
Definition quot64 (a b : Z) : Z := wrap64 (Z.quot a b).
Definition rem64 (a b : Z) : Z := Z.rem a b.

(** [int(x)] of a [uint64], and back, reinterpret the bit pattern. *)
Definition int_of_u64 (u : Z) : Z := wrap64 u.
Definition u64_of_int (z : Z) : Z := u64 z.

Declare Scope go_scope.
Delimit Scope go_scope with go.
Infix "+!" := add64 (at level 50, left associativity) : go_scope.
Infix "-!" := sub64 (at level 50, left associativity) : go_scope.
Infix "*!" := mul64 (at level 40, left associativity) : go_scope.
Open Scope go_scope.

Definition in64 (z : Z) : Prop := - H64 <= z < H64.
Definition inu64 (z : Z) : Prop := 0 <= z < M64.

#[global] Instance in64_dec z : Decision (in64 z).
Proof. unfold in64. apply _. Defined.
#[global] Instance inu64_dec z : Decision (inu64 z).
Proof. unfold inu64. apply _. Defined.

(** Congruence modulo [2^64]: the equivalence under which wrapped arithmetic
    is ordinary arithmetic. *)
Definition eqm (a b : Z) : Prop := exists k, a = b + k * M64.
Infix "≡ₘ" := eqm (at level 70, no associativity) : go_scope.

#[global] Instance eqm_equivalence : Equivalence eqm.
Proof.
  split.
  - intros a. exists 0. lia.
  - intros a b [k ->]. exists (- k). lia.
  - intros a b c [k ->] [l ->]. exists (k + l). lia.
Qed.
#[global] Instance eqm_add_proper : Proper (eqm ==> eqm ==> eqm) Z.add.
Proof. intros a b [k ->] c d [l ->]. exists (k + l). lia. Qed.
#[global] Instance eqm_sub_proper : Proper (eqm ==> eqm ==> eqm) Z.sub.
Proof. intros a b [k ->] c d [l ->]. exists (k - l). lia. Qed.
#[global] Instance eqm_opp_proper : Proper (eqm ==> eqm) Z.opp.
Proof. intros a b [k ->]. exists (- k). lia. Qed.
#[global] Instance eqm_mul_proper : Proper (eqm ==> eqm ==> eqm) Z.mul.
Proof.
  intros a b [k ->] c d [l ->].
  exists (b * l + k * d + k * l * M64). ring.
Qed.

Lemma wrap64_eqm z : wrap64 z ≡ₘ z.
Proof.
  exists (- ((z + H64) / M64)). unfold wrap64.
  pose proof (Z.div_mod (z + H64) M64). lia.
Qed.

Lemma u64_eqm z : u64 z ≡ₘ z.
Proof. exists (- (z / M64)). unfold u64. pose proof (Z.div_mod z M64). lia. Qed.

Lemma wrap64_in z : in64 (wrap64 z).
Proof. unfold in64, wrap64. pose proof (Z.mod_pos_bound (z + H64) M64). lia. Qed.

Lemma u64_in z : inu64 (u64 z).
Proof. unfold inu64, u64. apply Z.mod_pos_bound. lia. Qed.

Lemma eqm_in64_eq a b : a ≡ₘ b -> in64 a -> in64 b -> a = b.
Proof. unfold in64. intros [k ->] ??. assert (k = 0) by lia. lia. Qed.

Lemma eqm_inu64_eq a b : a ≡ₘ b -> inu64 a -> inu64 b -> a = b.
Proof. unfold inu64. intros [k ->] ??. assert (k = 0) by lia. lia. Qed.

Lemma wrap64_id z : in64 z -> wrap64 z = z.
Proof. intros. apply eqm_in64_eq; [apply wrap64_eqm|apply wrap64_in|done]. Qed.

Lemma u64_id z : inu64 z -> u64 z = z.
Proof. intros. apply eqm_inu64_eq; [apply u64_eqm|apply u64_in|done]. Qed.

Lemma wrap64_unique a b : a ≡ₘ b -> wrap64 a = wrap64 b.
Proof.
  intros H. apply eqm_in64_eq; [|apply wrap64_in..].
  by rewrite !wrap64_eqm.
Qed.

Lemma wrap64_eq_of a b : a ≡ₘ b -> in64 b -> wrap64 a = b.
Proof. intros H Hb. rewrite (wrap64_unique _ _ H). by apply wrap64_id. Qed.

Lemma add64_eqm a b : a +! b ≡ₘ a + b.
Proof. apply wrap64_eqm. Qed.
Lemma sub64_eqm a b : a -! b ≡ₘ a - b.
Proof. apply wrap64_eqm. Qed.
Lemma mul64_eqm a b : a *! b ≡ₘ a * b.
Proof. apply wrap64_eqm. Qed.
Lemma neg64_eqm a : neg64 a ≡ₘ - a.
Proof. apply wrap64_eqm. Qed.

Lemma add64_in a b : in64 (a +! b).
Proof. apply wrap64_in. Qed.
Lemma sub64_in a b : in64 (a -! b).
Proof. apply wrap64_in. Qed.
Lemma mul64_in a b : in64 (a *! b).
Proof. apply wrap64_in. Qed.
Lemma neg64_in a : in64 (neg64 a).
Proof. apply wrap64_in. Qed.

Create HintDb go.
#[export] Hint Resolve wrap64_in u64_in add64_in sub64_in mul64_in neg64_in : go.

(** Reduces a goal [a ≡ₘ b] on wrapped operations to ordinary arithmetic. *)
Ltac eqm_norm := unfold add64, sub64, neg64, mul64 in *; rewrite ?wrap64_eqm.
Ltac eqm_solve :=
  eqm_norm; match goal with |- ?a ≡ₘ ?b => replace a with b by lia; reflexivity end.

(** [wrap64 e] is [e] when the bounds of [e] are at hand. *)
(** Sides that are equal as integers. *)
Lemma eqm_of_eq a b : a = b -> a ≡ₘ b.
Proof. by intros ->. Qed.
Ltac eqm_lia := apply eqm_of_eq; lia.
Ltac unwrap :=
  unfold add64, sub64, neg64, mul64 in *;
  repeat match goal with
  | |- context [wrap64 ?e] => rewrite (wrap64_id e) by (unfold in64 in *; lia)
  | H : context [wrap64 ?e] |- _ =>
      rewrite (wrap64_id e) in H by (unfold in64 in *; lia)
  end.

(** Case analysis on the integer tests a goal or a hypothesis is stuck on. *)
Ltac case_Z :=
  match goal with
  | |- context [?a <? ?b] => destruct (Z.ltb_spec a b)
  | |- context [?a <=? ?b] => destruct (Z.leb_spec a b)
  | |- context [?a >? ?b] => rewrite (Z.gtb_ltb a b)
  | |- context [?a >=? ?b] => rewrite (Z.geb_leb a b)
  | |- context [?a =? ?b] => destruct (Z.eqb_spec a b)
  | H : context [?a <? ?b] |- _ => destruct (Z.ltb_spec a b)
  | H : context [?a <=? ?b] |- _ => destruct (Z.leb_spec a b)
  | H : context [?a >? ?b] |- _ => rewrite (Z.gtb_ltb a b) in H
  | H : context [?a >=? ?b] |- _ => rewrite (Z.geb_leb a b) in H
  | H : context [?a =? ?b] |- _ => destruct (Z.eqb_spec a b)
  end.

(** [t.Sub(u)] of times in nanoseconds: a saturating [Duration]. *)
Definition time_Sub (t u : Z) : Z := Z.max MinInt64 (Z.min MaxInt64 (t - u)).

(** ** Sums of lists of integers *)
Definition Zsum (l : list Z) : Z := foldr Z.add 0 l.
Arguments Zsum : simpl never.

Lemma Zsum_nil : Zsum [] = 0.
Proof. done. Qed.

Lemma Zsum_cons x l : Zsum (x :: l) = x + Zsum l.
Proof. done. Qed.

Lemma Zsum_app l1 l2 : Zsum (l1 ++ l2) = Zsum l1 + Zsum l2.
Proof. induction l1 as [|x l1 IH]; [done|]. cbn [app]. rewrite !Zsum_cons, IH. lia. Qed.

Lemma Zsum_insert (l : list Z) i x y :
  l !! i = Some x -> Zsum (<[i:=y]> l) = Zsum l - x + y.
Proof.
  revert i. induction l as [|z l IH]; intros [|i] Hi; simplify_eq/=.
  - rewrite !Zsum_cons. lia.
  - rewrite !Zsum_cons, (IH i Hi). lia.
Qed.

Lemma Zsum_replicate n x : Zsum (replicate n x) = Z.of_nat n * x.
Proof. induction n as [|n IH]; [done|]. cbn [replicate]. rewrite Zsum_cons, IH. lia. Qed.

Lemma Zsum_nonneg l : Forall (fun x => 0 <= x) l -> 0 <= Zsum l.
Proof. induction 1 as [|x l Hx Hl IH]; [done|]. rewrite Zsum_cons. lia. Qed.

(** A sum over distinct elements, when the summand changes at one of them. *)
Lemma Zsum_change {A} `{EqDecision A} (f g : A -> Z) (l : list A) p d :
  NoDup l -> (forall q, q <> p -> g q = f q) -> g p = f p + d ->
  Zsum (g <$> l) = Zsum (f <$> l) + (if decide (p ∈ l) then d else 0).
Proof.
  intros Hnd Hq Hp. induction Hnd as [|x l Hx Hnd IH]; cbn [fmap list_fmap].
  - rewrite decide_False by apply not_elem_of_nil. lia.
  - rewrite !Zsum_cons, IH. destruct (decide (p = x)) as [<-|Hne].
    + rewrite (decide_False (P := p ∈ l)), decide_True by (done || apply list_elem_of_here). lia.
    + rewrite (Hq x) by done. destruct (decide (p ∈ l)).
      * rewrite decide_True by (by apply list_elem_of_further). lia.
      * rewrite decide_False; [lia|]. by intros [?|?]%elem_of_cons.
Qed.

Lemma Zsum_bound {A} (f : A -> Z) (l : list A) m : Forall (fun x => f x <= m) l -> Zsum (f <$> l) <= m * Z.of_nat (length l).
Proof. induction 1 as [|x l Hx Hl IH]; [cbn; unfold Zsum; cbn; lia|]. cbn [fmap list_fmap length]. rewrite Zsum_cons. lia. Qed.

Lemma Zsum_perm l1 l2 : l1 ≡ₚ l2 -> Zsum l1 = Zsum l2.
Proof. induction 1; rewrite ?Zsum_cons; lia. Qed.

(** Folding wrapped addition over a list is the wrapped sum of the list. *)
Lemma foldl_add64 l acc : in64 acc -> foldl add64 acc l = wrap64 (acc + Zsum l).
Proof.
  revert acc. induction l as [|x l IH]; intros acc Hacc; cbn [foldl].
  - rewrite Z.add_0_r. symmetry. by apply wrap64_id.
  - rewrite IH by auto with go. apply wrap64_unique. rewrite Zsum_cons. eqm_solve.
Qed.

(** ** Indexing a Go slice: out of range is a run-time panic ([None]) *)
Definition idx_get {A} (l : list A) (i : Z) : option A :=
  if i <? 0 then None else l !! Z.to_nat i.
Definition idx_set {A} (l : list A) (i : Z) (x : A) : option (list A) :=
  match idx_get l i with Some _ => Some (<[Z.to_nat i := x]> l) | None => None end.

Lemma idx_get_Some {A} (l : list A) i :
  0 <= i < Z.of_nat (length l) -> exists x, idx_get l i = Some x.
Proof.
  intros. unfold idx_get. case_Z; [lia|].
  apply lookup_lt_is_Some_2. lia.
Qed.

Lemma idx_get_lookup {A} (l : list A) i x :
  idx_get l i = Some x -> 0 <= i < Z.of_nat (length l) /\ l !! Z.to_nat i = Some x.
Proof.
  unfold idx_get. case_Z; [done|]. intros Hx. split; [|done].
  apply lookup_lt_Some in Hx. lia.
Qed.

Lemma idx_set_Some {A} (l : list A) i x y :
  idx_get l i = Some y -> idx_set l i x = Some (<[Z.to_nat i := x]> l).
Proof. unfold idx_set. by intros ->. Qed.

Lemma list_alter_as_insert {A} (l : list A) i f x :
  l !! i = Some x -> alter f i l = <[i := f x]> l.
Proof.
  revert i. induction l as [|y l IH]; intros [|i] Hi; simplify_eq/=; [done|].
  f_equal. by apply IH.
Qed.

Lemma list_alter_same {A} (l : list A) i f x :
  l !! i = Some x -> f x = x -> alter f i l = l.
Proof. intros Hx Hf. rewrite (list_alter_as_insert l i f x Hx), Hf. by apply list_insert_id. Qed.

Lemma list_alter_compose {A} (f g : A -> A) i (l : list A) :
  alter (f ∘ g) i l = alter f i (alter g i l).
Proof.
  revert i. induction l as [|x l IH]; intros [|i]; [done..|]. cbn. f_equal. apply IH.
Qed.

(** ** Invariants of transition systems *)
Lemma rtc_invariant {S} (R : relation S) (P : S -> Prop) x y :
  (forall a b, P a -> R a b -> P b) -> rtc R x y -> P x -> P y.
Proof. intros HR. induction 1; eauto. Qed.
