(* ===== verification/Machine.v ===== *)
(** * Programs over shared atomics, and their interleavings

    A method of a lock-protected Go object is a tree of atomic actions on the
    object's memory ([Act]: an atomic load, store or add; [None] is a run-time
    panic) and of acquisitions and releases of the object's one mutex.  The same
    tree is run alone ([exec]) or interleaved with others, one action at a time
    ([step]).  The file proves, once for all objects, that a section run under
    the mutex may be taken as atomic ([lock_atomicity]), and that a pool whose
    sections do not panic is never stuck ([lock_progress]). *)
From S2P Require Import Prelude.

Inductive M (St A : Type) : Type :=
| Ret (a : A)
| Act (f : St -> option (St * Z)) (k : Z -> M St A)
| Lock (k : M St A)
| Unlock (k : M St A).
Arguments Ret {St A} a.
Arguments Act {St A} f k.
Arguments Lock {St A} k.
Arguments Unlock {St A} k.

#[export] Instance M_ret {St} : MRet (M St) := fun A a => Ret a.
#[export] Instance M_bind {St} : MBind (M St) :=
  fun A B (g : A -> M St B) =>
    fix go (p : M St A) : M St B :=
      match p with
      | Ret a => g a
      | Act f k => Act f (fun z => go (k z))
      | Lock k => Lock (go k)
      | Unlock k => Unlock (go k)
      end.

(** [mu.Lock(); defer mu.Unlock(); body] *)
Definition with_lock {St A} (body : M St A) : M St A :=
  Lock (r ← body; Unlock (Ret r)).

(** ** Running a method with nobody else at work *)
Fixpoint exec {St A} (p : M St A) (s : St) : option (St * A) :=
  match p with
  | Ret a => Some (s, a)
  | Act f k => match f s with Some (s', z) => exec (k z) s' | None => None end
  | Lock k | Unlock k => exec k s
  end.

Lemma exec_bind {St A B} (p : M St A) (g : A -> M St B) s :
  exec (p ≫= g) s =
  match exec p s with Some (s', a) => exec (g a) s' | None => None end.
Proof.
  revert s. induction p as [a|f k IH|k IH|k IH]; intros s; cbn; [done| |apply IH..].
  destruct (f s) as [[s' z]|]; [apply IH|done].
Qed.

Lemma exec_with_lock {St A} (body : M St A) s : exec (with_lock body) s = exec body s.
Proof.
  unfold with_lock. cbn [exec]. rewrite exec_bind.
  by destruct (exec body s) as [[??]|].
Qed.

(** ** Interleavings *)
Record Conf (St A : Type) := mkConf {
  st : St;
  pool : list (M St A);
  holder : option nat
}.
Arguments mkConf {St A} st pool holder.
Arguments st {St A} _.
Arguments pool {St A} _.
Arguments holder {St A} _.

Inductive step {St A} : relation (Conf St A) :=
| step_act s p h i f k s' z :
    p !! i = Some (Act f k) -> f s = Some (s', z) ->
    step (mkConf s p h) (mkConf s' (<[i:=k z]> p) h)
| step_lock s p i k :
    p !! i = Some (Lock k) ->
    step (mkConf s p None) (mkConf s (<[i:=k]> p) (Some i))
| step_unlock s p i k :
    p !! i = Some (Unlock k) ->
    step (mkConf s p (Some i)) (mkConf s (<[i:=k]> p) None).

(** The coarse semantics: a locked section is one step, an action outside any
    section does not write, and may return anything. *)
Fixpoint crit {St A} (p : M St A) (s : St) : option (St * M St A) :=
  match p with
  | Ret _ | Lock _ => None
  | Act f k => match f s with Some (s', z) => crit (k z) s' | None => None end
  | Unlock k => Some (s, k)
  end.

Inductive astep {St A} : relation (St * list (M St A)) :=
| astep_read s p i f k z :
    p !! i = Some (Act f k) -> astep (s, p) (s, <[i:=k z]> p)
| astep_section s p i k s' rest :
    p !! i = Some (Lock k) -> crit k s = Some (s', rest) ->
    astep (s, p) (s', <[i:=rest]> p).

Definition returned {St A} (p : M St A) : Prop :=
  match p with Ret _ => True | _ => False end.
#[export] Instance returned_dec {St A} (p : M St A) : Decision (returned p).
Proof. destruct p; apply _. Defined.

(** The discipline the code follows: writes happen under the mutex, which is
    released before the method returns and is not taken twice. *)
Definition read_only {St} (f : St -> option (St * Z)) : Prop :=
  forall s s' z, f s = Some (s', z) -> s' = s.

Fixpoint outside {St A} (p : M St A) : Prop :=
  match p with
  | Ret _ => True
  | Act f k => read_only f /\ forall z, outside (k z)
  | Lock k => inside k
  | Unlock _ => False
  end
with inside {St A} (p : M St A) : Prop :=
  match p with
  | Ret _ | Lock _ => False
  | Act _ k => forall z, inside (k z)
  | Unlock k => outside k
  end.

(** The body of a section: any actions, no mutex operation. *)
Fixpoint unlocked {St A} (p : M St A) : Prop :=
  match p with
  | Ret _ => True
  | Act _ k => forall z, unlocked (k z)
  | Lock _ | Unlock _ => False
  end.

Lemma unlocked_bind {St A B} (p : M St A) (g : A -> M St B) :
  unlocked p -> (forall a, unlocked (g a)) -> unlocked (p ≫= g).
Proof.
  intros Hp Hg. induction p as [a|f k IH|k IH|k IH]; cbn; [apply Hg| |done..].
  intros z. apply IH, Hp.
Qed.

Lemma inside_bind_unlock {St A B} (p : M St A) (g : A -> M St B) :
  unlocked p -> (forall a, outside (g a)) -> inside (r ← p; Unlock (g r)).
Proof.
  intros Hp Hg. induction p as [a|f k IH|k IH|k IH]; cbn; [apply Hg| |done..].
  intros z. apply IH, Hp.
Qed.

Lemma outside_with_lock {St A} (body : M St A) :
  unlocked body -> outside (with_lock body).
Proof. intros. by apply inside_bind_unlock. Qed.

Lemma crit_bind_unlock {St A B} (p : M St A) (g : A -> M St B) s :
  unlocked p ->
  crit (r ← p; Unlock (g r)) s =
  match exec p s with Some (s', a) => Some (s', g a) | None => None end.
Proof.
  revert s. induction p as [a|f k IH|k IH|k IH]; intros s Hp; cbn; [done| |done..].
  destruct (f s) as [[s' z]|]; [|done]. apply IH, Hp.
Qed.

Section atomicity.
Context {St A : Type}.
Implicit Types (s : St) (p : list (M St A)) (c : Conf St A).

(** [coupled c a]: [a] is [c] with the open section, if any, finished. *)
Definition coupled c (a : St * list (M St A)) : Prop :=
  match holder c with
  | None => a = (st c, pool c)
  | Some i => exists k rest,
      pool c !! i = Some k /\ inside k /\
      crit k (st c) = Some (a.1, rest) /\ a.2 = <[i:=rest]> (pool c)
  end.

Definition disciplined c : Prop :=
  forall j q, pool c !! j = Some q -> Some j <> holder c -> outside q.

(** Sections of the pool that could start now run to their end. *)
Definition sections_total (a : St * list (M St A)) : Prop :=
  forall i k, a.2 !! i = Some (Lock k) -> is_Some (crit k a.1).

Lemma disciplined_init s p :
  Forall outside p -> disciplined (mkConf s p None).
Proof. intros Hp j q Hj _. rewrite Forall_lookup in Hp. by eapply Hp. Qed.

Lemma disciplined_step c c' :
  disciplined c -> (forall i, holder c = Some i -> exists k, pool c !! i = Some k /\ inside k) ->
  step c c' -> disciplined c'.
Proof.
  intros Hd Hin Hstep j q.
  destruct Hstep as [s p h i f k s' z Hi Hf|s p i k Hi|s p i k Hi];
    cbn in *; intros Hj Hne;
    (destruct (decide (i = j)) as [<-|Hij];
      [rewrite list_lookup_insert_eq in Hj by (by eapply lookup_lt_Some); simplify_eq
      |rewrite list_lookup_insert_ne in Hj by done]).
  - specialize (Hd i _ Hi Hne) as Ho. cbn in Ho. apply Ho.
  - by apply (Hd j).
  - by apply (Hd j).
  - destruct (Hin i eq_refl) as (k & Hk & Hins). by simplify_eq.
  - apply (Hd j); [done|]. cbn. naive_solver.
Qed.

Lemma lock_step_coupled c c' a :
  disciplined c -> sections_total a -> coupled c a -> step c c' ->
  exists a', rtc astep a a' /\ coupled c' a' /\ disciplined c'.
Proof.
  intros Hd Htot Hc Hstep.
  assert (Hd' : disciplined c').
  { apply (disciplined_step c); [done| |done].
    intros i Hi. unfold coupled in Hc. rewrite Hi in Hc.
    destruct Hc as (k & ? & ? & ? & _). by exists k. }
  destruct Hstep as [s p h i f k s' z Hi Hf|s p i k Hi|s p i k Hi]; cbn in *.
  - destruct h as [h|]; cbn in Hc.
    + destruct Hc as (kh & rest & Hh & Hins & Hcrit & Ha).
      destruct (decide (i = h)) as [->|Hne].
      * rewrite Hi in Hh. injection Hh as <-. cbn in Hcrit. rewrite Hf in Hcrit.
        exists a. split_and!; [done| |done].
        exists (k z), rest. split_and!;
          [by apply list_lookup_insert_eq, (lookup_lt_Some _ _ _ Hi)|apply Hins|done|].
        cbn. by rewrite Ha, list_insert_insert_eq.
      * destruct (Hd i _ Hi ltac:(naive_solver)) as [Hro _].
        pose proof (Hro _ _ _ Hf) as ->.
        exists (a.1, <[i:=k z]> a.2). split_and!; [| |done].
        -- destruct a as [sa pa]. apply rtc_once. cbn in *. apply (astep_read _ _ _ f).
           subst pa. rewrite list_lookup_insert_ne; done.
        -- exists kh, rest. cbn. rewrite list_lookup_insert_ne by done.
           split_and!; [done..|]. rewrite Ha. by apply list_insert_insert_ne.
    + destruct (Hd i _ Hi ltac:(done)) as [Hro _].
      pose proof (Hro _ _ _ Hf) as ->.
      subst a. exists (s, <[i:=k z]> p). split_and!; [|done..].
      by apply rtc_once, (astep_read _ _ _ f).
  - subst a. destruct (Htot i k Hi) as [[s' rest] Hcrit]. cbn in Hcrit.
    exists (s', <[i:=rest]> p). split_and!; [by eapply rtc_once, astep_section| |done].
    exists k, rest. split_and!.
    + by apply list_lookup_insert_eq, (lookup_lt_Some _ _ _ Hi).
    + by apply (Hd i _ Hi).
    + done.
    + cbn. by rewrite list_insert_insert_eq.
  - destruct Hc as (kh & rest & Hh & Hins & Hcrit & Ha). simplify_eq.
    exists a. split_and!; [done| |done]. destruct a as [sa pa]. cbn in *. by simplify_eq.
Qed.

Context (Inv : St * list (M St A) -> Prop).
Hypothesis Inv_total : forall a, Inv a -> sections_total a.
Hypothesis Inv_reads : forall a i f k,
  Inv a -> a.2 !! i = Some (Act f k) -> is_Some (f a.1).
Hypothesis Inv_step : forall a a', Inv a -> astep a a' -> Inv a'.

(** Every interleaving of a disciplined pool is coupled to a run whose
    sections are atomic, along which the invariant holds; also from a moment
    in its middle. *)
Lemma lock_atomicity_from c c' a :
  coupled c a -> disciplined c -> Inv a -> rtc step c c' ->
  exists a', rtc astep a a' /\ coupled c' a' /\ disciplined c' /\ Inv a'.
Proof.
  intros Hc Hd HI Hrtc. revert a Hc Hd HI.
  induction Hrtc as [c|c c1 c2 Hs Hr IH]; intros a0 Hc Hd HI.
  - by exists a0.
  - destruct (lock_step_coupled c c1 a0) as (a1 & Ha1 & Hc1 & Hd1); auto.
    assert (HI1 : Inv a1) by (by eapply rtc_invariant).
    destruct (IH a1) as (a & Ha & ?); [done..|].
    exists a. split; [by etrans|done].
Qed.

Lemma lock_atomicity s p c :
  Forall outside p -> Inv (s, p) -> rtc step (mkConf s p None) c ->
  exists a, rtc astep (s, p) a /\ coupled c a /\ disciplined c /\ Inv a.
Proof. intros Hout. apply lock_atomicity_from; [done|by apply disciplined_init]. Qed.

(** No deadlock: while some method has not returned, some method can move. *)
Lemma lock_progress s p c :
  Forall outside p -> Inv (s, p) -> rtc step (mkConf s p None) c ->
  (exists c', step c c') \/ Forall returned (pool c).
Proof.
  intros Hout HI Hr.
  destruct (lock_atomicity s p c) as (a & _ & Hc & Hd & HIa); [done..|].
  destruct c as [s' p' [h|]]; cbn in Hc.
  - left. destruct Hc as (k & rest & Hk & Hins & Hcrit & _).
    destruct k as [r|f k|k|k]; cbn in Hcrit; try done.
    + destruct (f s') as [[s2 z]|] eqn:Hf; [|done]. eexists. by eapply step_act.
    + eexists. by eapply step_unlock.
  - subst a. destruct (decide (Forall returned p')) as [?|Hn]; [by right|].
    left. apply not_Forall_Exists in Hn; [|apply _].
    apply Exists_exists in Hn as (q & Hq & Hnr).
    apply list_elem_of_In, list_elem_of_lookup in Hq as [i Hi].
    specialize (Hd i q Hi ltac:(done)). destruct q as [r|f k|k|k]; cbn in Hd.
    + by destruct Hnr.
    + destruct (Inv_reads _ i f k HIa Hi) as [[s2 z] Hz]. eexists. by eapply step_act.
    + eexists. by eapply step_lock.
    + done.
Qed.
End atomicity.

(** Finishing a section, then the rest, is running the method. *)
Lemma crit_exec {St A} (p : M St A) s s' rest :
  crit p s = Some (s', rest) -> exec p s = exec rest s'.
Proof.
  revert s. induction p as [a|f k IH|k IH|k IH]; intros s; cbn; [done| |done|by intros [= <- <-]].
  destruct (f s) as [[s1 z]|]; [apply IH|done].
Qed.

(** ** Sequencing after a method *)
Lemma discipline_bind {St A B} (p : M St A) (g : A -> M St B) :
  (forall a, outside (g a)) ->
  (outside p -> outside (p ≫= g)) /\ (inside p -> inside (p ≫= g)).
Proof.
  intros Hg. induction p as [a|f k IH|k IH|k IH]; cbn.
  - split; [intros; apply Hg|done].
  - split; [intros [Hro Ho]; split; [done|]; intros z|intros Hi z]; by apply IH.
  - split; [apply IH|done].
  - split; [done|apply IH].
Qed.

Lemma outside_bind {St A B} (p : M St A) (g : A -> M St B) :
  outside p -> (forall a, outside (g a)) -> outside (p ≫= g).
Proof. intros Hp Hg. by apply discipline_bind. Qed.

(** A section whose method ends by packing its result. *)
Lemma crit_section {St A B} (body : M St A) (g : A -> B) s :
  unlocked body ->
  crit ((r ← body; Unlock (Ret r)) ≫= fun r => Ret (g r)) s =
  match exec body s with Some (s', a) => Some (s', Ret (g a)) | None => None end.
Proof.
  revert s. induction body as [a|f k IH|k IH|k IH]; intros s Hb; cbn in *; [done| |done..].
  destruct (f s) as [[s' z]|]; [|done]. apply IH, Hb.
Qed.

(** ** Every schedule ends *)
Section termination.
Context {St A : Type}.

Inductive sub : relation (M St A) :=
| sub_act f k z : sub (k z) (Act f k)
| sub_lock k : sub k (Lock k)
| sub_unlock k : sub k (Unlock k).

Lemma sub_wf p : Acc sub p.
Proof.
  induction p as [a|f k IH|k IH|k IH]; constructor; intros q Hq; inversion Hq; subst; auto.
Qed.

Definition pool_sub (p' p : list (M St A)) : Prop :=
  exists i q q', p !! i = Some q /\ sub q' q /\ p' = <[i:=q']> p.

Lemma pool_sub_wf p : Acc pool_sub p.
Proof.
  induction p as [|x l IHl].
  { constructor. intros p' (i & q & q' & Hi & _). done. }
  revert l IHl. induction (sub_wf x) as [x _ IHx].
  intros l Hl. induction Hl as [l Hl IHl]. constructor.
  intros p' (i & q & q' & Hi & Hq & ->). destruct i as [|i]; cbn in *.
  - simplify_eq. by apply IHx.
  - apply IHl. by exists i, q, q'.
Qed.

Lemma step_wf (c : Conf St A) : Acc (flip step) c.
Proof.
  destruct c as [s p h]. revert s h. induction (pool_sub_wf p) as [p _ IH].
  intros s h. constructor. intros c' Hstep. unfold flip in Hstep.
  inversion Hstep; subst; apply IH; eexists _, _, _; split_and!; eauto; constructor.
Qed.
End termination.

(** ** Running a given schedule *)
Definition step_at {St A} (i : nat) (c : Conf St A) : option (Conf St A) :=
  match pool c !! i, holder c with
  | Some (Act f k), h =>
      match f (st c) with
      | Some (s', z) => Some (mkConf s' (<[i:=k z]> (pool c)) h)
      | None => None
      end
  | Some (Lock k), None => Some (mkConf (st c) (<[i:=k]> (pool c)) (Some i))
  | Some (Unlock k), Some j =>
      if decide (i = j) then Some (mkConf (st c) (<[i:=k]> (pool c)) None) else None
  | _, _ => None
  end.

Fixpoint run_schedule {St A} (sched : list nat) (c : Conf St A) : option (Conf St A) :=
  match sched with
  | [] => Some c
  | i :: sched => match step_at i c with Some c' => run_schedule sched c' | None => None end
  end.

Lemma step_at_step {St A} i (c c' : Conf St A) : step_at i c = Some c' -> step c c'.
Proof.
  destruct c as [s p h]. unfold step_at. cbn.
  destruct (p !! i) as [[r|f k|k|k]|] eqn:Hi; [done| | | |done].
  - destruct (f s) as [[s' z]|] eqn:Hf; [|done]. intros [= <-]. by eapply step_act.
  - destruct h; [done|]. intros [= <-]. by eapply step_lock.
  - destruct h as [j|]; [|done]. case_decide; [|done]. subst. intros [= <-]. by eapply step_unlock.
Qed.

Lemma run_schedule_rtc {St A} sched (c c' : Conf St A) :
  run_schedule sched c = Some c' -> rtc step c c'.
Proof.
  revert c. induction sched as [|i sched IH]; intros c; cbn; [by intros [= ->]|].
  destruct (step_at i c) as [c1|] eqn:Hs; [|done]. intros Hr.
  eapply rtc_l; [by eapply step_at_step|by apply IH].
Qed.

(** A run with the configurations it goes through. *)
Inductive run_through {St A} (c0 : Conf St A) : list (Conf St A) -> Conf St A -> Prop :=
| run_start : run_through c0 [c0] c0
| run_step visited c c' :
    run_through c0 visited c -> step c c' -> run_through c0 (visited ++ [c']) c'.

Lemma rtc_run_through {St A} (c0 c : Conf St A) : rtc step c0 c -> exists visited, run_through c0 visited c.
Proof.
  intros Hr. revert c Hr. apply rtc_ind_r; [by exists [c0]; apply run_start|].
  intros c c' _ Hs [visited Hrun]. exists (visited ++ [c']). by eapply run_step.
Qed.
