(* ===== verification/Vsa.v ===== *)
(** * The Vector-Scalar Accumulator: data and operations ([src/vsa.go])

    The [VSA] struct is split in two records: [Config] holds the fields that are
    written once by [NewWithOptions], [Mem] the fields later operations write.
    Every method is a program over the atomics of [Mem] (see [Machine]); the
    mutex [tryMu] is the program's [Lock]/[Unlock].  Each [Load], [Store] and
    [Add] of the source is one action, in the order of the source.

    Not state of the model: the padding of a stripe, and [prngPool], which the
    garbage collector may empty at any time, so that what [Get] returns is an
    argument ([ChooserEnv]) together with the clock and the processor id. *)
From S2P Require Import Prelude Machine.

(** ** Helpers (lines 463 to 501) *)
Module Helpers.
Definition abs (n : Z) : Z := if n <? 0 then neg64 n else n.

(** [^uint(0)] has 64 one bits. *)
Definition intSize : Z := Z.shiftl 32 (Z.shiftr (M64 - 1) 63).

Definition nextPow2 (x : Z) : Z :=
  if x <=? 1 then 1 else
  let x := x -! 1 in
  let x := Z.lor x (Z.shiftr x 1) in
  let x := Z.lor x (Z.shiftr x 2) in
  let x := Z.lor x (Z.shiftr x 4) in
  let x := Z.lor x (Z.shiftr x 8) in
  let x := Z.lor x (Z.shiftr x 16) in
  let x := if intSize =? 64 then Z.lor x (Z.shiftr x 32) else x in
  x +! 1.

Definition min (a b : Z) : Z := if a <? b then a else b.
Definition max (a b : Z) : Z := if a >? b then a else b.
End Helpers.
Abbreviation abs := Helpers.abs.

(** ** Data (lines 39 to 139) *)
Record Options := mkOptions {
  Stripes : Z;
  CheapUpdateChooser : bool;
  PerPUpdateChooser : bool;
  UseCachedGate : bool;
  CacheInterval : Z;
  CacheSlack : Z;
  GroupCount : Z;
  GroupSlack : Z;
  FastPathGuard : Z;
  HierarchicalGroups : Z
}.

(** [Options{}], the zero value. *)
Definition zero_options : Options := mkOptions 0 false false false 0 0 0 0 0 0.

Record Config := mkConfig {
  nstripes : Z;             (** [len(v.stripes)] *)
  mask : Z;
  cheapUpdateChooser : bool;
  perPUpdateChooser : bool;
  useCachedGate : bool;
  cacheInterval : Z;
  cacheSlack : Z;
  fastPathGuard : Z;
  groupCount : Z;
  groupStride : Z;
  hGroups : Z;
  hStride : Z;
  hasStopCh : bool          (** [v.stopCh != nil] *)
}.

Record Mem := mkMem {
  scalar : Z;
  committedOffset : Z;
  stripes : list Z;
  chooser : Z;
  rr : Z;
  approxNet : Z;
  cachedNet : Z;
  cachedAt : Z;
  groupRR : Z;
  hGroupSum : list Z;
  closeOnce : bool;         (** the [sync.Once] has fired *)
  stopClosed : bool         (** [stopCh] is closed *)
}.

Record VSA := mkVSA { conf : Config; mem : Mem }.

(** ** Atomic actions *)
Definition set_scalar x m := mkMem x (committedOffset m) (stripes m) (chooser m) (rr m)
  (approxNet m) (cachedNet m) (cachedAt m) (groupRR m) (hGroupSum m) (closeOnce m) (stopClosed m).
Definition set_committedOffset x m := mkMem (scalar m) x (stripes m) (chooser m) (rr m)
  (approxNet m) (cachedNet m) (cachedAt m) (groupRR m) (hGroupSum m) (closeOnce m) (stopClosed m).
Definition set_stripes x m := mkMem (scalar m) (committedOffset m) x (chooser m) (rr m)
  (approxNet m) (cachedNet m) (cachedAt m) (groupRR m) (hGroupSum m) (closeOnce m) (stopClosed m).
Definition set_chooser x m := mkMem (scalar m) (committedOffset m) (stripes m) x (rr m)
  (approxNet m) (cachedNet m) (cachedAt m) (groupRR m) (hGroupSum m) (closeOnce m) (stopClosed m).
Definition set_rr x m := mkMem (scalar m) (committedOffset m) (stripes m) (chooser m) x
  (approxNet m) (cachedNet m) (cachedAt m) (groupRR m) (hGroupSum m) (closeOnce m) (stopClosed m).
Definition set_approxNet x m := mkMem (scalar m) (committedOffset m) (stripes m) (chooser m) (rr m)
  x (cachedNet m) (cachedAt m) (groupRR m) (hGroupSum m) (closeOnce m) (stopClosed m).
Definition set_cachedNet x m := mkMem (scalar m) (committedOffset m) (stripes m) (chooser m) (rr m)
  (approxNet m) x (cachedAt m) (groupRR m) (hGroupSum m) (closeOnce m) (stopClosed m).
Definition set_cachedAt x m := mkMem (scalar m) (committedOffset m) (stripes m) (chooser m) (rr m)
  (approxNet m) (cachedNet m) x (groupRR m) (hGroupSum m) (closeOnce m) (stopClosed m).
Definition set_groupRR x m := mkMem (scalar m) (committedOffset m) (stripes m) (chooser m) (rr m)
  (approxNet m) (cachedNet m) (cachedAt m) x (hGroupSum m) (closeOnce m) (stopClosed m).
Definition set_hGroupSum x m := mkMem (scalar m) (committedOffset m) (stripes m) (chooser m) (rr m)
  (approxNet m) (cachedNet m) (cachedAt m) (groupRR m) x (closeOnce m) (stopClosed m).
Definition set_closed o s m := mkMem (scalar m) (committedOffset m) (stripes m) (chooser m) (rr m)
  (approxNet m) (cachedNet m) (cachedAt m) (groupRR m) (hGroupSum m) o s.

(** [x.Load()], [x.Store(z)] and [x.Add(d)], which returns the new value. *)
Definition load (get : Mem -> Z) : M Mem Z := Act (fun m => Some (m, get m)) Ret.
Definition store (set : Z -> Mem -> Mem) (z : Z) : M Mem Z :=
  Act (fun m => Some (set z m, z)) Ret.
Definition add (get : Mem -> Z) (set : Z -> Mem -> Mem) (d : Z) : M Mem Z :=
  Act (fun m => let z := get m +! d in Some (set z m, z)) Ret.

(** The same on an element of a slice; a bad index panics. *)
Definition load_at (get : Mem -> list Z) (i : Z) : M Mem Z :=
  Act (fun m => match idx_get (get m) i with Some x => Some (m, x) | None => None end) Ret.
Definition add_at (get : Mem -> list Z) (set : list Z -> Mem -> Mem) (i d : Z) : M Mem Z :=
  Act (fun m =>
    match idx_get (get m) i with
    | Some x => Some (set (<[Z.to_nat i := x +! d]> (get m)) m, x +! d)
    | None => None
    end) Ret.

(** [x++] on a plain [uint64] field, returning the value before. *)
Definition post_inc (get : Mem -> Z) (set : Z -> Mem -> Mem) : M Mem Z :=
  Act (fun m => Some (set (u64 (get m + 1)) m, get m)) Ret.

(** [v.chooser.Add(1)] on the [atomic.Uint64]. *)
Definition chooser_Add1 : M Mem Z :=
  Act (fun m => let z := u64 (chooser m + 1) in Some (set_chooser z m, z)) Ret.

(** [a / b] and [a % b] on [int] panic when [b] is zero. *)
Definition go_div (a b : Z) : M Mem Z :=
  if b =? 0 then Act (fun _ => None) Ret else Ret (quot64 a b).
Definition go_rem (a b : Z) : M Mem Z :=
  if b =? 0 then Act (fun _ => None) Ret else Ret (rem64 a b).

(** [for i := start; i < start+n; i++ { sum += load(i) }] *)
Fixpoint sum_range (ld : Z -> M Mem Z) (i : Z) (n : nat) (sum : Z) : M Mem Z :=
  match n with
  | O => mret sum
  | S n => x ← ld i; sum_range ld (i + 1) n (sum +! x)
  end.

(** ** Construction (lines 141 to 204) *)
Definition clamp_stripes (n : Z) : Z :=
  Helpers.nextPow2 (Helpers.max 8 (Helpers.min 64 n)).

(** [gomaxprocs] is [runtime.GOMAXPROCS(0)].  The aggregator goroutine that the
    source starts when [UseCachedGate] is set is [runAggregator] below. *)
Definition NewWithOptions (gomaxprocs initialScalar : Z) (opts : Options) : VSA :=
  let s := if Stripes opts >? 0 then clamp_stripes (Stripes opts)
           else clamp_stripes gomaxprocs in
  let interval :=
    if UseCachedGate opts then
      if CacheInterval opts <=? 0 then 100000 else CacheInterval opts
    else 0 in
  let slack := if UseCachedGate opts then CacheSlack opts else 0 in
  let '(gcount, gstride, slack) :=
    if GroupCount opts >? 1 then
      let g := if GroupCount opts >? s then s else GroupCount opts in
      (Helpers.max 1 g, Helpers.max 1 (quot64 (s +! g -! 1) g),
       slack +! GroupSlack opts)
    else (0, 0, slack) in
  let guard := if FastPathGuard opts >? 0 then FastPathGuard opts else 0 in
  let '(h, hstride) :=
    if HierarchicalGroups opts >? 1 then
      let h := if HierarchicalGroups opts >? s then s else HierarchicalGroups opts in
      (h, Helpers.max 1 (quot64 (s +! h -! 1) h))
    else (0, 0) in
  mkVSA
    {| nstripes := s; mask := s -! 1;
       cheapUpdateChooser := CheapUpdateChooser opts;
       perPUpdateChooser := PerPUpdateChooser opts;
       useCachedGate := UseCachedGate opts;
       cacheInterval := interval; cacheSlack := slack; fastPathGuard := guard;
       groupCount := gcount; groupStride := gstride;
       hGroups := h; hStride := hstride;
       hasStopCh := UseCachedGate opts |}
    {| scalar := initialScalar; committedOffset := 0;
       stripes := replicate (Z.to_nat s) 0; chooser := 0; rr := 0;
       approxNet := 0; cachedNet := 0; cachedAt := 0; groupRR := 0;
       hGroupSum := replicate (Z.to_nat h) 0;
       closeOnce := false; stopClosed := false |}.

Definition New (gomaxprocs initialScalar : Z) : VSA :=
  NewWithOptions gomaxprocs initialScalar zero_options.

(** ** Stripe choosers (lines 227 to 263) *)

(** What the run-time system answers to one call: the generator [prngPool.Get]
    returned ([None] is [nil]), the two readings of the clock the call may make,
    and the processor id of [runtime_procPin]. *)
Record ChooserEnv := mkChooserEnv {
  pool_get : option Z;
  now_create : Z;
  now_next : Z;
  pid : Z
}.

(** The result, and the generator's new [x]. *)
Definition rng64_next (now x : Z) : Z * Z :=
  let x := if x =? 0 then u64_of_int now else x in
  let x := Z.lxor x (Z.shiftr x 12) in
  let x := Z.lxor x (u64 (Z.shiftl x 25)) in
  let x := Z.lxor x (Z.shiftr x 27) in
  (u64 (x * 2685821657736338717), x).

Definition chooseIdxForUpdate (c : Config) (e : ChooserEnv) : M Mem Z :=
  if cheapUpdateChooser c then
    let r := match pool_get e with
             | None => u64_of_int (now_create e)
             | Some x => x
             end in
    let '(x, _) := rng64_next (now_next e) r in
    mret (Z.land (int_of_u64 x) (mask c))
  else if perPUpdateChooser c then
    mret (Z.land (pid e) (mask c))
  else
    x ← chooser_Add1;
    mret (Z.land (int_of_u64 x) (mask c)).

(** The statements [Update], [TryConsume] (twice) and [TryRefund] share: add [d]
    to stripe [idx], to its group's sum, and to the approximate net. *)
Definition stripe_update (c : Config) (idx d : Z) : M Mem unit :=
  _ ← add_at stripes set_stripes idx d;
  _ ← (if hGroups c >? 0 then
         g ← go_div idx (hStride c);
         add_at hGroupSum set_hGroupSum g d
       else mret 0);
  _ ← add approxNet set_approxNet d;
  mret tt.

(** ** Operations (lines 206 to 434) *)
Definition Update (c : Config) (e : ChooserEnv) (value : Z) : M Mem unit :=
  idx ← chooseIdxForUpdate c e;
  stripe_update c idx value.

Definition sum_stripes (c : Config) : M Mem Z :=
  if hGroups c >? 0 then sum_range (load_at hGroupSum) 0 (Z.to_nat (hGroups c)) 0
  else sum_range (load_at stripes) 0 (Z.to_nat (nstripes c)) 0.

Definition currentVector (c : Config) : M Mem Z :=
  sum ← sum_stripes c;
  off ← load committedOffset;
  mret (sum -! off).

Definition Available (c : Config) : M Mem Z :=
  s ← load scalar;
  net ← currentVector c;
  mret (s -! abs net).

Definition State (c : Config) : M Mem (Z * Z) :=
  s ← load scalar;
  net ← currentVector c;
  mret (s, net).

Definition CheckCommit (c : Config) (threshold : Z) : M Mem (bool * Z) :=
  net ← currentVector c;
  mret (if abs net >=? threshold then (true, net) else (false, 0)).

(** The delta [Commit] derives under the lock from the current net. *)
Definition commit_delta (net committedVector : Z) : Z :=
  let mag := abs committedVector in
  let mag := if mag >? abs net then abs net else mag in
  if net >? 0 then mag else neg64 mag.

Definition Commit_locked (c : Config) (committedVector : Z) : M Mem unit :=
  net ← currentVector c;
  if net =? 0 then mret tt
  else
    let delta := commit_delta net committedVector in
    _ ← add scalar set_scalar (neg64 (abs delta));
    _ ← add committedOffset set_committedOffset delta;
    _ ← add approxNet set_approxNet (neg64 delta);
    mret tt.

Definition Commit (c : Config) (committedVector : Z) : M Mem unit :=
  if committedVector =? 0 then mret tt
  else with_lock (Commit_locked c committedVector).

(** The admission test under the lock: does the gate let [n] pass? *)
Definition exact_gate (c : Config) (n : Z) : M Mem bool :=
  s ← load scalar;
  net ← currentVector c;
  mret (negb (s -! abs net <? n)).

Definition cached_gate (c : Config) (n : Z) : M Mem bool :=
  s ← load scalar;
  net ← load cachedNet;
  mret (negb (s -! abs net -! cacheSlack c <? n)).

Definition grouped_gate (c : Config) (n : Z) : M Mem bool :=
  grr ← post_inc groupRR set_groupRR;
  start ← go_rem (int_of_u64 grr *! groupStride c) (nstripes c);
  let e := start +! groupStride c in
  let e := if e >? nstripes c then nstripes c else e in
  partial ← sum_range (load_at stripes) start (Z.to_nat (e - start)) 0;
  est ← go_div (partial *! nstripes c) (e -! start);
  off ← load committedOffset;
  let netEst := est -! off in
  s ← load scalar;
  if s -! abs netEst -! cacheSlack c <? n then exact_gate c n else mret true.

Definition gate (c : Config) (n : Z) : M Mem bool :=
  if useCachedGate c then cached_gate c n
  else if groupCount c >? 1 then grouped_gate c n
  else exact_gate c n.

(** The lock-free fast path: reserve when far from the limit. *)
Definition fast_path (c : Config) (n : Z) : M Mem bool :=
  s ← load scalar;
  approx ← load approxNet;
  if s -! abs approx >=? n +! fastPathGuard c then
    x ← chooser_Add1;
    _ ← stripe_update c (Z.land (int_of_u64 x) (mask c)) n;
    mret true
  else mret false.

Definition TryConsume_locked (c : Config) (n : Z) : M Mem bool :=
  ok ← gate c n;
  if ok : bool then
    r ← post_inc rr set_rr;
    _ ← stripe_update c (Z.land (int_of_u64 r) (mask c)) n;
    mret true
  else mret false.

Definition TryConsume (c : Config) (n : Z) : M Mem bool :=
  if n <=? 0 then mret false
  else
    fast ← (if fastPathGuard c >? 0 then fast_path c n else mret false);
    if fast : bool then mret true else with_lock (TryConsume_locked c n).

Definition TryRefund_locked (c : Config) (n : Z) : M Mem bool :=
  net ← currentVector c;
  if net <=? 0 then mret false
  else
    let n := if n >? net then net else n in
    r ← post_inc rr set_rr;
    _ ← stripe_update c (Z.land (int_of_u64 r) (mask c)) (neg64 n);
    mret true.

Definition TryRefund (c : Config) (n : Z) : M Mem bool :=
  if n <=? 0 then mret false
  else with_lock (TryRefund_locked c n).

(** ** Background aggregator and [Close] (lines 436 to 461, 503 to 510) *)
Definition aggregator_tick (c : Config) (now : Z) : M Mem unit :=
  sum ← sum_stripes c;
  off ← load committedOffset;
  _ ← store set_cachedNet (sum -! off);
  _ ← store set_cachedAt now;
  mret tt.

(** What the [select] of the loop receives, in order. *)
Inductive AggEvent :=
| Tick (now : Z)
| Stopped.

Fixpoint runAggregator (c : Config) (evs : list AggEvent) : M Mem unit :=
  match evs with
  | [] => mret tt
  | Tick now :: evs => _ ← aggregator_tick c now; runAggregator c evs
  | Stopped :: _ => mret tt
  end.

(** Closing a closed channel panics. *)
Definition Close (c : Config) : M Mem unit :=
  Act (fun m =>
    if closeOnce m then Some (m, 0)
    else if hasStopCh c then
      if stopClosed m then None else Some (set_closed true true m, 0)
    else Some (set_closed true (stopClosed m) m, 0))
  (fun _ => Ret tt).

(** ** Two corners of the arithmetic, computed *)

(** The excluded amount is real: committing [MinInt64] when three of ten
    units are pending raises what is available from 7 to 13, because
    [abs MinInt64] is negative and so escapes the clamp to the pending net. *)
Theorem commit_MinInt64_breaks_availability :
  let c := conf (New 4 10) in
  snd <$> exec (_ ← TryConsume c 3; a ← Available c; _ ← Commit c MinInt64; a' ← Available c;
                mret (a, a')) (mem (New 4 10)) = Some (7, 13).
Proof. vm_compute. reflexivity. Qed.

(** The fast path's test overflows: an amount whose sum with the guard
    leaves [int64] is admitted whatever the budget, where the exact gate
    denies it. *)
Theorem fast_path_overflow_admits :
  let fast := NewWithOptions 4 5 (mkOptions 8 false false false 0 0 0 0 1 0) in
  let slow := New 4 5 in
  snd <$> exec (TryConsume (conf fast) MaxInt64) (mem fast) = Some true /\
  snd <$> exec (TryConsume (conf slow) MaxInt64) (mem slow) = Some false.
Proof. vm_compute. split; reflexivity. Qed.

