(* ===== verification/VsaInv.v ===== *)
(** * The accumulator's invariant, and what every operation does to it

    [wf] is the invariant of an accumulator built by [NewWithOptions]; [net] its
    effective vector.  The file gives the result of each operation as a function
    of [scalar], [net] and, for the cached gate, [cachedNet]: which stripe was
    chosen, whether group sums are kept and how often single stripes have
    overflowed is no longer visible. *)
From S2P Require Import Prelude Machine Vsa.

Definition net (m : Mem) : Z := wrap64 (Zsum (stripes m) - committedOffset m).

Record wf_conf (c : Config) : Prop := {
  wfc_stripes : 8 <= nstripes c <= 64;
  wfc_mask : mask c = nstripes c - 1;
  wfc_pow2 : exists k, 0 <= k /\ nstripes c = 2 ^ k;
  wfc_hgroups : 0 <= hGroups c <= nstripes c;
  wfc_hstride : 0 < hGroups c -> 1 <= hStride c /\ mask c / hStride c < hGroups c;
  wfc_group : 1 < groupCount c -> 1 <= groupStride c <= nstripes c;
  wfc_guard : 0 <= fastPathGuard c
}.

Record wf (c : Config) (m : Mem) : Prop := {
  wf_c :> wf_conf c;
  wf_len : Z.of_nat (length (stripes m)) = nstripes c;
  wf_hlen : Z.of_nat (length (hGroupSum m)) = hGroups c;
  wf_hsum : 0 < hGroups c -> Zsum (hGroupSum m) ≡ₘ Zsum (stripes m);
  wf_approx : approxNet m = net m;
  wf_scalar : in64 (scalar m);
  wf_once : stopClosed m = true -> closeOnce m = true
}.

(** ** Helpers of the source *)
Lemma abs_in a : in64 (abs a) \/ abs a = a.
Proof. unfold Helpers.abs. case_Z; [left; auto with go|by right]. Qed.

Lemma abs_eq a : in64 a -> a <> MinInt64 -> abs a = Z.abs a.
Proof.
  unfold MinInt64, Helpers.abs. intros Ha Hne. case_Z; [|lia].
  unfold neg64. rewrite wrap64_id; unfold in64 in *; lia.
Qed.

Lemma abs_MinInt64 : abs MinInt64 = MinInt64.
Proof. reflexivity. Qed.

Lemma net_in m : in64 (net m).
Proof. apply wrap64_in. Qed.
#[export] Hint Resolve net_in : go.

Lemma land_mask c x : wf_conf c -> 0 <= Z.land x (mask c) < nstripes c.
Proof.
  intros H. destruct (wfc_pow2 c H) as (k & Hk & Heq).
  rewrite (wfc_mask c H), Heq.
  replace (2 ^ k - 1) with (Z.ones k) by (rewrite Z.ones_equiv; lia).
  rewrite Z.land_ones by done. apply Z.mod_pos_bound. lia.
Qed.

(** ** Reading the vector *)
Lemma exec_sum_range get (m : Mem) n i acc :
  0 <= i -> i + Z.of_nat n <= Z.of_nat (length (get m)) -> in64 acc ->
  exec (sum_range (load_at get) i n acc) m =
  Some (m, wrap64 (acc + Zsum (take n (drop (Z.to_nat i) (get m))))).
Proof.
  revert i acc. induction n as [|n IH]; intros i acc Hi Hn Hacc; cbn [sum_range].
  - cbn. by rewrite Z.add_0_r, wrap64_id.
  - destruct (idx_get_Some (get m) i) as [x Hx]; [lia|].
    rewrite exec_bind. cbn [exec load_at]. rewrite Hx.
    rewrite IH by (auto with go; lia).
    apply idx_get_lookup in Hx as [_ Hx].
    rewrite (drop_S (get m) x (Z.to_nat i) Hx). cbn [take]. rewrite Zsum_cons.
    replace (Z.to_nat (i + 1)) with (S (Z.to_nat i)) by lia.
    do 2 f_equal. apply wrap64_unique. eqm_solve.
Qed.

Lemma exec_sum_all get (m : Mem) n :
  n = Z.of_nat (length (get m)) ->
  exec (sum_range (load_at get) 0 (Z.to_nat n) 0) m = Some (m, wrap64 (Zsum (get m))).
Proof.
  intros ->. rewrite exec_sum_range by (unfold in64; lia).
  rewrite Nat2Z.id. change (Z.to_nat 0) with 0%nat. by rewrite drop_0, firstn_all.
Qed.

Lemma exec_sum_stripes c m :
  wf c m -> exec (sum_stripes c) m = Some (m, wrap64 (Zsum (stripes m))).
Proof.
  intros H. unfold sum_stripes. case_Z; case_Z.
  - rewrite exec_sum_all by (symmetry; apply (wf_hlen _ _ H)).
    do 2 f_equal. apply wrap64_unique, (wf_hsum _ _ H). done.
  - apply exec_sum_all. symmetry. apply (wf_len _ _ H).
Qed.

Lemma exec_currentVector c m : wf c m -> exec (currentVector c) m = Some (m, net m).
Proof.
  intros H. unfold currentVector. rewrite exec_bind, exec_sum_stripes by done. cbn.
  do 2 f_equal. apply wrap64_unique. eqm_solve.
Qed.

Definition avail (m : Mem) : Z := scalar m -! abs (net m).

Lemma exec_Available c m : wf c m -> exec (Available c) m = Some (m, avail m).
Proof. intros H. cbn. by rewrite exec_bind, exec_currentVector. Qed.

Lemma exec_State c m : wf c m -> exec (State c) m = Some (m, (scalar m, net m)).
Proof. intros H. cbn. by rewrite exec_bind, exec_currentVector. Qed.

(** ** Writing a stripe *)

(** What [stripe_update] leaves alone. *)
Record frame (m m' : Mem) : Prop := {
  fr_scalar : scalar m' = scalar m;
  fr_off : committedOffset m' = committedOffset m;
  fr_cached : cachedNet m' = cachedNet m;
  fr_grr : groupRR m' = groupRR m
}.

Lemma net_set_stripe m m' i x d :
  stripes m !! i = Some x -> stripes m' = <[i := x +! d]> (stripes m) ->
  committedOffset m' = committedOffset m -> net m' = net m +! d.
Proof.
  intros Hx Hs Ho. unfold net. rewrite Hs, Ho, (Zsum_insert _ _ _ _ Hx).
  apply wrap64_unique. eqm_solve.
Qed.

Lemma exec_group_add c m idx d :
  wf_conf c -> Z.of_nat (length (hGroupSum m)) = hGroups c -> 0 <= idx < nstripes c ->
  exists l z,
    exec (if hGroups c >? 0 then
            g ← go_div idx (hStride c); add_at hGroupSum set_hGroupSum g d
          else mret 0) m = Some (set_hGroupSum l m, z) /\
    length l = length (hGroupSum m) /\
    (0 < hGroups c -> Zsum l ≡ₘ Zsum (hGroupSum m) + d).
Proof.
  intros H Hlen Hidx. rewrite Z.gtb_ltb. case_Z.
  2: { exists (hGroupSum m), 0. split_and!; [by destruct m|done|lia]. }
  destruct (wfc_hstride c H ltac:(done)) as [Hs Hg].
  assert (Hq : idx / hStride c < hGroups c).
  { eapply Z.le_lt_trans; [|exact Hg]. apply Z.div_le_mono; [lia|].
    rewrite (wfc_mask c H). lia. }
  assert (0 <= idx / hStride c) by (apply Z.div_pos; lia).
  assert (Hquot : quot64 idx (hStride c) = idx / hStride c).
  { unfold quot64. rewrite Z.quot_div_nonneg by lia. apply wrap64_id.
    pose proof (wfc_hgroups c H). pose proof (wfc_stripes c H). unfold in64. lia. }
  destruct (idx_get_Some (hGroupSum m) (idx / hStride c)) as [x Hx]; [lia|].
  unfold go_div. case_Z; [lia|]. cbn. rewrite Hquot, Hx.
  apply idx_get_lookup in Hx as [_ Hx].
  eexists _, _. split_and!; [done|by rewrite length_insert|].
  intros _. rewrite (Zsum_insert _ _ _ _ Hx). eqm_solve.
Qed.

Lemma exec_stripe_update c m idx d :
  wf c m -> 0 <= idx < nstripes c ->
  exists m', exec (stripe_update c idx d) m = Some (m', tt) /\
    wf c m' /\ net m' = net m +! d /\ frame m m'.
Proof.
  intros H Hidx.
  destruct (idx_get_Some (stripes m) idx) as [x Hx]; [by rewrite (wf_len _ _ H)|].
  pose proof (idx_get_lookup _ _ _ Hx) as [_ Hlk].
  set (m1 := set_stripes (<[Z.to_nat idx := x +! d]> (stripes m)) m).
  destruct (exec_group_add c m1 idx d (wf_c _ _ H) (wf_hlen _ _ H) Hidx)
    as (l & z & He & Hl & Hs).
  unfold stripe_update. rewrite exec_bind. cbn [exec add_at]. rewrite Hx. fold m1.
  rewrite exec_bind, He. cbn. eexists. split; [done|].
  assert (Hnet : forall m', stripes m' = stripes m1 -> committedOffset m' = committedOffset m ->
      net m' = net m +! d) by (intros; by eapply net_set_stripe).
  split_and!; [split; cbn|by apply Hnet|by split].
  - apply H.
  - rewrite length_insert. apply H.
  - rewrite Hl. apply H.
  - intros Hh. rewrite (Hs Hh), (Zsum_insert _ _ _ _ Hlk). cbn.
    rewrite (wf_hsum _ _ H Hh). eqm_solve.
  - rewrite (wf_approx _ _ H). symmetry. by apply Hnet.
  - apply H.
  - apply H.
Qed.

(** The fields the invariant is about; the cursors and the cache are free. *)
Definition core (m : Mem) :=
  (scalar m, committedOffset m, stripes m, approxNet m, hGroupSum m, closeOnce m, stopClosed m).

Lemma wf_core c m m' : core m' = core m -> wf c m -> wf c m'.
Proof.
  unfold core, net. intros [= H1 H2 H3 H4 H5 H6 H7] [].
  split; unfold net in *; by rewrite ?H1, ?H2, ?H3, ?H4, ?H5, ?H6, ?H7.
Qed.

Lemma net_core m m' : core m' = core m -> net m' = net m.
Proof. unfold core, net. by intros [= _ -> -> _ _ _ _]. Qed.

Lemma exec_chooseIdx c e m :
  wf_conf c ->
  exists m' idx, exec (chooseIdxForUpdate c e) m = Some (m', idx) /\
    0 <= idx < nstripes c /\ core m' = core m /\ frame m m'.
Proof.
  intros H. unfold chooseIdxForUpdate.
  destruct (cheapUpdateChooser c), (perPUpdateChooser c);
    try (destruct (rng64_next _ _)); cbn;
    (eexists _, _; split; [done|]; split; [by apply land_mask|]; split; [done|by split]).
Qed.

Lemma exec_Update c e m d :
  wf c m -> exists m', exec (Update c e d) m = Some (m', tt) /\
    wf c m' /\ net m' = net m +! d /\ frame m m'.
Proof.
  intros H. destruct (exec_chooseIdx c e m (wf_c _ _ H)) as (m1 & idx & He & Hi & Hc & Hf).
  destruct (exec_stripe_update c m1 idx d) as (m' & He' & Hwf & Hn & Hf');
    [by eapply wf_core|done|].
  exists m'. unfold Update. rewrite exec_bind, He, He'.
  split_and!; [done|done|by rewrite Hn, (net_core _ _ Hc)|].
  destruct Hf, Hf'. split; congruence.
Qed.

(** ** Reserving and refunding under the lock *)
Lemma exec_reserve c m (d : Z) :
  wf c m ->
  exists m', exec (r ← post_inc rr set_rr;
                   _ ← stripe_update c (Z.land (int_of_u64 r) (mask c)) d; mret true) m =
             Some (m', true) /\ wf c m' /\ net m' = net m +! d /\ frame m m'.
Proof.
  intros H. cbn [mbind M_bind post_inc exec].
  set (m1 := set_rr _ m).
  destruct (exec_stripe_update c m1 (Z.land (int_of_u64 (rr m)) (mask c)) d)
    as (m' & He & Hwf & Hn & Hf); [by apply (wf_core c m)|by apply land_mask, H|].
  exists m'. rewrite exec_bind, He. split_and!; [done..|by destruct Hf; split].
Qed.

Lemma exec_TryRefund c m n :
  wf c m -> in64 n ->
  exists m', exec (TryRefund c n) m = Some (m', (0 <? n) && (0 <? net m)) /\ wf c m' /\
    scalar m' = scalar m /\ groupRR m' = groupRR m /\
    net m' = (if (0 <? n) && (0 <? net m) then net m - Z.min n (net m) else net m).
Proof.
  intros H Hn. unfold TryRefund. pose proof (net_in m) as Hin.
  destruct (Z.leb_spec n 0), (Z.ltb_spec 0 n); try lia; cbn [andb]; [by exists m|].
  rewrite exec_with_lock. unfold TryRefund_locked. rewrite exec_bind, exec_currentVector by done.
  destruct (Z.leb_spec (net m) 0), (Z.ltb_spec 0 (net m)); try lia; [by exists m|].
  edestruct (exec_reserve c m) as (m' & He & Hwf & Hnet & Hf); [done|].
  exists m'. rewrite He. split_and!; [done|done|apply Hf|apply Hf|].
  rewrite Hnet. rewrite Z.gtb_ltb. case_Z; unfold in64 in *; unwrap; lia.
Qed.

(** ** Commit *)
Lemma commit_delta_spec v x :
  in64 v -> in64 x -> x <> MinInt64 -> v <> 0 ->
  let d := commit_delta v x in
  in64 d /\ in64 (v - d) /\ abs v ≡ₘ abs (v - d) + abs d /\
  (v <> MinInt64 -> d = Z.sgn v * Z.min (Z.abs x) (Z.abs v)).
Proof.
  intros Hv Hx Hne Hv0. unfold commit_delta. rewrite !Z.gtb_ltb.
  rewrite (abs_eq x) by done.
  destruct (decide (v = MinInt64)) as [->|Hvne].
  - rewrite abs_MinInt64. unfold MinInt64 in *.
    rewrite (proj2 (Z.ltb_lt (- H64) (Z.abs x))), (proj2 (Z.ltb_ge 0 (- H64))) by lia.
    change (neg64 (- H64)) with (- H64). change (abs (- H64)) with (- H64).
    split_and!; unfold in64; try lia; cbn. exists 0. reflexivity.
  - rewrite (abs_eq v) by done. unfold MinInt64 in *.
    assert (Hd : (if 0 <? v then if Z.abs v <? Z.abs x then Z.abs v else Z.abs x
             else neg64 (if Z.abs v <? Z.abs x then Z.abs v else Z.abs x)) =
             Z.sgn v * Z.min (Z.abs x) (Z.abs v)).
    { unfold in64 in *. repeat case_Z; unwrap; lia. }
    rewrite Hd. assert (in64 (Z.sgn v * Z.min (Z.abs x) (Z.abs v))) by (unfold in64 in *; lia).
    assert (in64 (v - Z.sgn v * Z.min (Z.abs x) (Z.abs v))) by (unfold in64 in *; lia).
    split_and!; try done.
    rewrite !abs_eq by (try done; unfold in64, MinInt64 in *; lia).
    exists 0. unfold in64 in *. lia.
Qed.

Lemma exec_Commit c m v :
  wf c m -> in64 v ->
  exists m', exec (Commit c v) m = Some (m', tt) /\ wf c m' /\ groupRR m' = groupRR m /\
    scalar m' = (if (v =? 0) || (net m =? 0) then scalar m
                 else scalar m -! abs (commit_delta (net m) v)) /\
    net m' = (if (v =? 0) || (net m =? 0) then net m
              else net m -! commit_delta (net m) v).
Proof.
  intros H Hv. unfold Commit. case_Z; cbn [orb]; [by exists m|].
  rewrite exec_with_lock. unfold Commit_locked. rewrite exec_bind, exec_currentVector by done.
  case_Z; [by exists m|]. set (d := commit_delta (net m) v). cbn [mbind M_bind add exec].
  eexists. split; [done|].
  assert (Hnet : forall m', stripes m' = stripes m ->
    committedOffset m' = committedOffset m +! d -> net m' = net m -! d).
  { intros m' Hs Ho. unfold net. rewrite Hs, Ho. apply wrap64_unique. eqm_solve. }
  split_and!; [split; cbn|done|cbn|by apply Hnet].
  - apply H.
  - apply H.
  - apply H.
  - apply H.
  - rewrite (wf_approx _ _ H). symmetry. rewrite Hnet by done. apply wrap64_unique. eqm_solve.
  - auto with go.
  - apply H.
  - apply wrap64_unique. eqm_solve.
Qed.

(** ** Gates and [TryConsume] *)
Lemma exec_exact_gate c m n :
  wf c m -> exec (exact_gate c n) m = Some (m, negb (avail m <? n)).
Proof. intros H. cbn. by rewrite exec_bind, exec_currentVector. Qed.

Lemma exec_cached_gate c m n :
  exec (cached_gate c n) m =
  Some (m, negb (scalar m -! abs (cachedNet m) -! cacheSlack c <? n)).
Proof. done. Qed.

(** The grouped scan reads a non-empty window of stripes as long as the
    round-robin product has not left [int]. *)
Definition scan_ok (c : Config) (m : Mem) : Prop :=
  1 < groupCount c -> 0 <= groupRR m /\ groupRR m * groupStride c < H64.

Lemma exec_grouped_gate c m n :
  wf c m -> 1 < groupCount c -> 0 <= groupRR m -> groupRR m * groupStride c < H64 ->
  exists b, exec (grouped_gate c n) m = Some (set_groupRR (u64 (groupRR m + 1)) m, b).
Proof.
  intros H Hg H0 Hb. pose proof (wfc_group c H Hg). pose proof (wfc_stripes c H).
  unfold grouped_gate. cbn [mbind M_bind post_inc exec].
  set (m1 := set_groupRR _ m). assert (Hwf1 : wf c m1) by (by apply (wf_core c m)).
  assert (Hi : int_of_u64 (groupRR m) *! groupStride c = groupRR m * groupStride c).
  { unfold int_of_u64. rewrite wrap64_id by (unfold in64; nia).
    apply wrap64_id. unfold in64. nia. }
  rewrite Hi. set (start := rem64 (groupRR m * groupStride c) (nstripes c)).
  assert (0 <= start < nstripes c) by (apply Z.rem_bound_pos; nia).
  unfold go_rem. case_Z; [lia|]. cbn [mbind M_bind exec].
  fold start.
  assert (Ha : start +! groupStride c = start + groupStride c)
    by (apply wrap64_id; unfold in64; lia).
  rewrite Ha.
  set (e := if start + groupStride c >? nstripes c then nstripes c else start + groupStride c).
  assert (start < e <= nstripes c) by (subst e; rewrite Z.gtb_ltb; case_Z; lia).
  rewrite exec_bind, (exec_sum_range stripes m1 (Z.to_nat (e - start)));
    [|lia|rewrite (wf_len _ _ Hwf1); lia|unfold in64; lia].
  assert (Hd : e -! start = e - start) by (apply wrap64_id; unfold in64; lia).
  rewrite Hd. unfold go_div. case_Z; [lia|]. cbn [mbind M_bind exec load].
  case_Z; [|by eexists]. rewrite exec_exact_gate by done. by eexists.
Qed.

Lemma exec_gate c m n :
  wf c m -> scan_ok c m ->
  exists m' b, exec (gate c n) m = Some (m', b) /\ core m' = core m /\
    cachedNet m' = cachedNet m /\
    (groupRR m' = groupRR m \/ groupRR m' = u64 (groupRR m + 1)).
Proof.
  intros H Hs. unfold gate. destruct (useCachedGate c).
  - rewrite exec_cached_gate. eexists _, _. split_and!; [done..|by left].
  - rewrite Z.gtb_ltb. case_Z.
    + destruct (Hs ltac:(done)) as [Hg0 Hb].
      destruct (exec_grouped_gate c m n) as [b Hb']; [done..|].
      eexists _, b. rewrite Hb'. split_and!; [done..|by right].
    + rewrite exec_exact_gate by done. eexists _, _. split_and!; [done..|by left].
Qed.

Lemma exec_fast_path c m n :
  wf c m ->
  let b := avail m >=? n +! fastPathGuard c in
  exists m', exec (fast_path c n) m = Some (m', b) /\ wf c m' /\ scalar m' = scalar m /\
    net m' = (if b then net m +! n else net m) /\ cachedNet m' = cachedNet m /\
    groupRR m' = groupRR m /\ (b = false -> m' = m).
Proof.
  intros H b. unfold fast_path. cbn [mbind M_bind load exec].
  rewrite (wf_approx _ _ H). fold (avail m). fold b. destruct b; [|by exists m].
  cbn [mbind M_bind chooser_Add1 exec].
  destruct (exec_stripe_update c (set_chooser (u64 (chooser m + 1)) m)
    (Z.land (int_of_u64 (u64 (chooser m + 1))) (mask c)) n) as (m' & He & Hwf & Hn & Hf);
    [by apply (wf_core c m)|by apply land_mask, H|].
  exists m'. rewrite exec_bind, He. destruct Hf. by split_and!.
Qed.

(** Whatever the gate, an admission adds exactly [n] to the vector and a denial
    changes neither the scalar nor the vector. *)
Lemma exec_TryConsume c m n :
  wf c m -> scan_ok c m ->
  exists m' b, exec (TryConsume c n) m = Some (m', b) /\ wf c m' /\ scalar m' = scalar m /\
    net m' = (if b then net m +! n else net m) /\ (b = true -> 0 < n) /\
    cachedNet m' = cachedNet m /\
    (groupRR m' = groupRR m \/ groupRR m' = u64 (groupRR m + 1)).
Proof.
  intros H Hs. unfold TryConsume. case_Z.
  { exists m, false. split_and!; try done. by left. }
  rewrite exec_bind.
  assert (Hfast : exists m1 b1,
    exec (if fastPathGuard c >? 0 then fast_path c n else mret false) m = Some (m1, b1) /\
    wf c m1 /\ scalar m1 = scalar m /\ net m1 = (if b1 then net m +! n else net m) /\
    cachedNet m1 = cachedNet m /\ groupRR m1 = groupRR m).
  { destruct (fastPathGuard c >? 0); [|by exists m, false].
    destruct (exec_fast_path c m n H) as (m1 & ? & ? & ? & ? & ? & ? & _). by eexists _, _. }
  destruct Hfast as (m1 & b1 & -> & Hwf1 & Hsc1 & Hn1 & Hc1 & Hg1).
  destruct b1; [exists m1, true; split_and!; try done; by left|].
  rewrite exec_with_lock. unfold TryConsume_locked. rewrite exec_bind.
  destruct (exec_gate c m1 n) as (m2 & b & -> & Hcore & Hc2 & Hg2);
    [done|unfold scan_ok; by rewrite Hg1|].
  assert (Hwf2 : wf c m2) by (by eapply wf_core).
  assert (Hn2 : net m2 = net m) by (by rewrite (net_core _ _ Hcore)).
  assert (Hs2 : scalar m2 = scalar m) by (unfold core in Hcore; congruence).
  destruct b; [|exists m2, false; split_and!; try done; congruence].
  destruct (exec_reserve c m2 n Hwf2) as (m3 & He & Hwf3 & Hn3 & Hf).
  exists m3, true. destruct Hf. rewrite He. split_and!; congruence || lia.
Qed.

(** ** [nextPow2] *)

(** The top [k] bits of [y], from its highest one [h] down, are set. *)
Definition filled (h k y : Z) : Prop :=
  forall i, 0 <= i -> (h - k < i <= h -> Z.testbit y i = true) /\ (h < i -> Z.testbit y i = false).

Lemma filled_log2 y : 0 < y -> filled (Z.log2 y) 1 y.
Proof.
  intros Hy i Hi. split; intros H.
  - replace i with (Z.log2 y) by lia. by apply Z.bit_log2.
  - by apply Z.bits_above_log2; lia.
Qed.

Lemma filled_smear h k y : 0 < k -> filled h k y -> filled h (2 * k) (Z.lor y (Z.shiftr y k)).
Proof.
  intros Hk Hf i Hi. rewrite Z.lor_spec, Z.shiftr_spec by done.
  destruct (Hf i Hi) as [Ht Hz], (Hf (i + k) ltac:(lia)) as [Ht' Hz'].
  split; intros H.
  - destruct (decide (h - k < i)); [rewrite Ht by lia; done|].
    rewrite Ht' by lia. by rewrite orb_true_r.
  - by rewrite Hz, Hz' by lia.
Qed.

Lemma filled_ones h k y : 0 <= h < k -> filled h k y -> y = Z.ones (h + 1).
Proof.
  intros Hh Hf. apply Z.bits_inj'. intros i Hi. destruct (Hf i Hi) as [Ht Hz].
  rewrite Z.testbit_ones_nonneg by lia. case_Z; [apply Ht; lia|apply Hz; lia].
Qed.

Lemma nextPow2_log2_up x : 1 <= x <= 2 ^ 62 -> Helpers.nextPow2 x = 2 ^ Z.log2_up x.
Proof.
  intros Hx. unfold Helpers.nextPow2. case_Z; [by replace x with 1 by lia|].
  change (Helpers.intSize =? 64) with true. cbn match.
  replace (x -! 1) with (x - 1) by (symmetry; apply wrap64_id; unfold in64; lia).
  rewrite Z.log2_up_eqn by lia. replace (Z.pred x) with (x - 1) by lia.
  set (h := Z.log2 (x - 1)).
  assert (0 <= h <= 61).
  { split; [apply Z.log2_nonneg|]. apply Z.lt_succ_r, Z.log2_lt_pow2; lia. }
  pose proof (filled_log2 (x - 1) ltac:(lia)) as Hf. fold h in Hf.
  apply (filled_smear h 1), (filled_smear h 2), (filled_smear h 4), (filled_smear h 8),
    (filled_smear h 16), (filled_smear h 32), (filled_ones h 64) in Hf; [|lia..].
  cbv zeta. rewrite Hf, Z.ones_equiv.
  assert (2 ^ (h + 1) <= 2 ^ 62) by (apply Z.pow_le_mono_r; lia).
  unfold add64. rewrite wrap64_id by (unfold in64; lia). replace (Z.succ h) with (h + 1) by lia. lia.
Qed.

(** ** Construction *)
Lemma clamp_stripes_ok n :
  8 <= clamp_stripes n <= 64 /\ exists k, 0 <= k /\ clamp_stripes n = 2 ^ k.
Proof.
  unfold clamp_stripes. set (x := Helpers.max 8 (Helpers.min 64 n)).
  assert (8 <= x <= 64).
  { subst x. unfold Helpers.max, Helpers.min. repeat case_Z; lia. }
  rewrite nextPow2_log2_up by lia. split; [|exists (Z.log2_up x); split; [apply Z.log2_up_nonneg|done]].
  change 8 with (2 ^ 3). change 64 with (2 ^ 6).
  split; (apply Z.pow_le_mono_r; [lia|]).
  - change 3 with (Z.log2_up 8). apply Z.log2_up_le_mono. lia.
  - change 6 with (Z.log2_up 64). apply Z.log2_up_le_mono. lia.
Qed.

(** [ceil(s / g)] computed as the source does, in range. *)
Lemma ceil_div_bounds s g :
  8 <= s <= 64 -> 1 <= g <= s ->
  let d := Helpers.max 1 (quot64 (s +! g -! 1) g) in
  1 <= d <= s /\ s <= d * g.
Proof.
  intros Hs Hg d.
  assert (Hq : quot64 (s +! g -! 1) g = (s + g - 1) / g).
  { unfold add64, sub64. rewrite (wrap64_id (s + g)), (wrap64_id (s + g - 1)) by (unfold in64; lia).
    unfold quot64. rewrite Z.quot_div_nonneg by lia. apply wrap64_id.
    assert ((s + g - 1) / g <= s + g - 1) by (apply Z.div_le_upper_bound; nia).
    assert (0 <= (s + g - 1) / g) by (apply Z.div_pos; lia). unfold in64. lia. }
  subst d. rewrite Hq. pose proof (Z.div_mod (s + g - 1) g ltac:(lia)) as Hdm.
  pose proof (Z.mod_pos_bound (s + g - 1) g ltac:(lia)).
  set (q := (s + g - 1) / g) in *. unfold Helpers.max. repeat case_Z; nia.
Qed.

Lemma NewWithOptions_wf gomaxprocs s0 opts :
  in64 s0 ->
  let v := NewWithOptions gomaxprocs s0 opts in
  wf (conf v) (mem v) /\ net (mem v) = 0 /\ scalar (mem v) = s0 /\ groupRR (mem v) = 0.
Proof.
  intros Hs0. unfold NewWithOptions.
  set (s := if Stripes opts >? 0 then _ else _).
  assert (Hs : 8 <= s <= 64 /\ exists k, 0 <= k /\ s = 2 ^ k)
    by (subst s; destruct (_ >? _); apply clamp_stripes_ok).
  clearbody s. destruct Hs as [Hs Hk].
  set (gs := if GroupCount opts >? 1 then _ else _).
  set (hs := if HierarchicalGroups opts >? 1 then _ else _).
  assert (Hgs : 1 < gs.1.1 -> 1 <= gs.1.2 <= s).
  { subst gs. rewrite !Z.gtb_ltb. case_Z; cbn [fst snd]; [|lia].
    intros _. apply ceil_div_bounds; [done|]. case_Z; lia. }
  assert (Hhs : 0 <= hs.1 <= s /\ (0 < hs.1 -> 1 <= hs.2 /\ (s - 1) / hs.2 < hs.1)).
  { subst hs. rewrite !Z.gtb_ltb. case_Z; cbn [fst snd]; [|lia].
    set (h := if s <? HierarchicalGroups opts then s else HierarchicalGroups opts).
    assert (1 <= h <= s) by (subst h; case_Z; lia).
    split; [lia|]. intros _. destruct (ceil_div_bounds s h Hs ltac:(done)) as [? Hc].
    cbn in *. split; [lia|]. apply Z.div_lt_upper_bound; nia. }
  destruct gs as [[gc gst] sl], hs as [h hst]. cbn [fst snd] in *. cbn.
  replace (s -! 1) with (s - 1) by (symmetry; apply wrap64_id; unfold in64; lia).
  split_and!; try done.
  - split; cbn; rewrite ?length_replicate; try done; try lia.
    + split; cbn; try done; try lia.
      rewrite Z.gtb_ltb. case_Z; lia.
    + intros _. rewrite !Zsum_replicate, !Z.mul_0_r. done.
    + unfold net. cbn. by rewrite Zsum_replicate, Z.mul_0_r.
  - unfold net. cbn. by rewrite Zsum_replicate, Z.mul_0_r.
Qed.

(** ** Aggregator and [Close] *)
Lemma exec_aggregator_tick c m now :
  wf c m -> exists m', exec (aggregator_tick c now) m = Some (m', tt) /\
    core m' = core m /\ cachedNet m' = net m /\ cachedAt m' = now /\ groupRR m' = groupRR m.
Proof.
  intros H. unfold aggregator_tick. rewrite exec_bind, exec_sum_stripes by done. cbn.
  eexists. split_and!; try done. apply wrap64_unique. eqm_solve.
Qed.

Lemma exec_Close c m :
  wf c m -> exists m', exec (Close c) m = Some (m', tt) /\ wf c m' /\ closeOnce m' = true /\
    (closeOnce m = true -> m' = m) /\ stopClosed m' = stopClosed m || (negb (closeOnce m) && hasStopCh c) /\
    scalar m' = scalar m /\ net m' = net m /\ groupRR m' = groupRR m.
Proof.
  intros H. pose proof (wf_once _ _ H) as Ho. cbn.
  destruct (closeOnce m) eqn:Hc.
  { exists m. split_and!; try done. by rewrite orb_false_r. }
  assert (Hs : stopClosed m = false) by (destruct (stopClosed m); naive_solver).
  rewrite Hs. destruct (hasStopCh c); eexists; split_and!; try done; destruct H; by split.
Qed.

(** ** Properties *)

(** C22: commit invariance.  In every configuration, and also when the counters
    have wrapped around, [Commit v] leaves the value [Available] returns
    unchanged, for every [int64] amount [v] but [MinInt64]. *)
Theorem commit_preserves_available c m v :
  wf c m -> in64 v -> v <> MinInt64 ->
  exists m', exec (Commit c v) m = Some (m', tt) /\ wf c m' /\
    snd <$> exec (Available c) m' = snd <$> exec (Available c) m.
Proof.
  intros H Hv Hne. destruct (exec_Commit c m v H Hv) as (m' & He & Hwf & _ & Hs & Hn).
  exists m'. split_and!; [done..|]. rewrite !exec_Available by done. cbn. f_equal.
  unfold avail. rewrite Hs, Hn.
  destruct (Z.eqb_spec v 0), (Z.eqb_spec (net m) 0); cbn [orb]; [done..|].
  destruct (commit_delta_spec (net m) v) as (Hd & Hsub & Habs & _); [auto with go..|].
  set (d := commit_delta (net m) v) in *.
  unfold sub64 at 3. rewrite (wrap64_id (net m - d)) by done.
  apply wrap64_unique. rewrite sub64_eqm, Habs.
  replace (scalar m - (abs (net m - d) + abs d)) with (scalar m - abs d - abs (net m - d)) by lia.
  reflexivity.
Qed.

Lemma commit_preserves_available_witness :
  let v := New 4 MinInt64 in
  exists m', exec (Commit (conf v) (-3)) (mem v) = Some (m', tt) /\ wf (conf v) m' /\
    snd <$> exec (Available (conf v)) m' = snd <$> exec (Available (conf v)) (mem v).
Proof.
  apply commit_preserves_available.
  - apply (NewWithOptions_wf 4 MinInt64 zero_options). unfold in64, MinInt64. lia.
  - unfold in64. lia.
  - discriminate.
Defined.

Definition is_pow2 (y : Z) : Prop := exists k, 0 <= k /\ y = 2 ^ k.

(** [nextPow2] returns the least power of two that is at least its argument,
    up to [2^62], the largest argument whose answer is an [int]. *)
Theorem nextPow2_least x :
  1 <= x <= 2 ^ 62 ->
  let y := Helpers.nextPow2 x in
  is_pow2 y /\ x <= y /\ forall k, 0 <= k -> x <= 2 ^ k -> y <= 2 ^ k.
Proof.
  intros Hx. cbv zeta. rewrite nextPow2_log2_up by done. split_and!.
  - exists (Z.log2_up x). split; [apply Z.log2_up_nonneg|done].
  - apply Z.log2_up_le_pow2; lia.
  - intros k Hk Hle. apply Z.pow_le_mono_r; [lia|]. by apply Z.log2_up_le_pow2; lia.
Qed.

Lemma nextPow2_least_witness :
  let y := Helpers.nextPow2 33 in
  is_pow2 y /\ 33 <= y /\ forall k, 0 <= k -> 33 <= 2 ^ k -> y <= 2 ^ k.
Proof. apply (nextPow2_least 33). lia. Defined.

