(* ===== verification/VsaSpec.v ===== *)
(** * What the accumulator promises, and that it keeps it

    [Spec] is the contract of [docs/invariants.md]: a pair of a budget [S] and a
    pending vector [V], with one transition per method.  [vsa_refines_spec] shows
    that the striped implementation runs as this pair when the gate is exact;
    the theorems after it state the documented invariants on the code, and, for
    the approximate gates, what holds instead. *)
From S2P Require Import Prelude Machine Vsa VsaInv.

(** ** The contract *)
Module Spec.
Record Balance := mkBalance { budget : Z; pending : Z }.

Definition available (a : Balance) : Z := budget a -! abs (pending a).

Definition update (d : Z) (a : Balance) : Balance := mkBalance (budget a) (pending a +! d).

Definition try_consume (n : Z) (a : Balance) : Balance * bool :=
  if (0 <? n) && (n <=? available a)
  then (mkBalance (budget a) (pending a +! n), true) else (a, false).

Definition try_refund (n : Z) (a : Balance) : Balance * bool :=
  if (0 <? n) && (0 <? pending a)
  then (mkBalance (budget a) (pending a - Z.min n (pending a)), true) else (a, false).

(** At most [|v|] units of the pending vector, in its own direction, move to
    the budget; the one magnitude [int64] cannot negate moves whole. *)
Definition commit_amount (v p : Z) : Z :=
  if p =? MinInt64 then p else Z.sgn p * Z.min (Z.abs v) (Z.abs p).

Definition commit (v : Z) (a : Balance) : Balance :=
  if (v =? 0) || (pending a =? 0) then a
  else let d := commit_amount v (pending a) in
       mkBalance (budget a -! abs d) (pending a - d).
End Spec.
Import Spec.

Definition abstraction (m : Mem) : Balance := mkBalance (scalar m) (net m).

(** ** Calls, and the two ways to run them *)
Inductive Op :=
| OpUpdate (e : ChooserEnv) (d : Z)
| OpTryConsume (n : Z)
| OpTryRefund (n : Z)
| OpCommit (v : Z)
| OpAvailable
| OpState
| OpCheckCommit (threshold : Z)
| OpTick (now : Z)
| OpClose.

Inductive Res :=
| RUnit
| RBool (b : bool)
| RInt (z : Z)
| RState (scalar vector : Z)
| RCheck (due : bool) (vector : Z).

Definition run_op (c : Config) (op : Op) : M Mem Res :=
  match op with
  | OpUpdate e d => _ ← Update c e d; mret RUnit
  | OpTryConsume n => b ← TryConsume c n; mret (RBool b)
  | OpTryRefund n => b ← TryRefund c n; mret (RBool b)
  | OpCommit v => _ ← Commit c v; mret RUnit
  | OpAvailable => a ← Available c; mret (RInt a)
  | OpState => r ← State c; mret (RState r.1 r.2)
  | OpCheckCommit t => r ← CheckCommit c t; mret (RCheck r.1 r.2)
  | OpTick now => _ ← aggregator_tick c now; mret RUnit
  | OpClose => _ ← Close c; mret RUnit
  end.

Fixpoint run_ops (c : Config) (ops : list Op) : M Mem (list Res) :=
  match ops with
  | [] => mret []
  | op :: ops => r ← run_op c op; rs ← run_ops c ops; mret (r :: rs)
  end.

Definition spec_op (op : Op) (a : Balance) : Balance * Res :=
  match op with
  | OpUpdate _ d => (update d a, RUnit)
  | OpTryConsume n => let '(a', b) := try_consume n a in (a', RBool b)
  | OpTryRefund n => let '(a', b) := try_refund n a in (a', RBool b)
  | OpCommit v => (commit v a, RUnit)
  | OpAvailable => (a, RInt (available a))
  | OpState => (a, RState (budget a) (pending a))
  | OpCheckCommit t =>
      (a, if t <=? abs (pending a) then RCheck true (pending a) else RCheck false 0)
  | OpTick _ | OpClose => (a, RUnit)
  end.

Fixpoint spec_ops (ops : list Op) (a : Balance) : Balance * list Res :=
  match ops with
  | [] => (a, [])
  | op :: ops =>
      let '(a1, r) := spec_op op a in
      let '(a2, rs) := spec_ops ops a1 in (a2, r :: rs)
  end.

(** Arguments the contract covers: [int64] values, except that a commit of
    [MinInt64] has no magnitude and an amount must stay in range when the fast
    path adds its guard. *)
Definition op_ok (c : Config) (op : Op) : Prop :=
  match op with
  | OpUpdate _ d => in64 d
  | OpTryConsume n => in64 n /\ in64 (n + fastPathGuard c)
  | OpTryRefund n => in64 n
  | OpCommit v => in64 v /\ v <> MinInt64
  | _ => True
  end.
#[export] Instance op_ok_dec c op : Decision (op_ok c op).
Proof. destruct op; cbn; apply _. Defined.

(** The default gate: neither cached nor grouped. *)
Definition exact_config (c : Config) : Prop :=
  useCachedGate c = false /\ groupCount c <= 1.

Lemma exact_gate_eq c n : exact_config c -> gate c n = exact_gate c n.
Proof.
  intros [Hu Hg]. unfold gate. rewrite Hu, Z.gtb_ltb.
  by rewrite (proj2 (Z.ltb_ge _ _) Hg).
Qed.

Lemma negb_ltb a n : negb (a <? n) = (n <=? a).
Proof. repeat case_Z; cbn; lia. Qed.

Lemma TryConsume_exact c m n :
  wf c m -> exact_config c -> in64 n -> in64 (n + fastPathGuard c) ->
  exists m' b, exec (TryConsume c n) m = Some (m', b) /\ wf c m' /\
    (abstraction m', b) = try_consume n (abstraction m).
Proof.
  intros H Hx Hn Hng. unfold TryConsume, try_consume.
  change (available (abstraction m)) with (avail m). cbn [budget pending abstraction]. pose proof (wfc_guard c H) as Hg0.
  destruct (Z.leb_spec n 0), (Z.ltb_spec 0 n); try lia; cbn [andb]; [by exists m, false|].
  assert (Hlocked : exists m' b, exec (TryConsume_locked c n) m = Some (m', b) /\ wf c m' /\
    (abstraction m', b) =
    (if n <=? avail m then (mkBalance (scalar m) (net m +! n), true) else (abstraction m, false))).
  { unfold TryConsume_locked. rewrite exact_gate_eq, exec_bind, exec_exact_gate, negb_ltb by done.
    destruct (n <=? avail m); [|by exists m, false].
    destruct (exec_reserve c m n H) as (m' & He & Hwf & Hnet & Hf). rewrite He.
    exists m', true. unfold abstraction. rewrite Hnet. destruct Hf. by rewrite fr_scalar. }
  rewrite exec_bind. destruct (fastPathGuard c >? 0).
  - destruct (exec_fast_path c m n H) as (m1 & He & Hwf & Hs & Hnet & _ & _ & Hsame).
    rewrite He. destruct (avail m >=? n +! fastPathGuard c) eqn:Hb.
    + exists m1, true. split_and!; [done|done|].
      revert Hb. unfold add64 at 1. rewrite (wrap64_id (n + _)) by done.
      rewrite Z.geb_leb. repeat case_Z; intros; try done; try lia.
      unfold abstraction. by rewrite Hs, Hnet.
    + rewrite exec_with_lock, (Hsame eq_refl). apply Hlocked.
  - cbn [exec mret M_ret]. rewrite exec_with_lock. apply Hlocked.
Qed.

Lemma Commit_spec c m v :
  wf c m -> in64 v -> v <> MinInt64 ->
  exists m', exec (Commit c v) m = Some (m', tt) /\ wf c m' /\
    abstraction m' = commit v (abstraction m).
Proof.
  intros H Hv Hne. destruct (exec_Commit c m v H Hv) as (m' & He & Hwf & _ & Hs & Hn).
  exists m'. split_and!; [done..|]. unfold abstraction, commit. cbn [budget pending].
  rewrite Hs, Hn. destruct (Z.eqb_spec v 0), (Z.eqb_spec (net m) 0); cbn [orb]; [done..|].
  destruct (commit_delta_spec (net m) v) as (Hd & Hsub & _ & Heq); [auto with go..|].
  assert (Hc : commit_delta (net m) v = commit_amount v (net m)).
  { unfold commit_amount. case_Z; [|by apply Heq].
    unfold commit_delta. rewrite e, abs_MinInt64, (abs_eq v) by done.
    unfold MinInt64. rewrite !Z.gtb_ltb. repeat case_Z; try lia. done. }
  rewrite <- Hc. f_equal. by apply wrap64_id.
Qed.

Lemma run_op_refines c m op :
  wf c m -> exact_config c -> op_ok c op ->
  exists m' r, exec (run_op c op) m = Some (m', r) /\ wf c m' /\
    spec_op op (abstraction m) = (abstraction m', r).
Proof.
  intros H Hx Hop. destruct op as [e d|n|n|v| | |t|now|]; cbn [run_op op_ok spec_op] in *;
    rewrite exec_bind.
  - destruct (exec_Update c e m d H) as (m' & -> & Hwf & Hn & Hf).
    eexists _, _. split_and!; [done..|]. unfold update, abstraction. destruct Hf. cbn.
    by rewrite fr_scalar, Hn.
  - destruct Hop, (TryConsume_exact c m n) as (m' & b & -> & Hwf & Heq); [done..|].
    eexists _, _. split_and!; [done..|]. by rewrite <- Heq.
  - destruct (exec_TryRefund c m n H Hop) as (m' & -> & Hwf & Hs & _ & Hn).
    eexists _, _. split_and!; [done..|]. unfold try_refund, abstraction. cbn [budget pending].
    rewrite Hs, Hn. by destruct (_ && _).
  - destruct Hop, (Commit_spec c m v) as (m' & -> & Hwf & Heq); [done..|].
    eexists _, _. split_and!; [done..|]. by rewrite Heq.
  - rewrite exec_Available by done. by eexists _, _.
  - rewrite exec_State by done. by eexists _, _.
  - unfold CheckCommit. rewrite exec_bind, exec_currentVector by done.
    eexists _, _. split_and!; [done..|]. cbn. rewrite Z.geb_leb. by case_Z.
  - destruct (exec_aggregator_tick c m now H) as (m' & -> & Hc & _).
    eexists _, _. split_and!; [done|by eapply wf_core|]. unfold abstraction.
    rewrite (net_core _ _ Hc). unfold core in Hc. congruence.
  - destruct (exec_Close c m H) as (m' & -> & Hwf & _ & _ & _ & Hs & Hn & _).
    eexists _, _. split_and!; [done..|]. unfold abstraction. by rewrite Hs, Hn.
Qed.

Lemma run_ops_refines c ops m :
  wf c m -> exact_config c -> Forall (op_ok c) ops ->
  exists m' rs, exec (run_ops c ops) m = Some (m', rs) /\ wf c m' /\
    spec_ops ops (abstraction m) = (abstraction m', rs).
Proof.
  revert m. induction ops as [|op ops IH]; intros m H Hx Hok; [by exists m, []|].
  inversion_clear Hok as [|?? Hop Hops]. cbn [run_ops spec_ops].
  destruct (run_op_refines c m op) as (m1 & r & He1 & Hwf1 & Hs1); [done..|].
  destruct (IH m1) as (m2 & rs & He2 & Hwf2 & Hs2); [done..|].
  exists m2, (r :: rs). rewrite exec_bind, He1, exec_bind, He2. split_and!; [done..|].
  by rewrite Hs1, Hs2.
Qed.

(** ** The ledger of a rate-limited key

    The service only consumes, refunds, commits and reads; it never calls
    [Update].  Then the vector stays between zero and the budget. *)
Definition service_op (op : Op) : Prop :=
  match op with OpUpdate _ _ => False | _ => True end.
#[export] Instance service_op_dec op : Decision (service_op op).
Proof. destruct op; cbn; apply _. Defined.

Definition in_budget (a : Balance) : Prop := 0 <= pending a <= budget a /\ budget a < H64.

(** Units a call admitted, and the most it can have given back. *)
Definition admitted_units (op : Op) (r : Res) : Z :=
  match op, r with OpTryConsume n, RBool true => n | _, _ => 0 end.
Definition refunded_units (op : Op) (r : Res) : Z :=
  match op, r with OpTryRefund n, RBool true => n | _, _ => 0 end.
Definition total (f : Op -> Res -> Z) (ops : list Op) (rs : list Res) : Z :=
  Zsum (zip_with f ops rs).

Definition unit_refund (op : Op) : Prop :=
  match op with OpTryRefund n => n = 1 | _ => True end.
#[export] Instance unit_refund_dec op : Decision (unit_refund op).
Proof. destruct op; cbn; apply _. Defined.

Lemma available_in_budget a : in_budget a -> available a = budget a - pending a.
Proof.
  unfold in_budget, available. intros [? ?].
  rewrite abs_eq by (unfold in64, MinInt64 in *; lia). unfold sub64.
  rewrite wrap64_id by (unfold in64; lia). lia.
Qed.

Lemma commit_amount_in_budget v p :
  0 <= p < H64 -> commit_amount v p = Z.min (Z.abs v) p.
Proof. intros. unfold commit_amount, MinInt64. case_Z; lia. Qed.

Lemma spec_op_ledger op a a' r :
  service_op op -> in_budget a -> spec_op op a = (a', r) ->
  in_budget a' /\ budget a' <= budget a /\
  let before := available a - admitted_units op r in
  before <= available a' <= before + refunded_units op r /\
  (unit_refund op -> available a' = before + refunded_units op r).
Proof.
  intros Hs Hb Hop. pose proof (available_in_budget a Hb) as Ha. unfold in_budget in Hb.
  assert (Hsame : a' = a -> in_budget a' /\ budget a' <= budget a /\ available a' = available a)
    by (intros ->; by split_and!).
  destruct op as [e d|n|n|v| | |t|now|]; cbn in Hs; [done|..];
    cbn [spec_op admitted_units refunded_units] in *.
  1: unfold try_consume in Hop. 2: unfold try_refund in Hop. 3: unfold commit in Hop.
  4-8: (injection Hop as <- <-; destruct (Hsame eq_refl) as (? & ? & ?); cbn; split_and!; done || lia).
  - destruct (Z.ltb_spec 0 n), (Z.leb_spec n (available a)); cbn in Hop; injection Hop as <- <-;
      try (destruct (Hsame eq_refl) as (? & ? & ?); split_and!; done || lia).
    assert (Hb' : in_budget (mkBalance (budget a) (pending a +! n))).
    { unfold in_budget; cbn. unfold add64. rewrite wrap64_id by (unfold in64; lia). lia. }
    rewrite (available_in_budget _ Hb'). split; [done|]. cbn [budget pending unit_refund] in *.
    unfold add64. rewrite wrap64_id by (unfold in64; lia). split_and!; done || lia.
  - destruct (Z.ltb_spec 0 n), (Z.ltb_spec 0 (pending a)); cbn in Hop; injection Hop as <- <-;
      try (destruct (Hsame eq_refl) as (? & ? & ?); split_and!; done || lia).
    assert (Hb' : in_budget (mkBalance (budget a) (pending a - Z.min n (pending a))))
      by (unfold in_budget; cbn; lia).
    rewrite (available_in_budget _ Hb'). cbn [budget pending unit_refund] in *. split_and!; done || lia.
  - destruct (Z.eqb_spec v 0), (Z.eqb_spec (pending a) 0); cbn in Hop; injection Hop as <- <-;
      try (destruct (Hsame eq_refl) as (? & ? & ?); split_and!; done || lia).
    rewrite commit_amount_in_budget by lia.
    set (d := Z.min (Z.abs v) (pending a)).
    assert (Hd : budget a -! abs d = budget a - d).
    { rewrite abs_eq by (unfold in64, MinInt64; lia). unfold sub64.
      rewrite wrap64_id by (unfold in64; lia). lia. }
    rewrite Hd. assert (Hb' : in_budget (mkBalance (budget a - d) (pending a - d)))
      by (unfold in_budget; cbn; lia).
    rewrite (available_in_budget _ Hb'). cbn [budget pending unit_refund] in *. split_and!; done || lia.
Qed.

Lemma spec_ops_ledger ops a a' rs :
  Forall service_op ops -> in_budget a -> spec_ops ops a = (a', rs) ->
  in_budget a' /\ budget a' <= budget a /\
  let before := available a - total admitted_units ops rs in
  before <= available a' <= before + total refunded_units ops rs /\
  (Forall unit_refund ops -> available a' = before + total refunded_units ops rs).
Proof.
  revert a rs. induction ops as [|op ops IH]; intros a rs Hs Hb Hrun; cbn [spec_ops] in Hrun.
  { injection Hrun as <- <-. unfold total. cbn [zip_with]. rewrite !Zsum_nil.
    split_and!; try done; lia. }
  destruct (spec_op op a) as [a1 r] eqn:H1, (spec_ops ops a1) as [a2 rs2] eqn:H2.
  injection Hrun as <- <-. inversion_clear Hs as [|?? Hop Hops].
  destruct (spec_op_ledger op a a1 r Hop Hb H1) as (Hb1 & Hle1 & Hr1 & He1).
  destruct (IH a1 rs2 Hops Hb1 H2) as (Hb2 & Hle2 & Hr2 & He2).
  unfold total in *. cbn [zip_with]. rewrite !Zsum_cons.
  split_and!; [done..|lia|lia|lia|].
  intros Hu. inversion_clear Hu. rewrite He2, He1 by done. lia.
Qed.

(** ** Properties *)

(** C5: the striped accumulator, built with any options that leave the gate exact
    (neither cached nor grouped), refines the two-number contract [Spec]: any sequence
    of calls within [op_ok] (amounts in [int64], for [Commit] not [MinInt64], and for
    [TryConsume] amount plus fast-path guard in [int64] too, since outside it the code
    leaves the contract) runs without panicking, returns what the contract returns, and
    ends in a memory whose (scalar, net vector) is the contract's state. *)
Theorem vsa_refines_spec gomaxprocs s0 opts ops :
  let v := NewWithOptions gomaxprocs s0 opts in
  in64 s0 -> exact_config (conf v) -> Forall (op_ok (conf v)) ops ->
  exists m' rs, exec (run_ops (conf v) ops) (mem v) = Some (m', rs) /\
    spec_ops ops (mkBalance s0 0) = (abstraction m', rs).
Proof.
  intros v Hs Hx Hok.
  destruct (NewWithOptions_wf gomaxprocs s0 opts Hs) as (Hwf & Hn & Hsc & _).
  destruct (run_ops_refines (conf v) ops (mem v)) as (m' & rs & He & _ & Ha); [done..|].
  exists m', rs. split; [done|]. rewrite <- Ha. unfold abstraction. fold v in Hn, Hsc.
  by rewrite Hn, Hsc.
Qed.

Definition demo_options : Options := mkOptions 16 false false false 0 0 0 0 3 5.
Definition demo_ops : list Op :=
  [OpTryConsume 4; OpUpdate (mkChooserEnv None 7 8 3) (-2); OpCheckCommit 2; OpCommit 1;
   OpTryRefund 9; OpTryConsume 8; OpTryConsume 7; OpAvailable; OpClose; OpState].

Lemma vsa_refines_spec_witness :
  let v := NewWithOptions 4 10 demo_options in
  exists m' rs, exec (run_ops (conf v) demo_ops) (mem v) = Some (m', rs) /\
    spec_ops demo_ops (mkBalance 10 0) = (abstraction m', rs).
Proof.
  apply (vsa_refines_spec 4 10 demo_options demo_ops).
  - unfold in64. lia.
  - split; [reflexivity|vm_compute; discriminate].
  - apply (bool_decide_unpack _). vm_compute. exact I.
Defined.

(** No over-admission.  However a rate-limited key is used (consume, refund,
    commit and read in any order and number, through the exact gate, with or
    without the fast path), its vector stays within [0, S], the budget never
    grows, and the units still available are the initial budget minus the units
    admitted, plus at most the units refunded; with refunds of one unit, as the
    service issues them, exactly plus the number of refunds. *)
Theorem admissions_within_budget gomaxprocs s0 opts ops :
  let v := NewWithOptions gomaxprocs s0 opts in
  0 <= s0 < H64 -> exact_config (conf v) ->
  Forall (op_ok (conf v)) ops -> Forall service_op ops ->
  exists m' rs, exec (run_ops (conf v) ops) (mem v) = Some (m', rs) /\
    0 <= net m' <= scalar m' /\ scalar m' <= s0 /\
    let left := s0 - total admitted_units ops rs in
    left <= avail m' <= left + total refunded_units ops rs /\ 0 <= avail m' /\
    (Forall unit_refund ops -> avail m' = left + total refunded_units ops rs).
Proof.
  intros v Hs Hx Hok Hserv.
  destruct (NewWithOptions_wf gomaxprocs s0 opts ltac:(unfold in64; lia)) as (Hwf & Hn & Hsc & _).
  fold v in Hwf, Hn, Hsc.
  destruct (run_ops_refines (conf v) ops (mem v)) as (m' & rs & He & _ & Ha); [done..|].
  assert (Hb : in_budget (abstraction (mem v))).
  { unfold in_budget, abstraction. cbn [budget pending]. rewrite Hn, Hsc. lia. }
  destruct (spec_ops_ledger ops _ _ _ Hserv Hb Ha) as (Hb' & Hle & Hr & Heq).
  pose proof (available_in_budget _ Hb) as Hav0. pose proof (available_in_budget _ Hb') as Hav.
  change (available (abstraction m')) with (avail m') in *.
  unfold in_budget, abstraction in *. cbn [budget pending] in *. rewrite Hn, Hsc in *.
  exists m', rs. split_and!; try done; try lia.
  intros Hu. rewrite (Heq Hu). lia.
Qed.

Lemma admissions_within_budget_witness :
  let ops := [OpTryConsume 3; OpTryConsume 1; OpTryRefund 1; OpCommit 2; OpTryConsume 2; OpTryConsume 1] in
  exists m' rs, exec (run_ops (conf (New 4 5)) ops) (mem (New 4 5)) = Some (m', rs) /\
    0 <= net m' <= scalar m' /\ scalar m' <= 5 /\
    let left := 5 - total admitted_units ops rs in
    left <= avail m' <= left + total refunded_units ops rs /\ 0 <= avail m' /\
    (Forall unit_refund ops -> avail m' = left + total refunded_units ops rs).
Proof.
  intros ops. apply (admissions_within_budget 4 5 zero_options ops).
  - lia.
  - split; [reflexivity|vm_compute; discriminate].
  - apply (bool_decide_unpack _). vm_compute. exact I.
  - apply (bool_decide_unpack _). vm_compute. exact I.
Defined.

(** ** Panics *)

(** The arguments of a call are [int64] values. *)
Definition op_in64 (op : Op) : Prop :=
  match op with
  | OpUpdate _ d => in64 d
  | OpTryConsume n | OpTryRefund n => in64 n
  | OpCommit v => in64 v
  | _ => True
  end.
#[export] Instance op_in64_dec op : Decision (op_in64 op).
Proof. destruct op; cbn; apply _. Defined.

Lemma run_op_safe c m op :
  wf c m -> scan_ok c m -> op_in64 op ->
  exists m' r, exec (run_op c op) m = Some (m', r) /\ wf c m' /\
    (groupRR m' = groupRR m \/ groupRR m' = u64 (groupRR m + 1)).
Proof.
  intros H Hs Hop. destruct op as [e d|n|n|v| | |t|now|]; cbn [run_op op_in64] in *;
    rewrite exec_bind.
  - destruct (exec_Update c e m d H) as (m' & -> & Hwf & _ & Hf).
    eexists _, _. split_and!; [done..|left; apply Hf].
  - destruct (exec_TryConsume c m n H Hs) as (m' & b & -> & Hwf & _ & _ & _ & _ & Hg).
    by eexists _, _.
  - destruct (exec_TryRefund c m n H Hop) as (m' & -> & Hwf & _ & Hg & _).
    eexists _, _. split_and!; [done..|by left].
  - destruct (exec_Commit c m v H Hop) as (m' & -> & Hwf & Hg & _).
    eexists _, _. split_and!; [done..|by left].
  - rewrite exec_Available by done. eexists _, _. split_and!; [done..|by left].
  - rewrite exec_State by done. eexists _, _. split_and!; [done..|by left].
  - unfold CheckCommit. rewrite exec_bind, exec_currentVector by done.
    eexists _, _. split_and!; [done..|by left].
  - destruct (exec_aggregator_tick c m now H) as (m' & -> & Hc & _ & _ & Hg).
    eexists _, _. split_and!; [done|by eapply wf_core|by left].
  - destruct (exec_Close c m H) as (m' & -> & Hwf & _ & _ & _ & _ & _ & Hg).
    eexists _, _. split_and!; [done..|by left].
Qed.

Lemma run_ops_safe c ops m :
  wf c m -> Forall op_in64 ops ->
  0 <= groupRR m -> groupRR m + Z.of_nat (length ops) < 2 ^ 56 ->
  exists m' rs, exec (run_ops c ops) m = Some (m', rs) /\ wf c m'.
Proof.
  revert m. induction ops as [|op ops IH]; intros m H Hok H0 Hb; [by exists m, []|].
  inversion_clear Hok as [|?? Hop Hops]. cbn [run_ops length] in *.
  assert (Hs : scan_ok c m).
  { intros Hg. split; [done|]. pose proof (wfc_group c H Hg). pose proof (wfc_stripes c H). nia. }
  destruct (run_op_safe c m op H Hs Hop) as (m1 & r & He1 & Hwf1 & Hg1).
  rewrite (u64_id (groupRR m + 1)) in Hg1 by (unfold inu64; lia).
  destruct (IH m1) as (m2 & rs & He2 & Hwf2); [done..|lia|lia|].
  exists m2, (r :: rs). by rewrite exec_bind, He1, exec_bind, He2.
Qed.

(** C32: no operation panics.  Whatever options an accumulator is built with (any
    stripe count, group counts, guards, slacks and choosers), no index leaves a
    slice, nothing is divided by zero and no closed channel is closed again,
    through any sequence of fewer than [2^56] calls with [int64] arguments; the
    invariant, group sums and approximate net included, holds at the end. *)
Theorem operations_never_panic gomaxprocs s0 opts ops :
  let v := NewWithOptions gomaxprocs s0 opts in
  in64 s0 -> Forall op_in64 ops -> Z.of_nat (length ops) < 2 ^ 56 ->
  exists m' rs, exec (run_ops (conf v) ops) (mem v) = Some (m', rs) /\ wf (conf v) m'.
Proof.
  intros v Hs Hok Hlen.
  destruct (NewWithOptions_wf gomaxprocs s0 opts Hs) as (Hwf & _ & _ & Hg).
  apply run_ops_safe; fold v in Hg; rewrite ?Hg; done || lia.
Qed.

Definition all_options : Options := mkOptions 33 true false true 0 1 3 2 4 5.

Lemma operations_never_panic_witness :
  let v := NewWithOptions 4 10 all_options in
  exists m' rs, exec (run_ops (conf v) demo_ops) (mem v) = Some (m', rs) /\ wf (conf v) m'.
Proof.
  apply (operations_never_panic 4 10 all_options demo_ops).
  - unfold in64. lia.
  - apply (bool_decide_unpack _). vm_compute. exact I.
  - vm_compute. reflexivity.
Defined.

(** ** The approximate gates

    [docs/invariants.md] says the cached and grouped gates never over-admit,
    because a slack and an exact fallback protect them.  The code has no fallback
    after the cached gate, and falls back after the grouped gate only to deny. *)
Lemma exec_TryConsume_cached c m n :
  wf c m -> useCachedGate c = true -> fastPathGuard c = 0 -> 0 < n ->
  n <= scalar m -! abs (cachedNet m) -! cacheSlack c ->
  exists m', exec (TryConsume c n) m = Some (m', true) /\ wf c m' /\
    scalar m' = scalar m /\ net m' = net m +! n /\ cachedNet m' = cachedNet m.
Proof.
  intros H Hu Hg Hn Hle. unfold TryConsume. rewrite Hg. case_Z; [lia|]. cbn [Z.gtb Z.compare].
  rewrite exec_bind. cbn [exec mret M_ret]. rewrite exec_with_lock.
  unfold TryConsume_locked, gate. rewrite Hu, exec_bind, exec_cached_gate, negb_ltb.
  rewrite (proj2 (Z.leb_le _ _) Hle).
  destruct (exec_reserve c m n H) as (m' & -> & Hwf & Hnet & Hf). destruct Hf. by exists m'.
Qed.

Lemma cached_gate_run c k m :
  wf c m -> useCachedGate c = true -> fastPathGuard c = 0 ->
  1 <= scalar m -! abs (cachedNet m) -! cacheSlack c ->
  exists m', exec (run_ops c (replicate k (OpTryConsume 1))) m =
    Some (m', replicate k (RBool true)) /\ wf c m' /\ scalar m' = scalar m /\
    net m' = wrap64 (net m + Z.of_nat k).
Proof.
  revert m. induction k as [|k IH]; intros m H Hu Hg Hle.
  { exists m. cbn. rewrite Z.add_0_r, wrap64_id by auto with go. by split_and!. }
  destruct (exec_TryConsume_cached c m 1) as (m1 & He & Hwf & Hs & Hn & Hc); [done..|].
  destruct (IH m1) as (m2 & He2 & Hwf2 & Hs2 & Hn2); [done..|by rewrite Hs, Hc|].
  exists m2. cbn [replicate run_ops run_op]. rewrite exec_bind, exec_bind, He. cbn [exec mret M_ret].
  rewrite exec_bind, He2. split_and!; [done..|congruence|].
  rewrite Hn2, Hn. apply wrap64_unique. eqm_norm.
  replace (Z.of_nat (S k)) with (1 + Z.of_nat k) by lia.
  by rewrite Z.add_assoc.
Qed.

(** With the cached gate, staleness does over-admit, whatever the slack: an
    accumulator whose slack leaves room for one unit admits every one of any
    number [k] of one-unit requests made before the first refresh, and ends with
    [s0 - k] available, below zero as soon as [k] exceeds the budget. *)
Theorem cached_gate_overadmits gomaxprocs s0 opts k :
  let v := NewWithOptions gomaxprocs s0 opts in
  0 <= s0 < H64 -> UseCachedGate opts = true -> FastPathGuard opts = 0 -> GroupCount opts <= 1 ->
  0 <= CacheSlack opts < s0 -> Z.of_nat k < H64 ->
  exists m', exec (run_ops (conf v) (replicate k (OpTryConsume 1))) (mem v) =
    Some (m', replicate k (RBool true)) /\
    snd <$> exec (Available (conf v)) m' = Some (s0 - Z.of_nat k).
Proof.
  intros v Hs Hu Hg Hgc Hsl Hk.
  destruct (NewWithOptions_wf gomaxprocs s0 opts ltac:(unfold in64; lia)) as (Hwf & Hn & Hsc & _).
  fold v in Hwf, Hn, Hsc.
  assert (Hc : useCachedGate (conf v) = true /\ fastPathGuard (conf v) = 0 /\
               cacheSlack (conf v) = CacheSlack opts /\ cachedNet (mem v) = 0).
  { subst v. unfold NewWithOptions. rewrite Hu, Hg, !Z.gtb_ltb.
    rewrite (proj2 (Z.ltb_ge 1 (GroupCount opts))) by done.
    by destruct (1 <? HierarchicalGroups opts). }
  destruct Hc as (Hc1 & Hc2 & Hc3 & Hc4).
  destruct (cached_gate_run (conf v) k (mem v)) as (m' & He & Hwf' & Hs' & Hn'); try done.
  { rewrite Hsc, Hc3, Hc4. change (abs 0) with 0. unwrap. lia. }
  exists m'. split; [done|]. rewrite exec_Available by done. cbn. f_equal. unfold avail.
  rewrite Hs', Hn', Hn, Hsc, Z.add_0_l, (wrap64_id (Z.of_nat k)) by (unfold in64; lia).
  rewrite abs_eq by (unfold in64, MinInt64; lia). unwrap. lia.
Qed.

Definition cached_options : Options := mkOptions 0 false false true 0 3 0 0 0 0.

Lemma cached_gate_overadmits_witness :
  let v := NewWithOptions 4 10 cached_options in
  exists m', exec (run_ops (conf v) (replicate 25 (OpTryConsume 1))) (mem v) =
    Some (m', replicate 25 (RBool true)) /\
    snd <$> exec (Available (conf v)) m' = Some (10 - Z.of_nat 25).
Proof. apply cached_gate_overadmits; done || (cbn; lia). Defined.

(** With the grouped gate one caller alone over-admits: two groups, a budget
    of one and two one-unit requests; the second scans the group the first did
    not write, estimates a net of zero, and passes. *)
Theorem grouped_gate_overadmits :
  let v := NewWithOptions 4 1 (mkOptions 8 false false false 0 0 2 0 0 0) in
  snd <$> exec (run_ops (conf v) [OpTryConsume 1; OpTryConsume 1; OpAvailable]) (mem v) =
  Some [RBool true; RBool true; RInt (-1)].
Proof. vm_compute. reflexivity. Qed.

(** Consuming against a negative vector gives availability back.  While
    updates have driven the net below zero, an admitted consumption of up to its
    magnitude raises [Available] by [n] (the documents say it lowers it by [n]
    whenever it succeeds). *)
Theorem consume_against_negative_net c m n :
  wf c m -> exact_config c -> 0 < n -> in64 (n + fastPathGuard c) ->
  in64 (scalar m + net m) -> n <= - net m -> n <= avail m -> net m <> MinInt64 ->
  exists m', exec (TryConsume c n) m = Some (m', true) /\
    snd <$> exec (Available c) m' = Some (wrap64 (avail m + n)).
Proof.
  intros H Hx Hn Hng Hin Hle Hav Hmin. pose proof (net_in m) as Hnet.
  pose proof (wfc_guard c H) as Hg0.
  destruct (TryConsume_exact c m n H Hx) as (m' & b & He & Hwf & Hb); [unfold in64 in *; lia|done|].
  unfold try_consume in Hb. change (available (abstraction m)) with (avail m) in Hb.
  rewrite (proj2 (Z.ltb_lt 0 n)), (proj2 (Z.leb_le n (avail m))) in Hb by lia.
  cbn in Hb. injection Hb as Hs' Hn' ->.
  exists m'. split; [done|]. rewrite exec_Available by done. cbn. f_equal.
  unfold avail. rewrite Hs', Hn'. unfold add64, MinInt64 in *.
  rewrite (wrap64_id (net m + n)) by (unfold in64 in *; lia).
  rewrite !abs_eq by (unfold in64, MinInt64 in *; lia).
  apply wrap64_unique. rewrite sub64_eqm.
  replace (scalar m - Z.abs (net m + n)) with (scalar m - Z.abs (net m) + n) by lia. reflexivity.
Qed.

Definition negative_net : Mem :=
  mkMem 10 0 [-5; 0; 0; 0; 0; 0; 0; 0] 1 0 (-5) 0 0 0 [] false false.

Lemma consume_against_negative_net_witness :
  exists m', exec (TryConsume (conf (New 4 10)) 2) negative_net = Some (m', true) /\
    snd <$> exec (Available (conf (New 4 10))) m' = Some (wrap64 (avail negative_net + 2)).
Proof.
  apply consume_against_negative_net.
  - split; [|reflexivity|reflexivity|done|reflexivity|unfold in64; cbn; lia|done].
    apply (NewWithOptions_wf 4 10 zero_options). unfold in64. lia.
  - split; [reflexivity|vm_compute; discriminate].
  - lia.
  - apply (bool_decide_unpack _). vm_compute. exact I.
  - apply (bool_decide_unpack _). vm_compute. exact I.
  - vm_compute. discriminate.
  - vm_compute. discriminate.
  - vm_compute. discriminate.
Defined.
