(* ===== verification/VsaConc.v ===== *)
(** * The accumulator under concurrency

    Goroutines call the methods of one accumulator; their atomic actions
    interleave arbitrarily ([Machine.step]).  With the exact gate and no fast
    path, every write of [TryConsume], [TryRefund] and [Commit] happens under
    [tryMu], so the ledger of [VsaSpec] holds of every interleaving; with the
    fast path it does not. *)
From S2P Require Import Prelude Machine Vsa VsaInv VsaSpec.
Import Spec.

(** Calls that write only under the mutex, or do not write. *)
Definition locked_op (op : Op) : Prop :=
  match op with OpUpdate _ _ | OpTick _ | OpClose => False | _ => True end.
#[export] Instance locked_op_dec op : Decision (locked_op op).
Proof. destruct op; cbn; apply _. Defined.

Lemma locked_service op : locked_op op -> service_op op.
Proof. by destruct op. Qed.

(** ** The methods keep the locking discipline *)
Lemma unlocked_sum_range ld i n acc :
  (forall j, unlocked (ld j)) -> unlocked (sum_range ld i n acc).
Proof.
  intros Hld. revert i acc. induction n as [|n IH]; intros i acc; cbn [sum_range]; [done|].
  apply unlocked_bind; [apply Hld|]. intros z. apply IH.
Qed.

Lemma unlocked_currentVector c : unlocked (currentVector c).
Proof.
  unfold currentVector, sum_stripes. apply unlocked_bind; [|done].
  destruct (_ >? _); by apply unlocked_sum_range.
Qed.

Lemma unlocked_stripe_update c i d : unlocked (stripe_update c i d).
Proof.
  unfold stripe_update. apply unlocked_bind; [done|]. intros _.
  apply unlocked_bind; [|done]. destruct (_ >? _); [|done].
  apply unlocked_bind; [|done]. unfold go_div. by case_Z.
Qed.

Lemma unlocked_exact_gate c n : unlocked (exact_gate c n).
Proof. intros z. apply unlocked_bind; [apply unlocked_currentVector|done]. Qed.

Lemma unlocked_TryConsume_locked c n : exact_config c -> unlocked (TryConsume_locked c n).
Proof.
  intros Hx. unfold TryConsume_locked. rewrite exact_gate_eq by done.
  apply unlocked_bind; [apply unlocked_exact_gate|]. intros []; [|done].
  intros z. apply unlocked_bind; [apply unlocked_stripe_update|done].
Qed.

Lemma unlocked_TryRefund_locked c n : unlocked (TryRefund_locked c n).
Proof.
  apply unlocked_bind; [apply unlocked_currentVector|]. intros z. case_Z; [done|].
  intros r. apply unlocked_bind; [apply unlocked_stripe_update|done].
Qed.

Lemma unlocked_Commit_locked c v : unlocked (Commit_locked c v).
Proof. apply unlocked_bind; [apply unlocked_currentVector|]. intros z. by case_Z. Qed.
#[export] Hint Resolve unlocked_TryConsume_locked unlocked_TryRefund_locked
  unlocked_Commit_locked : go.

(** A method that only reads: no write, no mutex, and no panic on a memory of
    the accumulator's shape. *)
Fixpoint reads {A} (c : Config) (p : M Mem A) : Prop :=
  match p with
  | Ret _ => True
  | Act f k => read_only f /\ (forall m, wf c m -> is_Some (f m)) /\ forall z, reads c (k z)
  | Lock _ | Unlock _ => False
  end.

Lemma reads_outside {A} c (p : M Mem A) : reads c p -> outside p.
Proof.
  induction p as [a|f k IH|k IH|k IH]; cbn; [done| |done..].
  intros (Hro & _ & Hk). split; [done|]. intros z. by apply IH.
Qed.

Lemma reads_bind {A B} c (p : M Mem A) (g : A -> M Mem B) :
  reads c p -> (forall a, reads c (g a)) -> reads c (p ≫= g).
Proof.
  intros Hp Hg. induction p as [a|f k IH|k IH|k IH]; cbn in *; [apply Hg| |done..].
  destruct Hp as (Hro & Hs & Hk). split_and!; [done..|]. intros z. by apply IH.
Qed.

Lemma reads_load c get : reads c (load get).
Proof. split_and!; [by intros m m' z [= <- _]|by eexists|done]. Qed.

Lemma reads_load_at c get i :
  (forall m, wf c m -> 0 <= i < Z.of_nat (length (get m))) -> reads c (load_at get i).
Proof.
  intros Hi. split_and!; [|intros m Hm|done].
  - intros m m' z. cbn. destruct (idx_get _ _); [by intros [= -> _]|done].
  - destruct (idx_get_Some (get m) i (Hi m Hm)) as [x Hx]. rewrite Hx. by eexists.
Qed.

Lemma reads_sum_range c get len n i acc :
  (forall m, wf c m -> Z.of_nat (length (get m)) = len) ->
  0 <= i -> i + Z.of_nat n <= len -> reads c (sum_range (load_at get) i n acc).
Proof.
  intros Hlen. revert i acc. induction n as [|n IH]; intros i acc Hi Hn; [done|].
  apply reads_bind.
  - apply reads_load_at. intros m Hm. rewrite (Hlen m Hm). lia.
  - intros z. apply IH; lia.
Qed.

Lemma reads_currentVector c : wf_conf c -> reads c (currentVector c).
Proof.
  intros Hc. pose proof (wfc_hgroups c Hc). pose proof (wfc_stripes c Hc).
  unfold currentVector, sum_stripes. apply reads_bind.
  - destruct (_ >? _).
    + apply (reads_sum_range c _ (hGroups c)); [intros m' Hm'; apply (wf_hlen _ _ Hm')|lia..].
    + apply (reads_sum_range c _ (nstripes c)); [intros m' Hm'; apply (wf_len _ _ Hm')|lia..].
  - intros sum. apply reads_bind; [apply reads_load|done].
Qed.

Definition reading_op (op : Op) : Prop :=
  match op with OpAvailable | OpState | OpCheckCommit _ => True | _ => False end.
#[export] Instance reading_op_dec op : Decision (reading_op op).
Proof. destruct op; cbn; apply _. Defined.

Lemma reading_op_reads c op : wf_conf c -> reading_op op -> reads c (run_op c op).
Proof.
  intros Hc Hop. destruct op; cbn in Hop; try done; cbn [run_op]; (apply reads_bind; [|done]).
  - apply reads_bind; [apply reads_load|intros s]. by apply reads_bind; [apply reads_currentVector|].
  - apply reads_bind; [apply reads_load|intros s]. by apply reads_bind; [apply reads_currentVector|].
  - by apply reads_bind; [apply reads_currentVector|].
Qed.

(** A call is one locked section, or returns at once, or only reads. *)
Lemma run_op_shape c op :
  wf_conf c -> exact_config c -> fastPathGuard c = 0 -> locked_op op ->
  (exists X (body : M Mem X) (g : X -> Res), unlocked body /\
     run_op c op = (r ← with_lock body; Ret (g r))) \/
  (exists r, run_op c op = Ret r /\ admitted_units op r = 0 /\ refunded_units op r = 0) \/
  (reading_op op /\ reads c (run_op c op)).
Proof.
  intros Hc Hx Hg Hop. destruct op as [e d|n|n|v| | |t|now|]; cbn in Hop; try done; cbn [run_op].
  - unfold TryConsume. rewrite Hg. case_Z; [right; left; by eexists|left].
    exists bool, (TryConsume_locked c n), RBool. auto with go.
  - unfold TryRefund. case_Z; [right; left; by eexists|left].
    exists bool, (TryRefund_locked c n), RBool. auto with go.
  - unfold Commit. case_Z; [right; left; by eexists|left].
    exists unit, (Commit_locked c v), (fun _ => RUnit). auto with go.
  - right; right. split; [done|]. by apply (reading_op_reads c OpAvailable).
  - right; right. split; [done|]. by apply (reading_op_reads c OpState).
  - right; right. split; [done|]. by apply (reading_op_reads c (OpCheckCommit _)).
Qed.

Lemma run_op_outside c op :
  wf_conf c -> exact_config c -> fastPathGuard c = 0 -> locked_op op -> outside (run_op c op).
Proof.
  intros Hc Hx Hg Hop.
  destruct (run_op_shape c op) as [(X & body & g & Hb & ->)|[(r & -> & _)|(_ & Hr)]]; [done..| | |].
  - apply outside_bind; [by apply outside_with_lock|done].
  - done.
  - by eapply reads_outside.
Qed.

Lemma spec_op_admitted op a a' r : spec_op op a = (a', r) -> 0 <= admitted_units op r.
Proof.
  destruct op as [e d|n|n|v| | |t|now|]; cbn [spec_op admitted_units]; try lia.
  unfold try_consume. destruct (Z.ltb_spec 0 n); cbn; [|by intros [= _ <-]].
  destruct (_ <=? _); intros [= _ <-]; lia.
Qed.

(** ** The ledger of a pool of calls *)
Section ledger.
Context (c : Config) (s0 : Z) (ops : list Op).
Hypothesis (Hc : wf_conf c) (Hx : exact_config c) (Hg : fastPathGuard c = 0).
Hypothesis (Hlocked : Forall locked_op ops) (Hok : Forall (op_ok c) ops).

Definition thread_ok (op : Op) (p : M Mem Res) : Prop :=
  p = run_op c op \/ (exists r, p = Ret r /\ 0 <= admitted_units op r) \/ (reading_op op /\ reads c p).

(** What the calls that have returned have admitted and refunded. *)
Definition settled (f : Op -> Res -> Z) (op : Op) (p : M Mem Res) : Z :=
  match p with Ret r => f op r | _ => 0 end.
Definition settled_total (f : Op -> Res -> Z) (p : list (M Mem Res)) : Z :=
  Zsum (zip_with (settled f) ops p).

Definition ledger (a : Mem * list (M Mem Res)) : Prop :=
  wf c a.1 /\ in_budget (abstraction a.1) /\ Forall2 thread_ok ops a.2 /\
  scalar a.1 <= s0 /\
  let left := s0 - settled_total admitted_units a.2 in
  left <= avail a.1 <= left + settled_total refunded_units a.2 /\
  (Forall unit_refund ops -> avail a.1 = left + settled_total refunded_units a.2).

Lemma settled_start op f :
  (f = admitted_units \/ f = refunded_units) -> locked_op op -> settled f op (run_op c op) = 0.
Proof using Hc Hx Hg.
  intros Hf Hop.
  destruct (run_op_shape c op) as [(X & body & g & Hb & ->)|[(r & -> & Ha & Hr)|(Ho & Hr)]];
    [done..| | |].
  - done.
  - by destruct Hf as [-> | ->].
  - destruct (run_op c op), op, Hf; subst; done.
Qed.

Lemma settled_update f p i op q q' :
  ops !! i = Some op -> p !! i = Some q ->
  settled_total f (<[i:=q']> p) =
  settled_total f p - settled f op q + settled f op q'.
Proof.
  intros Hop Hq. unfold settled_total. rewrite <- (list_insert_id ops i op) at 1 by done.
  rewrite <- insert_zip_with. apply Zsum_insert.
  rewrite lookup_zip_with, Hop. cbn. by rewrite Hq.
Qed.

Lemma ledger_thread a i q :
  ledger a -> a.2 !! i = Some q -> exists op, ops !! i = Some op /\ thread_ok op q /\
    locked_op op /\ op_ok c op.
Proof using Hlocked Hok.
  intros (_ & _ & Hth & _) Hi.
  destruct (Forall2_lookup_r _ _ _ _ _ Hth Hi) as (op & Hop & Ht).
  exists op. split_and!; [done..| |].
  - by eapply (proj1 (Forall_lookup _ _) Hlocked).
  - by eapply (proj1 (Forall_lookup _ _) Hok).
Qed.

Lemma ledger_read s p i f k z :
  ledger (s, p) -> p !! i = Some (Act f k) -> ledger (s, <[i:=k z]> p).
Proof using Hc Hx Hg Hlocked Hok.
  intros HL Hi. destruct (ledger_thread (s, p) i _ HL Hi) as (op & Hop & Ht & Hl & _).
  assert (Hr : reading_op op /\ reads c (Act f k)).
  { destruct Ht as [Ht|[(r & Hr & _)|?]]; [|done..].
    destruct (run_op_shape c op) as [(X & body & g & _ & Hb)|[(r & Hr & _)|?]];
      [done..| | |]; [by rewrite <- Ht in Hb|by rewrite <- Ht in Hr|by rewrite Ht]. }
  destruct Hr as [Hro (_ & _ & Hk)], HL as (Hwf & Hb & Hth & Hrest). cbn [fst snd] in *.
  assert (Hset : forall f', f' = admitted_units \/ f' = refunded_units ->
    settled_total f' (<[i:=k z]> p) = settled_total f' p).
  { intros f' Hf'. rewrite (settled_update f' p i op _ _ Hop Hi). cbn [settled].
    destruct (k z), op, Hf'; subst; cbn; done || lia. }
  unfold ledger. cbn [fst snd]. rewrite !Hset by auto. split_and!; try apply Hrest; try done.
  rewrite <- (list_insert_id ops i op) by done. apply Forall2_insert; [done|].
  right; right. by split.
Qed.

Lemma ledger_section_total a i k :
  ledger a -> a.2 !! i = Some (Lock k) ->
  exists op m' r, ops !! i = Some op /\ locked_op op /\ crit k a.1 = Some (m', Ret r) /\
    wf c m' /\ spec_op op (abstraction a.1) = (abstraction m', r).
Proof using Hc Hx Hg Hlocked Hok.
  intros HL Hi. destruct (ledger_thread a i _ HL Hi) as (op & Hop & Ht & Hl & Hopk).
  assert (Hk : run_op c op = Lock k).
  { destruct Ht as [<-|[(r & Hr & _)|[_ Hr]]]; done. }
  destruct HL as (Hwf & _).
  destruct (run_op_refines c a.1 op) as (m' & r & He & Hwf' & Hs); [done..|].
  destruct (run_op_shape c op) as [(X & body & g & Hb & Heq)|[(r' & Hr & _)|[_ Hr]]];
    [done..| | |]; [|by rewrite Hk in Hr|by rewrite Hk in Hr].
  rewrite Heq in Hk. cbn in Hk. injection Hk as Hk.
  pose proof (crit_section body g a.1 Hb) as Hcrit.
  rewrite Heq, exec_bind, exec_with_lock in He.
  destruct (exec body a.1) as [[m1 x]|] eqn:Hex; [|done]. cbn in He. injection He as <- <-.
  exists op, m1, (g x). rewrite <- Hk. by split_and!.
Qed.

Lemma ledger_section s p i k s' rest :
  ledger (s, p) -> p !! i = Some (Lock k) -> crit k s = Some (s', rest) ->
  ledger (s', <[i:=rest]> p).
Proof using Hc Hx Hg Hlocked Hok.
  intros HL Hi Hcrit.
  destruct (ledger_section_total (s, p) i k HL Hi) as (op & m' & r & Hop & Hl & Hcrit' & Hwf' & Hs).
  cbn [fst] in *. rewrite Hcrit in Hcrit'. injection Hcrit' as -> ->.
  destruct HL as (Hwf & Hb & Hth & Hle & Hrest). cbn [fst snd] in *.
  destruct (spec_op_ledger op _ _ _ (locked_service op Hl) Hb Hs) as (Hb' & Hle' & Hr & He).
  change (available (abstraction ?m)) with (avail m) in *. cbn [budget abstraction] in Hle'.
  unfold ledger. cbn [fst snd]. rewrite !(settled_update _ p i op _ _ Hop Hi). cbn [settled].
  split_and!; try done; try lia.
  - rewrite <- (list_insert_id ops i op) by done. apply Forall2_insert; [done|].
    right; left. exists r. split; [done|]. by eapply spec_op_admitted.
  - intros Hu. rewrite He by (rewrite Forall_lookup in Hu; by eapply Hu).
    destruct Hrest as [_ Hrest]. rewrite Hrest by done. lia.
Qed.

Lemma ledger_step a a' : ledger a -> astep a a' -> ledger a'.
Proof using Hc Hx Hg Hlocked Hok.
  intros HL Hs. inversion Hs; subst; [by eapply ledger_read|by eapply ledger_section].
Qed.

Lemma ledger_total a : ledger a -> sections_total a.
Proof using Hc Hx Hg Hlocked Hok.
  intros HL i k Hi. destruct (ledger_section_total a i k HL Hi) as (? & ? & ? & _ & _ & -> & _).
  by eexists.
Qed.

Lemma ledger_reads a i f k : ledger a -> a.2 !! i = Some (Act f k) -> is_Some (f a.1).
Proof using Hc Hx Hg Hlocked Hok.
  intros HL Hi. destruct (ledger_thread a i _ HL Hi) as (op & Hop & Ht & Hl & _).
  assert (Hr : reads c (Act f k)).
  { destruct Ht as [Ht|[(r & Hr & _)|[_ ?]]]; [|done..].
    destruct (run_op_shape c op) as [(X & body & g & _ & Hb)|[(r & Hr & _)|[_ ?]]];
      [done..| | |]; [by rewrite <- Ht in Hb|by rewrite <- Ht in Hr|by rewrite Ht]. }
  apply Hr, HL.
Qed.

Lemma ledger_init m :
  wf c m -> net m = 0 -> scalar m = s0 -> 0 <= s0 < H64 ->
  ledger (m, map (run_op c) ops).
Proof using Hc Hx Hg Hlocked.
  intros Hwf Hn Hs H0.
  assert (Hz : forall f, f = admitted_units \/ f = refunded_units ->
    settled_total f (map (run_op c) ops) = 0).
  { intros f Hf. unfold settled_total. clear Hok. induction Hlocked as [|op l Hop Hl IH]; [done|].
    cbn [map zip_with]. rewrite Zsum_cons, IH, settled_start by done. done. }
  assert (Hb : in_budget (abstraction m)).
  { unfold in_budget, abstraction. cbn [budget pending]. lia. }
  pose proof (available_in_budget _ Hb) as Ha. change (available (abstraction m)) with (avail m) in Ha.
  cbn [budget pending abstraction] in Ha.
  unfold ledger. cbn [fst snd]. rewrite !Hz by auto. split_and!; try done; try lia.
  clear. induction ops; constructor; [by left|done].
Qed.

(** The section in progress can only add to what has been admitted. *)
Lemma ledger_settled_le a p i q rest :
  ledger a -> a.2 = <[i:=rest]> p -> p !! i = Some q -> ~ returned q ->
  settled_total admitted_units p <= settled_total admitted_units a.2.
Proof using Hc Hx Hg Hlocked Hok.
  intros HL Ha Hi Hq.
  assert (Hi' : a.2 !! i = Some rest) by (rewrite Ha; by eapply list_lookup_insert_eq, lookup_lt_Some).
  destruct (ledger_thread a i rest HL Hi') as (op & Hop & Ht & Hl & _).
  rewrite Ha, (settled_update _ p i op q rest Hop Hi).
  assert (settled admitted_units op q = 0) by (destruct q; [by destruct Hq|done..]).
  assert (0 <= settled admitted_units op rest); [|lia].
  destruct Ht as [->|[(r & -> & Hr)|[Ho _]]]; [|done|].
  - rewrite settled_start; auto. lia.
  - destruct rest, op; done.
Qed.
End ledger.

(** ** Properties *)

(** The goroutines about to make the calls [ops] on an accumulator [v]. *)
Definition callers (v : VSA) (ops : list Op) : Conf Mem Res :=
  mkConf (mem v) (map (run_op (conf v)) ops) None.

Lemma callers_outside c ops :
  wf_conf c -> exact_config c -> fastPathGuard c = 0 -> Forall locked_op ops ->
  Forall outside (map (run_op c) ops).
Proof.
  intros Hc Hx Hg Hl. apply Forall_fmap. revert Hl. apply Forall_impl.
  intros op Hop. by apply run_op_outside.
Qed.

Definition no_refund (op : Op) : Prop :=
  match op with OpTryRefund _ => False | _ => True end.

Lemma NewWithOptions_guard gomaxprocs s0 opts :
  FastPathGuard opts <= 0 -> fastPathGuard (conf (NewWithOptions gomaxprocs s0 opts)) = 0.
Proof.
  intros Hg. unfold NewWithOptions. destruct (if GroupCount opts >? 1 then _ else _) as [[??]?].
  destruct (if HierarchicalGroups opts >? 1 then _ else _). cbn.
  by rewrite Z.gtb_ltb, (proj2 (Z.ltb_ge _ _) Hg).
Qed.

(** C2: no interleaving over-admits.  Any number of goroutines call [TryConsume],
    [TryRefund], [Commit], [Available], [State] and [CheckCommit] on one
    accumulator with the exact gate and no fast path, their atomic actions
    interleaved in any order.  Whenever the mutex is free, the vector is within
    the budget and the ledger of the calls that have returned balances; at every
    instant, if nobody refunds, at most [s0] units have been admitted. *)
Theorem interleaving_ledger gomaxprocs s0 opts ops cf :
  let v := NewWithOptions gomaxprocs s0 opts in
  0 <= s0 < H64 -> exact_config (conf v) -> FastPathGuard opts <= 0 ->
  Forall locked_op ops -> Forall (op_ok (conf v)) ops ->
  rtc step (callers v ops) cf ->
  (holder cf = None ->
     0 <= net (st cf) <= scalar (st cf) /\ scalar (st cf) <= s0 /\
     let left := s0 - settled_total ops admitted_units (pool cf) in
     left <= avail (st cf) <= left + settled_total ops refunded_units (pool cf) /\
     (Forall unit_refund ops ->
        avail (st cf) = left + settled_total ops refunded_units (pool cf))) /\
  (Forall no_refund ops -> settled_total ops admitted_units (pool cf) <= s0).
Proof.
  intros v Hs Hx Hfg Hl Hok Hr.
  destruct (NewWithOptions_wf gomaxprocs s0 opts ltac:(unfold in64; lia)) as (Hwf & Hn & Hsc & _).
  fold v in Hwf, Hn, Hsc. pose proof (NewWithOptions_guard gomaxprocs s0 opts Hfg) as Hg. fold v in Hg.
  pose proof (wf_c _ _ Hwf) as Hc.
  destruct (lock_atomicity (ledger (conf v) s0 ops)
    (ledger_total _ s0 ops Hc Hx Hg Hl Hok) (ledger_step _ s0 ops Hc Hx Hg Hl Hok)
    (mem v) (map (run_op (conf v)) ops) cf) as (a & _ & Hcoup & _ & HL).
  { by apply callers_outside. }
  { by apply ledger_init. }
  { exact Hr. }
  split.
  - intros Hh. unfold coupled in Hcoup. rewrite Hh in Hcoup. subst a.
    destruct HL as (_ & Hb & _ & Hle & Hled). cbn [fst snd] in *.
    split; [apply Hb|]. by split.
  - intros Hno.
    assert (Ha : settled_total ops admitted_units a.2 <= s0).
    { assert (Hz : settled_total ops refunded_units a.2 = 0).
      { unfold settled_total. generalize a.2. clear -Hno.
        induction Hno as [|op l Hop Hl IH]; intros p; [done|]. destruct p as [|q p]; [done|].
        cbn [zip_with]. rewrite Zsum_cons, IH. by destruct op, q. }
      destruct HL as (_ & Hb & _ & _ & Hled & _). rewrite Hz in Hled.
      pose proof (available_in_budget _ Hb) as Hav. change (available (abstraction ?m)) with (avail m) in Hav.
      unfold in_budget in Hb. lia. }
    unfold coupled in Hcoup. destruct (holder cf) as [i|]; [|by subst a].
    destruct Hcoup as (k & rest & Hk & Hins & _ & Heq).
    assert (settled_total ops admitted_units (pool cf) <= settled_total ops admitted_units a.2); [|lia].
    eapply (ledger_settled_le (conf v) s0 ops Hc Hx Hg Hl Hok a (pool cf) i k rest); [done..|].
    intros Hret. by destruct k.
Qed.

(** Two consumers and a reader of one accumulator with two units; the reader's
    loads fall inside the consumers' sections. *)
Definition demo_calls : list Op := [OpTryConsume 2; OpTryConsume 1; OpAvailable].
Definition demo_schedule : list nat :=
  replicate 7 0%nat ++ replicate 3 2%nat ++ replicate 8 0%nat ++ replicate 1 1%nat ++
  replicate 7 2%nat ++ replicate 11 1%nat.
Definition demo_final : Conf Mem Res :=
  default (callers (New 4 2) []) (run_schedule demo_schedule (callers (New 4 2) demo_calls)).

Lemma interleaving_ledger_witness :
  let v := New 4 2 in let cf := demo_final in
  (holder cf = None ->
     0 <= net (st cf) <= scalar (st cf) /\ scalar (st cf) <= 2 /\
     let left := 2 - settled_total demo_calls admitted_units (pool cf) in
     left <= avail (st cf) <= left + settled_total demo_calls refunded_units (pool cf) /\
     (Forall unit_refund demo_calls ->
        avail (st cf) = left + settled_total demo_calls refunded_units (pool cf))) /\
  (Forall no_refund demo_calls -> settled_total demo_calls admitted_units (pool cf) <= 2).
Proof.
  apply (interleaving_ledger 4 2 zero_options demo_calls demo_final).
  - lia.
  - split; [reflexivity|vm_compute; discriminate].
  - cbn. lia.
  - apply (bool_decide_unpack _). vm_compute. exact I.
  - apply (bool_decide_unpack _). vm_compute. exact I.
  - apply (run_schedule_rtc demo_schedule). vm_compute. reflexivity.
Defined.

(** *** The last token *)
Section last_unit.
Context (c : Config) (s0 : Z) (N : nat).
Hypothesis (Hc : wf_conf c) (Hx : exact_config c) (Hg : fastPathGuard c = 0).
Let ops := replicate N (OpTryConsume 1).
Hypothesis (Hok : Forall (op_ok c) ops).

Lemma ops_locked : Forall locked_op ops.
Proof. by apply Forall_replicate. Qed.

(** A denial happens only when nothing is left, and nothing comes back. *)
Definition denials_justified (a : Mem * list (M Mem Res)) : Prop :=
  ledger c s0 ops a /\
  forall i r, a.2 !! i = Some (Ret r) ->
    r = RBool true \/ (r = RBool false /\ avail a.1 <= 0).

Lemma justified_step a a' : denials_justified a -> astep a a' -> denials_justified a'.
Proof using Hc Hx Hg Hok.
  intros [HL HJ] Hs.
  assert (HL' : ledger c s0 ops a') by (by eapply (ledger_step c s0 ops Hc Hx Hg ops_locked Hok)).
  split; [done|]. intros j r Hj.
  assert (Hop : forall i op, ops !! i = Some op -> op = OpTryConsume 1)
    by (intros i op Hi; by apply lookup_replicate in Hi as [-> _]).
  inversion Hs as [s p i f k z Hi|s p i k s' rest Hi Hcrit]; subst; cbn [fst snd] in *.
  - destruct (ledger_thread c s0 ops ops_locked Hok (s, p) i _ HL Hi) as (op & Ho & Ht & _).
    apply Hop in Ho as ->. destruct Ht as [Ht|[(r' & Hr & _)|[[] _]]]; [|done].
    revert Ht. cbn [run_op]. unfold TryConsume. rewrite Hg. done.
  - destruct (ledger_section_total c s0 ops Hc Hx Hg ops_locked Hok (s, p) i k HL Hi)
      as (op & m' & r' & Ho & _ & Hcrit' & _ & Hsp).
    apply Hop in Ho as ->. cbn [fst] in *. rewrite Hcrit in Hcrit'. injection Hcrit' as -> ->.
    destruct HL as (_ & Hb & _).
    destruct (spec_op_ledger (OpTryConsume 1) _ _ _ I Hb Hsp) as (Hb' & _ & _ & He).
    change (available (abstraction ?m)) with (avail m) in *. specialize (He I).
    assert (Hr' : r' = RBool true /\ 1 <= avail s \/ r' = RBool false /\ avail s <= 0).
    { revert Hsp. cbn [spec_op]. unfold try_consume.
      change (available (abstraction s)) with (avail s). cbn [Z.ltb Z.compare andb].
      case_Z; intros Hq; apply (f_equal snd) in Hq; cbn in Hq; subst r';
        [by left|right; split; [done|lia]]. }
    assert (Hle : avail m' <= avail s) by (destruct Hr' as [[-> ?]|[-> ?]]; cbn in He; lia).
    destruct (decide (i = j)) as [<-|Hij].
    + rewrite list_lookup_insert_eq in Hj by (by eapply lookup_lt_Some). injection Hj as <-.
      destruct Hr' as [[-> ?]|[-> ?]]; [by left|right; split; [done|lia]].
    + rewrite list_lookup_insert_ne in Hj by done.
      destruct (HJ j r Hj) as [?|[? ?]]; [by left|right; split; [done|lia]].
Qed.

#[local] Instance Res_eq_dec : EqDecision Res.
Proof. solve_decision. Defined.

(** The number of [true] answers. *)
Definition admissions (p : list (M Mem Res)) : Z :=
  Zsum (map (fun q => match q with Ret (RBool true) => 1 | _ => 0 end) p).

Lemma admissions_settled p :
  length p = N -> settled_total ops admitted_units p = admissions p.
Proof.
  subst ops. unfold settled_total, admissions. clear. revert p.
  induction N as [|n IH]; intros [|q p] Hp; try done. cbn [replicate zip_with map].
  rewrite !Zsum_cons, IH by (cbn in Hp; lia). by destruct q as [[|[]| | |]| | |].
Qed.

Lemma admissions_bound p :
  Forall returned p ->
  0 <= admissions p <= Z.of_nat (length p) /\
  (admissions p = Z.of_nat (length p) \/
   exists i r, p !! i = Some (Ret r) /\ r <> RBool true).
Proof.
  unfold admissions. induction 1 as [|q p Hq Hp [IH1 IH2]]; [split; [done|by left]|].
  cbn [map length]. rewrite Zsum_cons.
  split; [destruct q as [[|[]| | |]| | |]; lia|].
  destruct q as [r|? ?|?|?]; try done. destruct (decide (r = RBool true)) as [->|Hne].
  - destruct IH2 as [IH2|(i & r & Hi)]; [left; lia|right; by exists (S i), r].
  - right. by exists 0%nat, r.
Qed.

Lemma justified_count s p :
  denials_justified (s, p) -> Forall returned p -> admissions p = Z.min (Z.of_nat N) s0.
Proof using.
  intros [(_ & Hb & Hth & _ & _ & Hu) HJ] Hret. cbn [fst snd] in *.
  assert (Hlen : length p = N).
  { apply Forall2_length in Hth. subst ops. by rewrite length_replicate in Hth. }
  assert (Hunit : Forall unit_refund ops) by (by apply Forall_replicate).
  assert (Hz : settled_total ops refunded_units p = 0).
  { subst ops. unfold settled_total. clear -Hlen. revert N Hlen.
    induction p as [|q p IH]; intros [|n] Hlen; try done. cbn [replicate zip_with].
    rewrite Zsum_cons, IH by (cbn in Hlen; lia). by destruct q. }
  specialize (Hu Hunit). rewrite Hz, admissions_settled in Hu by done.
  pose proof (available_in_budget _ Hb) as Hav. change (available (abstraction s)) with (avail s) in Hav.
  unfold in_budget in Hb. destruct (admissions_bound p Hret) as [Hbnd Hall]. rewrite Hlen in *.
  destruct Hall as [Hall|(i & r & Hi & Hne)]; [lia|].
  destruct (HJ i r Hi) as [?|[_ ?]]; [done|lia].
Qed.
End last_unit.

(** C1: the last token.  [N] goroutines race for one unit each of a budget [s0].
    Every schedule of their atomic actions ends, none gets stuck before every
    caller has its answer, and then exactly [min N s0] of them were admitted:
    neither more units than the budget nor a needless denial. *)
Theorem racers_take_every_token gomaxprocs s0 opts N :
  let v := NewWithOptions gomaxprocs s0 opts in
  let start := callers v (replicate N (OpTryConsume 1)) in
  0 <= s0 < H64 -> exact_config (conf v) -> FastPathGuard opts <= 0 ->
  Acc (flip step) start /\
  (forall cf, rtc step start cf -> (exists cf', step cf cf') \/ Forall returned (pool cf)) /\
  (forall cf, rtc step start cf -> Forall returned (pool cf) ->
     admissions (pool cf) = Z.min (Z.of_nat N) s0).
Proof.
  intros v start Hs Hx Hfg.
  destruct (NewWithOptions_wf gomaxprocs s0 opts ltac:(unfold in64; lia)) as (Hwf & Hn & Hsc & _).
  fold v in Hwf, Hn, Hsc. pose proof (NewWithOptions_guard gomaxprocs s0 opts Hfg) as Hg. fold v in Hg.
  pose proof (wf_c _ _ Hwf) as Hc. set (ops := replicate N (OpTryConsume 1)) in *.
  assert (Hok : Forall (op_ok (conf v)) ops).
  { apply Forall_replicate. cbn. rewrite Hg. unfold in64. lia. }
  pose proof (ops_locked N) as Hl. fold ops in Hl.
  assert (HL0 : ledger (conf v) s0 ops (mem v, map (run_op (conf v)) ops)) by (by apply ledger_init).
  assert (Hout : Forall outside (map (run_op (conf v)) ops)) by (by apply callers_outside).
  split_and!; [apply step_wf| |].
  - intros cf Hr. eapply (lock_progress (ledger (conf v) s0 ops)); [..|exact Hr]; try done.
    + by apply ledger_total.
    + intros a i f k. by apply ledger_reads.
    + intros a a'. by apply ledger_step.
  - intros cf Hr Hret.
    destruct (lock_atomicity (denials_justified (conf v) s0 N)
      (fun a Ha => ledger_total _ s0 ops Hc Hx Hg Hl Hok a (proj1 Ha))
      (justified_step _ s0 N Hc Hx Hg Hok) (mem v) (map (run_op (conf v)) ops) cf)
      as (a & _ & Hcoup & _ & HJ); [done| |exact Hr|].
    { split; [done|]. intros i r Hi. exfalso. cbn [snd] in Hi.
      change (map (run_op (conf v)) ops) with (run_op (conf v) <$> ops) in Hi.
      rewrite list_lookup_fmap in Hi.
      destruct (ops !! i) as [op|] eqn:Hop; [|done]. apply lookup_replicate in Hop as [-> _].
      revert Hi. cbn [fmap option_fmap option_map run_op]. unfold TryConsume. by rewrite Hg. }
    unfold coupled in Hcoup. destruct (holder cf) as [i|].
    + destruct Hcoup as (k & rest & Hk & Hins & _).
      rewrite Forall_lookup in Hret. specialize (Hret i k Hk). by destruct k.
    + subst a. by eapply justified_count.
Qed.

Lemma racers_take_every_token_witness :
  let start := callers (New 4 3) (replicate 5 (OpTryConsume 1)) in
  Acc (flip step) start /\
  (forall cf, rtc step start cf -> (exists cf', step cf cf') \/ Forall returned (pool cf)) /\
  (forall cf, rtc step start cf -> Forall returned (pool cf) ->
     admissions (pool cf) = Z.min (Z.of_nat 5) 3).
Proof.
  apply (racers_take_every_token 4 3 zero_options 5).
  - lia.
  - split; [reflexivity|vm_compute; discriminate].
  - cbn. lia.
Defined.

(** *** The fast path races *)
Definition racing_options : Options := mkOptions 8 false false false 0 0 0 0 2 0.
Definition race_start : Conf Mem Res :=
  callers (NewWithOptions 4 3 racing_options) (replicate 4 (OpTryConsume 1)).
(** Everyone loads and tests before anyone adds. *)
Definition race_schedule : list nat :=
  [0; 0; 1; 1; 2; 2; 3; 3; 0; 0; 0; 1; 1; 1; 2; 2; 2; 3; 3; 3]%nat.

(** With the fast path the guard does not prevent over-admission under
    concurrency: with a budget of 3 and a guard of 2, four goroutines that all
    pass the test before any of them adds are all admitted, and one unit more
    than the budget is consumed. *)
Theorem fast_path_race_overadmits :
  exists cf, rtc step race_start cf /\ pool cf = replicate 4 (Ret (RBool true)) /\
    avail (st cf) = -1.
Proof.
  exists (default race_start (run_schedule race_schedule race_start)). split_and!.
  - apply (run_schedule_rtc race_schedule). vm_compute. reflexivity.
  - vm_compute. reflexivity.
  - vm_compute. reflexivity.
Qed.
