(* ===== verification/VsaLinear.v ===== *)
(** * The calls of the accumulator take effect one at a time

    [TryConsume], [TryRefund] and [Commit] are linearizable, as long as the gate is
    the exact one and there is no fast path: whatever the interleaving of the
    atomic actions, the calls have an order in which the contract of [VsaSpec], run
    one call after the other, gives every call the result it returned and ends with
    the balance that is in memory; and a call that had returned before another began
    comes before it.  The order is that of the sections under the mutex
    ([lock_atomicity_from]).  Reads take no lock and have no such moment
    ([VsaReads]); any number of them may run among the calls. *)
From S2P Require Import Prelude Machine Vsa VsaInv VsaSpec VsaConc.
Import Spec.

(** The calls that enter the critical section. *)
Definition section_op (op : Op) : Prop :=
  match op with OpTryConsume n | OpTryRefund n => 0 < n | OpCommit v => v <> 0 | _ => False end.
#[export] Instance section_op_dec op : Decision (section_op op).
Proof. destruct op; cbn; apply _. Defined.

(** The calls of an order, which lists them by their goroutine. *)
Definition in_order (ops : list Op) (order : list nat) : list Op := omap (fun i => ops !! i) order.

Lemma spec_ops_snoc ops op a a1 rs a2 r :
  spec_ops ops a = (a1, rs) -> spec_op op a1 = (a2, r) -> spec_ops (ops ++ [op]) a = (a2, rs ++ [r]).
Proof.
  revert a rs. induction ops as [|op' ops IH]; intros a rs; cbn [spec_ops app].
  - intros [= -> <-] ->. done.
  - destruct (spec_op op' a) as [b r']. destruct (spec_ops ops b) as [b2 rs'] eqn:Hb. intros [= -> <-] Hop.
    by rewrite (IH b rs' Hb Hop).
Qed.

Section linear.
Context (c : Config) (s0 : Z) (ops : list Op).
Hypothesis (Hc : wf_conf c) (Hx : exact_config c) (Hg : fastPathGuard c = 0).
Hypothesis (Hlocked : Forall locked_op ops) (Hok : Forall (op_ok c) ops).

Lemma section_op_locks op : section_op op -> exists k, run_op c op = Lock k.
Proof using Hg.
  destruct op as [e d|n|n|v| | |t|now|]; cbn [section_op run_op]; try done; intros Hn.
  - unfold TryConsume. rewrite Hg. case_Z; [lia|]. by eexists.
  - unfold TryRefund. case_Z; [lia|]. by eexists.
  - unfold Commit. case_Z; [done|]. by eexists.
Qed.

(** What an order explains of a coarse state. *)
Record linear (order : list nat) (a : Mem * list (M Mem Res)) : Prop := {
  ln_distinct : NoDup order;
  ln_spec : exists rs, spec_ops (in_order ops order) (mkBalance s0 0) = (abstraction a.1, rs) /\
    Forall2 (fun i r => a.2 !! i = Some (Ret r)) order rs;
  ln_done i op r : ops !! i = Some op -> section_op op -> a.2 !! i = Some (Ret r) -> i ∈ order;
  ln_calls i : i ∈ order -> exists op, ops !! i = Some op /\ section_op op
}.

Lemma linear_returned order a i : linear order a -> i ∈ order -> exists r, a.2 !! i = Some (Ret r).
Proof.
  intros [_ (rs & _ & Hr) _ _] (k & Hk)%list_elem_of_lookup. destruct (Forall2_lookup_l _ _ _ _ _ Hr Hk) as (r & _ & ?). by exists r.
Qed.

Lemma results_elsewhere (p : list (M Mem Res)) i q order rs : i ∉ order ->
  Forall2 (fun j r => p !! j = Some (Ret r)) order rs -> Forall2 (fun j r => <[i:=q]> p !! j = Some (Ret r)) order rs.
Proof.
  intros Hi. induction 1 as [|j r order rs Hj _ IH]; constructor.
  - rewrite list_lookup_insert_ne; [done|]. intros ->. apply Hi. by left.
  - apply IH. intros ?. apply Hi. by right.
Qed.

Lemma linear_step order a a' : ledger c s0 ops a -> linear order a -> astep a a' -> exists more, linear (order ++ more) a'.
Proof using Hc Hx Hg Hlocked Hok.
  intros HL Hlin Hs. destruct Hs as [s p i f k z Hi|s p i k s' rest Hi Hcrit].
  - exists []. rewrite app_nil_r. assert (Hni : i ∉ order).
    { intros Hin. destruct (linear_returned _ _ _ Hlin Hin) as [r Hr]. cbn [snd] in Hr. by rewrite Hi in Hr. }
    destruct Hlin as [Hnd (rs & Hsp & Hrs) Hdone Hcalls]. cbn [fst snd] in *. split; [done| | |done].
    + exists rs. split; [done|]. by apply results_elsewhere.
    + cbn [snd]. intros j op r Hop Hsec. destruct (decide (i = j)) as [<-|Hne]; [|rewrite list_lookup_insert_ne by done; by eapply Hdone].
      destruct (section_op_locks op Hsec) as [k' Hk']. destruct (ledger_thread c s0 ops Hlocked Hok (s, p) i _ HL Hi) as (op' & Hop' & Ht & _).
      rewrite Hop in Hop'. injection Hop' as <-.
      destruct Ht as [Ht|[(r' & Ht & _)|[Ht _]]]; [by rewrite Hk' in Ht|done|by destruct op].
  - destruct (ledger_section_total c s0 ops Hc Hx Hg Hlocked Hok (s, p) i k HL Hi) as (op & m' & r & Hop & Hl & Hcrit' & _ & Hspec).
    cbn [fst] in *. rewrite Hcrit in Hcrit'. injection Hcrit' as -> ->. exists [i].
    assert (Hni : i ∉ order).
    { intros Hin. destruct (linear_returned _ _ _ Hlin Hin) as [r' Hr']. cbn [snd] in Hr'. by rewrite Hi in Hr'. }
    destruct Hlin as [Hnd (rs & Hsp & Hrs) Hdone Hcalls]. cbn [fst snd] in *.
    assert (Hi' : <[i:=Ret r]> p !! i = Some (Ret r)) by (by eapply list_lookup_insert_eq, lookup_lt_Some).
    split; cbn [fst snd].
    + apply list.NoDup_app. split; [done|]. split; [|apply NoDup_singleton]. intros j Hj ->%list_elem_of_singleton. done.
    + exists (rs ++ [r]). split.
      * unfold in_order. rewrite omap_app. cbn. rewrite Hop. by eapply spec_ops_snoc.
      * apply Forall2_app; [by apply results_elsewhere|]. by constructor.
    + intros j opj rj Hopj Hsec Hj. apply elem_of_app. destruct (decide (i = j)) as [<-|Hne]; [right; by left|].
      rewrite list_lookup_insert_ne in Hj by done. left. by eapply Hdone.
    + intros j [Hj| ->%list_elem_of_singleton]%elem_of_app; [by apply Hcalls|]. exists op. split; [done|].
      destruct (ledger_thread c s0 ops Hlocked Hok (s, p) i _ HL Hi) as (op' & Hop' & Ht & _). rewrite Hop in Hop'. injection Hop' as <-.
      destruct Ht as [Ht|[(r' & Ht & _)|[_ Ht]]]; [|done..].
      destruct (decide (reading_op op)) as [Hro|Hnr].
      { pose proof (reading_op_reads c op Hc Hro) as Hrd. by rewrite <- Ht in Hrd. }
      destruct op as [e d|n|n|v| | |t|now|]; cbn in Hl, Hnr; try done; cbn [run_op section_op] in *.
      * unfold TryConsume in Ht. revert Ht. case_Z; [done|lia].
      * unfold TryRefund in Ht. revert Ht. case_Z; [done|lia].
      * unfold Commit in Ht. revert Ht. by case_Z.
Qed.

Lemma linear_run order a a' : ledger c s0 ops a -> linear order a -> rtc astep a a' -> exists more, linear (order ++ more) a'.
Proof using Hc Hx Hg Hlocked Hok.
  intros HL Hlin Hr. revert order HL Hlin. induction Hr as [a|a a1 a2 Hs _ IH]; intros order HL Hlin.
  - exists []. by rewrite app_nil_r.
  - destruct (linear_step order a a1 HL Hlin Hs) as [m1 H1].
    destruct (IH (order ++ m1)) as [m2 H2]; [by eapply (ledger_step c s0 ops Hc Hx Hg Hlocked Hok)|done|].
    exists (m1 ++ m2). by rewrite app_assoc.
Qed.

Lemma linear_init m : scalar m = s0 -> net m = 0 -> linear [] (m, map (run_op c) ops).
Proof using Hg.
  intros Hs Hn. split; [constructor| | |by intros i ?%elem_of_nil].
  - exists []. split; [|constructor]. cbn. unfold abstraction. cbn. by rewrite Hs, Hn.
  - cbn [snd]. intros i op r Hop Hsec Hi. change (map (run_op c) ops) with (run_op c <$> ops) in Hi.
    rewrite list_lookup_fmap, Hop in Hi. cbn in Hi. injection Hi as Hi.
    destruct (section_op_locks op Hsec) as [k Hk]. by rewrite Hk in Hi.
Qed.

(** The calls that had returned at a moment of a run come first, and none that had not begun. *)
Definition cuts (order : list nat) (cf : Conf Mem Res) : Prop :=
  exists before, before `prefix_of` order /\
    forall i op, ops !! i = Some op -> section_op op ->
      (forall r, pool cf !! i = Some (Ret r) -> i ∈ before) /\
      (pool cf !! i = Some (run_op c op) -> i ∉ before).

Lemma coupled_cuts order cf a : linear order a -> coupled cf a -> cuts order cf.
Proof using Hg.
  intros Hlin Hco. exists order. split; [done|]. intros i op Hop Hsec. unfold coupled in Hco.
  destruct (section_op_locks op Hsec) as [kl Hkl].
  destruct (holder cf) as [h|].
  - destruct Hco as (k & rest & Hk & Hins & _ & Ha). destruct (decide (h = i)) as [->|Hne].
    + split; [intros r Hr|rewrite Hkl; intros Hr]; rewrite Hk in Hr; by injection Hr as ->.
    + split.
      * intros r Hr. eapply ln_done; [done..|]. by rewrite Ha, list_lookup_insert_ne.
      * intros Hr Hin. destruct (linear_returned _ _ _ Hlin Hin) as [r Hr'].
        rewrite Ha, list_lookup_insert_ne, Hr, Hkl in Hr' by done. done.
  - subst a. split; [intros r Hr; by eapply ln_done|]. intros Hr Hin.
    destruct (linear_returned _ _ _ Hlin Hin) as [r Hr']. cbn [snd] in Hr'. by rewrite Hr, Hkl in Hr'.
Qed.

Lemma cuts_more order more cf : cuts order cf -> cuts (order ++ more) cf.
Proof. intros (before & Hb & H). exists before. split; [by apply prefix_app_r|done]. Qed.

(** The order grows along the run. *)
Lemma run_linear m visited cf : wf c m -> scalar m = s0 -> net m = 0 -> 0 <= s0 < H64 ->
  run_through (mkConf m (map (run_op c) ops) None) visited cf ->
  exists order a, linear order a /\ ledger c s0 ops a /\ coupled cf a /\ disciplined cf /\ Forall (cuts order) visited.
Proof using Hc Hx Hg Hlocked Hok.
  intros Hwf Hs Hn H0. induction 1 as [|visited cf cf' _ (order & a & Hlin & HL & Hco & Hd & Hcuts) Hst].
  - exists [], (m, map (run_op c) ops).
    assert (Hlin : linear [] (m, map (run_op c) ops)) by (by apply linear_init).
    split_and!; [done|by apply ledger_init|done|by apply disciplined_init, callers_outside|].
    constructor; [by eapply coupled_cuts|constructor].
  - destruct (lock_atomicity_from (ledger c s0 ops)
      (ledger_total _ s0 ops Hc Hx Hg Hlocked Hok) (ledger_step _ s0 ops Hc Hx Hg Hlocked Hok)
      cf cf' a) as (a' & Hr & Hco' & Hd' & HL'); [done..|by apply rtc_once|].
    destruct (linear_run order a a' HL Hlin Hr) as [more Hlin'].
    exists (order ++ more), a'. split_and!; [done..|]. apply list.Forall_app. split.
    + eapply list.Forall_impl; [exact Hcuts|]. intros cf0. apply cuts_more.
    + constructor; [by eapply coupled_cuts|constructor].
Qed.
End linear.

(** C4: linearizability.  Any number of goroutines call [TryConsume], [TryRefund],
    [Commit], [Available], [State] and [CheckCommit] on one accumulator with the
    exact gate and no fast path, their atomic actions interleaved in any order.
    At every moment of the run there is an order of calls such that the contract
    of [VsaSpec], run one call after the other in that order, gives every writing
    call that has returned the result it returned, and ends with the balance in
    memory when the mutex is free.  The order respects time: at each moment the
    run went through, the calls that had returned form part of a prefix of the
    order that holds no call that had not begun. *)
Theorem calls_linearize gomaxprocs s0 opts ops visited cf :
  let v := NewWithOptions gomaxprocs s0 opts in
  0 <= s0 < H64 -> exact_config (conf v) -> FastPathGuard opts <= 0 ->
  Forall locked_op ops -> Forall (op_ok (conf v)) ops ->
  run_through (callers v ops) visited cf ->
  exists order rs a,
    NoDup order /\ (forall i, i ∈ order -> exists op, ops !! i = Some op /\ section_op op) /\
    spec_ops (in_order ops order) (mkBalance s0 0) = (a, rs) /\
    (holder cf = None -> a = mkBalance (scalar (st cf)) (net (st cf))) /\
    (forall k i r, order !! k = Some i -> pool cf !! i = Some (Ret r) -> rs !! k = Some r) /\
    (forall cf0, cf0 ∈ visited -> cuts (conf v) ops order cf0).
Proof.
  intros v Hs Hx Hfg Hl Hok Hrun.
  destruct (NewWithOptions_wf gomaxprocs s0 opts ltac:(unfold in64; lia)) as (Hwf & Hn & Hsc & _).
  fold v in Hwf, Hn, Hsc. pose proof (NewWithOptions_guard gomaxprocs s0 opts Hfg) as Hg. fold v in Hg.
  pose proof (wf_c _ _ Hwf) as Hc.
  destruct (run_linear (conf v) s0 ops Hc Hx Hg Hl Hok (mem v) visited cf)
    as (order & a & Hlin & _ & Hco & _ & Hcuts); [done..|].
  destruct (ln_spec _ _ _ _ Hlin) as (rs & Hsp & Hrs).
  exists order, rs, (abstraction a.1). split_and!; [apply Hlin|apply Hlin|done| | |by apply list.Forall_forall].
  - intros Hh. unfold coupled in Hco. rewrite Hh in Hco. by subst a.
  - intros k i r Hk Hi. destruct (Forall2_lookup_l _ _ _ _ _ Hrs Hk) as (r' & Hr' & Hret).
    rewrite Hr'. f_equal. unfold coupled in Hco. destruct (holder cf) as [h|].
    + destruct Hco as (q & rest & Hq & Hins & _ & Ha). destruct (decide (h = i)) as [->|Hne].
      * rewrite Hq in Hi. by injection Hi as ->.
      * rewrite Ha, list_lookup_insert_ne, Hi in Hret by done. by injection Hret as ->.
    + subst a. cbn [snd] in Hret. rewrite Hi in Hret. by injection Hret as ->.
Qed.

Lemma calls_linearize_witness :
  exists visited, run_through (callers (New 4 2) demo_calls) visited demo_final /\
  exists order rs a,
    NoDup order /\ (forall i, i ∈ order -> exists op, demo_calls !! i = Some op /\ section_op op) /\
    spec_ops (in_order demo_calls order) (mkBalance 2 0) = (a, rs) /\
    (holder demo_final = None -> a = mkBalance (scalar (st demo_final)) (net (st demo_final))) /\
    (forall k i r, order !! k = Some i -> pool demo_final !! i = Some (Ret r) -> rs !! k = Some r) /\
    (forall cf0, cf0 ∈ visited -> cuts (conf (New 4 2)) demo_calls order cf0).
Proof.
  destruct (rtc_run_through (callers (New 4 2) demo_calls) demo_final) as [visited Hrun].
  { apply (run_schedule_rtc demo_schedule). vm_compute. reflexivity. }
  exists visited. split; [exact Hrun|].
  apply (calls_linearize 4 2 zero_options demo_calls visited demo_final).
  - lia.
  - split; [reflexivity|vm_compute; discriminate].
  - cbn. lia.
  - apply (bool_decide_unpack _). vm_compute. exact I.
  - apply (bool_decide_unpack _). vm_compute. exact I.
  - exact Hrun.
Defined.
