(* ===== verification/VsaReads.v ===== *)
(** * Reading the accumulator while others write

    [State], [Available] and [CheckCommit] add up the stripes (or the sums of the
    groups) one atomic load after the other, without the mutex, so a read is not a
    moment of the accumulator: it is torn.  Here is by how much, in any interleaving
    with calls of any method under any options, and what the worker can read. *)
From S2P Require Import Prelude Machine Vsa VsaInv VsaSpec VsaConc.
Import Spec.

(** The counters a read adds up. *)
Definition cells (c : Config) (m : Mem) : list Z := if hGroups c >? 0 then hGroupSum m else stripes m.
Definition ncells (c : Config) : nat := Z.to_nat (if hGroups c >? 0 then hGroups c else nstripes c).
Definition cells_net (c : Config) (m : Mem) : Z := Zsum (cells c m) - committedOffset m.

(** ** Every action of every method writes at most one cell *)
Definition by_cell (c : Config) (f : Mem -> option (Mem * Z)) : Prop :=
  forall m m' z, f m = Some (m', z) -> exists j x, cells c m' = <[j:=x]> (cells c m).

Fixpoint cellwise {A} (c : Config) (p : M Mem A) : Prop :=
  match p with
  | Ret _ => True
  | Act f k => by_cell c f /\ forall z, cellwise c (k z)
  | Lock k | Unlock k => cellwise c k
  end.

Lemma cellwise_bind {A B} c (p : M Mem A) (g : A -> M Mem B) :
  cellwise c p -> (forall a, cellwise c (g a)) -> cellwise c (p ≫= g).
Proof.
  intros Hp Hg. induction p as [a|f k IH|k IH|k IH]; cbn in *; [apply Hg| |by apply IH..].
  split; [apply Hp|]. intros z. apply IH, Hp.
Qed.

Lemma cellwise_with_lock {A} c (p : M Mem A) : cellwise c p -> cellwise c (with_lock p).
Proof. intros Hp. cbn. by apply cellwise_bind. Qed.

Lemma same_cells c m m' : stripes m' = stripes m -> hGroupSum m' = hGroupSum m -> exists j x, cells c m' = <[j:=x]> (cells c m).
Proof.
  intros Hs Hh. exists (length (cells c m)), 0. rewrite list_insert_ge by done. unfold cells. by rewrite Hs, Hh.
Qed.

(** A program that leaves the cells alone: the equations are by computation. *)
Ltac quiet_act := split; [intros m m' z [= <- _]; by apply same_cells|done].

Create HintDb cell.
Ltac cell_binds := repeat (apply cellwise_bind; [solve [auto with cell]|intros ?]); try done.

Lemma cellwise_load c get : cellwise c (load get).
Proof. quiet_act. Qed.
Lemma cellwise_load_at c get i : cellwise c (load_at get i).
Proof. split; [|done]. intros m m' z. destruct (idx_get _ _); [|done]. intros [= <- _]. by apply same_cells. Qed.
Lemma cellwise_go_div c a b : cellwise c (go_div a b).
Proof. unfold go_div. by case_Z. Qed.
Lemma cellwise_go_rem c a b : cellwise c (go_rem a b).
Proof. unfold go_rem. by case_Z. Qed.
Lemma cellwise_chooser c : cellwise c chooser_Add1.
Proof. quiet_act. Qed.
Lemma cellwise_approx c d : cellwise c (add approxNet set_approxNet d).
Proof. quiet_act. Qed.
#[export] Hint Resolve cellwise_load cellwise_load_at cellwise_go_div cellwise_go_rem cellwise_chooser cellwise_approx : cell.

Lemma cellwise_sum_range c ld i n acc : (forall j, cellwise c (ld j)) -> cellwise c (sum_range ld i n acc).
Proof.
  intros Hld. revert i acc. induction n as [|n IH]; intros i acc; [done|]. apply cellwise_bind; [apply Hld|]. intros z. apply IH.
Qed.

Lemma cellwise_stripe_update c i d : cellwise c (stripe_update c i d).
Proof.
  unfold stripe_update. apply cellwise_bind; [|intros _; apply cellwise_bind; [|intros _; by apply cellwise_bind; [auto with cell|]]].
  - split; [|done]. intros m m' z. destruct (idx_get (stripes m) i) as [x|]; [|done]. intros [= <- _].
    unfold cells. destruct (hGroups c >? 0); [|by eexists _, _]. cbn. exists (length (hGroupSum m)), 0. by rewrite list_insert_ge.
  - destruct (hGroups c >? 0) eqn:Hh; [|done]. apply cellwise_bind; [auto with cell|]. intros g. split; [|done].
    intros m m' z. destruct (idx_get (hGroupSum m) g) as [x|]; [|done]. intros [= <- _]. unfold cells. rewrite Hh. by eexists _, _.
Qed.

Lemma cellwise_sum_stripes c : cellwise c (sum_stripes c).
Proof. unfold sum_stripes. destruct (_ >? _); apply cellwise_sum_range; auto with cell. Qed.
#[export] Hint Resolve cellwise_stripe_update cellwise_sum_stripes cellwise_with_lock : cell.

Lemma cellwise_currentVector c : cellwise c (currentVector c).
Proof. unfold currentVector. cell_binds. Qed.
#[export] Hint Resolve cellwise_currentVector : cell.

Lemma cellwise_exact_gate c n : cellwise c (exact_gate c n).
Proof. unfold exact_gate. cell_binds. Qed.

Lemma cellwise_gate c n : cellwise c (gate c n).
Proof.
  unfold gate. destruct (useCachedGate c); [|destruct (groupCount c >? 1); [|apply cellwise_exact_gate]].
  - unfold cached_gate. cell_binds.
  - unfold grouped_gate. apply cellwise_bind; [quiet_act|]. intros grr. apply cellwise_bind; [auto with cell|]. intros start.
    apply cellwise_bind; [apply cellwise_sum_range; auto with cell|]. intros partial. cell_binds.
    destruct (_ <? n); [apply cellwise_exact_gate|done].
Qed.
#[export] Hint Resolve cellwise_gate : cell.

Lemma cellwise_run_op c op : cellwise c (run_op c op).
Proof.
  destruct op as [e d|n|n|v| | |t|now|]; cbn [run_op]; apply cellwise_bind; try done.
  - unfold Update, chooseIdxForUpdate. apply cellwise_bind; [|intros ?; auto with cell].
    destruct (cheapUpdateChooser c); [by destruct (rng64_next _ _)|]. destruct (perPUpdateChooser c); [done|]. cell_binds.
  - unfold TryConsume. case_Z; [done|]. apply cellwise_bind.
    + destruct (_ >? _); [|done]. unfold fast_path. cell_binds. destruct (_ >=? _); [|done]. cell_binds.
    + intros []; [done|]. apply cellwise_with_lock. unfold TryConsume_locked. apply cellwise_bind; [auto with cell|].
      intros []; [|done]. apply cellwise_bind; [quiet_act|]. intros r. cell_binds.
  - unfold TryRefund. case_Z; [done|]. apply cellwise_with_lock. unfold TryRefund_locked. apply cellwise_bind; [auto with cell|].
    intros net. case_Z; [done|]. apply cellwise_bind; [quiet_act|]. intros r. cell_binds.
  - unfold Commit. case_Z; [done|]. apply cellwise_with_lock. unfold Commit_locked. apply cellwise_bind; [auto with cell|].
    intros net. case_Z; [done|]. do 3 (apply cellwise_bind; [quiet_act|intros ?]). done.
  - unfold Available. cell_binds.
  - unfold State. cell_binds.
  - unfold CheckCommit. cell_binds.
  - unfold aggregator_tick. do 2 (apply cellwise_bind; [auto with cell|intros ?]). do 2 (apply cellwise_bind; [quiet_act|intros ?]). done.
  - split; [|done]. intros m m' z. destruct (closeOnce m); [intros [= <- _]; by apply same_cells|].
    destruct (hasStopCh c); [destruct (stopClosed m); [done|]|]; intros [= <- _]; by apply same_cells.
Qed.

(** ** An execution until a call returns, with how much the cells rose and fell in it *)
Inductive until (c : Config) (i : nat) : Conf Mem Res -> Z -> Z -> Conf Mem Res -> Prop :=
| until_done cf r : pool cf !! i = Some (Ret r) -> until c i cf 0 0 cf
| until_step cf cf1 up down cf2 :
    (forall r, pool cf !! i <> Some (Ret r)) -> step cf cf1 -> until c i cf1 up down cf2 ->
    let d := Zsum (cells c (st cf1)) - Zsum (cells c (st cf)) in
    until c i cf (Z.max 0 d + up) (Z.max 0 (- d) + down) cf2.

(** The goroutines among their actions: every program writes cell by cell. *)
Record among (c : Config) (cf : Conf Mem Res) : Prop := {
  am_cells : length (cells c (st cf)) = ncells c;
  am_pool : Forall (cellwise c) (pool cf)
}.

(** A step changes one cell; it is a step of this thread, or this thread stays. *)
Lemma among_step c cf cf1 : among c cf -> step cf cf1 ->
  among c cf1 /\ exists j x, cells c (st cf1) = <[j:=x]> (cells c (st cf)).
Proof.
  intros [Hn Hp] Hs. assert (Hget : forall i p, pool cf !! i = Some p -> cellwise c p) by (intros i p Hi; by eapply (proj1 (Forall_lookup _ _) Hp)).
  destruct Hs as [s p h i f k s' z Hi Hf|s p i k Hi|s p i k Hi]; cbn [st pool] in *.
  - destruct (Hget i _ Hi) as [Hf' Hk]. destruct (Hf' s s' z Hf) as (j & x & Hc). split; [|by exists j, x].
    split; cbn; [by rewrite Hc, length_insert|]. apply Forall_insert; [done|apply Hk].
  - split; [split; cbn; [done|apply Forall_insert; [done|by apply (Hget i _ Hi)]]|by apply same_cells].
  - split; [split; cbn; [done|apply Forall_insert; [done|by apply (Hget i _ Hi)]]|by apply same_cells].
Qed.

Lemma step_thread i q (cf cf1 : Conf Mem Res) : step cf cf1 -> pool cf !! i = Some q ->
  (pool cf1 !! i = Some q) \/
  (exists f k z, q = Act f k /\ f (st cf) = Some (st cf1, z) /\ pool cf1 !! i = Some (k z)) \/
  (exists k, (q = Lock k \/ q = Unlock k) /\ pool cf1 !! i = Some k).
Proof.
  destruct 1 as [s p h j f k s' z Hj Hf|s p j k Hj|s p j k Hj]; cbn; intros Hi;
    (destruct (decide (j = i)) as [<-|Hne]; [|left; by rewrite list_lookup_insert_ne]);
    rewrite Hj in Hi; injection Hi as <-; right; rewrite list_lookup_insert_eq by (by eapply lookup_lt_Some); naive_solver.
Qed.

(** ** The reader *)
(** In the middle of its loop, having read [j] cells, [n] to go; then the offset. *)
Fixpoint scans {X} (c : Config) (g : Z -> X) (j n : nat) (acc : Z) (q : M Mem X) : Prop :=
  match n with
  | O => exists k, q = Act (fun m => Some (m, committedOffset m)) k /\ forall off, k off = Ret (g (acc -! off))
  | S n => exists f k, q = Act f k /\
      (forall m m' z, f m = Some (m', z) -> m' = m /\ cells c m !! j = Some z) /\
      forall z, scans c g (S j) n (acc +! z) (k z)
  end.

Lemma load_cell (get : Mem -> list Z) i m m' z :
  (match idx_get (get m) i with Some x => Some (m, x) | None => None end) = Some (m', z) -> m' = m /\ get m !! Z.to_nat i = Some z.
Proof.
  destruct (idx_get (get m) i) as [x|] eqn:Hx; [|done]. intros [= <- <-]. split; [done|]. by apply idx_get_lookup in Hx as [_ ?].
Qed.

Lemma Zsum_take_insert (l : list Z) i y j : exists d, Zsum (<[i:=y]> l) = Zsum l + d /\
  Zsum (take j (<[i:=y]> l)) = Zsum (take j l) + (if bool_decide (i < j)%nat then d else 0).
Proof.
  destruct (l !! i) as [x|] eqn:Hx; cycle 1.
  { exists 0. rewrite list_insert_ge by (by apply lookup_ge_None). case_bool_decide; lia. }
  exists (y - x). rewrite (Zsum_insert l i x y Hx). split; [lia|]. case_bool_decide.
  - rewrite take_insert_lt by done. rewrite (Zsum_insert _ _ x); [lia|]. by rewrite lookup_take_lt.
  - rewrite take_insert_ge by lia. lia.
Qed.

(** A thread that is reading ends with the net it would have found at the end, but
    for what the cells it had passed rose and fell meanwhile. *)
Lemma scan_until c i g cf up down cf' : until c i cf up down cf' ->
  forall j n acc q, among c cf -> pool cf !! i = Some q -> scans c g j n acc q -> (j + n = ncells c)%nat ->
  exists vec e, pool cf' !! i = Some (Ret (g vec)) /\ - up <= e <= down /\
    vec ≡ₘ acc - Zsum (take j (cells c (st cf))) + cells_net c (st cf') + e.
Proof.
  induction 1 as [cf r Hr|cf cf1 up down cf2 Hnot Hs Hu IH d]; intros j n acc q Ham Hq Hsc Hn.
  { rewrite Hr in Hq. injection Hq as <-. destruct n; [destruct Hsc as (? & ? & _)|destruct Hsc as (? & ? & ? & _)]; done. }
  destruct (among_step _ _ _ Ham Hs) as (Ham1 & c0 & x & Hcell).
  destruct (step_thread i q cf cf1 Hs Hq) as [Hq1|[(f & k & z & -> & Hf & Hq1)|(k & Hk & Hq1)]].
  - destruct (IH j n acc q Ham1 Hq1 Hsc Hn) as (vec & e & Hr & He & Hv). exists vec.
    destruct (Zsum_take_insert (cells c (st cf)) c0 x j) as (dd & Hall & Htk). rewrite <- Hcell in Hall, Htk.
    rewrite Htk in Hv. exists (e - if bool_decide (c0 < j)%nat then dd else 0). split; [done|]. subst d. split; [case_bool_decide; lia|].
    destruct Hv as [w Hw]. exists w. lia.
  - destruct n as [|n]; cbn [scans] in Hsc.
    + destruct Hsc as (k' & [= -> ->] & Hk'). injection Hf as Hst <-. rewrite Hk' in Hq1.
      inversion Hu as [? r Hr|? ? ? ? ? Hno]; subst; [|by destruct (Hno _ Hq1)].
      exists (acc -! committedOffset (st cf)), 0. split; [done|]. subst d. split; [lia|].
      unfold cells_net, sub64. rewrite <- Hst, firstn_all2 by (destruct Ham; lia).
      rewrite wrap64_eqm. eqm_lia.
    + destruct Hsc as (f' & k' & [= -> ->] & Hf' & Hk'). destruct (Hf' _ _ _ Hf) as [Hst Hz].
      destruct (IH (S j) n (acc +! z) _ Ham1 Hq1 (Hk' z)) as (vec & e & Hr & He & Hv); [lia|].
      exists vec, e. split; [done|]. split; [lia|]. rewrite Hv, Hst, (take_S_r _ _ _ Hz), Zsum_app, add64_eqm.
      rewrite Zsum_cons, Zsum_nil. eqm_lia.
  - destruct n; [destruct Hsc as (? & -> & _)|destruct Hsc as (? & ? & -> & _)]; by destruct Hk.
Qed.

(** The answer of a reading call, from the scalar and the vector it saw. *)
Definition answer (op : Op) (s vec : Z) : Res :=
  match op with
  | OpAvailable => RInt (s -! Helpers.abs vec)
  | OpState => RState s vec
  | OpCheckCommit t => if Helpers.abs vec >=? t then RCheck true vec else RCheck false 0
  | _ => RUnit
  end.

Lemma scans_bind {X Y} c (g : Z -> X) (h : Z -> Y) (K : X -> M Mem Y) j n acc q :
  (forall vec, K (g vec) = Ret (h vec)) -> scans c g j n acc q -> scans c h j n acc (q ≫= K).
Proof.
  intros HK. revert j acc q. induction n as [|n IH]; intros j acc q; cbn [scans].
  - intros (k & -> & Hk). eexists. split; [reflexivity|]. intros off. cbn. by rewrite Hk.
  - intros (f & k & -> & Hf & Hk). eexists f, _. split; [reflexivity|]. split; [done|]. intros z. apply IH, Hk.
Qed.

Lemma scans_cells c get j n acc : (forall m, cells c m = get m) ->
  scans c id j n acc (sum ← sum_range (load_at get) (Z.of_nat j) n acc; off ← load committedOffset; mret (sum -! off)).
Proof.
  intros Hget. revert j acc. induction n as [|n IH]; intros j acc; cbn [scans sum_range]; [by eexists|].
  eexists _, _. split; [reflexivity|]. split.
  - intros m m' z Hz. rewrite Hget. apply load_cell in Hz as [-> Hz]. by rewrite Nat2Z.id in Hz.
  - intros z. specialize (IH (S j) (acc +! z)). by rewrite Nat2Z.inj_succ in IH.
Qed.

Lemma scans_vector c : scans c id 0 (ncells c) 0 (currentVector c).
Proof.
  unfold currentVector, sum_stripes, ncells. destruct (hGroups c >? 0) eqn:Hh;
    apply (scans_cells c _ 0); intros m; unfold cells; by rewrite Hh.
Qed.

(** Before its loop, [State] and [Available] load the scalar. *)
Lemma scan_after_scalar c i g cf up down cf' : until c i cf up down cf' ->
  forall k, among c cf -> pool cf !! i = Some (Act (fun m => Some (m, scalar m)) k) ->
  (forall s, scans c (g s) 0 (ncells c) 0 (k s)) ->
  exists s vec e, pool cf' !! i = Some (Ret (g s vec)) /\ - up <= e <= down /\ vec ≡ₘ cells_net c (st cf') + e.
Proof.
  induction 1 as [cf r Hr|cf cf1 up down cf2 Hnot Hs Hu IH d]; intros k Ham Hq Hsc; [by rewrite Hr in Hq|].
  destruct (among_step _ _ _ Ham Hs) as (Ham1 & _).
  destruct (step_thread i _ cf cf1 Hs Hq) as [Hq1|[(f & k' & z & [= <- <-] & Hf & Hq1)|(k' & [?|?] & _)]]; [| |done..].
  - destruct (IH k Ham1 Hq1 Hsc) as (s & vec & e & Hr & He & Hv). exists s, vec, e. split; [done|]. subst d. split; [lia|done].
  - destruct (scan_until _ _ _ _ _ _ _ Hu 0 _ _ _ Ham1 Hq1 (Hsc z) (Nat.add_0_l _)) as (vec & e & Hr & He & Hv).
    exists z, vec, e. split; [done|]. subst d. split; [lia|]. rewrite Hv, take_0, Zsum_nil. eqm_lia.
Qed.

Lemma callers_among v ops cf : wf (conf v) (mem v) -> rtc step (callers v ops) cf -> among (conf v) cf.
Proof.
  intros Hwf Hr. eapply (rtc_invariant step (among (conf v))); [|exact Hr|].
  - intros a b Hab Hs. by eapply among_step.
  - split; cbn.
    + pose proof (wf_len _ _ Hwf). pose proof (wf_hlen _ _ Hwf). unfold cells, ncells. destruct (_ >? _); lia.
    + apply Forall_fmap, list.Forall_forall. intros op _. apply cellwise_run_op.
Qed.

(** ** The theorem *)


(** ** Two reads, run *)
Fixpoint watch (c : Config) (i : nat) (sched : list nat) (cf : Conf Mem Res) : option (Z * Z * Conf Mem Res) :=
  match pool cf !! i, sched with
  | Some (Ret _), _ => Some (0, 0, cf)
  | Some _, j :: sched =>
      match step_at j cf with
      | Some cf1 =>
          match watch c i sched cf1 with
          | Some (up, down, cf2) =>
              let d := Zsum (cells c (st cf1)) - Zsum (cells c (st cf)) in Some (Z.max 0 d + up, Z.max 0 (- d) + down, cf2)
          | None => None
          end
      | None => None
      end
  | _, _ => None
  end.

Lemma watch_until c i sched cf up down cf' : watch c i sched cf = Some (up, down, cf') -> until c i cf up down cf'.
Proof.
  revert cf up down. induction sched as [|j sched IH]; intros cf up down; cbn [watch].
  - destruct (pool cf !! i) as [[r| | |]|] eqn:Hi; try done. intros [= <- <- <-]. by eapply until_done.
  - destruct (pool cf !! i) as [q|] eqn:Hi; [|done].
    assert (Hgo : (forall r, q <> Ret r) -> (match step_at j cf with Some cf1 => match watch c i sched cf1 with
      | Some (up, down, cf2) => let d := Zsum (cells c (st cf1)) - Zsum (cells c (st cf)) in
          Some (Z.max 0 d + up, Z.max 0 (- d) + down, cf2) | None => None end | None => None end) = Some (up, down, cf') ->
      until c i cf up down cf').
    { intros Hq. destruct (step_at j cf) as [cf1|] eqn:Hs; [|done]. destruct (watch c i sched cf1) as [[[u dn] cf2]|] eqn:Hw; [|done].
      intros [= <- <- <-]. eapply until_step; [|by eapply step_at_step|by apply IH].
      intros r. rewrite Hi. intros [= ->]. by apply (Hq r). }
    destruct q as [r| | |]; [|by apply Hgo..]. intros [= <- <- <-]. by eapply until_done.
Qed.

Lemma run_schedule_other i sched (cf cf' : Conf Mem Res) : Forall (fun j => j <> i) sched ->
  run_schedule sched cf = Some cf' -> pool cf' !! i = pool cf !! i.
Proof.
  intros Hne. revert cf. induction Hne as [|j sched Hj Hne IH]; intros cf; cbn [run_schedule]; [by intros [= ->]|].
  destruct (step_at j cf) as [cf1|] eqn:Hs; [|done]. intros ->%IH. unfold step_at in Hs.
  repeat case_match; simplify_eq/=; by rewrite list_lookup_insert_ne.
Qed.

(** One unit is consumed; the reader has read two stripes when the unit is refunded (on
    the second) and consumed again (on the third): it reads 2, and the net never was
    above 1.  A worker sends 2 to the backend, and [Commit] settles 1. *)
Definition torn_calls : list Op := [OpTryConsume 1; OpState; OpTryRefund 1; OpTryConsume 1].
Definition torn_accumulator : VSA := New 4 10.
Definition torn_start : option (Conf Mem Res) := run_schedule (replicate 15 0%nat) (callers torn_accumulator torn_calls).
Definition torn_schedule : list nat := replicate 3 1%nat ++ replicate 14 2%nat ++ replicate 15 3%nat ++ replicate 7 1%nat.
Definition torn_read : option (Z * Z * Conf Mem Res) :=
  match torn_start with Some cf => watch (conf torn_accumulator) 1 torn_schedule cf | None => None end.

Example torn_read_is_high :
  match torn_start, torn_read with
  | Some cf, Some (up, down, cf') => net (st cf) = 1 /\ (up, down) = (1, 1) /\
      pool cf' !! 1%nat = Some (Ret (RState 10 2)) /\ net (st cf') = 1
  | _, _ => False
  end.
Proof. vm_compute. done. Qed.

(** The other way round, a unit consumed on a stripe already read and refunded on the
    next: of a net that was never negative the reader reads -1. *)
Definition low_calls : list Op := [OpState; OpTryConsume 1; OpTryRefund 1].
Example torn_read_is_negative :
  match watch (conf torn_accumulator) 0 (replicate 2 0%nat ++ replicate 15 1%nat ++ replicate 14 2%nat ++ replicate 8 0%nat)
          (callers torn_accumulator low_calls) with
  | Some (up, down, cf') => (up, down) = (1, 1) /\ pool cf' !! 0%nat = Some (Ret (RState 10 (-1))) /\ net (st cf') = 0
  | None => False
  end.
Proof. vm_compute. done. Qed.

