(* ===== verification/Counter.v ===== *)
(** * What the service relies on in an accumulator

    The store, the worker and the HTTP handlers ([src/internal/ratelimiter/])
    use an accumulator only through seven methods, with amounts of one unit and
    commits of what they have just read.  [Counter] names those methods,
    [CounterLaws] what they promise while [0 <= V <= S]; the service is proved
    against this interface, and [vsa_counter] discharges it for [src/vsa.go]. *)
From S2P Require Import Prelude Machine Vsa VsaInv VsaSpec.
Import Spec.

(** A call returns [None] when it panics. *)
Class Counter (A : Type) := {
  ctr_new : Z -> A;
  ctr_State : A -> option (A * (Z * Z));
  ctr_Available : A -> option (A * Z);
  ctr_TryConsume : Z -> A -> option (A * bool);
  ctr_TryRefund : Z -> A -> option (A * bool);
  ctr_Commit : Z -> A -> option (A * unit);
  ctr_Close : A -> option (A * unit)
}.

(** [ctr_ok a S V]: [a] is in order, with budget [S] and pending vector [V]. *)
Class CounterLaws (A : Type) `{Counter A} := {
  ctr_ok : A -> Z -> Z -> Prop;
  ctr_range a S V : ctr_ok a S V -> 0 <= V <= S /\ S < H64;
  ctr_new_ok s : 0 <= s < H64 -> ctr_ok (ctr_new s) s 0;
  ctr_State_ok a S V : ctr_ok a S V ->
    exists a', ctr_State a = Some (a', (S, V)) /\ ctr_ok a' S V;
  ctr_Available_ok a S V : ctr_ok a S V ->
    exists a', ctr_Available a = Some (a', S - V) /\ ctr_ok a' S V;
  ctr_TryConsume_ok a S V : ctr_ok a S V ->
    exists a', ctr_TryConsume 1 a = Some (a', V <? S) /\
      ctr_ok a' S (if V <? S then V + 1 else V);
  ctr_TryRefund_ok a S V : ctr_ok a S V ->
    exists a', ctr_TryRefund 1 a = Some (a', 0 <? V) /\
      ctr_ok a' S (if 0 <? V then V - 1 else V);
  ctr_Commit_ok a S V v : ctr_ok a S V -> 0 <= v < H64 ->
    exists a', ctr_Commit v a = Some (a', tt) /\
      ctr_ok a' (S - Z.min v V) (V - Z.min v V);
  ctr_Close_ok a S V : ctr_ok a S V ->
    exists a', ctr_Close a = Some (a', tt) /\ ctr_ok a' S V
}.

(** ** The accumulator of [vsa.go] is one *)
Definition on_vsa {R} (method : Config -> M Mem R) (v : VSA) : option (VSA * R) :=
  match exec (method (conf v)) (mem v) with
  | Some (m', r) => Some (mkVSA (conf v) m', r)
  | None => None
  end.

#[export] Instance vsa_counter (gomaxprocs : Z) (opts : Options) : Counter VSA := {
  ctr_new s := NewWithOptions gomaxprocs s opts;
  ctr_State := on_vsa State;
  ctr_Available := on_vsa Available;
  ctr_TryConsume n := on_vsa (fun c => TryConsume c n);
  ctr_TryRefund n := on_vsa (fun c => TryRefund c n);
  ctr_Commit v := on_vsa (fun c => Commit c v);
  ctr_Close := on_vsa Close
}.

(** Options the service may be started with: no approximate gate, and a guard
    to which one unit can be added. *)
Definition service_options (opts : Options) : Prop :=
  UseCachedGate opts = false /\ GroupCount opts <= 1 /\ FastPathGuard opts < MaxInt64.

Record vsa_ok (v : VSA) (S V : Z) : Prop := {
  vok_wf : wf (conf v) (mem v);
  vok_exact : exact_config (conf v);
  vok_guard : in64 (1 + fastPathGuard (conf v));
  vok_abs : abstraction (mem v) = mkBalance S V;
  vok_range : 0 <= V <= S /\ S < H64
}.

Lemma vsa_ok_in_budget v S V : vsa_ok v S V -> in_budget (mkBalance S V).
Proof. intros H. apply (vok_range _ _ _ H). Qed.

Lemma vsa_ok_step v S V S' V' m' :
  vsa_ok v S V -> wf (conf v) m' -> abstraction m' = mkBalance S' V' ->
  0 <= V' <= S' -> S' < H64 -> vsa_ok (mkVSA (conf v) m') S' V'.
Proof. intros [] ???. by split. Qed.

(** A call of the interface is a call of [run_op] with its result unpacked. *)
Lemma vsa_call {R} (method : Config -> M Mem R) (pack : R -> Res) op v S V :
  vsa_ok v S V -> op_ok (conf v) op ->
  run_op (conf v) op = (r ← method (conf v); mret (pack r)) ->
  exists m' r, on_vsa method v = Some (mkVSA (conf v) m', r) /\ wf (conf v) m' /\
    spec_op op (mkBalance S V) = (abstraction m', pack r).
Proof.
  intros Hok Hop Heq.
  destruct (run_op_refines (conf v) (mem v) op) as (m' & r & He & Hwf & Hs);
    [apply Hok|apply Hok|done|].
  rewrite Heq, exec_bind in He. unfold on_vsa.
  destruct (exec (method (conf v)) (mem v)) as [[m1 x]|]; [|done].
  cbn in He. injection He as -> <-. rewrite (vok_abs _ _ _ Hok) in Hs. by exists m', x.
Qed.

Lemma NewWithOptions_exact gomaxprocs s opts :
  service_options opts ->
  exact_config (conf (NewWithOptions gomaxprocs s opts)) /\
  in64 (1 + fastPathGuard (conf (NewWithOptions gomaxprocs s opts))).
Proof.
  intros (Hu & Hg & Hf). unfold NewWithOptions, exact_config.
  rewrite (Z.gtb_ltb (GroupCount opts)), (proj2 (Z.ltb_ge _ _) Hg).
  destruct (if HierarchicalGroups opts >? 1 then _ else _). cbn.
  split; [by split|]. unfold in64, MaxInt64 in *. destruct (Z.gtb_spec (FastPathGuard opts) 0); lia.
Qed.

Section laws.
Context (gomaxprocs : Z) (opts : Options) (Hopts : service_options opts).

Lemma vsa_new_ok s : 0 <= s < H64 -> vsa_ok (NewWithOptions gomaxprocs s opts) s 0.
Proof.
  intros Hs. destruct (NewWithOptions_wf gomaxprocs s opts) as (Hwf & Hn & Hsc & _); [unfold in64; lia|].
  destruct (NewWithOptions_exact gomaxprocs s opts Hopts) as [Hx Hg].
  split; [done..| |lia]. unfold abstraction. by rewrite Hn, Hsc.
Qed.

(** The calls whose contract leaves the balance as it is. *)
Lemma vsa_quiet_call {R} (method : Config -> M Mem R) (pack : R -> Res) op v S V r :
  vsa_ok v S V -> op_ok (conf v) op ->
  run_op (conf v) op = (r ← method (conf v); mret (pack r)) ->
  spec_op op (mkBalance S V) = (mkBalance S V, pack r) -> (forall r', pack r = pack r' -> r = r') ->
  exists v', on_vsa method v = Some (v', r) /\ vsa_ok v' S V.
Proof.
  intros Hok Hop Heq Hspec Hinj. destruct (vsa_call method pack op v S V) as (m' & r' & He & Hwf & Hs);
    [done..|]. rewrite Hspec in Hs. injection Hs as Ha1 Ha2 Hr. rewrite (Hinj r' Hr).
  exists (mkVSA (conf v) m'). split; [done|]. apply (vsa_ok_step _ S V); [done|done| |apply Hok..]. unfold abstraction. congruence.
Qed.

Lemma vsa_State_ok v S V : vsa_ok v S V ->
  exists v', on_vsa State v = Some (v', (S, V)) /\ vsa_ok v' S V.
Proof.
  intros Hok. apply (vsa_quiet_call State (fun r => RState r.1 r.2) OpState); [done..|].
  intros [] [=]. by subst.
Qed.

Lemma vsa_Available_ok v S V : vsa_ok v S V ->
  exists v', on_vsa Available v = Some (v', S - V) /\ vsa_ok v' S V.
Proof.
  intros Hok. apply (vsa_quiet_call Available RInt OpAvailable); [done..| |].
  - cbn. by rewrite available_in_budget by by eapply vsa_ok_in_budget.
  - by intros ? [=].
Qed.

Lemma vsa_Close_ok v S V : vsa_ok v S V ->
  exists v', on_vsa Close v = Some (v', tt) /\ vsa_ok v' S V.
Proof.
  intros Hok. apply (vsa_quiet_call Close (fun _ => RUnit) OpClose); [done..|]. by intros [].
Qed.

Lemma vsa_TryConsume_ok v S V : vsa_ok v S V ->
  exists v', on_vsa (fun c => TryConsume c 1) v = Some (v', V <? S) /\
    vsa_ok v' S (if V <? S then V + 1 else V).
Proof.
  intros Hok. pose proof (vsa_ok_in_budget _ _ _ Hok) as Hb.
  destruct (vsa_call (fun c => TryConsume c 1) RBool (OpTryConsume 1) v S V)
    as (m' & b & He & Hwf & Hs); [done|split; [done|apply Hok]|done|].
  cbn in Hs. unfold try_consume in Hs. rewrite available_in_budget in Hs by done.
  cbn [budget pending] in Hs. unfold in_budget in Hb. cbn in Hb. rewrite He.
  destruct (Z.leb_spec 1 (S - V)), (Z.ltb_spec V S); try lia; injection Hs as Ha1 Ha2 <-;
    (eexists; split; [done|]; apply (vsa_ok_step _ S V); try done; try lia).
  - unfold abstraction. rewrite <- Ha1, <- Ha2. f_equal. by unwrap.
  - by unfold abstraction; rewrite <- Ha1, <- Ha2.
Qed.

Lemma vsa_TryRefund_ok v S V : vsa_ok v S V ->
  exists v', on_vsa (fun c => TryRefund c 1) v = Some (v', 0 <? V) /\
    vsa_ok v' S (if 0 <? V then V - 1 else V).
Proof.
  intros Hok. pose proof (vsa_ok_in_budget _ _ _ Hok) as Hb. unfold in_budget in Hb. cbn in Hb.
  destruct (vsa_call (fun c => TryRefund c 1) RBool (OpTryRefund 1) v S V)
    as (m' & b & He & Hwf & Hs); [done..|].
  cbn in Hs. unfold try_refund in Hs. cbn [budget pending] in Hs. rewrite He.
  destruct (Z.ltb_spec 0 V); injection Hs as Ha1 Ha2 <-;
    (eexists; split; [done|]; apply (vsa_ok_step _ S V); try done; try lia).
  all: by unfold abstraction; rewrite <- Ha1, <- Ha2; repeat f_equal; lia.
Qed.

Lemma vsa_Commit_ok v S V n : vsa_ok v S V -> 0 <= n < H64 ->
  exists v', on_vsa (fun c => Commit c n) v = Some (v', tt) /\
    vsa_ok v' (S - Z.min n V) (V - Z.min n V).
Proof.
  intros Hok Hn. pose proof (vsa_ok_in_budget _ _ _ Hok) as Hb. unfold in_budget in Hb. cbn in Hb.
  destruct (vsa_call (fun c => Commit c n) (fun _ => RUnit) (OpCommit n) v S V)
    as (m' & [] & He & Hwf & Hs); [done|by unfold op_ok, in64, MinInt64; lia|done|].
  cbn -[commit] in Hs. injection Hs as Ha. rewrite He. eexists. split; [done|].
  apply (vsa_ok_step _ S V); [done..| |lia|lia]. rewrite <- Ha. unfold commit. cbn [budget pending].
  destruct (Z.eqb_spec n 0), (Z.eqb_spec V 0); cbn [orb]; [f_equal; lia..|].
  rewrite commit_amount_in_budget, (Z.abs_eq n) by lia.
  rewrite abs_eq by (unfold in64, MinInt64; lia). unwrap. f_equal. lia.
Qed.

#[export] Instance vsa_laws : @CounterLaws VSA (vsa_counter gomaxprocs opts).
Proof.
  refine (@Build_CounterLaws VSA (vsa_counter gomaxprocs opts) vsa_ok _ _ _ _ _ _ _ _).
  - intros a S V H. apply (vok_range _ _ _ H).
  - apply vsa_new_ok.
  - apply vsa_State_ok.
  - apply vsa_Available_ok.
  - apply vsa_TryConsume_ok.
  - apply vsa_TryRefund_ok.
  - intros a S V v. apply vsa_Commit_ok.
  - apply vsa_Close_ok.
Defined.
End laws.
