(* ===== verification/Effects.v ===== *)
(** * Sequential stateful code

    The handlers, the worker and the pipelines are sequences of calls on shared
    Go objects.  A piece of such code is a function from the objects' state to
    the state after it and its result, or [None] when it panics.  [triple] is
    total correctness: from a state in [P] the code ends, without a panic, in
    a state and result in [Q]. *)
From S2P Require Import Prelude.

Definition SM (St A : Type) : Type := St -> option (St * A).

#[export] Instance SM_ret {St} : MRet (SM St) := fun A a s => Some (s, a).
#[export] Instance SM_bind {St} : MBind (SM St) := fun A B g p s =>
  match p s with Some (s', a) => g a s' | None => None end.

Definition gets {St A} (f : St -> A) : SM St A := fun s => Some (s, f s).
Definition modify {St} (f : St -> St) : SM St unit := fun s => Some (f s, tt).
Definition panic {St A} : SM St A := fun _ => None.
Definition when {St} (b : bool) (p : SM St unit) : SM St unit := if b then p else mret tt.

(** Code on a part of the state. *)
Definition zoom {St Sub A} (get : St -> Sub) (set : Sub -> St -> St) (p : SM Sub A) : SM St A :=
  fun s => match p (get s) with Some (x, a) => Some (set x s, a) | None => None end.

(** [for _, x := range l { acc = f acc x }] *)
Fixpoint foldM {St A B} (f : B -> A -> SM St B) (acc : B) (l : list A) : SM St B :=
  match l with
  | [] => mret acc
  | x :: l => acc' ← f acc x; foldM f acc' l
  end.

Definition for_each {St A} (f : A -> SM St unit) (l : list A) : SM St unit :=
  foldM (fun _ x => f x) tt l.

(** ** Total correctness *)
Definition triple {St A} (P : St -> Prop) (p : SM St A) (Q : St -> A -> Prop) : Prop :=
  forall s, P s -> exists s' a, p s = Some (s', a) /\ Q s' a.

Section triple_rules.
Context {St : Type}.
Implicit Types (P : St -> Prop).

Lemma triple_ret {A} (a : A) (Q : St -> A -> Prop) : triple (fun s => Q s a) (mret a) Q.
Proof. intros s H. by exists s, a. Qed.

Lemma triple_bind {A B} P (p : SM St A) (R : St -> A -> Prop) (g : A -> SM St B) Q :
  triple P p R -> (forall a, triple (fun s => R s a) (g a) Q) -> triple P (p ≫= g) Q.
Proof.
  intros Hp Hg s HP. destruct (Hp s HP) as (s1 & a & He & HR).
  destruct (Hg a s1 HR) as (s2 & b & Hb & HQ). exists s2, b.
  split; [|done]. unfold mbind, SM_bind. by rewrite He.
Qed.

Lemma triple_conseq {A} P P' (p : SM St A) (Q Q' : St -> A -> Prop) :
  triple P' p Q' -> (forall s, P s -> P' s) -> (forall s a, Q' s a -> Q s a) -> triple P p Q.
Proof.
  intros H HP HQ s Hs. destruct (H s (HP s Hs)) as (s' & a & He & HQ'). exists s', a. auto.
Qed.

Lemma triple_gets {A} (f : St -> A) (Q : St -> A -> Prop) :
  triple (fun s => Q s (f s)) (gets f) Q.
Proof. intros s H. by exists s, (f s). Qed.

Lemma triple_modify (f : St -> St) (Q : St -> unit -> Prop) :
  triple (fun s => Q (f s) tt) (modify f) Q.
Proof. intros s H. by exists (f s), tt. Qed.

(** A loop, with an invariant on the elements already visited. *)
Lemma triple_foldM {A B} (f : B -> A -> SM St B) (I : list A -> St -> B -> Prop) l acc :
  (forall done x rest b, l = done ++ x :: rest ->
     triple (fun s => I done s b) (f b x) (fun s b' => I (done ++ [x]) s b')) ->
  triple (fun s => I [] s acc) (foldM f acc l) (I l).
Proof.
  intros Hstep. enough (forall visited rest b, l = visited ++ rest ->
    triple (fun s => I visited s b) (foldM f b rest) (I l)) as H by (by apply (H [] l acc)).
  intros visited rest. revert visited.
  induction rest as [|x rest IH]; intros visited b Hl; cbn [foldM].
  - rewrite app_nil_r in Hl. subst. apply triple_ret.
  - eapply triple_bind; [by apply (Hstep visited x rest)|]. intros b'. cbn.
    apply IH. by rewrite <- app_assoc.
Qed.

Lemma triple_for_each {A} (f : A -> SM St unit) (I : list A -> St -> Prop) l :
  (forall done x rest, l = done ++ x :: rest ->
     triple (I done) (f x) (fun s _ => I (done ++ [x]) s)) ->
  triple (I []) (for_each f l) (fun s _ => I l s).
Proof.
  intros H. apply (triple_foldM (fun _ x => f x) (fun d s _ => I d s)). intros. by eapply H.
Qed.
End triple_rules.

Lemma triple_zoom {St Sub A} (get : St -> Sub) (set : Sub -> St -> St) (p : SM Sub A)
    (P : Sub -> Prop) (Q : Sub -> A -> Prop) s :
  triple P p Q -> P (get s) ->
  exists x a, zoom get set p s = Some (set x s, a) /\ p (get s) = Some (x, a) /\ Q x a.
Proof.
  intros H HP. destruct (H _ HP) as (x & a & He & HQ). exists x, a. unfold zoom. by rewrite He.
Qed.

Lemma bind_Some {St A B} (p : SM St A) (g : A -> SM St B) s s' a :
  p s = Some (s', a) -> (p ≫= g) s = g a s'.
Proof. intros H. unfold mbind, SM_bind. by rewrite H. Qed.

Lemma bind_eq {St A B} (p q : SM St A) (g : A -> SM St B) s r :
  p s = q s -> (q ≫= g) s = r -> (p ≫= g) s = r.
Proof. unfold mbind, SM_bind. by intros ->. Qed.

Lemma foldM_app {St A B} (f : B -> A -> SM St B) acc l1 l2 s :
  foldM f acc (l1 ++ l2) s = (acc' ← foldM f acc l1; foldM f acc' l2) s.
Proof.
  revert acc s. induction l1 as [|x l1 IH]; intros acc s; [done|]. cbn [foldM app].
  unfold mbind, SM_bind in *. destruct (f acc x s) as [[s' b]|]; [apply IH|done].
Qed.
