(* ===== verification/Store.v ===== *)
(** * The in-memory store ([core/store.go])

    [Store.counters] is a [sync.Map] from keys to pointers; [objects] is the
    heap of [managedVSA] objects those pointers lead to.  An object stays on the
    heap after its key is deleted, because a request may still hold the pointer.
    The store is generic in the accumulator ([Counter]).

    The second half relates a store to its ledger: the list of balances of its
    objects.  [rep] is the invariant, and one lemma per operation says what it
    does to the ledger. *)
From S2P Require Import Prelude Effects Vsa VsaSpec Counter.
Import Spec.

Section Store.
Context {A : Type} `{CA : Counter A}.

Record managedVSA := mkManaged {
  instance : A;
  lastAccessed : Z;
  armed : bool
}.

Record Store := mkStore {
  counters : gmap string nat;
  objects : list managedVSA;
  initialScalar : Z
}.

Definition NewStore (initial : Z) : Store := mkStore ∅ [] initial.

Definition set_objects (os : list managedVSA) (s : Store) : Store :=
  mkStore (counters s) os (initialScalar s).
Definition set_counters (cs : gmap string nat) (s : Store) : Store :=
  mkStore cs (objects s) (initialScalar s).

(** ** Access through a pointer *)
Definition on_instance {R} (method : A -> option (A * R)) (p : nat) : SM Store R := fun s =>
  match objects s !! p with
  | None => None
  | Some m =>
      match method (instance m) with
      | None => None
      | Some (a, r) =>
          Some (set_objects (<[p := mkManaged a (lastAccessed m) (armed m)]> (objects s)) s, r)
      end
  end.

Definition read_field {R} (f : managedVSA -> R) (p : nat) : SM Store R := fun s =>
  match objects s !! p with Some m => Some (s, f m) | None => None end.

Definition store_lastAccessed (p : nat) (now : Z) : SM Store unit :=
  modify (fun s => set_objects
    (alter (fun m => mkManaged (instance m) now (armed m)) p (objects s)) s).

Definition store_armed (p : nat) (b : bool) : SM Store unit :=
  modify (fun s => set_objects
    (alter (fun m => mkManaged (instance m) (lastAccessed m) b) p (objects s)) s).

(** ** [GetOrCreate]: look up, and on a miss allocate and publish *)
Definition load (key : string) : SM Store (option nat) := gets (fun s => counters s !! key).

(** [&managedVSA{instance: vsa.NewWithOptions(...), lastAccessed: now}], armed. *)
Definition allocate (now : Z) : SM Store nat := fun s =>
  Some (set_objects (objects s ++ [mkManaged (ctr_new (initialScalar s)) now true]) s,
        length (objects s)).

Definition LoadOrStore (key : string) (p : nat) : SM Store (nat * bool) := fun s =>
  match counters s !! key with
  | Some q => Some (s, (q, true))
  | None => Some (set_counters (<[key := p]> (counters s)) s, (p, false))
  end.

Definition publish (key : string) (p : nat) (now : Z) : SM Store nat :=
  '(q, loaded) ← LoadOrStore key p;
  if (loaded : bool) then store_lastAccessed q now ;; mret q else mret p.

Definition GetOrCreate (key : string) (now : Z) : SM Store nat :=
  actual ← load key;
  match actual with
  | Some p => store_lastAccessed p now ;; mret p
  | None => p ← allocate now; publish key p now
  end.

(** [sync.Map.Range]: the keys in some order, each at most once; a key deleted
    meanwhile is skipped. *)
Definition ForEach {R} (order : list string) (f : R -> string -> nat -> SM Store R) (acc : R) :
  SM Store R :=
  foldM (fun acc key => actual ← load key;
           match actual with Some p => f acc key p | None => mret acc end) acc order.

Definition LoadAndDelete (key : string) : SM Store (option nat) := fun s =>
  Some (set_counters (delete key (counters s)) s, counters s !! key).

Definition Delete (key : string) : SM Store unit :=
  v ← LoadAndDelete key;
  match v with Some p => on_instance ctr_Close p | None => mret tt end.

Definition CloseAll (order : list string) : SM Store unit :=
  ForEach order (fun _ _ p => on_instance ctr_Close p) tt.
End Store.
Arguments managedVSA A : clear implicits.
Arguments Store A : clear implicits.
