(* ===== verification/Ledger.v ===== *)
(** * The ledger of a store

    What the service depends on in a store is, for every object, its balance,
    its last access and whether it is armed.  [rep] says that a store is in
    order and has a given ledger; each operation of [Store] then has one lemma,
    a total-correctness triple, that says what it returns and what it does to
    the ledger. *)
From S2P Require Import Prelude Effects Vsa VsaSpec Counter Store.
Import Spec.

Record Obj := mkObj { bal : Balance; last : Z; ready : bool }.

Record Ledger := mkLedger {
  entries : gmap string nat;
  objs : list Obj;
  limit : Z
}.

Definition set_bal (b : Balance) (o : Obj) : Obj := mkObj b (last o) (ready o).
Definition set_last (now : Z) (o : Obj) : Obj := mkObj (bal o) now (ready o).
Definition set_ready (b : bool) (o : Obj) : Obj := mkObj (bal o) (last o) b.

Definition upd (p : nat) (f : Obj -> Obj) (L : Ledger) : Ledger :=
  mkLedger (entries L) (alter f p (objs L)) (limit L).
Definition set_entries (cs : gmap string nat) (L : Ledger) : Ledger :=
  mkLedger cs (objs L) (limit L).
Definition push (o : Obj) (L : Ledger) : Ledger :=
  mkLedger (entries L) (objs L ++ [o]) (limit L).

(** A new object: the whole limit available, armed. *)
Definition fresh (L : Ledger) (now : Z) : Obj := mkObj (mkBalance (limit L) 0) now true.

(** Distinct keys have distinct objects, all allocated. *)
Record keyed (cs : gmap string nat) (n : nat) : Prop := {
  keyed_lt k p : cs !! k = Some p -> (p < n)%nat;
  keyed_inj k1 k2 p : cs !! k1 = Some p -> cs !! k2 = Some p -> k1 = k2
}.

Lemma keyed_empty n : keyed ∅ n.
Proof. by split. Qed.

Lemma keyed_delete cs n k : keyed cs n -> keyed (delete k cs) n.
Proof.
  intros [Hlt Hinj]. split.
  - intros k' p [_ H]%lookup_delete_Some. by eapply Hlt.
  - intros k1 k2 p [_ H1]%lookup_delete_Some [_ H2]%lookup_delete_Some. by eapply Hinj.
Qed.

Lemma keyed_insert cs n k p :
  keyed cs n -> (p < n)%nat -> (forall k', cs !! k' <> Some p) -> keyed (<[k:=p]> cs) n.
Proof.
  intros [Hlt Hinj] Hp Hnew. split.
  - intros k' q [[<- <-]|[_ H]]%lookup_insert_Some; [done|by eapply Hlt].
  - intros k1 k2 q [[<- <-]|[_ H1]]%lookup_insert_Some [[<- Hq]|[_ H2]]%lookup_insert_Some;
      [done| | |by eapply Hinj].
    + by edestruct Hnew.
    + subst. by edestruct Hnew.
Qed.

Lemma keyed_le cs n m : keyed cs n -> (n <= m)%nat -> keyed cs m.
Proof. intros [Hlt Hinj] Hle. split; [|done]. intros k p H. specialize (Hlt k p H). lia. Qed.

Section Ledger.
Context {A : Type} {CA : Counter A} {CL : CounterLaws A}.
Implicit Types (s : Store A) (L : Ledger).

Definition obj_ok (m : managedVSA A) (o : Obj) : Prop :=
  ctr_ok (instance m) (budget (bal o)) (pending (bal o)) /\
  lastAccessed m = last o /\ armed m = ready o.

Record rep (L : Ledger) (s : Store A) : Prop := {
  rep_entries : counters s = entries L;
  rep_limit : initialScalar s = limit L;
  rep_objs : Forall2 obj_ok (objects s) (objs L);
  rep_keyed : keyed (entries L) (length (objs L));
  rep_range : 0 <= limit L < H64
}.

Lemma rep_obj L s p o :
  rep L s -> objs L !! p = Some o -> exists m, objects s !! p = Some m /\ obj_ok m o.
Proof. intros H Ho. by apply (Forall2_lookup_r _ _ _ _ _ (rep_objs L s H)). Qed.

Lemma rep_in_budget L s p o :
  rep L s -> objs L !! p = Some o -> 0 <= pending (bal o) <= budget (bal o) /\ budget (bal o) < H64.
Proof. intros H Ho. destruct (rep_obj L s p o H Ho) as (m & _ & [Hok _]). by eapply ctr_range. Qed.

Lemma rep_entry L s k p : rep L s -> entries L !! k = Some p -> is_Some (objs L !! p).
Proof. intros H Hp. apply lookup_lt_is_Some_2, (keyed_lt _ _ (rep_keyed L s H) k p Hp). Qed.

(** Changing one object, on both sides. *)
Lemma rep_upd L s p m o m' f :
  rep L s -> objects s !! p = Some m -> objs L !! p = Some o -> obj_ok m' (f o) ->
  rep (upd p f L) (set_objects (<[p := m']> (objects s)) s).
Proof.
  intros [He Hl Ho Hk Hr] Hm Hp Hok. split; cbn; [done|done| |by rewrite length_alter|done].
  rewrite (list_alter_as_insert (objs L) p f o Hp). by apply Forall2_insert.
Qed.

Lemma on_instance_ok {R} (method : A -> option (A * R)) p L o b (r : R) :
  objs L !! p = Some o ->
  (forall a, ctr_ok a (budget (bal o)) (pending (bal o)) ->
     exists a', method a = Some (a', r) /\ ctr_ok a' (budget b) (pending b)) ->
  triple (rep L) (on_instance method p) (fun s x => x = r /\ rep (upd p (set_bal b) L) s).
Proof.
  intros Ho Hm s H. destruct (rep_obj L s p o H Ho) as (m & Hp & Hok & Hl & Ha).
  destruct (Hm _ Hok) as (a' & He & Hok'). unfold on_instance. rewrite Hp, He.
  eexists _, r. split; [done|]. split; [done|]. by eapply rep_upd.
Qed.

Lemma upd_same p f L o : objs L !! p = Some o -> f o = o -> upd p f L = L.
Proof.
  intros Hp Hf. destruct L as [es os l]. unfold upd. cbn in *. f_equal.
  by eapply list_alter_same.
Qed.

Lemma set_bal_id o : set_bal (bal o) o = o.
Proof. by destruct o. Qed.

Lemma on_instance_quiet {R} (method : A -> option (A * R)) p L o (r : R) :
  objs L !! p = Some o ->
  (forall a, ctr_ok a (budget (bal o)) (pending (bal o)) ->
     exists a', method a = Some (a', r) /\ ctr_ok a' (budget (bal o)) (pending (bal o))) ->
  triple (rep L) (on_instance method p) (fun s x => x = r /\ rep L s).
Proof.
  intros Ho Hm. eapply triple_conseq; [by apply (on_instance_ok method p L o (bal o) r)|done|].
  intros s a [-> H]. split; [done|]. by rewrite (upd_same p _ L o) in H by (done || apply set_bal_id).
Qed.

Lemma State_ok p L o : objs L !! p = Some o ->
  triple (rep L) (on_instance ctr_State p)
    (fun s r => r = (budget (bal o), pending (bal o)) /\ rep L s).
Proof. intros. eapply on_instance_quiet; [done|]. intros. by apply ctr_State_ok. Qed.

Lemma Available_ok p L o : objs L !! p = Some o ->
  triple (rep L) (on_instance ctr_Available p)
    (fun s r => r = budget (bal o) - pending (bal o) /\ rep L s).
Proof. intros. eapply on_instance_quiet; [done|]. intros. by apply ctr_Available_ok. Qed.

Lemma Close_ok p L o : objs L !! p = Some o ->
  triple (rep L) (on_instance ctr_Close p) (fun s _ => rep L s).
Proof.
  intros. eapply triple_conseq; [eapply (on_instance_quiet ctr_Close p L o tt); [done|]|done|by intros ?? []].
  intros. by apply ctr_Close_ok.
Qed.

(** What one unit consumed or refunded, or a commit, does to a balance. *)
Definition consume1 (b : Balance) : Balance :=
  mkBalance (budget b) (if pending b <? budget b then pending b + 1 else pending b).
Definition refund1 (b : Balance) : Balance :=
  mkBalance (budget b) (if 0 <? pending b then pending b - 1 else pending b).
Definition settle (v : Z) (b : Balance) : Balance :=
  mkBalance (budget b - Z.min v (pending b)) (pending b - Z.min v (pending b)).

Definition on_bal (f : Balance -> Balance) (o : Obj) : Obj := set_bal (f (bal o)) o.

Lemma upd_ext p f g L o : objs L !! p = Some o -> f o = g o -> upd p f L = upd p g L.
Proof.
  intros Hp Hf. unfold upd. f_equal. by rewrite !(list_alter_as_insert _ _ _ _ Hp), Hf.
Qed.

Lemma TryConsume_ok p L o : objs L !! p = Some o ->
  triple (rep L) (on_instance (ctr_TryConsume 1) p)
    (fun s r => r = (pending (bal o) <? budget (bal o)) /\ rep (upd p (on_bal consume1) L) s).
Proof.
  intros Ho. rewrite (upd_ext p (on_bal consume1) (set_bal (consume1 (bal o))) L o Ho eq_refl).
  eapply on_instance_ok; [done|]. intros. by apply ctr_TryConsume_ok.
Qed.

Lemma TryRefund_ok p L o : objs L !! p = Some o ->
  triple (rep L) (on_instance (ctr_TryRefund 1) p)
    (fun s r => r = (0 <? pending (bal o)) /\ rep (upd p (on_bal refund1) L) s).
Proof.
  intros Ho. rewrite (upd_ext p (on_bal refund1) (set_bal (refund1 (bal o))) L o Ho eq_refl).
  eapply on_instance_ok; [done|]. intros. by apply ctr_TryRefund_ok.
Qed.

Lemma Commit_ok p L o v : objs L !! p = Some o -> 0 <= v < H64 ->
  triple (rep L) (on_instance (ctr_Commit v) p)
    (fun s _ => rep (upd p (on_bal (settle v)) L) s).
Proof.
  intros Ho Hv. rewrite (upd_ext p (on_bal (settle v)) (set_bal (settle v (bal o))) L o Ho eq_refl).
  eapply triple_conseq; [eapply (on_instance_ok _ p L o _ tt); [done|]|done|by intros ?? []].
  intros. by apply ctr_Commit_ok.
Qed.

(** ** Fields *)
Lemma read_lastAccessed_ok p L o : objs L !! p = Some o ->
  triple (rep L) (read_field lastAccessed p) (fun s r => r = last o /\ rep L s).
Proof.
  intros Ho s H. destruct (rep_obj L s p o H Ho) as (m & Hp & _ & Hl & _).
  exists s, (last o). unfold read_field. by rewrite Hp, Hl.
Qed.

Lemma read_armed_ok p L o : objs L !! p = Some o ->
  triple (rep L) (read_field armed p) (fun s r => r = ready o /\ rep L s).
Proof.
  intros Ho s H. destruct (rep_obj L s p o H Ho) as (m & Hp & _ & _ & Ha).
  exists s, (ready o). unfold read_field. by rewrite Hp, Ha.
Qed.

Lemma store_lastAccessed_ok p L now o : objs L !! p = Some o ->
  triple (rep L) (store_lastAccessed p now) (fun s _ => rep (upd p (set_last now) L) s).
Proof.
  intros Ho s H. destruct (rep_obj L s p o H Ho) as (m & Hp & Hok).
  eexists _, tt. split; [done|]. cbn. rewrite (list_alter_as_insert _ _ _ _ Hp).
  eapply rep_upd; [done..|]. destruct Hok as (? & ? & ?). by split_and!.
Qed.

Lemma store_armed_ok p L b o : objs L !! p = Some o ->
  triple (rep L) (store_armed p b) (fun s _ => rep (upd p (set_ready b) L) s).
Proof.
  intros Ho s H. destruct (rep_obj L s p o H Ho) as (m & Hp & Hok).
  eexists _, tt. split; [done|]. cbn. rewrite (list_alter_as_insert _ _ _ _ Hp).
  eapply rep_upd; [done..|]. destruct Hok as (? & ? & ?). by split_and!.
Qed.

(** ** Keys *)
Lemma load_ok key L :
  triple (rep L) (load key) (fun s r => r = entries L !! key /\ rep L s).
Proof. intros s H. eexists _, _. split; [done|]. by rewrite (rep_entries L s H). Qed.

Lemma allocate_ok now L :
  triple (rep L) (allocate now)
    (fun s p => p = length (objs L) /\ rep (push (fresh L now) L) s).
Proof.
  intros s [He Hl Ho Hk Hr]. eexists _, _. split; [done|]. split; [by eapply Forall2_length|].
  split; cbn; [done..| | |done].
  - apply Forall2_app; [done|]. constructor; [|done]. split; [|done]. cbn. rewrite Hl. by apply ctr_new_ok.
  - eapply keyed_le; [done|]. rewrite length_app. lia.
Qed.

Lemma rep_set_entries L s cs :
  rep L s -> keyed cs (length (objs L)) -> rep (set_entries cs L) (set_counters cs s).
Proof. intros [He Hl Ho Hk Hr] Hc. by split. Qed.

Lemma publish_ok key p now L :
  is_Some (objs L !! p) -> (forall k, entries L !! k <> Some p) ->
  triple (rep L) (publish key p now) (fun s r =>
    match entries L !! key with
    | Some q => r = q /\ rep (upd q (set_last now) L) s
    | None => r = p /\ rep (set_entries (<[key := p]> (entries L)) L) s
    end).
Proof.
  intros Hp Hnew s H. unfold publish. destruct (entries L !! key) as [q|] eqn:Hq.
  - destruct (rep_entry L s key q H Hq) as [o Ho].
    destruct (store_lastAccessed_ok q L now o Ho s H) as (s' & [] & Hs & Hr).
    exists s', q. split; [|done]. unfold LoadOrStore, mbind, SM_bind. rewrite (rep_entries L s H), Hq.
    by rewrite Hs.
  - eexists _, p. unfold LoadOrStore, mbind, SM_bind. rewrite (rep_entries L s H), Hq.
    split; [done|]. split; [done|]. apply rep_set_entries; [done|].
    apply keyed_insert; [apply (rep_keyed L s H)|by apply lookup_lt_is_Some_1|done].
Qed.

(** The ledger after [GetOrCreate], and the pointer it returns. *)
Definition get_or_create (key : string) (now : Z) (L : Ledger) : Ledger * nat :=
  match entries L !! key with
  | Some p => (upd p (set_last now) L, p)
  | None => let p := length (objs L) in
            (set_entries (<[key := p]> (entries L)) (push (fresh L now) L), p)
  end.

Lemma GetOrCreate_ok key now L :
  triple (rep L) (GetOrCreate key now) (fun s r =>
    rep (get_or_create key now L).1 s /\ r = (get_or_create key now L).2).
Proof.
  unfold GetOrCreate. eapply triple_bind; [apply load_ok|]. intros q s [-> H].
  unfold get_or_create. destruct (entries L !! key) as [p|] eqn:Hp; cbn.
  - destruct (rep_entry L s key p H Hp) as [o Ho].
    destruct (store_lastAccessed_ok p L now o Ho s H) as (s' & [] & Hs & Hr).
    exists s', p. unfold mbind, SM_bind. by rewrite Hs.
  - destruct (allocate_ok now L s H) as (s1 & p & Ha & -> & H1).
    destruct (publish_ok key (length (objs L)) now (push (fresh L now) L)) with (s := s1)
      as (s2 & r & Hpub & Hr); [| |done|].
    + cbn. rewrite lookup_app_r, Nat.sub_diag by done. by eexists.
    + cbn. intros k Hk%(keyed_lt _ _ (rep_keyed L s H)). lia.
    + cbn in Hr. rewrite Hp in Hr. destruct Hr as [-> Hr]. exists s2, (length (objs L)).
      unfold mbind, SM_bind. rewrite Ha. by split_and!.
Qed.

Lemma get_or_create_lookup key now L L' p :
  keyed (entries L) (length (objs L)) -> get_or_create key now L = (L', p) ->
  entries L' !! key = Some p /\ is_Some (objs L' !! p).
Proof.
  intros Hk. unfold get_or_create. destruct (entries L !! key) as [q|] eqn:Hq;
    intros [= <- <-]; cbn.
  - split; [done|]. rewrite list_lookup_alter_eq, fmap_is_Some.
    apply lookup_lt_is_Some_2. by eapply keyed_lt.
  - rewrite lookup_insert_eq, lookup_app_r, Nat.sub_diag by done. split; [done|]. by eexists.
Qed.

(** [ForEach], with an invariant on the keys already visited. *)
Definition visits (cs : gmap string nat) (order : list string) : list (string * nat) :=
  omap (fun k => pair k <$> cs !! k) order.

Lemma ForEach_ok {R} cs order (f : R -> string -> nat -> SM (Store A) R)
    (I : list (string * nat) -> Store A -> R -> Prop) acc :
  (forall visited s r, I visited s r -> counters s = cs) ->
  (forall visited key p rest r, visits cs order = visited ++ (key, p) :: rest ->
     triple (fun s => I visited s r) (f r key p) (fun s r' => I (visited ++ [(key, p)]) s r')) ->
  triple (fun s => I [] s acc) (ForEach order f acc) (fun s r => I (visits cs order) s r).
Proof.
  intros Hcs Hf. unfold ForEach.
  eapply triple_conseq; [apply (triple_foldM _ (fun seen s r => I (visits cs seen) s r))| |];
    [|done|done].
  intros seen key rest r Hl. eapply triple_bind.
  { eapply triple_conseq; [apply triple_gets with (Q := fun s q =>
      q = cs !! key /\ I (visits cs seen) s r)| |done].
    intros s HI. split; [|done]. by rewrite (Hcs _ _ _ HI). }
  intros q s [-> HI]. unfold visits in *. rewrite omap_app. cbn.
  destruct (cs !! key) as [p|] eqn:Hp; cbn.
  - apply (Hf _ key p (omap (fun k => pair k <$> cs !! k) rest)); [|done].
    rewrite Hl, omap_app. cbn. by rewrite Hp.
  - exists s, r. by rewrite app_nil_r.
Qed.

Lemma visits_elem cs order k p :
  (k, p) ∈ visits cs order <-> k ∈ order /\ cs !! k = Some p.
Proof.
  unfold visits. rewrite list_elem_of_omap. split.
  - intros (x & Hx & Hp). destruct (cs !! x) as [q|] eqn:Hq; cbn in Hp; [|done].
    injection Hp as <- <-. done.
  - intros [Hk Hp]. exists k. by rewrite Hp.
Qed.

(** The pointers of distinct keys are distinct. *)
Lemma visits_NoDup cs order n :
  keyed cs n -> NoDup order -> NoDup (visits cs order).*2.
Proof.
  intros Hk Hnd. induction Hnd as [|k order Hnk Hnd IH]; cbn; [constructor|].
  destruct (cs !! k) as [p|] eqn:Hp; cbn; [|done]. constructor; [|done].
  intros ([k' p'] & -> & Hin)%list_elem_of_fmap. apply visits_elem in Hin as [Hin Hp'].
  cbn in *. rewrite (keyed_inj _ _ Hk k k' p' Hp Hp') in Hnk. done.
Qed.

Lemma Delete_ok key L :
  triple (rep L) (Delete key) (fun s _ => rep (set_entries (delete key (entries L)) L) s).
Proof.
  intros s H. unfold Delete, LoadAndDelete, mbind, SM_bind. rewrite (rep_entries L s H).
  pose proof (rep_set_entries L s (delete key (entries L)) H
    (keyed_delete _ _ key (rep_keyed L s H))) as H'.
  destruct (entries L !! key) as [p|] eqn:Hp.
  - destruct (rep_entry L s key p H Hp) as [o Ho].
    destruct (Close_ok p (set_entries (delete key (entries L)) L) o Ho _ H') as (s' & [] & Hs & Hr).
    by exists s', tt.
  - by eexists _, tt.
Qed.

Lemma CloseAll_ok order L :
  triple (rep L) (CloseAll order) (fun s _ => rep L s).
Proof.
  eapply triple_conseq;
    [apply (ForEach_ok (entries L) order _ (fun _ s _ => rep L s) tt)|done|done].
  - intros ? s ? H. apply (rep_entries L s H).
  - intros visited key p rest r Hv s H.
    assert ((key, p) ∈ visits (entries L) order) as [_ Hp]%visits_elem by (rewrite Hv; set_solver).
    destruct (rep_entry L s key p H Hp) as [o Ho].
    by apply (Close_ok p L o Ho).
Qed.
End Ledger.

(** ** Racing creators *)
Section racing.
Context {A : Type} {CA : Counter A} {CL : CounterLaws A}.

(** Goroutines that all missed the key allocate one object each, and then
    publish, in any order, what they allocated. *)
Definition race_to_create (key : string) (nows : list Z) (order : list nat) :
  SM (Store A) (list nat) :=
  for_each (fun now => allocate now ;; mret tt) nows ;;
  foldM (fun rs p => r ← publish key p 0; mret (rs ++ [r])) [] order.

Lemma allocate_all_ok nows L :
  triple (rep L) (for_each (fun now => allocate now ;; mret tt) nows) (fun s _ =>
    exists L', rep L' s /\ entries L' = entries L /\
      length (objs L') = (length (objs L) + length nows)%nat).
Proof.
  eapply triple_conseq; [apply (triple_for_each _ (fun seen (s : Store A) =>
    exists L', rep L' s /\ entries L' = entries L /\
      length (objs L') = (length (objs L) + length seen)%nat))| |done].
  - intros seen now rest _ s (L' & Hs & He & Hl).
    destruct (allocate_ok now L' s Hs) as (s1 & p & Ha & _ & Hs1). erewrite bind_Some by done.
    eexists _, tt. split; [done|]. exists (push (fresh L' now) L'). split_and!; [done|done|].
    cbn. rewrite !length_app, Hl. cbn. lia.
  - intros s Hs. exists L. split_and!; [done|done|cbn; lia].
Qed.

(** Goroutines that race to create a key ([GetOrCreate]'s miss path) all get
    the same instance: whatever the order in which they publish, every one of
    them is handed the object of the first, which is the one the key leads to;
    the other allocations are unreachable and no other key changes. *)
Theorem racing_creators_share_instance key nows p order L (s : Store A) :
  rep L s -> entries L !! key = None ->
  Forall (fun q => (length (objs L) <= q < length (objs L) + length nows)%nat) (p :: order) ->
  exists s', race_to_create key nows (p :: order) s =
      Some (s', replicate (S (length order)) p) /\
    counters s' = <[key := p]> (counters s).
Proof.
  intros Hs Hmiss Hp. unfold race_to_create.
  destruct (allocate_all_ok nows L s Hs) as (s1 & [] & He & L1 & Hs1 & Hen & Hlen).
  erewrite bind_Some by done. inversion_clear Hp as [|?? Hp0 Hrest].
  assert (Hvalid : forall q, (length (objs L) <= q < length (objs L) + length nows)%nat -> is_Some (objs L1 !! q))
    by (intros q Hq; apply lookup_lt_is_Some_2; lia).
  pose proof (rep_keyed _ _ Hs) as Hk.
  destruct (publish_ok key p 0 L1 (Hvalid p Hp0)) with (s := s1) as (s2 & r & Hpub & Hr); [|done|].
  { intros k Hkp. rewrite Hen in Hkp. apply (keyed_lt _ _ Hk) in Hkp. lia. }
  rewrite Hen, Hmiss in Hr. destruct Hr as [-> Hs2]. cbn [foldM].
  erewrite bind_Some by (by erewrite bind_Some by done). cbn [app].
  destruct (triple_foldM (fun rs q => r ← publish key q 0; mret (rs ++ [r]))
    (fun seen (s : Store A) rs => rs = replicate (S (length seen)) p /\
       exists L2, rep L2 s /\ entries L2 = <[key := p]> (entries L)) order [p]) with (s := s2)
    as (s3 & rs & He3 & -> & L3 & Hs3 & He3').
  - intros seen q rest rs -> s' [-> (L2 & Hs' & He2)].
    assert (Hq : entries L2 !! key = Some p) by (rewrite He2; apply lookup_insert_eq).
    destruct (rep_entry L2 s' key p Hs' Hq) as [o Ho].
    destruct (store_lastAccessed_ok p L2 0 o Ho s' Hs') as (s4 & [] & Hs4 & Hr4).
    eexists _, _. split.
    { unfold publish, LoadOrStore, mbind, SM_bind. rewrite (rep_entries _ _ Hs'), Hq, Hs4. done. }
    split; [by rewrite length_app, Nat.add_1_r, <- replicate_S_end|]. by eexists.
  - split; [done|]. by eexists.
  - exists s3. split; [done|]. by rewrite (rep_entries _ _ Hs3), He3', (rep_entries _ _ Hs).
Qed.
End racing.

(** Three goroutines on an empty store with a limit of 5; the second publishes first. *)
Lemma racing_creators_share_instance_witness :
  let _ := vsa_counter 4 zero_options in
  exists s', race_to_create (A := VSA) "k" [10; 11; 12] [1; 0; 2]%nat (NewStore 5) =
    Some (s', [1; 1; 1]%nat) /\ counters s' = {[ "k" := 1%nat ]}.
Proof.
  assert (Ho : service_options zero_options) by by vm_compute.
  pose (L := mkLedger ∅ [] 5).
  assert (Hs : @rep VSA (vsa_counter 4 zero_options) (vsa_laws 4 zero_options Ho) L (NewStore 5)).
  { split; cbn; [done..|constructor|apply keyed_empty|lia]. }
  destruct (@racing_creators_share_instance VSA (vsa_counter 4 zero_options) (vsa_laws 4 zero_options Ho)
    "k" [10; 11; 12] 1 [0; 2]%nat L (NewStore 5) Hs) as (s' & He & Hc); [done|repeat constructor|].
  exists s'. split; [exact He|exact Hc].
Defined.
