(* ===== verification/CoreMetrics.v ===== *)
(** * Process-wide counters and the persister interface

    [core/metrics.go]: the event counters and the registry of thresholds;
    [core/persistence.go]: the [Commit] record, the interface every backend
    implements ([Persister]), and the in-memory backend with its totals. *)
From stdpp Require Import pretty.
From S2P Require Import Prelude Vsa.

(** ** [core/metrics.go] *)
Record Metrics := mkMetrics {
  attempted : Z;
  admits : Z;
  refunds : Z;
  thresholds : gmap string string
}.

Definition no_metrics : Metrics := mkMetrics 0 0 0 ∅.

Definition RecordAttempt (n : Z) (m : Metrics) : Metrics :=
  if n >? 0 then mkMetrics (attempted m +! n) (admits m) (refunds m) (thresholds m) else m.
Definition RecordAdmit (n : Z) (m : Metrics) : Metrics :=
  if n >? 0 then mkMetrics (attempted m) (admits m +! n) (refunds m) (thresholds m) else m.
Definition RecordRefund (n : Z) (m : Metrics) : Metrics :=
  if n >? 0 then mkMetrics (attempted m) (admits m) (refunds m +! n) (thresholds m) else m.

Definition SetThreshold (name value : string) (m : Metrics) : Metrics :=
  mkMetrics (attempted m) (admits m) (refunds m) (<[name := value]> (thresholds m)).
(** [%d] of an [int64] and [%t] of a [bool]. *)
Definition SetThresholdInt64 (name : string) (v : Z) : Metrics -> Metrics :=
  SetThreshold name (pretty v).
Definition SetThresholdBool (name : string) (b : bool) : Metrics -> Metrics :=
  SetThreshold name (if b then "true" else "false").

Definition getEventTotals (m : Metrics) : Z * Z * Z := (attempted m, admits m, refunds m).
Definition getThresholdSnapshot (m : Metrics) : gmap string string := thresholds m.
Definition resetEventTotals (m : Metrics) : Metrics := mkMetrics 0 0 0 (thresholds m).
Definition resetThresholdsForTests (m : Metrics) : Metrics :=
  mkMetrics (attempted m) (admits m) (refunds m) ∅.

(** ** [core/persistence.go] *)
Record Commit := mkCommit { Key : string; Vector : Z }.
#[export] Instance Commit_eq_dec : EqDecision Commit.
Proof. solve_decision. Defined.

(** A backend: [CommitBatch] returns the error message of a failed call. *)
Class Persister (P : Type) := CommitBatch : list Commit -> P -> P * option string.

Record mockPersister := mkMockPersister {
  totalRequests : Z;
  totalWrites : Z;
  totalBatches : Z
}.

Definition NewMockPersister : mockPersister := mkMockPersister 0 0 0.

Definition batch_requests (commits : list Commit) : Z :=
  foldl (fun total c => let v := Vector c in total +! (if v <? 0 then neg64 v else v)) 0 commits.

#[export] Instance mock_CommitBatch : Persister mockPersister := fun commits p =>
  match commits with
  | [] => (p, None)
  | _ => (mkMockPersister (totalRequests p +! batch_requests commits)
                          (totalWrites p +! Z.of_nat (length commits))
                          (totalBatches p +! 1), None)
  end.

(** The numbers of [PrintFinalMetrics]: writes, batches and the denominator of
    the write reduction, admissions plus refunds. *)
Definition final_events (m : Metrics) : Z :=
  let '(_, admitsN, refundsN) := getEventTotals m in admitsN +! refundsN.

Lemma batch_requests_sum commits :
  batch_requests commits = wrap64 (Zsum (map (fun c => Z.abs (Vector c)) commits)).
Proof.
  unfold batch_requests. enough (forall acc, in64 acc ->
    foldl (fun total c => let v := Vector c in total +! (if v <? 0 then neg64 v else v)) acc commits
    = wrap64 (acc + Zsum (map (fun c => Z.abs (Vector c)) commits))) as H by by apply (H 0).
  induction commits as [|c cs IH]; intros acc Hacc; cbn [foldl map].
  - rewrite Zsum_nil, Z.add_0_r. symmetry. by apply wrap64_id.
  - rewrite IH by auto with go. rewrite Zsum_cons. apply wrap64_unique.
    rewrite add64_eqm, Z.add_assoc. case_Z; [rewrite neg64_eqm|];
      eqm_lia.
Qed.

