(* ===== verification/Worker.v ===== *)
(** * The background worker ([core/worker.go])

    [commitLoop] scans the store on a timer, persists the vectors that are due
    in one batch and, when the backend accepted it, commits them in memory;
    [evictionLoop] drops the keys nobody uses, after a last commit.  The code is
    generic in the accumulator, the backend ([Persister]) and the telemetry
    ([Churn]). *)
From S2P Require Import Prelude Effects Counter Store CoreMetrics.

(** The telemetry calls of the service ([telemetry/churn]). *)
Class Churn (C : Type) := {
  ObserveRequest : string -> bool -> C -> C;
  ObserveCommit : string -> Z -> C -> C;
  ObserveBatch : Z -> C -> C;
  ObserveCommitError : Z -> C -> C
}.

(** The configuration of a worker; an interval only drives its ticker. *)
Record Worker := mkWorker {
  commitThreshold : Z;
  lowCommitThreshold : Z;
  commitInterval : Z;
  commitMaxAge : Z;
  evictionAge : Z;
  evictionInterval : Z
}.

(** The three slices a cycle fills. *)
Record Batch := mkBatch {
  commits : list Commit;
  vsaToCommit : list nat;
  vectorsToCommit : list Z
}.
Definition no_batch : Batch := mkBatch [] [] [].
Definition append (b : Batch) (key : string) (p : nat) (vec : Z) : Batch :=
  mkBatch (commits b ++ [mkCommit key vec]) (vsaToCommit b ++ [p]) (vectorsToCommit b ++ [vec]).

Section Worker.
Context {A P C : Type} {CA : Counter A} {PP : Persister P} {CC : Churn C}.

(** What the worker shares with the handlers. *)
Record World := mkWorld { store : Store A; persister : P; churn : C }.

Definition in_store {R} (p : SM (Store A) R) : SM World R :=
  zoom store (fun s w => mkWorld s (persister w) (churn w)) p.
Definition observe (f : C -> C) : SM World unit :=
  modify (fun w => mkWorld (store w) (persister w) (f (churn w))).
Definition commit_batch (cs : list Commit) : SM World (option string) := fun w =>
  let '(p, err) := CommitBatch cs (persister w) in
  Some (mkWorld (store w) p (churn w), err).

(** ** The commit cycle *)
Definition commit_visit (w : Worker) (now : Z) (b : Batch) (key : string) (p : nat) :
  SM (Store A) Batch :=
  st ← on_instance ctr_State p;
  let vec := st.2 in
  let absVec := if vec <? 0 then neg64 vec else vec in
  let commitByThreshold := absVec >=? commitThreshold w in
  last ← read_field lastAccessed p;
  let commitByMaxAge :=
    (commitMaxAge w >? 0) && negb (vec =? 0) && (time_Sub now last >=? commitMaxAge w) in
  isArmed ← read_field armed p;
  shouldCommit ←
    (if commitByThreshold then mret ((lowCommitThreshold w <=? 0) || isArmed)
     else
       when ((lowCommitThreshold w >? 0) && negb isArmed && (absVec <=? lowCommitThreshold w))
         (store_armed p true) ;;
       mret false);
  if (shouldCommit : bool) || commitByMaxAge then
    store_armed p false ;;
    mret (append b key p vec)
  else mret b.

(** [vsaToCommit[i].Commit(vectorsToCommit[i])] *)
Definition commit_at (b : Batch) (i : nat) : SM (Store A) unit :=
  match vsaToCommit b !! i, vectorsToCommit b !! i with
  | Some p, Some vec => on_instance (ctr_Commit vec) p
  | _, _ => panic
  end.

(** The part both cycles end with: persist and record; then, if the backend
    accepted the batch, commit in memory. *)
Definition send (b : Batch) : SM World bool :=
  err ← commit_batch (commits b);
  match err with
  | Some _ => observe (ObserveCommitError 1) ;; mret false
  | None =>
      observe (ObserveBatch (Z.of_nat (length (commits b)))) ;;
      for_each (fun c => observe (ObserveCommit (Key c) (Vector c))) (commits b) ;;
      mret true
  end.

Definition persist_and_commit (b : Batch) : SM World unit :=
  match commits b with
  | [] => mret tt
  | _ =>
      accepted ← send b;
      if (accepted : bool) then for_each (fun i => in_store (commit_at b i)) (seq 0 (length (vsaToCommit b)))
      else mret tt
  end.

Definition runCommitCycle (w : Worker) (order : list string) (now : Z) : SM World unit :=
  b ← in_store (ForEach order (commit_visit w now) no_batch);
  persist_and_commit b.

(** ** The final flush *)
Definition flush_visit (b : Batch) (key : string) (p : nat) : SM (Store A) Batch :=
  st ← on_instance ctr_State p;
  let vector := st.2 in
  if negb (vector =? 0) then mret (append b key p vector) else mret b.

Definition runFinalFlush (order : list string) : SM World unit :=
  b ← in_store (ForEach order flush_visit no_batch);
  persist_and_commit b.

(** ** Eviction *)
Definition stale_visit (w : Worker) (now : Z) (keys : list string) (key : string) (p : nat) :
  SM (Store A) (list string) :=
  last ← read_field lastAccessed p;
  if time_Sub now last >? evictionAge w then mret (keys ++ [key]) else mret keys.

(** The last commit of a key about to go; [false] when it must stay. *)
Definition evict_commit (key : string) (p : nat) : SM World bool :=
  st ← in_store (on_instance ctr_State p);
  let vector := st.2 in
  if negb (vector =? 0) then
    err ← commit_batch [mkCommit key vector];
    match err with
    | Some _ => mret false
    | None => in_store (on_instance (ctr_Commit vector) p) ;; mret true
    end
  else mret true.

Definition evict_key (w : Worker) (later : Z) (key : string) : SM World unit :=
  actual ← in_store (load key);
  match actual with
  | None => mret tt
  | Some p =>
      last ← in_store (read_field lastAccessed p);
      if time_Sub later last <=? evictionAge w then mret tt
      else
        gone ← evict_commit key p;
        if (gone : bool) then in_store (Delete key) else mret tt
  end.

(** [later k]: what the clock reads when the loop comes to key [k]. *)
Definition runEvictionCycle (w : Worker) (order : list string) (now : Z) (later : string -> Z) :
  SM World unit :=
  keysToEvict ← in_store (ForEach order (stale_visit w now) []);
  for_each (fun key => evict_key w (later key) key) keysToEvict.

(** ** The loops, as the events their [select] receives *)
Inductive CommitEvent := Tick (order : list string) (now : Z) | StopFlush (order : list string).

Fixpoint commitLoop (w : Worker) (evs : list CommitEvent) : SM World unit :=
  match evs with
  | [] => mret tt
  | Tick order now :: evs => runCommitCycle w order now ;; commitLoop w evs
  | StopFlush order :: _ => runFinalFlush order
  end.

Inductive EvictEvent :=
| EvictTick (order : list string) (now : Z) (later : string -> Z)
| EvictStop.

Fixpoint evictionLoop (w : Worker) (evs : list EvictEvent) : SM World unit :=
  match evs with
  | [] => mret tt
  | EvictTick order now later :: evs => runEvictionCycle w order now later ;; evictionLoop w evs
  | EvictStop :: _ => mret tt
  end.
End Worker.
Arguments World A P C : clear implicits.

(** ** [Start] and [Stop]: the stop channel is closed once *)
Record Control := mkControl { stopped : bool; stopChan_closed : bool; running : Z }.

Definition Start : SM Control unit :=
  modify (fun c => mkControl (stopped c) (stopChan_closed c) (running c + 2)).

(** [close] of a closed channel panics. *)
Definition close_stopChan : SM Control unit := fun c =>
  if stopChan_closed c then None else Some (mkControl (stopped c) true (running c), tt).

(** [wg.Wait] returns when the loops have seen the closed channel. *)
Definition Stop : SM Control unit := fun c =>
  if stopped c then Some (c, tt)
  else (close_stopChan ;; modify (fun c => mkControl (stopped c) (stopChan_closed c) 0))
         (mkControl true (stopChan_closed c) (running c)).
