(* ===== verification/WorkerSpec.v ===== *)
(** * What the worker does to the ledger

    Which keys a cycle selects ([due]), what it persists ([collected]), and the
    ledger it leaves, for every outcome of the backend. *)
From S2P Require Import Prelude Effects Vsa VsaSpec Counter Store Ledger CoreMetrics Worker.
Import Spec.

(** ** Scanning objects *)
Definition scan (g : Obj -> Obj) (ps : list nat) (L : Ledger) : Ledger :=
  foldl (fun L p => upd p g L) L ps.

Lemma upd_lookup p g L q :
  objs (upd p g L) !! q = if decide (p = q) then g <$> objs L !! q else objs L !! q.
Proof.
  cbn. case_decide as Hpq; [subst; apply list_lookup_alter_eq|by apply list_lookup_alter_ne].
Qed.

Lemma scan_app g ps1 ps2 L : scan g (ps1 ++ ps2) L = scan g ps2 (scan g ps1 L).
Proof. unfold scan. by rewrite foldl_app. Qed.

Lemma scan_entries g ps L : entries (scan g ps L) = entries L.
Proof. revert L. induction ps as [|p ps IH]; intros L; [done|]. apply (IH (upd p g L)). Qed.

Lemma scan_lookup g ps L q :
  NoDup ps -> objs (scan g ps L) !! q = if decide (q ∈ ps) then g <$> objs L !! q else objs L !! q.
Proof.
  intros Hps. revert L. induction Hps as [|p ps Hp Hps IH]; intros L; cbn [scan foldl].
  - by rewrite decide_False by set_solver.
  - unfold scan in IH. rewrite IH, upd_lookup. case_decide as Hq.
    + rewrite decide_False by congruence. by rewrite decide_True by set_solver.
    + case_decide as Hpq; [subst; by rewrite decide_True by apply list_elem_of_here|].
      rewrite decide_False; [done|]. intros [->|?]%elem_of_cons; done.
Qed.

Lemma scan_id ps L : scan id ps L = L.
Proof.
  induction ps as [|p ps IH] in L |- *; [done|]. cbn. unfold scan in IH. rewrite IH.
  destruct L as [es os l]. unfold upd. cbn. f_equal. apply list_eq. intros i.
  destruct (decide (p = i)) as [->|Hi];
    [rewrite list_lookup_alter_eq; by destruct (os !! i)|by apply list_lookup_alter_ne].
Qed.

(** ** Items a cycle collects *)
Record Item := mkItem { i_key : string; i_ptr : nat; i_vec : Z }.

Definition batch_of (items : list Item) : Batch :=
  mkBatch ((fun i => mkCommit (i_key i) (i_vec i)) <$> items) (i_ptr <$> items) (i_vec <$> items).

Lemma append_batch items k p v :
  append (batch_of items) k p v = batch_of (items ++ [mkItem k p v]).
Proof. unfold append, batch_of. cbn. by rewrite !fmap_app. Qed.

(** [sel o] is the vector collected from an object, if any. *)
Definition items_of (sel : Obj -> option Z) (L : Ledger) (vs : list (string * nat)) : list Item :=
  omap (fun kp => o ← objs L !! kp.2; v ← sel o; Some (mkItem kp.1 kp.2 v)) vs.

Lemma items_of_app sel L vs1 vs2 :
  items_of sel L (vs1 ++ vs2) = items_of sel L vs1 ++ items_of sel L vs2.
Proof. apply omap_app. Qed.

Lemma items_of_elem sel L vs k p v :
  mkItem k p v ∈ items_of sel L vs <->
  (k, p) ∈ vs /\ exists o, objs L !! p = Some o /\ sel o = Some v.
Proof.
  unfold items_of. rewrite list_elem_of_omap. split.
  - intros ([k' p'] & Hin & Hi). cbn in Hi. destruct (objs L !! p') as [o|] eqn:Ho; cbn in Hi; [|done].
    destruct (sel o) as [v'|] eqn:Hv; cbn in Hi; [|done]. injection Hi as -> -> ->. split; [done|by exists o].
  - intros (Hin & o & Ho & Hv). exists (k, p). split; [done|]. simpl. rewrite Ho. simpl. by rewrite Hv.
Qed.

(** ** The decision of the commit cycle *)
Section due.
Context (w : Worker) (now : Z).

Definition by_threshold (o : Obj) : bool := commitThreshold w <=? pending (bal o).
Definition by_age (o : Obj) : bool :=
  (0 <? commitMaxAge w) && negb (pending (bal o) =? 0) &&
  (commitMaxAge w <=? time_Sub now (last o)).
Definition due (o : Obj) : bool :=
  by_threshold o && ((lowCommitThreshold w <=? 0) || ready o) || by_age o.
(** Below the low watermark a disarmed key is armed again. *)
Definition rearms (o : Obj) : bool :=
  negb (by_threshold o) && (0 <? lowCommitThreshold w) && negb (ready o) &&
  (pending (bal o) <=? lowCommitThreshold w).

Definition scanned (o : Obj) : Obj :=
  if due o then set_ready false o else if rearms o then set_ready true o else o.
Definition select_due (o : Obj) : option Z := if due o then Some (pending (bal o)) else None.
End due.

Definition select_pending (o : Obj) : option Z :=
  if pending (bal o) =? 0 then None else Some (pending (bal o)).

Section visits.
Context {A : Type} {CA : Counter A} {CL : CounterLaws A}.
Implicit Types (L : Ledger).

(** What one visit of a cycle does, for a selection [sel] and an update [g]. *)
Definition visit_spec (visit : Batch -> string -> nat -> SM (Store A) Batch)
    (sel : Obj -> option Z) (g : Obj -> Obj) : Prop :=
  forall L b k p o, objs L !! p = Some o ->
  triple (rep L) (visit b k p) (fun s b' =>
    rep (upd p g L) s /\ b' = match sel o with Some v => append b k p v | None => b end).

Lemma collect_ok visit sel g L order :
  visit_spec visit sel g -> NoDup order ->
  triple (rep L) (ForEach order visit no_batch) (fun s b =>
    rep (scan g (visits (entries L) order).*2 L) s /\
    b = batch_of (items_of sel L (visits (entries L) order))).
Proof.
  intros Hv Hnd. eapply triple_conseq; [apply (ForEach_ok (entries L) order visit (fun vs s b =>
    rep (scan g vs.*2 L) s /\ b = batch_of (items_of sel L vs)))|done|done].
  { intros vs s b [H _]. by rewrite (rep_entries _ _ H), scan_entries. }
  intros vs k p rest b Heq s [Hs ->].
  pose proof (rep_keyed _ _ Hs) as Hk. rewrite scan_entries in Hk.
  assert (Hall : NoDup (visits (entries L) order).*2) by by eapply visits_NoDup.
  rewrite Heq, fmap_app in Hall. cbn in Hall.
  apply list.NoDup_app in Hall as (Hvs & Hdisj & _).
  assert (Hp : objs (scan g vs.*2 L) !! p = objs L !! p)
    by (rewrite scan_lookup by done; apply decide_False; intros Hin; apply (Hdisj p Hin), list_elem_of_here).
  assert (Hin : entries L !! k = Some p).
  { apply (visits_elem (entries L) order k p). rewrite Heq. apply elem_of_app. right. apply list_elem_of_here. }
  destruct (rep_entry _ s k p Hs) as [o Ho]; [by rewrite scan_entries|].
  destruct (Hv (scan g vs.*2 L) (batch_of (items_of sel L vs)) k p o Ho s Hs)
    as (s' & b' & He & Hs' & ->).
  exists s', (match sel o with Some v => append (batch_of (items_of sel L vs)) k p v
              | None => batch_of (items_of sel L vs) end).
  split_and!; [done|by rewrite fmap_app, scan_app|].
  rewrite items_of_app. cbn. rewrite <- Hp, Ho. cbn. destruct (sel o); cbn;
    [apply append_batch|by rewrite app_nil_r].
Qed.

(** The visits of the code. *)
Lemma flush_visit_spec : visit_spec flush_visit select_pending id.
Proof.
  intros L b k p o Ho s Hs. unfold flush_visit.
  destruct (State_ok p L o Ho s Hs) as (s1 & ? & He & -> & Hs1). erewrite bind_Some by done. cbn.
  change (upd p id L) with (scan id [p] L). rewrite scan_id. unfold select_pending.
  destruct (_ =? 0); cbn; by eexists _, _.
Qed.

Definition rearm (w : Worker) (o : Obj) : Obj := if rearms w o then set_ready true o else o.

Lemma upd_upd p f g L : upd p f (upd p g L) = upd p (f ∘ g) L.
Proof. unfold upd. cbn. f_equal. by rewrite list_alter_compose. Qed.

Lemma rearm_ok w p L o : objs L !! p = Some o ->
  triple (rep L)
    (if by_threshold w o then mret ((lowCommitThreshold w <=? 0) || ready o)
     else
       when ((0 <? lowCommitThreshold w) && negb (ready o) &&
             (pending (bal o) <=? lowCommitThreshold w)) (store_armed p true) ;;
       mret false)
    (fun s r => rep (upd p (rearm w) L) s /\
                r = by_threshold w o && ((lowCommitThreshold w <=? 0) || ready o)).
Proof.
  intros Ho s Hs.
  assert (Hsame : rearm w o = o -> rep (upd p (rearm w) L) s) by (intros Hr; by rewrite (upd_same p _ L o)).
  unfold rearm, rearms in *. destruct (by_threshold w o) eqn:Hbt; cbn in *; [eexists _, _; by split_and!; auto|].
  destruct (_ && _) eqn:Hr; cbn; [|eexists _, _; by split_and!; auto].
  destruct (store_armed_ok p L true o Ho s Hs) as (s5 & [] & He5 & Hs5).
  erewrite bind_Some by done. eexists _, _. split_and!; [done| |done].
  rewrite (upd_ext p _ (set_ready true) L o Ho); [done|]. cbn. rewrite Hbt. cbn. by rewrite Hr.
Qed.

Lemma disarm_ok w now p L o b k : objs L !! p = Some o ->
  triple (rep (upd p (rearm w) L))
    (if due w now o then store_armed p false ;; mret (append b k p (pending (bal o))) else mret b)
    (fun s b' => rep (upd p (scanned w now) L) s /\
      b' = match select_due w now o with Some v => append b k p v | None => b end).
Proof.
  intros Ho s Hs. unfold select_due. destruct (due w now o) eqn:Hd.
  - destruct (store_armed_ok p (upd p (rearm w) L) false (rearm w o)) with (s := s)
      as (s5 & [] & He5 & Hs5); [|done|].
    { cbn. by rewrite list_lookup_alter_eq, Ho. }
    erewrite bind_Some by done. eexists _, _. split_and!; [done| |done].
    rewrite upd_upd in Hs5. erewrite upd_ext; [done..|]. unfold scanned, compose, rearm.
    rewrite Hd. by destruct (rearms w o).
  - eexists _, _. split_and!; [done| |done]. erewrite upd_ext; [done..|].
    unfold scanned, rearm. by rewrite Hd.
Qed.

Lemma commit_visit_spec w now : visit_spec (commit_visit w now) (select_due w now) (scanned w now).
Proof.
  intros L b k p o Ho s Hs. unfold commit_visit.
  destruct (State_ok p L o Ho s Hs) as (s1 & ? & He & -> & Hs1). erewrite bind_Some by done. cbn [snd].
  destruct (read_lastAccessed_ok p L o Ho s1 Hs1) as (s2 & ? & He2 & -> & Hs2).
  erewrite bind_Some by done.
  destruct (read_armed_ok p L o Ho s2 Hs2) as (s3 & ? & He3 & -> & Hs3). erewrite bind_Some by done.
  destruct (rep_in_budget L s p o Hs Ho) as [Hb _].
  destruct (Z.ltb_spec (pending (bal o)) 0); [lia|].
  rewrite !Z.geb_leb, !Z.gtb_ltb. fold (by_threshold w o) (by_age w now o).
  destruct (rearm_ok w p L o Ho s3 Hs3) as (s4 & r & He4 & Hs4 & ->). erewrite bind_Some by done.
  fold (due w now o). by apply disarm_ok.
Qed.
End visits.

(** ** Persisting and committing a batch *)
Definition settled (items : list Item) (L : Ledger) : Ledger :=
  foldl (fun L i => upd (i_ptr i) (on_bal (settle (i_vec i))) L) L items.

Lemma settled_app is1 is2 L : settled (is1 ++ is2) L = settled is2 (settled is1 L).
Proof. unfold settled. by rewrite foldl_app. Qed.

Lemma settled_entries items L : entries (settled items L) = entries L.
Proof.
  revert L. induction items as [|i items IH]; intros L; [done|].
  apply (IH (upd (i_ptr i) (on_bal (settle (i_vec i))) L)).
Qed.

Lemma upd_objs_is_Some p f L q : is_Some (objs (upd p f L) !! q) <-> is_Some (objs L !! q).
Proof. rewrite upd_lookup. case_decide; [apply fmap_is_Some|done]. Qed.

Lemma settled_is_Some items L q : is_Some (objs (settled items L) !! q) <-> is_Some (objs L !! q).
Proof.
  revert L. induction items as [|i items IH]; intros L; [done|].
  etrans; [apply (IH (upd (i_ptr i) _ L))|apply upd_objs_is_Some].
Qed.

Lemma settled_notin items L q :
  q ∉ i_ptr <$> items -> objs (settled items L) !! q = objs L !! q.
Proof.
  revert L. induction items as [|i items IH]; intros L Hq; [done|]. cbn in Hq.
  apply not_elem_of_cons in Hq as [Hi Hq]. etrans; [by apply (IH (upd (i_ptr i) _ L))|].
  rewrite upd_lookup. by apply decide_False.
Qed.

Lemma settled_in items L i :
  NoDup (i_ptr <$> items) -> i ∈ items ->
  objs (settled items L) !! i_ptr i = on_bal (settle (i_vec i)) <$> objs L !! i_ptr i.
Proof.
  intros Hnd Hi. apply list_elem_of_split in Hi as (is1 & is2 & ->).
  rewrite fmap_app in Hnd. apply list.NoDup_app in Hnd as (_ & Hd & Hnd).
  cbn in Hnd. apply list.NoDup_cons in Hnd as [Hi2 _]. rewrite settled_app.
  etrans; [by apply (settled_notin is2 (upd (i_ptr i) _ _))|]. rewrite upd_lookup, decide_True by done.
  f_equal. apply settled_notin. intros Hin. apply (Hd _ Hin), list_elem_of_here.
Qed.

(** What the service's state amounts to: ledger, backend, telemetry. *)
Record Books (P C : Type) := mkBooks { ledger : Ledger; backend : P; telemetry : C }.
Arguments mkBooks {P C} ledger backend telemetry.
Arguments ledger {P C} _.
Arguments backend {P C} _.
Arguments telemetry {P C} _.

Section books.
Context {A P C : Type} {CA : Counter A} {CL : CounterLaws A} {PP : Persister P} {CC : Churn C}.

Definition on_ledger (f : Ledger -> Ledger) (B : Books P C) : Books P C :=
  mkBooks (f (ledger B)) (backend B) (telemetry B).

Record wrep (B : Books P C) (w : World A P C) : Prop := {
  wrep_rep : rep (ledger B) (store w);
  wrep_backend : persister w = backend B;
  wrep_telemetry : churn w = telemetry B
}.

Definition record_commits (cs : list Commit) (c : C) : C :=
  foldl (fun c x => ObserveCommit (Key x) (Vector x) c) (ObserveBatch (Z.of_nat (length cs)) c) cs.

Definition commits_of (items : list Item) : list Commit :=
  (fun i => mkCommit (i_key i) (i_vec i)) <$> items.

(** The outcome of a batch: nothing to do, refused by the backend, or done. *)
Definition outcome (items : list Item) (B : Books P C) : Books P C :=
  match items with
  | [] => B
  | _ =>
      let '(P', err) := CommitBatch (commits_of items) (backend B) in
      match err with
      | Some _ => mkBooks (ledger B) P' (ObserveCommitError 1 (telemetry B))
      | None => mkBooks (settled items (ledger B)) P' (record_commits (commits_of items) (telemetry B))
      end
  end.

Lemma in_store_ok {R} (p : SM (Store A) R) B (Q : Store A -> R -> Prop) :
  triple (rep (ledger B)) p Q ->
  triple (wrep B) (in_store p) (fun w r =>
    Q (store w) r /\ persister w = backend B /\ churn w = telemetry B).
Proof.
  intros Hp w [Hr Hb Ht]. destruct (Hp _ Hr) as (s & r & He & HQ).
  eexists _, r. unfold in_store, zoom. rewrite He. split; [done|]. by split_and!.
Qed.

Lemma in_store_rep {R} (p : SM (Store A) R) B (f : Ledger -> Ledger) (r : R) :
  triple (rep (ledger B)) p (fun s x => rep (f (ledger B)) s /\ x = r) ->
  triple (wrep B) (in_store p) (fun w x => wrep (on_ledger f B) w /\ x = r).
Proof.
  intros Hp. eapply triple_conseq; [by apply in_store_ok|done|]. cbn.
  intros w x ([? ->] & ? & ?). by split.
Qed.

Lemma observe_ok f B :
  triple (wrep B) (observe f) (fun w _ =>
    wrep (mkBooks (ledger B) (backend B) (f (telemetry B))) w).
Proof. intros w [? ? Ht]. eexists _, _. split; [done|]. split; [done..|]. cbn. by rewrite Ht. Qed.

Lemma observe_all_ok cs B :
  triple (wrep B) (for_each (fun c => observe (ObserveCommit (Key c) (Vector c))) cs) (fun w _ =>
    wrep (mkBooks (ledger B) (backend B)
      (foldl (fun c x => ObserveCommit (Key x) (Vector x) c) (telemetry B) cs)) w).
Proof.
  eapply triple_conseq; [apply (triple_for_each _ (fun seen w =>
    wrep (mkBooks (ledger B) (backend B)
      (foldl (fun c x => ObserveCommit (Key x) (Vector x) c) (telemetry B) seen)) w))| |done].
  - intros seen c rest _. rewrite foldl_app. apply observe_ok.
  - intros w H. by destruct B.
Qed.

Lemma commit_all_ok items B :
  Forall (fun i => is_Some (objs (ledger B) !! i_ptr i) /\ 0 <= i_vec i < H64) items ->
  triple (wrep B)
    (for_each (fun i => in_store (commit_at (batch_of items) i)) (seq 0 (length items)))
    (fun w _ => wrep (on_ledger (settled items) B) w).
Proof.
  intros Hall. eapply triple_conseq; [apply (triple_for_each _ (fun seen w =>
    wrep (on_ledger (settled (take (length seen) items)) B) w))| |].
  2: { intros w H. by destruct B. }
  2: { intros w x H. rewrite length_seq, firstn_all in H. exact H. }
  intros seen n rest Hseq.
  assert (n = length seen /\ (n < length items)%nat) as [-> Hlt].
  { pose proof (f_equal (lookup (length seen)) Hseq) as Hn.
    rewrite lookup_app_r, Nat.sub_diag in Hn by done. apply lookup_seq in Hn. cbn in Hn. lia. }
  destruct (lookup_lt_is_Some_2 items (length seen) Hlt) as [i Hi].
  rewrite length_app, Nat.add_1_r, (take_S_r items _ i Hi). unfold on_ledger. rewrite settled_app.
  rewrite Forall_lookup in Hall. destruct (Hall _ _ Hi) as [Ho Hv].
  apply settled_is_Some with (items := take (length seen) items) in Ho as [o Ho].
  unfold commit_at. cbn. rewrite !list_lookup_fmap, Hi. cbn.
  eapply triple_conseq; [apply (in_store_ok _ (mkBooks (settled (take (length seen) items) (ledger B))
    (backend B) (telemetry B))); by apply (Commit_ok _ _ o)|done|].
  cbn. intros w x (? & ? & ?). by split.
Qed.

(** The batch sent: accepted and recorded, or refused. *)
Definition sent (items : list Item) (B : Books P C) : Books P C :=
  let '(P', err) := CommitBatch (commits_of items) (backend B) in
  mkBooks (ledger B) P'
    match err with
    | Some _ => ObserveCommitError 1 (telemetry B)
    | None => record_commits (commits_of items) (telemetry B)
    end.

Lemma send_ok items B :
  triple (wrep B) (send (batch_of items)) (fun w accepted =>
    wrep (sent items B) w /\ accepted = bool_decide ((CommitBatch (commits_of items) (backend B)).2 = None)).
Proof.
  intros w Hw. unfold send, sent. change (commits (batch_of items)) with (commits_of items).
  destruct (CommitBatch (commits_of items) (backend B)) as [P' err] eqn:Hcb.
  assert (He : commit_batch (commits_of items) w = Some (mkWorld (store w) P' (churn w), err)).
  { unfold commit_batch. by rewrite (wrep_backend _ _ Hw), Hcb. }
  erewrite bind_Some by done.
  assert (H1 : wrep (mkBooks (ledger B) P' (telemetry B)) (mkWorld (store w) P' (churn w)))
    by (destruct Hw; by split).
  destruct err as [msg|].
  - destruct (observe_ok (ObserveCommitError 1) _ _ H1) as (w2 & [] & He2 & H2). erewrite bind_Some by done.
    by exists w2, false.
  - destruct (observe_ok (ObserveBatch (Z.of_nat (length (commits_of items)))) _ _ H1)
      as (w2 & [] & He2 & H2). erewrite bind_Some by done.
    destruct (observe_all_ok (commits_of items) _ _ H2) as (w3 & [] & He3 & H3). erewrite bind_Some by done.
    by exists w3, true.
Qed.

Lemma persist_and_commit_ok items B :
  Forall (fun i => is_Some (objs (ledger B) !! i_ptr i) /\ 0 <= i_vec i < H64) items ->
  triple (wrep B) (persist_and_commit (batch_of items)) (fun w _ => wrep (outcome items B) w).
Proof.
  intros Hall w Hw. unfold outcome, persist_and_commit.
  destruct items as [|i0 items0] eqn:Hitems; [by exists w, tt|]. rewrite <- Hitems in *.
  replace (commits (batch_of items)) with (mkCommit (i_key i0) (i_vec i0) :: commits_of items0) by by rewrite Hitems.
  destruct (send_ok items B w Hw) as (w1 & accepted & He & H1 & ->). erewrite bind_Some by done.
  unfold sent in H1. destruct (CommitBatch (commits_of items) (backend B)) as [P' [msg|]]; cbn [snd].
  - rewrite bool_decide_false by done. by exists w1, tt.
  - rewrite bool_decide_true by done.
    destruct (commit_all_ok items (mkBooks (ledger B) P' (record_commits (commits_of items) (telemetry B))) Hall _ H1) as (w2 & [] & He2 & H2).
    exists w2, tt. split; [|done]. rewrite <- He2. cbn. by rewrite length_fmap.
Qed.

(** ** The cycles *)
Definition covers (order : list string) (L : Ledger) : Prop :=
  NoDup order /\ forall k, is_Some (entries L !! k) -> k ∈ order.

Definition due_items (w : Worker) (now : Z) (order : list string) (L : Ledger) : list Item :=
  items_of (select_due w now) L (visits (entries L) order).
Definition pending_items (order : list string) (L : Ledger) : list Item :=
  items_of select_pending L (visits (entries L) order).

Definition commit_cycle (w : Worker) (order : list string) (now : Z) (B : Books P C) : Books P C :=
  outcome (due_items w now order (ledger B))
    (on_ledger (scan (scanned w now) (visits (entries (ledger B)) order).*2) B).
Definition final_flush (order : list string) (B : Books P C) : Books P C :=
  outcome (pending_items order (ledger B)) B.

Lemma items_of_ok sel g L s order :
  rep L s -> NoDup order -> (forall o v, sel o = Some v -> v = pending (bal o)) ->
  Forall (fun i => is_Some (objs (scan g (visits (entries L) order).*2 L) !! i_ptr i) /\
                   0 <= i_vec i < H64) (items_of sel L (visits (entries L) order)).
Proof.
  intros Hs Hnd Hsel. apply list.Forall_forall. intros [k p v] Hi.
  apply items_of_elem in Hi as (_ & o & Ho & Hv). cbn [i_ptr i_vec].
  rewrite scan_lookup by (eapply visits_NoDup; [apply (rep_keyed _ _ Hs)|done]).
  split; [case_decide; rewrite Ho; by eexists|].
  rewrite (Hsel _ _ Hv). destruct (rep_in_budget L s p o Hs Ho). lia.
Qed.

Lemma cycle_ok visit sel g order B :
  visit_spec visit sel g -> NoDup order -> (forall o v, sel o = Some v -> v = pending (bal o)) ->
  triple (wrep B) (b ← in_store (ForEach order visit no_batch); persist_and_commit b)
    (fun w _ => wrep (outcome (items_of sel (ledger B) (visits (entries (ledger B)) order))
      (on_ledger (scan g (visits (entries (ledger B)) order).*2) B)) w).
Proof.
  intros Hv Hnd Hsel w Hw.
  destruct (in_store_rep _ B (scan g (visits (entries (ledger B)) order).*2) _
    (collect_ok visit sel g (ledger B) order Hv Hnd) w Hw) as (w1 & b & He & Hw1 & ->).
  erewrite bind_Some by done. apply persist_and_commit_ok; [|done].
  by eapply items_of_ok; [apply (wrep_rep _ _ Hw)|..].
Qed.

Lemma runCommitCycle_ok w order now B :
  NoDup order ->
  triple (wrep B) (runCommitCycle w order now) (fun w' _ => wrep (commit_cycle w order now B) w').
Proof.
  intros Hnd. apply cycle_ok; [apply commit_visit_spec|done|].
  unfold select_due. intros o v. destruct (due w now o); congruence.
Qed.

Lemma on_ledger_id f B : f (ledger B) = ledger B -> on_ledger f B = B.
Proof. unfold on_ledger. intros ->. by destruct B. Qed.

Lemma runFinalFlush_ok order B :
  NoDup order ->
  triple (wrep B) (runFinalFlush order) (fun w' _ => wrep (final_flush order B) w').
Proof.
  intros Hnd. eapply triple_conseq; [apply (cycle_ok _ select_pending id); [apply flush_visit_spec|done|]|done|].
  - unfold select_pending. intros o v. destruct (_ =? 0); congruence.
  - intros w' x H. rewrite on_ledger_id in H by apply scan_id. done.
Qed.

(** Whatever the outcome, keys, and the units a key still has, stay. *)
Lemma outcome_entries items B : entries (ledger (outcome items B)) = entries (ledger B).
Proof.
  unfold outcome. destruct items as [|i rest]; [done|]. destruct (CommitBatch _ _) as [P' [msg|]]; [done|].
  cbn [ledger]. apply (settled_entries (i :: rest)).
Qed.

Definition units (o : Obj) : Z := budget (bal o) - pending (bal o).

Lemma settled_units items L q :
  units <$> objs (settled items L) !! q = units <$> objs L !! q.
Proof.
  revert L. induction items as [|i items IH]; intros L; [done|].
  etrans; [apply (IH (upd (i_ptr i) (on_bal (settle (i_vec i))) L))|].
  rewrite upd_lookup. case_decide; [|done].
  destruct (objs L !! q); [|done]. cbn. f_equal. unfold units. cbn. lia.
Qed.

(** ** Eviction *)
Definition stale (w : Worker) (now : Z) (o : Obj) : bool := evictionAge w <? time_Sub now (last o).

Definition stale_keys (w : Worker) (now : Z) (order : list string) (L : Ledger) : list string :=
  omap (fun kp => o ← objs L !! kp.2; if stale w now o then Some kp.1 else None)
    (visits (entries L) order).

Definition forget (key : string) (B : Books P C) : Books P C :=
  on_ledger (fun L => set_entries (delete key (entries L)) L) B.

(** One key of the eviction loop: kept when it was used meanwhile or when the
    backend refuses its last vector, dropped otherwise. *)
Definition evict_one (w : Worker) (later : Z) (key : string) (B : Books P C) : Books P C :=
  match p ← entries (ledger B) !! key; pair p <$> objs (ledger B) !! p with
  | None => B
  | Some (p, o) =>
      if negb (stale w later o) then B
      else if pending (bal o) =? 0 then forget key B
      else
        let '(P', err) := CommitBatch [mkCommit key (pending (bal o))] (backend B) in
        match err with
        | Some _ => mkBooks (ledger B) P' (telemetry B)
        | None => forget key (mkBooks (upd p (on_bal (settle (pending (bal o)))) (ledger B))
                                P' (telemetry B))
        end
  end.

Definition eviction_cycle (w : Worker) (order : list string) (now : Z) (later : string -> Z)
    (B : Books P C) : Books P C :=
  foldl (fun B key => evict_one w (later key) key B) B (stale_keys w now order (ledger B)).

Lemma stale_ok w now order L :
  triple (rep L) (ForEach order (stale_visit w now) [])
    (fun s keys => rep L s /\ keys = stale_keys w now order L).
Proof.
  eapply triple_conseq; [apply (ForEach_ok (entries L) order _ (fun vs s keys =>
    rep L s /\ keys = omap (fun kp => o ← objs L !! kp.2; if stale w now o then Some kp.1 else None) vs))
    |done|done].
  { intros vs s b [H _]. apply (rep_entries _ _ H). }
  intros vs k p rest keys Heq s [Hs ->]. rewrite omap_app.
  destruct (rep_entry L s k p Hs) as [o Ho].
  { apply (visits_elem (entries L) order k p). rewrite Heq. apply elem_of_app. right.
    apply list_elem_of_here. }
  destruct (read_lastAccessed_ok p L o Ho s Hs) as (s1 & ? & He & -> & Hs1).
  unfold stale_visit. erewrite bind_Some by done. simpl. rewrite Ho. simpl. unfold stale.
  rewrite Z.gtb_ltb. destruct (_ <? _); eexists _, _; split_and!; try done. by rewrite app_nil_r.
Qed.

Lemma commit_batch_ok cs B :
  triple (wrep B) (commit_batch cs) (fun w err =>
    err = (CommitBatch cs (backend B)).2 /\
    wrep (mkBooks (ledger B) (CommitBatch cs (backend B)).1 (telemetry B)) w).
Proof.
  intros w [Hr Hb Ht]. unfold commit_batch. rewrite Hb.
  destruct (CommitBatch cs (backend B)) as [P' err]. eexists _, _. split; [done|]. by split.
Qed.

(** The last commit of an evicted key. *)
Definition last_commit (key : string) (p : nat) (o : Obj) (B : Books P C) : Books P C * bool :=
  if pending (bal o) =? 0 then (B, true) else
  let '(P', err) := CommitBatch [mkCommit key (pending (bal o))] (backend B) in
  match err with
  | Some _ => (mkBooks (ledger B) P' (telemetry B), false)
  | None => (mkBooks (upd p (on_bal (settle (pending (bal o)))) (ledger B)) P' (telemetry B), true)
  end.

Lemma evict_commit_ok key p o B : objs (ledger B) !! p = Some o ->
  triple (wrep B) (evict_commit key p) (fun w gone =>
    gone = (last_commit key p o B).2 /\ wrep (last_commit key p o B).1 w).
Proof.
  intros Ho w Hw. destruct (rep_in_budget _ _ p o (wrep_rep _ _ Hw) Ho) as [Hb Hlt].
  destruct (in_store_rep (on_instance ctr_State p) B id (budget (bal o), pending (bal o))) with (s := w)
    as (w1 & st & He & Hw1 & ->); [|done|].
  { eapply triple_conseq; [by apply State_ok|done|]. by intros s a [-> ?]. }
  rewrite on_ledger_id in Hw1 by done.
  unfold evict_commit, last_commit. erewrite bind_Some by done. cbn [snd].
  destruct (Z.eqb_spec (pending (bal o)) 0); cbn [negb]; [by eexists _, _|].
  destruct (commit_batch_ok [mkCommit key (pending (bal o))] B w1 Hw1) as (w2 & err & He2 & -> & Hw2).
  erewrite bind_Some by done.
  destruct (CommitBatch [mkCommit key (pending (bal o))] (backend B)) as [P' [msg|]]; cbn [fst snd] in *;
    [by eexists _, _|].
  destruct (in_store_ok _ (mkBooks (ledger B) P' (telemetry B)) _
    (Commit_ok p (ledger B) o (pending (bal o)) Ho ltac:(lia)) w2 Hw2)
    as (w3 & [] & He3 & Hr3 & Hb3 & Ht3).
  erewrite bind_Some by done. eexists _, _. split; [done|]. by split_and!.
Qed.

Lemma evict_key_ok w later key B :
  triple (wrep B) (evict_key w later key) (fun w' _ => wrep (evict_one w later key B) w').
Proof.
  intros w0 Hw. unfold evict_key, evict_one.
  destruct (in_store_ok _ _ _ (load_ok key (ledger B)) w0 Hw) as (w1 & ? & He & [-> Hr1] & Hb1 & Ht1).
  erewrite bind_Some by done.
  assert (Hw1 : wrep B w1) by by split. clear Hr1 Hb1 Ht1.
  destruct (entries (ledger B) !! key) as [p|] eqn:Hp; simpl; [|by exists w1, tt].
  destruct (rep_entry _ _ key p (wrep_rep _ _ Hw) Hp) as [o Ho]. rewrite Ho. simpl.
  destruct (in_store_ok _ _ _ (read_lastAccessed_ok p (ledger B) o Ho) w1 Hw1)
    as (w2 & ? & He2 & [-> Hr2] & Hb2 & Ht2).
  erewrite bind_Some by done. assert (Hw2 : wrep B w2) by by split. clear Hr2 Hb2 Ht2.
  unfold stale. destruct (Z.leb_spec (time_Sub later (last o)) (evictionAge w)),
    (Z.ltb_spec (evictionAge w) (time_Sub later (last o))); cbn [negb]; try lia; [by exists w2, tt|].
  destruct (evict_commit_ok key p o B Ho w2 Hw2) as (w3 & gone & He3 & -> & Hw3).
  erewrite bind_Some by done. unfold last_commit in *.
  assert (Hdel : forall B' w', wrep B' w' ->
    exists w'' u, in_store (Delete key) w' = Some (w'', u) /\ wrep (forget key B') w'').
  { intros B' w' H'. destruct (in_store_ok _ B' _ (Delete_ok key (ledger B')) w' H')
      as (w'' & u & Hd & ? & ? & ?). exists w'', u. split; [done|by split]. }
  destruct (pending (bal o) =? 0); [by apply Hdel|].
  destruct (CommitBatch _ _) as [P' [msg|]]; cbn [fst snd] in *; [by exists w3, tt|by apply Hdel].
Qed.

Lemma runEvictionCycle_ok w order now later B :
  triple (wrep B) (runEvictionCycle w order now later) (fun w' _ =>
    wrep (eviction_cycle w order now later B) w').
Proof.
  intros w0 Hw. unfold runEvictionCycle.
  destruct (in_store_ok _ _ _ (stale_ok w now order (ledger B)) w0 Hw)
    as (w1 & ? & He & [Hr1 ->] & Hb1 & Ht1).
  erewrite bind_Some by done. assert (Hw1 : wrep B w1) by by split. revert w1 He Hr1 Hb1 Ht1 Hw1.
  intros w1 _ _ _ _. revert w1. eapply triple_conseq; [apply (triple_for_each _ (fun seen w' =>
    wrep (foldl (fun B key => evict_one w (later key) key B) B seen) w'))|done|done].
  intros seen key rest _. rewrite foldl_app. apply evict_key_ok.
Qed.
End books.
