(* ===== verification/Api.v ===== *)
(** * The HTTP handlers ([api/server.go])

    A handler gets the value of the [api_key] query parameter (the empty string
    when there is none) and the time [time.Now] reads, works on the process
    state, and returns the response it has written. *)
From stdpp Require Import pretty.
From S2P Require Import Prelude Effects Counter Store CoreMetrics Worker.

Record Response := mkResponse {
  status : Z;
  headers : list (string * string);
  body : string
}.

Section Api.
Context {A P C : Type} {CA : Counter A} {PP : Persister P} {CC : Churn C}.

(** The process: what the worker shares, and the counters of [core/metrics.go]. *)
Record Process := mkProcess { world : World A P C; metrics : Metrics }.

Definition in_world {R} (p : SM (World A P C) R) : SM Process R :=
  zoom world (fun w s => mkProcess w (metrics s)) p.
Definition count (f : Metrics -> Metrics) : SM Process unit :=
  modify (fun s => mkProcess (world s) (f (metrics s))).

Record Server := mkServer { rateLimit : Z }.

(** [http.Error]: the message on a line of its own. *)
Definition newline : string := String (Ascii.ascii_of_nat 10) EmptyString.
Definition http_Error (msg : string) (code : Z) : Response :=
  mkResponse code [("Content-Type", "text/plain; charset=utf-8");
                   ("X-Content-Type-Options", "nosniff")] (msg +:+ newline).

Definition handleCheckRateLimit (sv : Server) (key : string) (now : Z) : SM Process Response :=
  if decide (key = "") then mret (http_Error "API key is required" 400) else
  userVSA ← in_world (in_store (GetOrCreate key now));
  count (RecordAttempt 1) ;;
  ok ← in_world (in_store (on_instance (ctr_TryConsume 1) userVSA));
  if negb ok then
    in_world (observe (ObserveRequest key false)) ;;
    remaining ← in_world (in_store (on_instance ctr_Available userVSA));
    mret (mkResponse 429
      [("X-RateLimit-Status", "Exceeded");
       ("X-RateLimit-Limit", pretty (rateLimit sv));
       ("X-RateLimit-Remaining", pretty remaining);
       ("Retry-After", "60")] "Too Many Requests")
  else
    count (RecordAdmit 1) ;;
    in_world (observe (ObserveRequest key true)) ;;
    remaining ← in_world (in_store (on_instance ctr_Available userVSA));
    mret (mkResponse 200
      [("X-RateLimit-Limit", pretty (rateLimit sv));
       ("X-RateLimit-Remaining", pretty remaining);
       ("X-RateLimit-Status", "OK")] "OK").

Definition handleRelease (key : string) (now : Z) : SM Process Response :=
  if decide (key = "") then mret (http_Error "API key is required" 400) else
  userVSA ← in_world (in_store (GetOrCreate key now));
  ok ← in_world (in_store (on_instance (ctr_TryRefund 1) userVSA));
  (if (ok : bool) then count (RecordRefund 1) else mret tt) ;;
  mret (mkResponse 204 [] "").

(** [RegisterRoutes]: the handler of a path; the metrics page is served by the
    Prometheus library. *)
Inductive Route := RCheck | RRelease | RMetrics.
Definition RegisterRoutes (path : string) : option Route :=
  if decide (path = "/check") then Some RCheck
  else if decide (path = "/release") then Some RRelease
  else if decide (path = "/metrics") then Some RMetrics
  else None.
End Api.
Arguments Process A P C : clear implicits.
