(* ===== verification/Doubles.v ===== *)
(** * Concrete backends and services to run the theorems on

    A backend that answers each batch with the next reply of a script and keeps
    the batches it accepted, telemetry that keeps its calls, and a service over
    the accumulator of [vsa.go] that has served a list of requests. *)
From S2P Require Import Prelude Effects Vsa VsaSpec Counter Store Ledger CoreMetrics Worker WorkerSpec.
Import Spec.

Record Scripted := mkScripted { replies : list (option string); accepted : list Commit }.
#[export] Instance scripted_CommitBatch : Persister Scripted := fun cs p =>
  match replies p with
  | Some msg :: rs => (mkScripted rs (accepted p), Some msg)
  | None :: rs => (mkScripted rs (accepted p ++ cs), None)
  | [] => (mkScripted [] (accepted p ++ cs), None)
  end.

Inductive Call :=
| CRequest (key : string) (ok : bool)
| CCommit (key : string) (vector : Z)
| CBatch (n : Z)
| CError (n : Z).
#[export] Instance calls_churn : Churn (list Call) := {
  ObserveRequest k ok l := l ++ [CRequest k ok];
  ObserveCommit k v l := l ++ [CCommit k v];
  ObserveBatch n l := l ++ [CBatch n];
  ObserveCommitError n l := l ++ [CError n]
}.

(** The accumulator the witnesses use, with the default options. *)
#[export] Instance demo_counter : Counter VSA := vsa_counter 4 zero_options.
Lemma zero_options_ok : service_options zero_options.
Proof. by vm_compute. Qed.
#[export] Instance demo_laws : @CounterLaws VSA demo_counter := vsa_laws 4 zero_options zero_options_ok.

Section serve.
Context {A P C : Type} {CA : Counter A} {CL : CounterLaws A} {PP : Persister P} {CC : Churn C}.

Definition serve (keys : list (string * Z)) : SM (World A P C) unit :=
  for_each (fun kn => p ← in_store (GetOrCreate kn.1 kn.2);
                      in_store (on_instance (ctr_TryConsume 1) p) ;; mret tt) keys.

Definition served (keys : list (string * Z)) (B : Books P C) : Books P C :=
  foldl (fun B kn => on_ledger (fun L => let '(L', p) := get_or_create kn.1 kn.2 L in
                                         upd p (on_bal consume1) L') B) B keys.

Definition start (s0 : Z) (P0 : P) (C0 : C) : World A P C := mkWorld (NewStore s0) P0 C0.
Definition start_books (s0 : Z) (P0 : P) (C0 : C) : Books P C := mkBooks (mkLedger ∅ [] s0) P0 C0.

Lemma start_ok s0 P0 C0 : 0 <= s0 < H64 -> wrep (start_books s0 P0 C0) (start s0 P0 C0).
Proof. intros H. split; [|done..]. split; cbn; [done..|constructor|apply keyed_empty|done]. Qed.

Lemma serve_ok keys B : triple (wrep B) (serve keys) (fun w _ => wrep (served keys B) w).
Proof.
  eapply triple_conseq; [apply (triple_for_each _ (fun seen w => wrep (served seen B) w))|done|done].
  intros seen [k n] rest _. unfold served. rewrite foldl_app. cbn [foldl fst snd].
  set (B' := foldl _ B seen). intros w Hw.
  destruct (in_store_ok _ B' _ (GetOrCreate_ok k n (ledger B')) w Hw) as (w1 & p & He & [Hr Hp] & Hb & Ht).
  erewrite bind_Some by done. destruct (get_or_create k n (ledger B')) as [L' q] eqn:Hg.
  cbn [fst snd] in *. subst p.
  destruct (get_or_create_lookup k n (ledger B') L' q) as [_ [o Ho]];
    [apply (rep_keyed _ _ (wrep_rep _ _ Hw))|done|].
  destruct (in_store_ok _ (mkBooks L' (backend B') (telemetry B')) _ (TryConsume_ok q L' o Ho) w1)
    as (w2 & x & He2 & [_ Hr2] & Hb2 & Ht2); [by split|].
  erewrite bind_Some by done. exists w2, tt. split; [done|]. unfold on_ledger. rewrite Hg. by split.
Qed.
End serve.

Lemma covers_intro order L :
  bool_decide (NoDup order /\ Forall (fun k => k ∈ order) (map_to_list (entries L)).*1) = true ->
  covers order L.
Proof.
  intros [Hnd Hall]%bool_decide_eq_true. split; [done|]. intros k [p Hp].
  rewrite list.Forall_forall in Hall. apply Hall, list_elem_of_fmap. exists (k, p).
  split; [done|]. by apply elem_of_map_to_list.
Qed.

(** A service with a limit of 10 that has served three requests of one key and
    one of another, at time 1000. *)
Definition demo_requests : list (string * Z) := [("a", 1000); ("a", 1000); ("b", 1000); ("a", 1000)].
Definition demo_start (P0 : Scripted) : World VSA Scripted (list Call) := start 10 P0 [].
Definition demo_books (P0 : Scripted) : Books Scripted (list Call) :=
  served demo_requests (start_books 10 P0 []).

Lemma demo_serve P0 : exists w : World VSA Scripted (list Call), serve demo_requests (demo_start P0) = Some (w, tt) /\
  wrep (demo_books P0) w.
Proof.
  destruct (serve_ok demo_requests _ _ (start_ok (A := VSA) 10 P0 ([] : list Call) ltac:(lia))) as (w & [] & H).
  by exists w.
Qed.

Lemma demo_covers P0 : covers ["b"; "a"] (ledger (demo_books P0)).
Proof. by apply covers_intro. Qed.
