(* ===== verification/WorkerProps.v ===== *)
(** * Properties of the worker

    Stated key by key ([key_obj]): what a commit cycle, the final flush and an
    eviction cycle of [core/worker.go] do to each key, when the backend accepts
    the batch and when it refuses it. *)
From S2P Require Import Prelude Effects Vsa VsaSpec Counter Store Ledger CoreMetrics Worker WorkerSpec Doubles.
Import Spec.

Definition key_obj (L : Ledger) (k : string) : option Obj := p ← entries L !! k; objs L !! p.

Lemma key_obj_Some L k o :
  key_obj L k = Some o <-> exists p, entries L !! k = Some p /\ objs L !! p = Some o.
Proof.
  unfold key_obj. destruct (entries L !! k) as [p|]; simpl; [|by split; [|intros (? & ? & ?)]].
  split; [by exists p|]. intros (q & [= <-] & H). done.
Qed.

Lemma settle_all b : settle (pending b) b = mkBalance (budget b - pending b) 0.
Proof. unfold settle. by rewrite Z.min_id, Z.sub_diag. Qed.

Lemma settle_all_obj o o' :
  bal o' = bal o ->
  on_bal (settle (pending (bal o))) o' =
  mkObj (mkBalance (budget (bal o) - pending (bal o)) 0) (last o') (ready o').
Proof. intros H. unfold on_bal, set_bal. by rewrite H, settle_all. Qed.

(** ** A batch, key by key *)
Section batch.
Context {A P C : Type} {CA : Counter A} {CL : CounterLaws A} {PP : Persister P} {CC : Churn C}.
Implicit Types (B : Books P C) (L : Ledger).

Lemma items_of_none L vs : items_of (fun _ => None) L vs = [].
Proof.
  induction vs as [|[k p] vs IH]; [done|]. unfold items_of. simpl. by destruct (objs L !! p).
Qed.

Lemma items_of_sublist sel L vs :
  (fun i => (i_key i, i_ptr i)) <$> items_of sel L vs `sublist_of` vs.
Proof.
  induction vs as [|[k p] vs IH]; [done|]. unfold items_of. simpl.
  destruct (objs L !! p) as [o|]; simpl; [|by constructor].
  destruct (sel o) as [v|]; simpl; by constructor.
Qed.

Lemma items_of_ptrs sel L n order :
  keyed (entries L) n -> NoDup order ->
  NoDup (i_ptr <$> items_of sel L (visits (entries L) order)).
Proof.
  intros Hk Hnd. eapply sublist_NoDup; [by apply (visits_NoDup _ order n Hk Hnd)|].
  pose proof (fmap_sublist snd _ _ (items_of_sublist sel L (visits (entries L) order))) as H.
  by rewrite <- list_fmap_compose in H.
Qed.

Lemma visits_keys_sublist cs order : (visits cs order).*1 `sublist_of` order.
Proof.
  induction order as [|k order IH]; [done|]. cbn.
  destruct (cs !! k) as [p|]; cbn; by constructor.
Qed.

Lemma batch_keys_NoDup sel L order :
  NoDup order -> NoDup (Key <$> commits_of (items_of sel L (visits (entries L) order))).
Proof.
  intros Hnd. eapply sublist_NoDup; [done|]. etrans; [|apply visits_keys_sublist].
  etrans; [|apply (fmap_sublist fst _ _ (items_of_sublist sel L (visits (entries L) order)))].
  unfold commits_of. by rewrite <- !list_fmap_compose.
Qed.

Lemma items_of_key sel L n order k v :
  keyed (entries L) n -> covers order L ->
  mkCommit k v ∈ commits_of (items_of sel L (visits (entries L) order)) <->
  exists o, key_obj L k = Some o /\ sel o = Some v.
Proof.
  intros Hk [Hnd Hc]. unfold commits_of. rewrite list_elem_of_fmap. split.
  - intros ([k' p v'] & [= -> ->] & Hin). apply items_of_elem in Hin as (Hin & o & Ho & Hs).
    apply visits_elem in Hin as [_ Hp]. exists o. split; [|done]. apply key_obj_Some. by exists p.
  - intros (o & (p & Hp & Ho)%key_obj_Some & Hs). exists (mkItem k p v). split; [done|].
    apply items_of_elem. split; [|by exists o]. apply visits_elem. split; [apply Hc; by eexists|done].
Qed.

(** The ledger after [g] on every visited object and the items settled. *)
Lemma settled_key sel g L n order k o :
  keyed (entries L) n -> covers order L -> key_obj L k = Some o ->
  key_obj (settled (items_of sel L (visits (entries L) order))
             (scan g (visits (entries L) order).*2 L)) k
  = Some (match sel o with Some v => on_bal (settle v) (g o) | None => g o end).
Proof.
  intros Hk [Hnd Hc] (p & Hp & Ho)%key_obj_Some. apply key_obj_Some. exists p.
  rewrite settled_entries, scan_entries. split; [done|].
  assert (Hv : (k, p) ∈ visits (entries L) order)
    by (apply visits_elem; split; [apply Hc; by eexists|done]).
  assert (Hg : objs (scan g (visits (entries L) order).*2 L) !! p = Some (g o)).
  { rewrite scan_lookup by by eapply visits_NoDup. rewrite decide_True, Ho; [done|].
    apply list_elem_of_fmap. by exists (k, p). }
  destruct (sel o) as [v|] eqn:Hs.
  - assert (Hi : mkItem k p v ∈ items_of sel L (visits (entries L) order))
      by (apply items_of_elem; split; [done|by exists o]).
    etrans; [apply (settled_in _ _ _ (items_of_ptrs sel L n order Hk Hnd) Hi)|]. cbn [i_ptr i_vec].
    by rewrite Hg.
  - rewrite settled_notin; [done|]. intros ([k' p' v'] & Heq & Hi)%list_elem_of_fmap.
    cbn in Heq. subst p'. apply items_of_elem in Hi as (_ & o' & Ho' & Hs'). congruence.
Qed.

Lemma scan_key g L n order k o :
  keyed (entries L) n -> covers order L -> key_obj L k = Some o ->
  key_obj (scan g (visits (entries L) order).*2 L) k = Some (g o).
Proof.
  intros Hk Hc Ho. pose proof (settled_key (fun _ => None) g L n order k o Hk Hc Ho) as H.
  by rewrite items_of_none in H.
Qed.

Lemma wrep_keyed (B : Books P C) (w : World A P C) :
  wrep B w -> keyed (entries (ledger B)) (length (objs (ledger B))).
Proof. intros H. apply (rep_keyed _ _ (wrep_rep _ _ H)). Qed.

Lemma commit_cycle_accepted w order now B n P' k o :
  keyed (entries (ledger B)) n -> covers order (ledger B) ->
  CommitBatch (commits_of (due_items w now order (ledger B))) (backend B) = (P', None) ->
  key_obj (ledger B) k = Some o ->
  key_obj (ledger (commit_cycle w order now B)) k =
  Some (if due w now o then on_bal (settle (pending (bal o))) (scanned w now o) else scanned w now o).
Proof.
  intros Hk Hc HP Ho. pose proof (settled_key (select_due w now) (scanned w now) _ n order k o Hk Hc Ho) as Hs.
  unfold commit_cycle, outcome, due_items in *. cbn [backend on_ledger ledger].
  transitivity (key_obj (settled (items_of (select_due w now) (ledger B) (visits (entries (ledger B)) order))
             (scan (scanned w now) (visits (entries (ledger B)) order).*2 (ledger B))) k).
  - destruct (items_of _ _ _); [done|]. rewrite HP. done.
  - rewrite Hs. unfold select_due. by destruct (due w now o).
Qed.

Lemma commit_cycle_refused w order now B n P' msg k o :
  keyed (entries (ledger B)) n -> covers order (ledger B) ->
  CommitBatch (commits_of (due_items w now order (ledger B))) (backend B) = (P', Some msg) ->
  key_obj (ledger B) k = Some o ->
  key_obj (ledger (commit_cycle w order now B)) k = Some (scanned w now o).
Proof.
  intros Hk Hc HP Ho. unfold commit_cycle, outcome. cbn [backend on_ledger ledger].
  destruct (due_items _ _ _ _) eqn:Hd; [by eapply scan_key|].
  rewrite HP. by eapply scan_key.
Qed.

Lemma final_flush_accepted order B n P' k o :
  keyed (entries (ledger B)) n -> covers order (ledger B) ->
  CommitBatch (commits_of (pending_items order (ledger B))) (backend B) = (P', None) ->
  key_obj (ledger B) k = Some o ->
  key_obj (ledger (final_flush order B)) k =
  Some (mkObj (mkBalance (budget (bal o) - pending (bal o)) 0) (last o) (ready o)).
Proof.
  intros Hk Hc HP Ho.
  pose proof (settled_key select_pending id _ _ order k o Hk Hc Ho) as Hs. rewrite scan_id in Hs.
  transitivity (key_obj (settled (pending_items order (ledger B)) (ledger B)) k).
  - unfold final_flush, outcome. destruct (pending_items _ _); [done|]. by rewrite HP.
  - unfold pending_items. rewrite Hs. unfold select_pending. case_Z.
    + cbn. rewrite e, Z.sub_0_r. by destruct o as [[? ?] ? ?]; cbn in *; subst.
    + by rewrite (settle_all_obj o (id o)).
Qed.
End batch.

(** ** The commit cycle *)
Section commit_props.
Context {A P C : Type} {CA : Counter A} {CL : CounterLaws A} {PP : Persister P} {CC : Churn C}.
Implicit Types (B : Books P C).

(** A batch holds exactly the keys that are due, with the vector each has. *)
Definition is_due_batch (w : Worker) (now : Z) (L : Ledger) (cs : list Commit) : Prop :=
  forall k v, mkCommit k v ∈ cs <->
    exists o, key_obj L k = Some o /\ due w now o = true /\ pending (bal o) = v.

(** What a successful cycle makes of an object. *)
Definition after_commit (w : Worker) (now : Z) (o : Obj) : Obj :=
  if due w now o
  then mkObj (mkBalance (budget (bal o) - pending (bal o)) 0) (last o) false
  else scanned w now o.

(** C26: a commit cycle ([runCommitCycle]) that visits every key and whose batch
    the backend accepts persists exactly the keys that are due (over the
    threshold and armed, or past the maximum age), each once with its whole
    pending vector; every due key ends with that vector moved from the budget,
    nothing pending, and disarmed; no other key's balance changes. *)
Theorem commit_cycle_success w order now B (w0 : World A P C) P' :
  wrep B w0 -> covers order (ledger B) ->
  let batch := commits_of (due_items w now order (ledger B)) in
  CommitBatch batch (backend B) = (P', None) ->
  is_due_batch w now (ledger B) batch /\ NoDup (Key <$> batch) /\
  exists w1 B1, runCommitCycle w order now w0 = Some (w1, tt) /\ wrep B1 w1 /\
    (batch <> [] -> backend B1 = P') /\ (batch = [] -> backend B1 = backend B) /\
    forall k o, key_obj (ledger B) k = Some o ->
      key_obj (ledger B1) k = Some (after_commit w now o).
Proof.
  intros Hw Hc batch HP. pose proof (wrep_keyed _ _ Hw) as Hk. split_and!.
  - intros k v. unfold batch, due_items. rewrite items_of_key by done. unfold select_due.
    split; intros (o & Ho & Hd); exists o; destruct (due w now o); destruct_and?; split_and?; congruence.
  - by apply batch_keys_NoDup, Hc.
  - destruct (runCommitCycle_ok w order now B (proj1 Hc) w0 Hw) as (w1 & [] & He & Hw1).
    exists w1, (commit_cycle w order now B). split_and!; [done|done|..].
    + intros Hb. subst batch. unfold commit_cycle, outcome. cbn [backend on_ledger].
      destruct (due_items _ _ _ _); [done|]. by rewrite HP.
    + intros Hb. subst batch. unfold commit_cycle, outcome. by destruct (due_items _ _ _ _).
    + intros k o Ho. erewrite commit_cycle_accepted; [|done..]. unfold after_commit.
      destruct (due w now o) eqn:Hd; [|done]. f_equal. unfold scanned. rewrite Hd.
      by apply (settle_all_obj o (set_ready false o)).
Qed.

(** C35: after a commit cycle whose batch the backend accepts, no key has [T] or
    more unpersisted units: with the low watermark off, every pending vector is
    below the threshold [T > 0]; with it on, the only keys at or above [T] are
    disarmed ones. *)
Theorem exposure_bound w order now B (w0 : World A P C) P' :
  wrep B w0 -> covers order (ledger B) -> 0 < commitThreshold w ->
  CommitBatch (commits_of (due_items w now order (ledger B))) (backend B) = (P', None) ->
  exists w1 B1, runCommitCycle w order now w0 = Some (w1, tt) /\ wrep B1 w1 /\
    forall k o, is_Some (key_obj (ledger B) k) -> key_obj (ledger B1) k = Some o ->
      pending (bal o) < commitThreshold w \/ (0 < lowCommitThreshold w /\ ready o = false).
Proof.
  intros Hw Hc HT HP. pose proof (wrep_keyed _ _ Hw) as Hk.
  destruct (runCommitCycle_ok w order now B (proj1 Hc) w0 Hw) as (w1 & [] & He & Hw1).
  exists w1, (commit_cycle w order now B). split_and!; [done|done|].
  intros k o [o0 Ho0]. erewrite commit_cycle_accepted; [|done..]. intros [= <-].
  destruct (due w now o0) eqn:Hd; [left; unfold scanned; rewrite Hd, (settle_all_obj o0 (set_ready false o0)) by done; cbn; lia|].
  unfold scanned. rewrite Hd. unfold due, by_threshold in Hd. apply orb_false_iff in Hd as [Hd _].
  destruct (Z.leb_spec (commitThreshold w) (pending (bal o0))); cbn in Hd.
  - right. apply orb_false_iff in Hd as [Hl Hr]. split; [lia|].
    unfold rearms, by_threshold. by rewrite (proj2 (Z.leb_le _ _)).
  - left. by destruct (rearms w o0).
Qed.

(** A commit cycle whose batch the backend refuses changes no balance: every
    pending vector is still there, whole, and no key is lost.  (What it does
    change is the armed flag of the keys it tried.) *)
Theorem commit_cycle_failure w order now B (w0 : World A P C) P' msg :
  wrep B w0 -> covers order (ledger B) ->
  CommitBatch (commits_of (due_items w now order (ledger B))) (backend B) = (P', Some msg) ->
  exists w1 B1, runCommitCycle w order now w0 = Some (w1, tt) /\ wrep B1 w1 /\
    forall k o, key_obj (ledger B) k = Some o ->
      exists o1, key_obj (ledger B1) k = Some o1 /\ bal o1 = bal o /\ last o1 = last o /\
        (ready o1 = ready o \/ due w now o = true \/ rearms w o = true).
Proof.
  intros Hw Hc HP. pose proof (wrep_keyed _ _ Hw) as Hk.
  destruct (runCommitCycle_ok w order now B (proj1 Hc) w0 Hw) as (w1 & [] & He & Hw1).
  exists w1, (commit_cycle w order now B). split_and!; [done|done|].
  intros k o Ho. exists (scanned w now o). split; [by eapply commit_cycle_refused|].
  unfold scanned. destruct (due w now o), (rearms w o); cbn; auto.
Qed.

(** A disarmed key above the low watermark is not due and not armed again. *)
Definition stranded (w : Worker) (o : Obj) : Prop :=
  commitMaxAge w <= 0 /\ 0 < lowCommitThreshold w /\ ready o = false /\
  lowCommitThreshold w < pending (bal o).

Lemma stranded_scanned w now o : stranded w o -> due w now o = false /\ scanned w now o = o.
Proof.
  intros (Ha & Hl & Hr & Hp). assert (Hd : due w now o = false).
  { unfold due, by_age. rewrite Hr. repeat case_Z; try lia; by rewrite ?andb_false_r. }
  split; [done|]. unfold scanned. rewrite Hd. unfold rearms. repeat case_Z; try lia. by rewrite ?andb_false_r.
Qed.

Lemma stranded_cycle w order now B n k o :
  keyed (entries (ledger B)) n -> covers order (ledger B) -> stranded w o ->
  key_obj (ledger B) k = Some o -> key_obj (ledger (commit_cycle w order now B)) k = Some o.
Proof.
  intros Hk Hc Hs Ho. destruct (stranded_scanned w now o Hs) as [Hd Hsc].
  destruct (CommitBatch (commits_of (due_items w now order (ledger B))) (backend B)) as [P' [msg|]] eqn:HP.
  - erewrite commit_cycle_refused; [by rewrite Hsc|done..].
  - erewrite commit_cycle_accepted; [by rewrite Hd, Hsc|done..].
Qed.

Lemma commit_cycle_entries w order now B :
  entries (ledger (commit_cycle w order now B)) = entries (ledger B).
Proof. unfold commit_cycle. rewrite outcome_entries. apply scan_entries. Qed.

Definition is_tick (L : Ledger) (ev : CommitEvent) : Prop :=
  match ev with Tick order _ => covers order L | StopFlush _ => False end.

(** With the low watermark on and no maximum age, one refused batch strands
    the keys in it: the cycle disarms them before it knows the outcome, and as
    they keep more than the low watermark pending they are never armed again, so
    no number of later commit ticks, whatever the backend then answers, persists
    their vectors.  (The batch "retry" is left to later cycles by the comment
    after the error message in [runCommitCycle].) *)
Theorem refused_batch_strands_keys w order now B (w0 : World A P C) P' msg k o evs :
  wrep B w0 -> covers order (ledger B) ->
  CommitBatch (commits_of (due_items w now order (ledger B))) (backend B) = (P', Some msg) ->
  key_obj (ledger B) k = Some o -> due w now o = true -> stranded w (set_ready false o) ->
  Forall (is_tick (ledger B)) evs ->
  exists w1 B1, commitLoop w (Tick order now :: evs) w0 = Some (w1, tt) /\ wrep B1 w1 /\
    key_obj (ledger B1) k = Some (set_ready false o).
Proof.
  intros Hw Hc HP Ho Hd Hs Hevs. cbn [commitLoop].
  destruct (runCommitCycle_ok w order now B (proj1 Hc) w0 Hw) as (w1 & [] & He & Hw1).
  erewrite bind_Some by done.
  pose proof (commit_cycle_refused w order now B _ P' msg k o (wrep_keyed _ _ Hw) Hc HP Ho) as Ho1.
  unfold scanned in Ho1. rewrite Hd in Ho1.
  assert (Hen : entries (ledger (commit_cycle w order now B)) = entries (ledger B))
    by apply commit_cycle_entries.
  revert Hen Ho1 Hw1. clear He. generalize (commit_cycle w order now B) as B1. revert w1.
  induction Hevs as [|ev evs Hev Hevs IH]; intros w1 B1 Hen Ho1 Hw1; [by exists w1, B1|].
  destruct ev as [order' now'|]; [|done]. cbn in Hev. cbn [commitLoop].
  destruct Hev as [Hnd Hcov].
  assert (Hc1 : covers order' (ledger B1)) by (split; [done|by rewrite Hen]).
  destruct (runCommitCycle_ok w order' now' B1 Hnd w1 Hw1) as (w2 & [] & He2 & Hw2).
  erewrite bind_Some by done. apply (IH w2 (commit_cycle w order' now' B1)); [|
    by apply (stranded_cycle w order' now' B1 _ k _ (wrep_keyed _ _ Hw1))|done].
  by rewrite commit_cycle_entries.
Qed.

(** The final flush ([runFinalFlush], run when the worker is stopped), when
    the backend accepts it, persists every key with a non-zero vector, whole, and
    leaves nothing pending; the units each key has left do not change. *)
Theorem final_flush_complete order B (w0 : World A P C) P' :
  wrep B w0 -> covers order (ledger B) ->
  let batch := commits_of (pending_items order (ledger B)) in
  CommitBatch batch (backend B) = (P', None) ->
  (forall k v, mkCommit k v ∈ batch <->
     exists o, key_obj (ledger B) k = Some o /\ pending (bal o) = v /\ v <> 0) /\
  NoDup (Key <$> batch) /\
  exists w1 B1, runFinalFlush order w0 = Some (w1, tt) /\ wrep B1 w1 /\
    forall k o, key_obj (ledger B) k = Some o ->
      key_obj (ledger B1) k =
      Some (mkObj (mkBalance (budget (bal o) - pending (bal o)) 0) (last o) (ready o)).
Proof.
  intros Hw Hc batch HP. pose proof (wrep_keyed _ _ Hw) as Hk. split_and!.
  - intros k v. unfold batch, pending_items. rewrite items_of_key by done. unfold select_pending.
    split; intros (o & Ho & Hd); exists o; (case_Z; destruct_and?; split_and?; congruence).
  - by apply batch_keys_NoDup, Hc.
  - destruct (runFinalFlush_ok order B (proj1 Hc) w0 Hw) as (w1 & [] & He & Hw1).
    exists w1, (final_flush order B). split_and!; [done|done|]. intros k o Ho.
    by eapply final_flush_accepted.
Qed.
End commit_props.

(** ** Eviction

    A backend whose accepted commits are kept in a log. *)
Definition Logged (P : Type) : Type := P * list Commit.
#[export] Instance logged_CommitBatch {P} `{Persister P} : Persister (Logged P) := fun cs pl =>
  let '(p', err) := CommitBatch cs pl.1 in
  ((p', match err with None => pl.2 ++ cs | Some _ => pl.2 end), err).

Lemma logged_log {P} `{Persister P} cs (pl pl' : Logged P) err :
  CommitBatch cs pl = (pl', err) ->
  pl'.2 = match err with None => pl.2 ++ cs | Some _ => pl.2 end.
Proof.
  unfold CommitBatch, logged_CommitBatch. destruct (CommitBatch cs pl.1) as [p' e].
  by intros [= <- <-].
Qed.

Section evict_props.
Context {A P C : Type} {CA : Counter A} {CL : CounterLaws A} {PP : Persister P} {CC : Churn C}.
Implicit Types (B : Books (Logged P) C).

(** What became of a key that had the object [o]. *)
Definition kept (k : string) (o : Obj) (B : Books (Logged P) C) : Prop :=
  key_obj (ledger B) k = Some o.
Definition evicted (k : string) (o : Obj) (B : Books (Logged P) C) : Prop :=
  key_obj (ledger B) k = None /\
  (pending (bal o) = 0 \/ mkCommit k (pending (bal o)) ∈ (backend B).2).

Lemma key_obj_forget k k' B :
  key_obj (ledger (forget k' B)) k = if decide (k' = k) then None else key_obj (ledger B) k.
Proof.
  unfold key_obj, forget. cbn. case_decide as Hk;
    [subst; by rewrite lookup_delete_eq|by rewrite lookup_delete_ne].
Qed.

Lemma evict_one_keyed w later key B n :
  keyed (entries (ledger B)) n -> keyed (entries (ledger (evict_one w later key B))) n.
Proof.
  intros Hk. unfold evict_one. destruct (_ ≫= _) as [[p o]|]; [|done].
  destruct (negb _); [done|]. destruct (_ =? 0); [by apply keyed_delete|].
  destruct (CommitBatch _ _) as [P' [msg|]]; [done|by apply keyed_delete].
Qed.

Lemma evict_one_log w later key B c :
  c ∈ (backend B).2 -> c ∈ (backend (evict_one w later key B)).2.
Proof.
  intros Hc. unfold evict_one. destruct (_ ≫= _) as [[p o]|]; [|done].
  destruct (negb _); [done|]. destruct (_ =? 0); [done|].
  destruct (CommitBatch _ _) as [P' err] eqn:HP. apply logged_log in HP.
  destruct err as [msg|]; cbn; rewrite HP; [done|]. apply elem_of_app. by left.
Qed.

Lemma evict_one_other w later key B n k :
  keyed (entries (ledger B)) n -> k <> key ->
  key_obj (ledger (evict_one w later key B)) k = key_obj (ledger B) k.
Proof.
  intros Hk Hne. unfold evict_one.
  destruct (entries (ledger B) !! key) as [p|] eqn:Hp; simpl; [|done].
  destruct (objs (ledger B) !! p) as [o|]; simpl; [|done].
  destruct (negb _); [done|].
  destruct (_ =? 0); [rewrite key_obj_forget; by rewrite decide_False|].
  destruct (CommitBatch _ _) as [P' [msg|]]; [done|].
  rewrite key_obj_forget, decide_False by done. unfold key_obj. cbn [ledger entries upd].
  destruct (entries (ledger B) !! k) as [q|] eqn:Hq; simpl; [|done].
  apply list_lookup_alter_ne. intros ->. by apply Hne, (keyed_inj _ _ Hk k key q).
Qed.

Lemma evict_one_self w later key B o :
  kept key o B ->
  kept key o (evict_one w later key B) \/
  (stale w later o = true /\ evicted key o (evict_one w later key B)).
Proof.
  unfold kept, evicted. intros Ho. pose proof Ho as (p & Hp & Hpo)%key_obj_Some.
  unfold evict_one. rewrite Hp. simpl. rewrite Hpo. simpl.
  destruct (stale w later o) eqn:Hs; simpl; [|by left].
  destruct (Z.eqb_spec (pending (bal o)) 0) as [Hz|Hz].
  { right. rewrite key_obj_forget, decide_True by done. auto. }
  destruct (CommitBatch _ _) as [P' [msg|]] eqn:HP; apply logged_log in HP; [by left|].
  right. rewrite key_obj_forget, decide_True by done. split_and!; [done..|]. right.
  cbn. rewrite HP. apply elem_of_app. right. apply list_elem_of_here.
Qed.

Lemma evict_all_key w later keys B n k o :
  keyed (entries (ledger B)) n -> kept k o B ->
  let B1 := foldl (fun B key => evict_one w (later key) key B) B keys in
  kept k o B1 \/ (k ∈ keys /\ stale w (later k) o = true /\ evicted k o B1).
Proof.
  cbn zeta. intros Hk Ho.
  induction keys as [|key keys IH] using rev_ind; [by left|]. rewrite foldl_app. cbn [foldl].
  set (B1 := foldl _ B keys) in *.
  assert (Hk1 : keyed (entries (ledger B1)) n).
  { subst B1. clear - Hk. revert B Hk. induction keys as [|key keys IH]; intros B Hk; [done|].
    apply IH. by apply evict_one_keyed. }
  destruct IH as [Ho1|(Hin & Hs & Hgone & Hlog)].
  - destruct (decide (k = key)) as [<-|Hne].
    + destruct (evict_one_self w (later k) k B1 o Ho1) as [?|[? ?]]; [by left|right].
      split; [|done]. apply elem_of_app. right. apply list_elem_of_here.
    + left. unfold kept. by rewrite (evict_one_other w (later key) key B1 n).
  - right. split; [apply elem_of_app; by left|]. split; [done|]. split.
    + destruct (decide (k = key)) as [<-|Hne]; [|by rewrite (evict_one_other w (later key) key B1 n)].
      rewrite <- Hgone. f_equal. unfold evict_one. unfold key_obj in Hgone.
      destruct (entries (ledger B1) !! k) as [p|]; simpl in *; [by rewrite Hgone|done].
    + destruct Hlog; [by left|right]. by apply evict_one_log.
Qed.

Lemma evict_one_gone w later key B k :
  key_obj (ledger B) k = None -> key_obj (ledger (evict_one w later key B)) k = None.
Proof.
  intros Hk. unfold evict_one.
  destruct (entries (ledger B) !! key) as [p|] eqn:Hp; simpl; [|done].
  destruct (objs (ledger B) !! p) as [o|] eqn:Ho; simpl; [|done].
  destruct (negb _); [done|].
  destruct (_ =? 0); [rewrite key_obj_forget; by case_decide|].
  destruct (CommitBatch _ _) as [P' [msg|]]; [done|]. rewrite key_obj_forget. case_decide; [done|].
  unfold key_obj in *. cbn [ledger entries upd].
  destruct (entries (ledger B) !! k) as [q|]; simpl in *; [|done].
  apply eq_None_not_Some. intros Hs%(upd_objs_is_Some p _ (ledger B) q).
  rewrite Hk in Hs. by apply is_Some_None in Hs.
Qed.

Lemma evict_all_idle w later keys B n k o :
  keyed (entries (ledger B)) n -> kept k o B -> k ∈ keys ->
  stale w (later k) o = true -> pending (bal o) = 0 ->
  key_obj (ledger (foldl (fun B key => evict_one w (later key) key B) B keys)) k = None.
Proof.
  intros Hk Ho Hin Hs Hz. apply list_elem_of_split in Hin as (l1 & l2 & ->).
  rewrite foldl_app. cbn [foldl].
  pose proof (evict_all_key w later l1 B n k o Hk Ho) as Hl1. cbn zeta in Hl1. revert Hl1.
  generalize (foldl (fun B key => evict_one w (later key) key B) B l1). intros B1 Hl1.
  assert (Hgone : key_obj (ledger (evict_one w (later k) k B1)) k = None).
  { destruct Hl1 as [Ho1|(_ & _ & [Hg _])]; [|by apply evict_one_gone].
    pose proof Ho1 as (p & Hp & Hpo)%key_obj_Some. unfold evict_one. rewrite Hp. simpl. rewrite Hpo. simpl.
    rewrite Hs, Hz. cbn [negb Z.eqb]. by rewrite key_obj_forget, decide_True. }
  revert Hgone. generalize (evict_one w (later k) k B1). clear.
  induction l2 as [|key l2 IH]; intros B Hg; [done|]. cbn. by apply IH, evict_one_gone.
Qed.

Lemma stale_keys_elem w now order L k o :
  key_obj L k = Some o -> k ∈ stale_keys w now order L <-> k ∈ order /\ stale w now o = true.
Proof.
  intros (p & Hp & Ho)%key_obj_Some. unfold stale_keys. rewrite list_elem_of_omap. split.
  - intros ([k' q] & Hv & Hk). simpl in Hk. apply visits_elem in Hv as [Hin Hq].
    destruct (objs L !! q) as [o'|] eqn:Ho'; simpl in Hk; [|done].
    destruct (stale w now o') eqn:Hs; [|done]. injection Hk as ->. split; [done|congruence].
  - intros [Hin Hs]. exists (k, p). rewrite visits_elem. split; [done|]. simpl. rewrite Ho. simpl. by rewrite Hs.
Qed.

(** C34: an eviction cycle ([runEvictionCycle]) removes what it should and loses
    nothing: a key leaves the store only if it was stale both when the store was
    scanned and when its turn came, and only with nothing pending or with its
    whole pending vector accepted by the backend; every other key, a key whose
    last commit was refused included, keeps its object as it was; and a stale key
    with nothing pending does go. *)
Theorem eviction_loses_nothing w order now later B (w0 : World A (Logged P) C) :
  wrep B w0 ->
  exists w1 B1, runEvictionCycle w order now later w0 = Some (w1, tt) /\ wrep B1 w1 /\
    forall k o, kept k o B ->
      (kept k o B1 \/
       (stale w now o = true /\ stale w (later k) o = true /\ evicted k o B1)) /\
      (k ∈ order -> stale w now o = true -> stale w (later k) o = true ->
       pending (bal o) = 0 -> evicted k o B1).
Proof.
  intros Hw. destruct (runEvictionCycle_ok w order now later B w0 Hw) as (w1 & [] & He & Hw1).
  exists w1, (eviction_cycle w order now later B). split_and!; [done|done|]. intros k o Ho. split.
  - destruct (evict_all_key w later (stale_keys w now order (ledger B)) B _ k o (wrep_keyed _ _ Hw) Ho)
      as [?|(Hin & ? & ?)]; [by left|right].
    split_and!; [by apply (stale_keys_elem w now order (ledger B) k o)|done..].
  - intros Hin Hs Hs' Hz. split; [|by left]. eapply evict_all_idle; [by eapply wrep_keyed|done|..|done|done].
    by apply (stale_keys_elem w now order (ledger B) k o).
Qed.
End evict_props.


(** ** Stopping *)
Inductive ControlCall := CallStart | CallStop.
Definition control_call (c : ControlCall) : SM Control unit :=
  match c with CallStart => Start | CallStop => Stop end.
#[export] Instance ControlCall_eq_dec : EqDecision ControlCall.
Proof. solve_decision. Defined.

(** [Stop] may be called any number of times and in any order with [Start]:
    the stop channel is never closed twice (which would panic), and it is closed
    exactly when some call has stopped the worker. *)
Theorem stop_never_panics (calls : list ControlCall) :
  exists c, for_each control_call calls (mkControl false false 0) = Some (c, tt) /\
    stopped c = bool_decide (CallStop ∈ calls) /\ stopChan_closed c = stopped c.
Proof.
  destruct (triple_for_each control_call (fun seen c =>
    stopped c = bool_decide (CallStop ∈ seen) /\ stopChan_closed c = stopped c) calls)
    with (s := mkControl false false 0) as (c & [] & He & Hc); [|done|by exists c].
  intros seen [|] rest _ [st cl n] [Hs Hcl]; cbn in Hs, Hcl; subst cl.
  - eexists _, tt. split; [done|]. cbn. split; [|done]. rewrite Hs. apply bool_decide_ext.
    rewrite elem_of_app, list_elem_of_singleton. split; [by left|]. by intros [?|?].
  - assert (Hin : bool_decide (CallStop ∈ seen ++ [CallStop]) = true).
    { apply bool_decide_eq_true, elem_of_app. right. apply list_elem_of_here. }
    unfold control_call, Stop. cbn [stopped stopChan_closed running].
    destruct st; (eexists _, tt; split; [done|]); cbn; by rewrite Hin.
Qed.

(** ** Witnesses *)
Definition demo_worker (low : Z) : Worker := mkWorker 3 low 100 0 5000 1000.
Definition accepting : Scripted := mkScripted [] [].
Definition refusing : Scripted := mkScripted [Some "down"] [].

Lemma commit_cycle_success_witness :
  exists (w0 w1 : World VSA Scripted (list Call)) (B1 : Books Scripted (list Call)),
    serve demo_requests (demo_start accepting) = Some (w0, tt) /\
    runCommitCycle (demo_worker 0) ["b"; "a"] 2000 w0 = Some (w1, tt) /\
    accepted (backend B1) = [mkCommit "a" 3] /\
    key_obj (ledger B1) "a" = Some (mkObj (mkBalance 7 0) 1000 false) /\
    key_obj (ledger B1) "b" = Some (mkObj (mkBalance 10 1) 1000 true).
Proof.
  destruct (demo_serve accepting) as (w0 & Hs & Hw0).
  destruct (commit_cycle_success (demo_worker 0) ["b"; "a"] 2000 _ w0
    (mkScripted [] [mkCommit "a" 3]) Hw0 (demo_covers _)) as (_ & _ & w1 & B1 & He & _ & Hp & _ & Hk);
    [by vm_compute|].
  exists w0, w1, B1. split_and!; [done|done|rewrite Hp; by vm_compute|..].
  - by apply (Hk "a" (mkObj (mkBalance 10 3) 1000 true)); vm_compute.
  - by apply (Hk "b" (mkObj (mkBalance 10 1) 1000 true)); vm_compute.
Defined.

Lemma exposure_bound_witness :
  exists (w0 w1 : World VSA Scripted (list Call)) (B1 : Books Scripted (list Call)),
    serve demo_requests (demo_start accepting) = Some (w0, tt) /\
    runCommitCycle (demo_worker 0) ["b"; "a"] 2000 w0 = Some (w1, tt) /\
    forall o, key_obj (ledger B1) "a" = Some o -> pending (bal o) < 3.
Proof.
  destruct (demo_serve accepting) as (w0 & Hs & Hw0).
  destruct (exposure_bound (demo_worker 0) ["b"; "a"] 2000 _ w0
    (mkScripted [] [mkCommit "a" 3]) Hw0 (demo_covers _)) as (w1 & B1 & He & _ & Hk);
    [by vm_compute..|].
  exists w0, w1, B1. split_and!; [done|done|]. intros o Ho.
  destruct (Hk "a" o) as [?|[? _]]; [by vm_compute; eexists|done|done|by vm_compute in H].
Defined.

Lemma commit_cycle_failure_witness :
  exists (w0 w1 : World VSA Scripted (list Call)) (B1 : Books Scripted (list Call)) o,
    serve demo_requests (demo_start refusing) = Some (w0, tt) /\
    runCommitCycle (demo_worker 0) ["b"; "a"] 2000 w0 = Some (w1, tt) /\
    key_obj (ledger B1) "a" = Some o /\ bal o = mkBalance 10 3.
Proof.
  destruct (demo_serve refusing) as (w0 & Hs & Hw0).
  destruct (commit_cycle_failure (demo_worker 0) ["b"; "a"] 2000 _ w0
    (mkScripted [] []) "down" Hw0 (demo_covers _)) as (w1 & B1 & He & _ & Hk); [by vm_compute|].
  destruct (Hk "a" (mkObj (mkBalance 10 3) 1000 true)) as (o & Ho & Hb & _); [by vm_compute|].
  exists w0, w1, B1, o. split_and!; [exact Hs|exact He|exact Ho|exact Hb].
Defined.

Lemma refused_batch_strands_keys_witness :
  exists (w0 w1 : World VSA Scripted (list Call)) (B1 : Books Scripted (list Call)),
    serve demo_requests (demo_start refusing) = Some (w0, tt) /\
    commitLoop (demo_worker 1) [Tick ["b"; "a"] 2000; Tick ["a"; "b"] 2100; Tick ["b"; "a"] 2200] w0
      = Some (w1, tt) /\
    key_obj (ledger B1) "a" = Some (mkObj (mkBalance 10 3) 1000 false).
Proof.
  destruct (demo_serve refusing) as (w0 & Hs & Hw0).
  destruct (refused_batch_strands_keys (demo_worker 1) ["b"; "a"] 2000 (demo_books refusing) w0
    (mkScripted [] []) "down" "a" (mkObj (mkBalance 10 3) 1000 true)
    [Tick ["a"; "b"] 2100; Tick ["b"; "a"] 2200]) as (w1 & B1 & He & _ & Hk).
  - exact Hw0.
  - apply demo_covers.
  - vm_compute. reflexivity.
  - vm_compute. reflexivity.
  - vm_compute. reflexivity.
  - by repeat split.
  - constructor; [|constructor; [|constructor]].
    + apply (covers_intro ["a"; "b"]). vm_compute. reflexivity.
    + apply (covers_intro ["b"; "a"]). vm_compute. reflexivity.
  - exists w0, w1, B1. split_and!; [exact Hs|exact He|exact Hk].
Defined.

Lemma final_flush_complete_witness :
  exists (w0 w1 : World VSA Scripted (list Call)) (B1 : Books Scripted (list Call)),
    serve demo_requests (demo_start accepting) = Some (w0, tt) /\
    runFinalFlush ["b"; "a"] w0 = Some (w1, tt) /\
    key_obj (ledger B1) "b" = Some (mkObj (mkBalance 9 0) 1000 true).
Proof.
  destruct (demo_serve accepting) as (w0 & Hs & Hw0).
  destruct (final_flush_complete ["b"; "a"] _ w0
    (mkScripted [] [mkCommit "b" 1; mkCommit "a" 3]) Hw0 (demo_covers _))
    as (_ & _ & w1 & B1 & He & _ & Hk); [by vm_compute|].
  exists w0, w1, B1. split_and!; [done|done|].
  by apply (Hk "b" (mkObj (mkBalance 10 1) 1000 true)); vm_compute.
Defined.

Lemma eviction_loses_nothing_witness :
  exists (w0 w1 : World VSA (Logged Scripted) (list Call)) (B1 : Books (Logged Scripted) (list Call)),
    serve demo_requests (start 10 (accepting, []) []) = Some (w0, tt) /\
    runEvictionCycle (demo_worker 0) ["b"; "a"] 9000 (fun k => if decide (k = "a") then 9000 else 5000) w0
      = Some (w1, tt) /\
    kept "b" (mkObj (mkBalance 10 1) 1000 true) B1.
Proof.
  destruct (serve_ok demo_requests _ _
    (start_ok (A := VSA) 10 ((accepting, []) : Logged Scripted) ([] : list Call) ltac:(lia))) as (w0 & [] & Hs & Hw0).
  destruct (eviction_loses_nothing (demo_worker 0) ["b"; "a"] 9000
    (fun k => if decide (k = "a") then 9000 else 5000) _ w0 Hw0) as (w1 & B1 & He & _ & Hk).
  exists w0, w1, B1. split_and!; [done|done|].
  destruct (Hk "b" (mkObj (mkBalance 10 1) 1000 true)) as [[?|(_ & Hst & _)] _]; [by vm_compute|done|].
  by vm_compute in Hst.
Defined.
