(* ===== verification/ApiSpec.v ===== *)
(** * What the handlers answer

    The response of a handler is a function of the units its key has left
    ([units_left]), and a key is independent of the others. *)
From stdpp Require Import pretty.
From S2P Require Import Prelude Effects Vsa VsaSpec Counter Store Ledger CoreMetrics Worker WorkerSpec Doubles WorkerProps Api.
Import Spec.

(** A key never seen has the whole limit. *)
Definition units_left (L : Ledger) (key : string) : Z :=
  match key_obj L key with Some o => units o | None => limit L end.

Lemma get_or_create_keyed key now L L' p :
  keyed (entries L) (length (objs L)) -> get_or_create key now L = (L', p) ->
  keyed (entries L') (length (objs L')).
Proof.
  intros Hk. unfold get_or_create. destruct (entries L !! key) as [q|] eqn:Hq; intros [= <- <-]; cbn.
  - by rewrite length_alter.
  - apply keyed_insert; [eapply keyed_le; [done|]| |]; rewrite ?length_app; cbn; try lia.
    intros k' Hk'%(keyed_lt _ _ Hk). lia.
Qed.

(** A request on one key leaves the objects of the others alone. *)
Lemma request_other key now f L k :
  keyed (entries L) (length (objs L)) -> k <> key ->
  key_obj (let '(L', p) := get_or_create key now L in upd p f L') k = key_obj L k.
Proof.
  intros Hk Hne. destruct (get_or_create key now L) as [L' p] eqn:Hg.
  pose proof (get_or_create_keyed key now L L' p Hk Hg) as Hk'.
  destruct (get_or_create_lookup key now L L' p Hk Hg) as [Hp _].
  transitivity (key_obj L' k).
  { unfold key_obj. cbn [entries upd]. destruct (entries L' !! k) as [q|] eqn:Hq; simpl; [|done].
    apply list_lookup_alter_ne. intros ->. apply Hne. by apply (keyed_inj _ _ Hk' k key q). }
  unfold key_obj.
  unfold get_or_create in Hg. destruct (entries L !! key) as [q|] eqn:Hq; injection Hg as <- <-; cbn.
  - destruct (entries L !! k) as [q'|] eqn:Hq'; simpl; [|done]. apply list_lookup_alter_ne.
    intros ->. apply Hne. by apply (keyed_inj _ _ Hk k key q').
  - rewrite lookup_insert_ne by done. destruct (entries L !! k) as [q'|] eqn:Hq'; simpl; [|done].
    apply lookup_app_l. by eapply keyed_lt.
Qed.

Definition check_response (sv : Server) (left : Z) : Response :=
  if 0 <? left then
    mkResponse 200 [("X-RateLimit-Limit", pretty (rateLimit sv));
                    ("X-RateLimit-Remaining", pretty (left - 1));
                    ("X-RateLimit-Status", "OK")] "OK"
  else
    mkResponse 429 [("X-RateLimit-Status", "Exceeded");
                    ("X-RateLimit-Limit", pretty (rateLimit sv));
                    ("X-RateLimit-Remaining", pretty 0);
                    ("Retry-After", "60")] "Too Many Requests".

Section ApiSpec.
Context {A P C : Type} {CA : Counter A} {CL : CounterLaws A} {PP : Persister P} {CC : Churn C}.
Implicit Types (B : Books P C).

Record prep (B : Books P C) (m : Metrics) (s : Process A P C) : Prop := {
  prep_world : wrep B (world s);
  prep_metrics : metrics s = m
}.

Lemma in_world_ok {R} (p : SM (World A P C) R) B m (Q : World A P C -> R -> Prop) :
  triple (wrep B) p Q ->
  triple (prep B m) (in_world p) (fun s r => Q (world s) r /\ metrics s = m).
Proof.
  intros Hp s [Hw Hm]. destruct (Hp _ Hw) as (w & r & He & HQ).
  eexists _, r. unfold in_world, zoom. rewrite He. split; [done|]. by split.
Qed.

Lemma in_process_ok {R} (p : SM (Store A) R) B m L' (r : R) :
  triple (rep (ledger B)) p (fun s x => x = r /\ rep L' s) ->
  triple (prep B m) (in_world (in_store p)) (fun s x =>
    x = r /\ prep (mkBooks L' (backend B) (telemetry B)) m s).
Proof.
  intros Hp. eapply triple_conseq; [apply (in_world_ok _ B m), in_store_ok, Hp|done|]. cbn.
  intros s x (((-> & ?) & ? & ?) & ?). split; [done|]. split; [by split|done].
Qed.

Lemma count_ok f B m : triple (prep B m) (count f) (fun s _ => prep B (f m) s).
Proof. intros s [Hw Hm]. eexists _, tt. split; [done|]. split; [done|]. cbn. by rewrite Hm. Qed.

Lemma observe_process_ok f B m :
  triple (prep B m) (in_world (observe f)) (fun s _ =>
    prep (mkBooks (ledger B) (backend B) (f (telemetry B))) m s).
Proof.
  eapply triple_conseq; [apply (in_world_ok _ B m), observe_ok|done|]. cbn. intros s x []. by split.
Qed.

(** ** The ledger of a request *)
Definition admit_ledger (key : string) (now : Z) (L : Ledger) : Ledger :=
  let '(L', p) := get_or_create key now L in upd p (on_bal consume1) L'.
Definition release_ledger (key : string) (now : Z) (L : Ledger) : Ledger :=
  let '(L', p) := get_or_create key now L in upd p (on_bal refund1) L'.

(** What the pointer [GetOrCreate] returns leads to. *)
Lemma get_or_create_obj key now L L' p n :
  keyed (entries L) n -> n = length (objs L) -> get_or_create key now L = (L', p) ->
  exists o, objs L' !! p = Some o /\ entries L' !! key = Some p /\
    units o = units_left L key /\
    bal o = match key_obj L key with Some o' => bal o' | None => mkBalance (limit L) 0 end.
Proof.
  intros Hk -> Hg. destruct (get_or_create_lookup key now L L' p Hk Hg) as [He [o Ho]].
  exists o. split; [done|]. split; [done|]. unfold units_left, key_obj. unfold get_or_create in Hg.
  destruct (entries L !! key) as [q|] eqn:Hq; injection Hg as <- <-; simpl in *.
  - rewrite list_lookup_alter_eq in Ho. destruct (objs L !! q) as [o'|]; [|done].
    cbn in Ho. injection Ho as <-. done.
  - rewrite lookup_app_r, Nat.sub_diag in Ho by done. injection Ho as <-. by split; [unfold units; cbn; lia|].
Qed.

Lemma GetOrCreate_process key now B m :
  triple (prep B m) (in_world (in_store (GetOrCreate key now))) (fun s p =>
    p = (get_or_create key now (ledger B)).2 /\
    prep (mkBooks (get_or_create key now (ledger B)).1 (backend B) (telemetry B)) m s).
Proof.
  apply in_process_ok. eapply triple_conseq; [apply GetOrCreate_ok|done|]. by intros s a [? ->].
Qed.

Definition count_check (admitted : bool) (m : Metrics) : Metrics :=
  if admitted then RecordAdmit 1 (RecordAttempt 1 m) else RecordAttempt 1 m.

Definition checked (key : string) (now : Z) (B : Books P C) : Books P C :=
  mkBooks (admit_ledger key now (ledger B)) (backend B)
    (ObserveRequest key (0 <? units_left (ledger B) key) (telemetry B)).

Lemma handleCheck_ok sv key now B m : key <> "" ->
  triple (prep B m) (handleCheckRateLimit sv key now) (fun s r =>
    r = check_response sv (units_left (ledger B) key) /\
    prep (checked key now B) (count_check (0 <? units_left (ledger B) key) m) s).
Proof.
  intros Hkey s Hs. unfold handleCheckRateLimit. rewrite decide_False by done.
  destruct (GetOrCreate_process key now B m s Hs) as (s1 & p & He1 & Hp & H1). erewrite bind_Some by done.
  destruct (get_or_create key now (ledger B)) as [L' q] eqn:Hg. cbn in Hp. subst p. cbn [fst] in H1.
  pose proof (rep_keyed _ _ (wrep_rep _ _ (prep_world _ _ _ Hs))) as Hk.
  destruct (get_or_create_obj key now (ledger B) L' q _ Hk eq_refl Hg) as (o & Ho & _ & Hu & _).
  destruct (count_ok (RecordAttempt 1) _ _ s1 H1) as (s2 & [] & He2 & H2). erewrite bind_Some by done.
  destruct (in_process_ok _ (mkBooks L' (backend B) (telemetry B)) _ _ _ (TryConsume_ok q L' o Ho) s2 H2) as (s3 & ok & He3 & -> & H3).
  erewrite bind_Some by done. cbn [backend telemetry] in *.
  destruct (rep_in_budget _ _ q o (wrep_rep _ _ (prep_world _ _ _ H2)) Ho) as [Hb _].
  assert (Hok : (pending (bal o) <? budget (bal o)) = (0 <? units_left (ledger B) key))
    by (rewrite <- Hu; unfold units; repeat case_Z; done || lia).
  assert (Ho' : objs (upd q (on_bal consume1) L') !! q = Some (on_bal consume1 o))
    by (cbn; by rewrite list_lookup_alter_eq, Ho).
  assert (Hav : budget (bal (on_bal consume1 o)) - pending (bal (on_bal consume1 o)) =
    if 0 <? units_left (ledger B) key then units_left (ledger B) key - 1 else 0).
  { rewrite <- Hu. cbn. unfold units. repeat case_Z; lia. }
  unfold checked, admit_ledger, check_response. rewrite Hg, Hok. revert Hav. rewrite <- Hok at 1.
  rewrite Hok. destruct (0 <? units_left (ledger B) key); intros Hav; cbn [negb].
  - destruct (count_ok (RecordAdmit 1) _ _ s3 H3) as (s4 & [] & He4 & H4). erewrite bind_Some by done.
    destruct (observe_process_ok (ObserveRequest key true) _ _ s4 H4) as (s5 & [] & He5 & H5).
    erewrite bind_Some by done.
    destruct (in_process_ok _ (mkBooks (upd q (on_bal consume1) L') _ _) _ _ _ (Available_ok q _ _ Ho') s5 H5) as (s6 & ? & He6 & -> & H6).
    erewrite bind_Some by done. rewrite Hav. by eexists _, _.
  - destruct (observe_process_ok (ObserveRequest key false) _ _ s3 H3) as (s5 & [] & He5 & H5).
    erewrite bind_Some by done.
    destruct (in_process_ok _ (mkBooks (upd q (on_bal consume1) L') _ _) _ _ _ (Available_ok q _ _ Ho') s5 H5) as (s6 & ? & He6 & -> & H6).
    erewrite bind_Some by done. rewrite Hav. by eexists _, _.
Qed.

Definition refundable (L : Ledger) (key : string) : bool :=
  match key_obj L key with Some o => 0 <? pending (bal o) | None => false end.

Definition released (key : string) (now : Z) (B : Books P C) : Books P C :=
  on_ledger (release_ledger key now) B.

Lemma handleRelease_ok key now B m : key <> "" ->
  triple (prep B m) (handleRelease key now) (fun s r =>
    r = mkResponse 204 [] "" /\
    prep (released key now B) (if refundable (ledger B) key then RecordRefund 1 m else m) s).
Proof.
  intros Hkey s Hs. unfold handleRelease. rewrite decide_False by done.
  destruct (GetOrCreate_process key now B m s Hs) as (s1 & p & He1 & Hp & H1). erewrite bind_Some by done.
  destruct (get_or_create key now (ledger B)) as [L' q] eqn:Hg. cbn in Hp. subst p. cbn [fst] in H1.
  pose proof (rep_keyed _ _ (wrep_rep _ _ (prep_world _ _ _ Hs))) as Hk.
  destruct (get_or_create_obj key now (ledger B) L' q _ Hk eq_refl Hg) as (o & Ho & _ & _ & Hbal).
  destruct (in_process_ok _ (mkBooks L' (backend B) (telemetry B)) _ _ _ (TryRefund_ok q L' o Ho) s1 H1) as (s3 & ok & He3 & -> & H3).
  erewrite bind_Some by done. cbn [backend telemetry] in *.
  assert (Hok : (0 <? pending (bal o)) = refundable (ledger B) key).
  { rewrite Hbal. unfold refundable. by destruct (key_obj (ledger B) key). }
  rewrite Hok. unfold released, on_ledger, release_ledger. rewrite Hg.
  destruct (refundable (ledger B) key); [|by eexists _, _].
  destruct (count_ok (RecordRefund 1) _ _ s3 H3) as (s4 & [] & He4 & H4). erewrite bind_Some by done.
  by eexists _, _.
Qed.

Lemma get_or_create_limit key now L : limit (get_or_create key now L).1 = limit L.
Proof. unfold get_or_create. by destruct (entries L !! key). Qed.

Lemma request_key key now f L n :
  keyed (entries L) n -> n = length (objs L) ->
  exists o, key_obj (let '(L', p) := get_or_create key now L in upd p f L') key = Some (f o) /\
    units o = units_left L key /\
    bal o = match key_obj L key with Some o' => bal o' | None => mkBalance (limit L) 0 end.
Proof.
  intros Hk ->. destruct (get_or_create key now L) as [L' p] eqn:Hg.
  destruct (get_or_create_obj key now L L' p _ Hk eq_refl Hg) as (o & Ho & He & Hu & Hb).
  exists o. split; [|done]. unfold key_obj. cbn [entries upd]. rewrite He. simpl.
  by rewrite list_lookup_alter_eq, Ho.
Qed.

Lemma prep_keyed B m s : prep B m s -> keyed (entries (ledger B)) (length (objs (ledger B))).
Proof. intros H. apply (rep_keyed _ _ (wrep_rep _ _ (prep_world _ _ _ H))). Qed.

(** A key's balance is in range, so it never has fewer than zero units left. *)
Lemma key_in_budget B m s k :
  prep B m s ->
  0 <= units_left (ledger B) k /\
  forall o, key_obj (ledger B) k = Some o -> 0 <= pending (bal o) <= budget (bal o) /\ budget (bal o) < H64.
Proof.
  intros H. pose proof (wrep_rep _ _ (prep_world _ _ _ H)) as Hr.
  assert (Hin : forall o, key_obj (ledger B) k = Some o ->
    0 <= pending (bal o) <= budget (bal o) /\ budget (bal o) < H64).
  { intros o (p & _ & Ho)%key_obj_Some. by eapply rep_in_budget. }
  split; [|done]. unfold units_left. destruct (key_obj (ledger B) k) as [o|].
  - destruct (Hin o eq_refl). unfold units. lia.
  - pose proof (rep_range _ _ Hr). lia.
Qed.

(** [/check] with a key answers 200 exactly when the key has a unit left (a key
    never seen has the whole limit), takes that unit, and reports the units that
    remain; otherwise it answers 429 with Retry-After and takes nothing.  No other
    key is affected; the attempt and the admission are counted; no balance goes
    negative and nothing panics. *)
Theorem check_admits_iff_unit_left sv key now B m (s : Process A P C) :
  prep B m s -> key <> "" ->
  let left := units_left (ledger B) key in
  exists s' B', handleCheckRateLimit sv key now s = Some (s', check_response sv left) /\
    prep B' (count_check (0 <? left) m) s' /\
    units_left (ledger B') key = Z.max 0 (left - 1) /\
    backend B' = backend B /\
    forall k, k <> key -> key_obj (ledger B') k = key_obj (ledger B) k.
Proof.
  intros Hs Hkey left. destruct (handleCheck_ok sv key now B m Hkey s Hs) as (s' & r & He & -> & Hs').
  exists s', (checked key now B). pose proof (prep_keyed _ _ _ Hs) as Hk.
  split_and!; [done..| |done|intros k Hne; by apply request_other].
  unfold checked, units_left at 1. cbn [ledger].
  destruct (request_key key now (on_bal consume1) (ledger B) _ Hk eq_refl) as (o & Ho & Hu & _).
  unfold admit_ledger. rewrite Ho. fold left in Hu.
  destruct (key_in_budget B m s key Hs) as [Hge _]. fold left in Hge.
  revert Hu. unfold units, on_bal. cbn. case_Z; lia.
Qed.

(** [/release] with a key always answers 204; it gives back one unit when the
    key has an unpersisted one, counts that refund, and is a no-op otherwise; no
    other key is affected and a key never gets back more than it has pending. *)
Theorem release_gives_back_pending key now B m (s : Process A P C) :
  prep B m s -> key <> "" ->
  exists s' B', handleRelease key now s = Some (s', mkResponse 204 [] "") /\
    prep B' (if refundable (ledger B) key then RecordRefund 1 m else m) s' /\
    units_left (ledger B') key =
      (if refundable (ledger B) key then units_left (ledger B) key + 1 else units_left (ledger B) key) /\
    backend B' = backend B /\
    forall k, k <> key -> key_obj (ledger B') k = key_obj (ledger B) k.
Proof.
  intros Hs Hkey. destruct (handleRelease_ok key now B m Hkey s Hs) as (s' & r & He & -> & Hs').
  exists s', (released key now B). pose proof (prep_keyed _ _ _ Hs) as Hk.
  split_and!; [done..| |done|intros k Hne; by apply request_other].
  unfold released, units_left at 1. cbn [ledger on_ledger].
  destruct (request_key key now (on_bal refund1) (ledger B) _ Hk eq_refl) as (o & Ho & Hu & Hb).
  unfold release_ledger. rewrite Ho, <- Hu. unfold refundable, units. cbn. rewrite Hb.
  destruct (key_obj (ledger B) key) as [o'|]; cbn; [case_Z; lia|lia].
Qed.

(** Without a key both endpoints answer 400 and change nothing: no key is
    created, nothing is counted. *)
Theorem missing_key_rejected sv now (s : Process A P C) :
  handleCheckRateLimit sv "" now s = Some (s, http_Error "API key is required" 400) /\
  handleRelease "" now s = Some (s, http_Error "API key is required" 400) /\
  check_response sv 1 <> http_Error "API key is required" 400.
Proof. by unfold http_Error, check_response. Qed.
End ApiSpec.

(** ** Witnesses *)
Definition demo_process : Process VSA Scripted (list Call) :=
  mkProcess (demo_start accepting) no_metrics.

Lemma demo_prep : prep (start_books 10 accepting []) no_metrics demo_process.
Proof. split; [apply start_ok; lia|done]. Qed.

Lemma check_admits_iff_unit_left_witness :
  exists s', handleCheckRateLimit (mkServer 10) "k" 5 demo_process =
    Some (s', check_response (mkServer 10) 10).
Proof.
  destruct (check_admits_iff_unit_left (mkServer 10) "k" 5 _ _ _ demo_prep) as (s' & _ & He & _); [done|].
  exists s'. exact He.
Defined.

Lemma release_gives_back_pending_witness :
  exists s' B', handleRelease "k" 5 demo_process = Some (s', mkResponse 204 [] "") /\
    prep B' no_metrics s' /\ units_left (ledger B') "k" = 10.
Proof.
  destruct (release_gives_back_pending "k" 5 _ _ _ demo_prep) as (s' & B' & He & Hp & Hu & _); [done|].
  exists s', B'. split; [exact He|]. split; [exact Hp|exact Hu].
Defined.
