(* ===== verification/Service.v ===== *)
(** * The whole service, request by request

    Handlers, commit cycles, flushes and evictions run one after the other on
    one process, in any order.  What holds for the whole history is a
    conservation law: a unit admitted and not refunded is pending in memory or
    accepted by the backend. *)
From S2P Require Import Prelude Effects Vsa VsaSpec Counter Store Ledger CoreMetrics Worker WorkerSpec Doubles WorkerProps Api ApiSpec.
Import Spec.

Inductive Event :=
| ECheck (key : string) (now : Z)
| ERelease (key : string) (now : Z)
| ECommit (order : list string) (now : Z)
| EFlush (order : list string)
| EEvict (order : list string) (now : Z) (later : string -> Z).

Section run.
Context {A P C : Type} {CA : Counter A} {PP : Persister P} {CC : Churn C}.

(** The responses sent so far, with the key each was about. *)
Definition Trace : Type := list (string * Response).

Definition run_event (sv : Server) (w : Worker) (tr : Trace) (e : Event) : SM (Process A P C) Trace :=
  match e with
  | ECheck key now => r ← handleCheckRateLimit sv key now; mret (tr ++ [(key, r)])
  | ERelease key now => r ← handleRelease key now; mret (tr ++ [(key, r)])
  | ECommit order now => in_world (runCommitCycle w order now) ;; mret tr
  | EFlush order => in_world (runFinalFlush order) ;; mret tr
  | EEvict order now later => in_world (runEvictionCycle w order now later) ;; mret tr
  end.

Definition run_events (sv : Server) (w : Worker) (evs : list Event) : SM (Process A P C) Trace :=
  foldM (run_event sv w) [] evs.
End run.

(** A cycle visits a key at most once. *)
Definition event_ok (e : Event) : Prop :=
  match e with
  | ECommit order _ | EFlush order => NoDup order
  | _ => True
  end.

(** What a backend owes the service: it counts the units of the batches it
    accepted, and a batch it refused left nothing behind. *)
Class PersisterLaws (P : Type) `{Persister P} := {
  accepted_units : P -> Z;
  accepted_units_ok cs p p' err :
    Forall (fun c => 0 <= Vector c < H64) cs -> CommitBatch cs p = (p', err) ->
    accepted_units p' ≡ₘ
      accepted_units p + match err with None => Zsum (Vector <$> cs) | Some _ => 0 end
}.

#[export] Instance mock_laws : PersisterLaws mockPersister.
Proof.
  refine {| accepted_units := totalRequests |}. intros cs p p' err Hcs.
  assert (Hsum : totalRequests p +! batch_requests cs ≡ₘ totalRequests p + Zsum (Vector <$> cs)).
  { rewrite add64_eqm, batch_requests_sum, wrap64_eqm.
    assert (map (fun c => Z.abs (Vector c)) cs = Vector <$> cs) as ->; [|done].
    clear -Hcs. induction Hcs as [|c cs Hc Hcs IH]; [done|]. cbn. f_equal; [lia|apply IH]. }
  unfold CommitBatch, mock_CommitBatch. destruct cs as [|c cs]; intros [= <- <-]; [|done].
  cbn. unfold Zsum. cbn. by rewrite Z.add_0_r.
Defined.

#[export] Instance scripted_laws : PersisterLaws Scripted.
Proof.
  refine {| accepted_units p := Zsum (Vector <$> accepted p) |}. intros cs p p' err _.
  assert (Hgo : Zsum (Vector <$> accepted p ++ cs) = Zsum (Vector <$> accepted p) + Zsum (Vector <$> cs))
    by (by rewrite fmap_app, Zsum_app).
  unfold CommitBatch, scripted_CommitBatch.
  destruct (replies p) as [|[msg|] rs]; intros [= <- <-]; cbn [accepted]; rewrite ?Hgo, ?Z.add_0_r; done.
Defined.

(** ** Units pending in memory *)
Definition pending_total (L : Ledger) : Z := Zsum ((fun o => pending (bal o)) <$> objs L).

Lemma pending_upd p f L o : objs L !! p = Some o ->
  pending_total (upd p f L) = pending_total L - pending (bal o) + pending (bal (f o)).
Proof.
  intros Ho. unfold pending_total. cbn. rewrite (list_alter_as_insert _ _ _ _ Ho), list_fmap_insert.
  apply Zsum_insert. by rewrite list_lookup_fmap, Ho.
Qed.

Lemma pending_push o L : pending_total (push o L) = pending_total L + pending (bal o).
Proof. unfold pending_total. cbn. rewrite fmap_app, Zsum_app. unfold Zsum. cbn. lia. Qed.

Lemma pending_scan g ps L :
  (forall o, bal (g o) = bal o) -> pending_total (scan g ps L) = pending_total L.
Proof.
  intros Hg. revert L. induction ps as [|p ps IH]; intros L; [done|].
  etrans; [apply (IH (upd p g L))|].
  destruct (objs L !! p) as [o|] eqn:Ho; [rewrite (pending_upd p g L o Ho), Hg; lia|].
  unfold pending_total. cbn. f_equal. f_equal. apply list_eq. intros i.
  destruct (decide (p = i)) as [<-|Hi]; [by rewrite list_lookup_alter_eq, Ho|by apply list_lookup_alter_ne].
Qed.

Lemma pending_settled items L :
  NoDup (i_ptr <$> items) ->
  Forall (fun i => exists o, objs L !! i_ptr i = Some o /\ pending (bal o) = i_vec i) items ->
  pending_total (settled items L) = pending_total L - Zsum (i_vec <$> items).
Proof.
  revert L. induction items as [|i items IH]; intros L Hnd Hall; [unfold Zsum; cbn; lia|].
  cbn in Hnd. apply list.NoDup_cons in Hnd as [Hi Hnd]. inversion_clear Hall as [|?? (o & Ho & Hp) Hrest].
  etrans; [apply (IH (upd (i_ptr i) (on_bal (settle (i_vec i))) L) Hnd)|].
  - rewrite list.Forall_forall in *. intros j Hj. destruct (Hrest j Hj) as (oj & Hoj & Hpj).
    exists oj. split; [|done]. cbn.
    rewrite list_lookup_alter_ne; [done|]. intros Heq. apply Hi. rewrite Heq. by apply list_elem_of_fmap_2.
  - rewrite (pending_upd _ _ _ _ Ho). cbn [fmap list_fmap]. rewrite Zsum_cons. rewrite <- Hp.
    unfold on_bal, settle. cbn. rewrite Z.min_id. lia.
Qed.

Lemma get_or_create_pending key now L : pending_total (get_or_create key now L).1 = pending_total L.
Proof.
  unfold get_or_create. destruct (entries L !! key) as [q|]; [apply (pending_scan (set_last now) [q]); done|].
  transitivity (pending_total (push (fresh L now) L)); [done|]. rewrite pending_push. cbn. lia.
Qed.

(** The balance a request finds, what it does to it, and what it counts. *)
Definition found (key : string) (L : Ledger) : Balance :=
  match key_obj L key with Some o => bal o | None => mkBalance (limit L) 0 end.

Lemma consumed_pending key L o : 0 <= limit L -> bal o = found key L ->
  pending (bal (on_bal consume1 o)) = pending (bal o) + (if 0 <? units_left L key then 1 else 0).
Proof.
  intros Hl Hb. unfold on_bal, consume1. cbn. rewrite Hb. unfold found, units_left, units.
  destruct (key_obj L key) as [o'|]; cbn; repeat case_Z; lia.
Qed.

Lemma refunded_pending key L o : bal o = found key L ->
  pending (bal (on_bal refund1 o)) = pending (bal o) + (if refundable L key then -1 else 0).
Proof.
  intros Hb. unfold on_bal, refund1, refundable. cbn. rewrite Hb. unfold found.
  destruct (key_obj L key) as [o'|]; cbn; [case_Z; lia|done].
Qed.

Lemma count_check_net b m :
  admits (count_check b m) - refunds (count_check b m) ≡ₘ admits m - refunds m + (if b then 1 else 0).
Proof.
  unfold count_check, RecordAdmit, RecordAttempt. destruct b; cbn; [rewrite add64_eqm; eqm_lia|by rewrite Z.add_0_r].
Qed.

Lemma count_release_net (b : bool) m :
  let m' := if b then RecordRefund 1 m else m in
  admits m' - refunds m' ≡ₘ admits m - refunds m + (if b then -1 else 0).
Proof. unfold RecordRefund. destruct b; cbn; [rewrite add64_eqm; eqm_lia|by rewrite Z.add_0_r]. Qed.

(** ** The conservation law *)
Section conservation.
Context {A P C : Type} {CA : Counter A} {CL : CounterLaws A} {PP : Persister P} {PL : PersisterLaws P}
  {CC : Churn C}.
Implicit Types (B : Books P C).

(** An object no key leads to has nothing pending: nobody will commit it. *)
Definition no_orphan_units (L : Ledger) : Prop :=
  forall p o, objs L !! p = Some o -> (forall k, entries L !! k <> Some p) -> pending (bal o) = 0.

(** The units admitted and not refunded, as the process counts them, are the
    units the backend accepted and the units pending, modulo [2^64]. *)
Definition conserved (B : Books P C) (m : Metrics) : Prop :=
  admits m - refunds m ≡ₘ accepted_units (backend B) + pending_total (ledger B) /\
  no_orphan_units (ledger B).

Lemma request_pending key now (f : Obj -> Obj) L n :
  keyed (entries L) n -> n = length (objs L) -> no_orphan_units L ->
  let L' := let '(L1, p) := get_or_create key now L in upd p f L1 in
  exists o, bal o = found key L /\
    pending_total L' = pending_total L - pending (bal o) + pending (bal (f o)) /\
    no_orphan_units L'.
Proof.
  intros Hk -> Ho. destruct (get_or_create key now L) as [L1 p] eqn:Hg. cbn zeta.
  destruct (get_or_create_obj key now L L1 p _ Hk eq_refl Hg) as (o & Hp & He & _ & Hb).
  pose proof (get_or_create_pending key now L) as H1. rewrite Hg in H1. cbn [fst] in H1.
  assert (Hno : no_orphan_units L1).
  { unfold get_or_create in Hg. destruct (entries L !! key) as [q|] eqn:Hq; injection Hg as <- <-; intros i oi Hi Hno.
    - rewrite upd_lookup in Hi. case_decide; [subst; by edestruct Hno|by eapply Ho].
    - cbn in Hi, Hno. apply lookup_app_Some in Hi as [Hi|[Hlen Hi]].
      + apply (Ho i oi Hi). intros k Hki. specialize (Hno k). rewrite lookup_insert_ne in Hno; [done|].
        intros <-. congruence.
      + apply list_lookup_singleton_Some in Hi as [Hi <-]. done. }
  exists o. split; [done|]. split; [by rewrite (pending_upd p f L1 o), H1|].
  intros i oi Hi Hni. cbn [entries upd] in Hni. rewrite upd_lookup in Hi.
  case_decide; [subst; by edestruct (Hni key)|by eapply Hno].
Qed.

Lemma conserved_request B B' m m' key now f d :
  keyed (entries (ledger B)) (length (objs (ledger B))) -> conserved B m ->
  ledger B' = (let '(L1, p) := get_or_create key now (ledger B) in upd p f L1) -> backend B' = backend B ->
  (forall o, bal o = found key (ledger B) -> pending (bal (f o)) = pending (bal o) + d) ->
  admits m' - refunds m' ≡ₘ admits m - refunds m + d ->
  conserved B' m'.
Proof.
  intros Hk [Hm Ho] HL HB Hf Hm'. unfold conserved. rewrite HL, HB.
  destruct (request_pending key now f (ledger B) _ Hk eq_refl Ho) as (o & Hb & Hp & Hno).
  split; [|done]. rewrite Hp, (Hf o Hb), Hm', Hm. replace (pending_total (ledger B) - pending (bal o) + (pending (bal o) + d))
    with (pending_total (ledger B) + d) by lia. by rewrite Z.add_assoc.
Qed.

(** Cycles: what leaves memory reaches the backend. *)
Lemma conserved_outcome items B m :
  conserved B m -> NoDup (i_ptr <$> items) ->
  Forall (fun i => exists o, objs (ledger B) !! i_ptr i = Some o /\ pending (bal o) = i_vec i) items ->
  Forall (fun i => 0 <= i_vec i < H64) items ->
  conserved (outcome items B) m.
Proof.
  intros [Hm Ho] Hnd Hall Hr. unfold outcome. destruct items as [|i items0] eqn:Hi; [done|].
  rewrite <- Hi in *.
  destruct (CommitBatch (commits_of items) (backend B)) as [P' err] eqn:HP.
  apply accepted_units_ok in HP; cycle 1.
  { unfold commits_of. apply Forall_fmap. exact Hr. }
  assert (Hsum : Vector <$> commits_of items = i_vec <$> items)
    by (unfold commits_of; by rewrite <- list_fmap_compose).
  destruct err as [msg|]; split; cbn [ledger backend]; [|done| |].
  - by rewrite HP, Z.add_0_r.
  - rewrite HP, Hsum, pending_settled by done. rewrite Hm.
    match goal with |- ?a ≡ₘ ?b => replace b with a by lia end. reflexivity.
  - intros p o Hp Hno. rewrite settled_entries in Hno.
    destruct (decide (p ∈ i_ptr <$> items)) as [Hin|Hout].
    + apply list_elem_of_fmap in Hin as (j & -> & Hj).
      rewrite settled_in in Hp by done. rewrite list.Forall_forall in Hall.
      destruct (Hall j Hj) as (oj & Hoj & Hpj). rewrite Hoj in Hp. cbn in Hp. injection Hp as <-.
      rewrite <- Hpj. cbn. rewrite Z.min_id. lia.
    + rewrite settled_notin in Hp by done. by eapply Ho.
Qed.

Lemma conserved_scan g order B m :
  (forall o, bal (g o) = bal o) -> conserved B m ->
  conserved (on_ledger (scan g (visits (entries (ledger B)) order).*2) B) m.
Proof.
  intros Hg [Hm Ho]. split; cbn [ledger backend on_ledger]; [by rewrite pending_scan|].
  generalize (visits (entries (ledger B)) order).*2 as ps. intros ps. revert Ho.
  generalize (ledger B) as L. clear -Hg. induction ps as [|p ps IH]; intros L Ho; [done|].
  apply (IH (upd p g L)). intros q o Hq Hno. cbn [entries upd] in Hno. rewrite upd_lookup in Hq.
  case_decide; [|by eapply Ho]. destruct (objs L !! q) as [o'|] eqn:Hq'; [|done].
  cbn in Hq. injection Hq as <-. rewrite Hg. by eapply Ho.
Qed.

Lemma scan_bal g order L p o n :
  keyed (entries L) n -> NoDup order -> (forall o, bal (g o) = bal o) -> objs L !! p = Some o ->
  exists o', objs (scan g (visits (entries L) order).*2 L) !! p = Some o' /\ bal o' = bal o.
Proof.
  intros Hk Hnd Hg Ho. rewrite scan_lookup by by eapply visits_NoDup.
  case_decide; rewrite Ho; [exists (g o)|exists o]; by rewrite ?Hg.
Qed.

Lemma conserved_cycle sel g order B m (w0 : World A P C) :
  wrep B w0 -> NoDup order -> (forall o, bal (g o) = bal o) ->
  (forall o v, sel o = Some v -> v = pending (bal o)) -> conserved B m ->
  conserved (outcome (items_of sel (ledger B) (visits (entries (ledger B)) order))
    (on_ledger (scan g (visits (entries (ledger B)) order).*2) B)) m.
Proof.
  intros Hw Hnd Hg Hsel Hc. pose proof (wrep_keyed _ _ Hw) as Hk.
  apply conserved_outcome; [by apply conserved_scan|by eapply items_of_ptrs|..];
    rewrite list.Forall_forall; intros [k p v] Hi; apply items_of_elem in Hi as (_ & o & Ho & Hv);
    apply Hsel in Hv; cbn [i_ptr i_vec].
  - destruct (scan_bal g order (ledger B) p o _ Hk Hnd Hg Ho) as (o' & Ho' & Hb).
    exists o'. split; [done|]. by rewrite Hb.
  - destruct (rep_in_budget _ _ p o (wrep_rep _ _ Hw) Ho). lia.
Qed.

Lemma scanned_bal w now o : bal (scanned w now o) = bal o.
Proof. unfold scanned. destruct (due w now o), (rearms w o); done. Qed.

Lemma conserved_commit w order now B m (w0 : World A P C) :
  wrep B w0 -> NoDup order -> conserved B m -> conserved (commit_cycle w order now B) m.
Proof.
  intros Hw Hnd. eapply conserved_cycle; [done..|apply scanned_bal|].
  unfold select_due. intros o v. destruct (due w now o); congruence.
Qed.

Lemma conserved_flush order B m (w0 : World A P C) :
  wrep B w0 -> NoDup order -> conserved B m -> conserved (final_flush order B) m.
Proof.
  intros Hw Hnd Hc.
  assert (Hsel : forall o v, select_pending o = Some v -> v = pending (bal o))
    by (unfold select_pending; intros o v; destruct (_ =? 0); congruence).
  pose proof (conserved_cycle select_pending id order B m w0 Hw Hnd (fun _ => eq_refl) Hsel Hc) as H.
  by rewrite on_ledger_id in H by apply scan_id.
Qed.

Lemma no_orphan_forget key L p o :
  no_orphan_units L -> entries L !! key = Some p -> objs L !! p = Some o -> pending (bal o) = 0 ->
  no_orphan_units (set_entries (delete key (entries L)) L).
Proof.
  intros Hno Hp Ho Hz q o' Hq Hk. cbn in Hq, Hk. destruct (decide (q = p)) as [->|Hne]; [congruence|].
  apply (Hno q o' Hq). intros k Hkq. apply (Hk k). rewrite lookup_delete_ne; [done|]. intros <-. congruence.
Qed.

Lemma conserved_evict w later key B m (w0 : World A P C) :
  wrep B w0 -> conserved B m -> conserved (evict_one w later key B) m.
Proof.
  intros Hw Hc. unfold evict_one.
  destruct (entries (ledger B) !! key) as [p|] eqn:Hp; simpl; [|done].
  destruct (objs (ledger B) !! p) as [o|] eqn:Ho; simpl; [|done].
  destruct (negb _); [done|]. destruct (Z.eqb_spec (pending (bal o)) 0) as [Hz|Hz].
  { destruct Hc as [Hm Hno]. split; [done|]. by eapply no_orphan_forget. }
  destruct (rep_in_budget _ _ p o (wrep_rep _ _ Hw) Ho) as [Hb Hlt].
  pose proof (conserved_outcome [mkItem key p (pending (bal o))] B m Hc) as Hout.
  unfold outcome, commits_of in Hout. cbn in Hout.
  destruct (CommitBatch _ _) as [P' [msg|]].
  - apply Hout; repeat constructor; cbn; [set_solver|by exists o|lia..].
  - destruct Hout as [Hm Hno].
    { repeat constructor; set_solver. }
    { repeat constructor. by exists o. }
    { repeat constructor; cbn; lia. }
    split; [done|]. cbn [ledger forget on_ledger].
    eapply (no_orphan_forget key _ p (on_bal (settle (pending (bal o))) o)); [done|done| |].
    + cbn. by rewrite list_lookup_alter_eq, Ho.
    + cbn. by rewrite Z.min_id, Z.sub_diag.
Qed.

(** ** One event *)
Lemma in_world_wrep {R} (p : SM (World A P C) R) B B' m :
  triple (wrep B) p (fun w _ => wrep B' w) ->
  triple (prep B m) (in_world p) (fun s _ => prep B' m s).
Proof.
  intros Hp. eapply triple_conseq; [by apply in_world_ok|done|]. cbn. intros s x []. by split.
Qed.

Lemma conserved_check key now B m s :
  prep B m s -> conserved B m ->
  conserved (checked key now B) (count_check (0 <? units_left (ledger B) key) m).
Proof.
  intros Hs Hc. pose proof (rep_range _ _ (wrep_rep _ _ (prep_world _ _ _ Hs))) as Hlim.
  eapply (conserved_request B _ m _ key now (on_bal consume1)); [by eapply prep_keyed|done..| |apply count_check_net].
  intros o. apply consumed_pending. lia.
Qed.

Lemma conserved_release key now B m s :
  prep B m s -> conserved B m ->
  conserved (released key now B) (if refundable (ledger B) key then RecordRefund 1 m else m).
Proof.
  intros Hs Hc.
  eapply (conserved_request B _ m _ key now (on_bal refund1)); [by eapply prep_keyed|done..| |apply count_release_net].
  intros o. apply refunded_pending.
Qed.

Lemma evictions_conserved w later keys B m (w0 : World A P C) :
  wrep B w0 -> conserved B m ->
  conserved (foldl (fun B key => evict_one w (later key) key B) B keys) m.
Proof.
  revert B w0. induction keys as [|key keys IH]; intros B w0 Hw Hc; [done|].
  destruct (evict_key_ok w (later key) key B w0 Hw) as (w1 & [] & _ & Hw1).
  by apply (IH _ w1), (conserved_evict w (later key) key B m w0).
Qed.

Lemma run_event_conserves sv w tr e B m s :
  event_ok e -> prep B m s -> conserved B m ->
  exists s' tr' B' m', run_event sv w tr e s = Some (s', tr') /\ prep B' m' s' /\ conserved B' m'.
Proof.
  intros Hok Hs Hc. pose proof (prep_world _ _ _ Hs) as Hw. destruct e as [key now|key now|order now|order|order now later]; cbn [run_event event_ok] in *.
  - destruct (decide (key = "")) as [->|Hkey].
    + eexists s, _, B, m. unfold handleCheckRateLimit. rewrite decide_True by done. by split_and!.
    + destruct (handleCheck_ok sv key now B m Hkey s Hs) as (s' & r & He & -> & Hs').
      eexists s', _, _, _. erewrite bind_Some by done. split_and!; [done..|]. by eapply conserved_check.
  - destruct (decide (key = "")) as [->|Hkey].
    + eexists s, _, B, m. unfold handleRelease. rewrite decide_True by done. by split_and!.
    + destruct (handleRelease_ok key now B m Hkey s Hs) as (s' & r & He & -> & Hs').
      eexists s', _, _, _. erewrite bind_Some by done. split_and!; [done..|]. by eapply conserved_release.
  - destruct (in_world_wrep _ B _ m (runCommitCycle_ok w order now B Hok) s Hs) as (s' & [] & He & Hs').
    eexists s', tr, _, m. erewrite bind_Some by done. split_and!; [done..|]. by eapply conserved_commit.
  - destruct (in_world_wrep _ B _ m (runFinalFlush_ok order B Hok) s Hs) as (s' & [] & He & Hs').
    eexists s', tr, _, m. erewrite bind_Some by done. split_and!; [done..|]. by eapply conserved_flush.
  - destruct (in_world_wrep _ B _ m (runEvictionCycle_ok w order now later B) s Hs) as (s' & [] & He & Hs').
    eexists s', tr, _, m. erewrite bind_Some by done. split_and!; [done..|]. by eapply evictions_conserved.
Qed.

Definition service_inv (s : Process A P C) : Prop := exists B m, prep B m s /\ conserved B m.

Lemma run_events_conserves sv w evs tr :
  Forall event_ok evs -> triple service_inv (foldM (run_event sv w) tr evs) (fun s _ => service_inv s).
Proof.
  intros Hevs. revert tr. induction Hevs as [|e evs He Hevs IH]; intros tr; [by intros s H; exists s, tr|].
  cbn [foldM]. eapply triple_bind; [|apply IH]. intros s (B & m & Hs & Hc).
  destruct (run_event_conserves sv w tr e B m s He Hs Hc) as (s' & tr' & B' & m' & Hr & Hs' & Hc').
  exists s', tr'. split; [done|]. by exists B', m'.
Qed.

Definition service_start (s0 : Z) (P0 : P) (C0 : C) : Process A P C :=
  mkProcess (start s0 P0 C0) no_metrics.

Lemma service_start_inv s0 P0 C0 :
  0 <= s0 < H64 -> accepted_units P0 = 0 -> service_inv (service_start s0 P0 C0).
Proof.
  intros H H0. exists (start_books s0 P0 C0), no_metrics. split; [split; [by apply start_ok|done]|].
  split; [cbn; by rewrite H0|]. intros p o Hp. done.
Qed.

(** After an accepted flush of every key nothing is pending. *)
Lemma flush_pending_zero order B m (w0 : World A P C) P' :
  wrep B w0 -> covers order (ledger B) -> conserved B m ->
  CommitBatch (commits_of (pending_items order (ledger B))) (backend B) = (P', None) ->
  pending_total (ledger (final_flush order B)) = 0.
Proof.
  intros Hw Hc Hcons HP. destruct (conserved_flush order B m w0 Hw (proj1 Hc) Hcons) as [_ Hno].
  pose proof (wrep_keyed _ _ Hw) as Hk.
  enough (Hzero : Forall (fun z => z = 0) ((fun o => pending (bal o)) <$> objs (ledger (final_flush order B)))).
  { unfold pending_total. induction Hzero as [|z l -> Hz IH]; [done|]. by rewrite Zsum_cons, IH. }
  rewrite list.Forall_forall. intros z (o & -> & Ho)%list_elem_of_fmap.
  apply list_elem_of_lookup in Ho as [p Ho]. cbn.
  destruct (decide (p ∈ (visits (entries (ledger B)) order).*2)) as [Hin|Hout].
  - apply list_elem_of_fmap in Hin as ([k q] & -> & Hv). cbn in *.
    apply visits_elem in Hv as [_ Hp].
    assert (is_Some (objs (ledger B) !! q)) as [o0 Ho0]
      by by apply (rep_entry _ _ k q (wrep_rep _ _ Hw)).
    assert (Hko : key_obj (ledger B) k = Some o0) by (apply key_obj_Some; by exists q).
    pose proof (final_flush_accepted order B _ P' k o0 Hk Hc HP Hko) as Hf.
    apply key_obj_Some in Hf as (q' & Hq' & Hf). unfold final_flush in Hq'.
    rewrite outcome_entries in Hq'. assert (q' = q) as -> by congruence. rewrite Ho in Hf. by injection Hf as ->.
  - apply (Hno p o Ho). intros k Hkp. unfold final_flush in Hkp. rewrite outcome_entries in Hkp.
    apply Hout, list_elem_of_fmap. exists (k, p). split; [done|]. apply visits_elem.
    split; [apply Hc; by eexists|done].
Qed.

(** C9: conservation.  Run any sequence of checks, releases, commit cycles,
    flushes and evictions, on any keys and with a backend that may refuse any
    batch.  Nothing panics, and at the end the units admitted less the units
    refunded, as the process counts them, are exactly the units the backend has
    accepted plus the units pending in memory (counts modulo [2^64]); an evicted
    object keeps nothing. *)
Theorem service_conserves_units sv w s0 (P0 : P) (C0 : C) evs :
  0 <= s0 < H64 -> accepted_units P0 = 0 -> Forall event_ok evs ->
  exists (s : Process A P C) tr B, run_events sv w evs (service_start s0 P0 C0) = Some (s, tr) /\
    wrep B (world s) /\ no_orphan_units (ledger B) /\
    admits (metrics s) - refunds (metrics s) ≡ₘ
      accepted_units (persister (world s)) + pending_total (ledger B).
Proof.
  intros Hs0 H0 Hevs.
  destruct (run_events_conserves sv w evs [] Hevs _ (service_start_inv s0 P0 C0 Hs0 H0))
    as (s & tr & He & B & m & [Hw Hm] & Hc & Hno).
  exists s, tr, B. split_and!; [done..|]. by rewrite Hm, (wrep_backend _ _ Hw).
Qed.

(** A graceful stop loses nothing.  After any such history, the final flush
    of every key of the store, accepted by the backend, leaves the backend with
    exactly the units admitted less the units refunded. *)
Theorem graceful_stop_persists_everything sv w s0 (P0 : P) (C0 : C) evs order (s : Process A P C) tr :
  0 <= s0 < H64 -> accepted_units P0 = 0 -> Forall event_ok evs ->
  run_events sv w evs (service_start s0 P0 C0) = Some (s, tr) ->
  NoDup order -> (forall k, is_Some (counters (store (world s)) !! k) -> k ∈ order) ->
  (forall cs, exists P', CommitBatch cs (persister (world s)) = (P', None)) ->
  exists s' : Process A P C, run_event sv w tr (EFlush order) s = Some (s', tr) /\
    admits (metrics s') - refunds (metrics s') ≡ₘ accepted_units (persister (world s')).
Proof.
  intros Hs0 H0 Hevs Hrun Hnd Hord Hacc.
  destruct (run_events_conserves sv w evs [] Hevs _ (service_start_inv s0 P0 C0 Hs0 H0))
    as (? & ? & He & B & m & Hs & Hc).
  unfold run_events in Hrun. rewrite Hrun in He. injection He as <- <-.
  pose proof (prep_world _ _ _ Hs) as Hw. rewrite (rep_entries _ _ (wrep_rep _ _ Hw)) in Hord.
  destruct (Hacc (commits_of (pending_items order (ledger B)))) as [P' HP].
  rewrite (wrep_backend _ _ Hw) in HP.
  destruct (in_world_wrep _ B _ m (runFinalFlush_ok order B Hnd) s Hs) as (s' & [] & He' & Hs').
  exists s'. cbn [run_event]. erewrite bind_Some by done. split; [done|].
  destruct (conserved_flush order B m _ Hw Hnd Hc) as [Hfin _].
  rewrite (flush_pending_zero order B m _ P' Hw (conj Hnd Hord) Hc HP), Z.add_0_r in Hfin.
  by rewrite (prep_metrics _ _ _ Hs'), (wrep_backend _ _ (prep_world _ _ _ Hs')).
Qed.
End conservation.

(** ** The limit of a key

    Histories of checks, commit cycles and flushes: nothing gives units back. *)
Definition answers (k : string) (code : Z) (tr : list (string * Response)) : Z :=
  Z.of_nat (length (filter (fun kr => kr.1 = k /\ status kr.2 = code) tr)).
Definition check_of (k : string) (e : Event) : Prop :=
  match e with ECheck k' _ => k' = k | _ => False end.
#[export] Instance check_of_dec k e : Decision (check_of k e).
Proof. destruct e; cbn; apply _. Defined.
Definition checks (k : string) (evs : list Event) : Z := Z.of_nat (length (filter (check_of k) evs)).

Definition spending (e : Event) : Prop :=
  match e with ERelease _ _ | EEvict _ _ _ => False | _ => True end.
#[export] Instance spending_dec e : Decision (spending e).
Proof. destruct e; cbn; apply _. Defined.

Lemma answers_app k code tr key r :
  answers k code (tr ++ [(key, r)]) =
  answers k code tr + (if decide (key = k /\ status r = code) then 1 else 0).
Proof.
  unfold answers. rewrite list.filter_app, length_app, list.filter_cons. cbn.
  destruct (decide _); cbn; lia.
Qed.

Lemma checks_app k evs e :
  checks k (evs ++ [e]) = checks k evs + (if decide (check_of k e) then 1 else 0).
Proof.
  unfold checks. rewrite list.filter_app, length_app, list.filter_cons. cbn. destruct (decide _); cbn; lia.
Qed.

Lemma check_status sv left : status (check_response sv left) = if 0 <? left then 200 else 429.
Proof. unfold check_response. by destruct (0 <? left). Qed.

Section limit.
Context {A P C : Type} {CA : Counter A} {CL : CounterLaws A} {PP : Persister P} {CC : Churn C}.
Implicit Types (B : Books P C).

Lemma outcome_units items B q :
  units <$> objs (ledger (outcome items B)) !! q = units <$> objs (ledger B) !! q.
Proof.
  unfold outcome. destruct items as [|i rest]; [done|]. destruct (CommitBatch _ _) as [P' [msg|]]; [done|].
  apply (settled_units (i :: rest)).
Qed.

Lemma settled_limit items L : limit (settled items L) = limit L.
Proof.
  revert L. induction items as [|i items IH]; intros L; [done|].
  apply (IH (upd (i_ptr i) (on_bal (settle (i_vec i))) L)).
Qed.

Lemma outcome_limit items B : limit (ledger (outcome items B)) = limit (ledger B).
Proof.
  unfold outcome. destruct items as [|i rest]; [done|]. destruct (CommitBatch _ _) as [P' [msg|]]; [done|].
  apply (settled_limit (i :: rest)).
Qed.

Lemma scan_limit g ps L : limit (scan g ps L) = limit L.
Proof. revert L. induction ps as [|p ps IH]; intros L; [done|]. apply (IH (upd p g L)). Qed.

Lemma units_left_same L L' k :
  entries L' = entries L -> limit L' = limit L ->
  (forall q, units <$> objs L' !! q = units <$> objs L !! q) -> units_left L' k = units_left L k.
Proof.
  intros He Hl Hu. unfold units_left, key_obj. rewrite He, Hl.
  destruct (entries L !! k) as [q|]; simpl; [|done]. specialize (Hu q).
  destruct (objs L' !! q), (objs L !! q); cbn in Hu; congruence.
Qed.

Lemma commit_units_left w order now B n k :
  keyed (entries (ledger B)) n -> NoDup order ->
  units_left (ledger (commit_cycle w order now B)) k = units_left (ledger B) k.
Proof.
  intros Hk Hnd. apply units_left_same; unfold commit_cycle.
  - rewrite outcome_entries. apply scan_entries.
  - rewrite outcome_limit. apply scan_limit.
  - intros q. rewrite outcome_units. cbn. rewrite scan_lookup by by eapply visits_NoDup.
    case_decide; [|done]. destruct (objs (ledger B) !! q) as [o|]; [|done]. cbn. f_equal.
    unfold units. by rewrite scanned_bal.
Qed.

Lemma flush_units_left order B k :
  units_left (ledger (final_flush order B)) k = units_left (ledger B) k.
Proof.
  apply units_left_same; unfold final_flush;
    [apply outcome_entries|apply outcome_limit|intros q; apply outcome_units].
Qed.

(** What a history of checks has left of each key. *)
Definition spent (s0 : Z) (B : Books P C) (tr : Trace) (evs : list Event) : Prop :=
  limit (ledger B) = s0 /\
  forall k, k <> "" -> units_left (ledger B) k = s0 - answers k 200 tr /\
    answers k 200 tr = Z.min (checks k evs) s0.

Lemma spent_check s0 key now B m (s : Process A P C) tr evs sv :
  prep B m s -> key <> "" -> spent s0 B tr evs ->
  spent s0 (checked key now B)
    (tr ++ [(key, check_response sv (units_left (ledger B) key))]) (evs ++ [ECheck key now]).
Proof.
  intros Hs Hkey [Hl Hsp]. pose proof (prep_keyed _ _ _ Hs) as Hk. split.
  { unfold checked, admit_ledger. cbn [ledger].
    pose proof (get_or_create_limit key now (ledger B)) as H.
    destruct (get_or_create key now (ledger B)). by rewrite <- Hl, <- H. }
  intros k Hne. destruct (Hsp k Hne) as [Hu Ha]. rewrite answers_app, checks_app, check_status. cbn [check_of].
  destruct (decide (key = k)) as [<-|Hkk].
  - destruct (request_key key now (on_bal consume1) (ledger B) _ Hk eq_refl) as (o & Ho & Huo & _).
    assert (Hnew : units_left (ledger (checked key now B)) key =
      if 0 <? units_left (ledger B) key then units_left (ledger B) key - 1 else units_left (ledger B) key).
    { unfold checked, admit_ledger, units_left at 1. cbn [ledger]. rewrite Ho, <- Huo.
      unfold units, on_bal, consume1. cbn. repeat case_Z; lia. }
    rewrite Hnew.
    destruct (key_in_budget B m s key Hs) as [Hge _].
    destruct (Z.ltb_spec 0 (units_left (ledger B) key)); repeat case_decide; destruct_and?; try tauto; lia.
  - assert (Hsame : units_left (ledger (checked key now B)) k = units_left (ledger B) k).
    { unfold checked, admit_ledger, units_left. cbn [ledger].
      rewrite request_other by done. pose proof (get_or_create_limit key now (ledger B)) as H.
      destruct (get_or_create key now (ledger B)). cbn in *. by rewrite H. }
    rewrite Hsame. repeat case_decide; destruct_and?; try done; lia.
Qed.

Lemma spent_event sv w s0 e tr evs (s : Process A P C) :
  event_ok e -> spending e ->
  (exists B m, prep B m s /\ spent s0 B tr evs) ->
  exists s' tr', run_event sv w tr e s = Some (s', tr') /\
    exists B' m', prep B' m' s' /\ spent s0 B' tr' (evs ++ [e]).
Proof.
  intros Hok Hspend (B & m & Hs & Hsp). pose proof (prep_world _ _ _ Hs) as Hw.
  assert (Hquiet : forall B', limit (ledger B') = limit (ledger B) ->
    (forall k, units_left (ledger B') k = units_left (ledger B) k) ->
    (forall k, k <> "" -> ~ check_of k e) -> spent s0 B' tr (evs ++ [e])).
  { intros B' Hl Hu Hno. destruct Hsp as [Hl0 Hsp]. split; [congruence|]. intros k Hk.
    destruct (Hsp k Hk). rewrite Hu, checks_app, decide_False by auto. lia. }
  destruct e as [key now| |order now|order|]; cbn [run_event event_ok spending] in *; try done.
  - destruct (decide (key = "")) as [->|Hkey].
    + eexists s, _. unfold handleCheckRateLimit. rewrite decide_True by done. split; [done|].
      exists B, m. split; [done|]. destruct Hsp as [Hl Hsp]. split; [done|]. intros k Hk.
      rewrite answers_app, checks_app. destruct (Hsp k Hk).
      repeat case_decide; cbn [check_of fst] in *; destruct_and?; subst; try done; lia.
    + destruct (handleCheck_ok sv key now B m Hkey s Hs) as (s' & r & He & -> & Hs').
      eexists s', _. erewrite bind_Some by done. split; [done|]. eexists _, _. split; [done|].
      by eapply spent_check.
  - destruct (in_world_wrep _ B _ m (runCommitCycle_ok w order now B Hok) s Hs) as (s' & [] & He & Hs').
    exists s', tr. erewrite bind_Some by done. split; [done|]. eexists _, m. split; [done|].
    apply Hquiet; [|intros k; eapply commit_units_left; [by eapply prep_keyed|done]|by intros k _ []].
    unfold commit_cycle. rewrite outcome_limit. apply scan_limit.
  - destruct (in_world_wrep _ B _ m (runFinalFlush_ok order B Hok) s Hs) as (s' & [] & He & Hs').
    exists s', tr. erewrite bind_Some by done. split; [done|]. eexists _, m. split; [done|].
    apply Hquiet; [apply outcome_limit|intros k; apply flush_units_left|by intros k _ []].
Qed.

(** The limit of a key is enforced exactly.  Over any history of checks on any
    keys, with commit cycles and flushes anywhere in between and a backend that
    may refuse any batch, the number of 200 answers a key has received is the
    number of checks made for it, or the limit if there were more. *)
Theorem limit_enforced sv w s0 (P0 : P) (C0 : C) evs :
  0 <= s0 < H64 -> Forall event_ok evs -> Forall spending evs ->
  exists (s : Process A P C) tr,
    run_events sv w evs (mkProcess (start s0 P0 C0) no_metrics) = Some (s, tr) /\
    forall k, k <> "" -> answers k 200 tr = Z.min (checks k evs) s0.
Proof.
  intros Hs0 Hok Hsp. unfold run_events.
  destruct (triple_foldM (run_event sv w) (fun seen (s : Process A P C) tr =>
    exists B m, prep B m s /\ spent s0 B tr seen) evs []) with (s := (mkProcess (start s0 P0 C0) no_metrics : Process A P C))
    as (s & tr & He & B & m & _ & _ & Hfin).
  - intros seen e rest tr -> s Hinv. apply list.Forall_app in Hok as [_ Hok], Hsp as [_ Hsp].
    inversion_clear Hok. inversion_clear Hsp. by apply spent_event.
  - exists (start_books s0 P0 C0), no_metrics. split; [split; [by apply start_ok|done]|].
    split; [done|]. intros k _.
    change (answers k 200 []) with 0. change (checks k []) with 0.
    unfold units_left, key_obj. cbn [ledger start_books entries limit]. rewrite lookup_empty. simpl. lia.
  - exists s, tr. split; [done|]. intros k Hk. by destruct (Hfin k Hk).
Qed.
End limit.


(** ** Witnesses *)
#[export] Instance event_ok_dec e : Decision (event_ok e).
Proof. destruct e; cbn; apply _. Defined.

Definition demo_server : Server := mkServer 3.
Definition demo_events : list Event :=
  [ECheck "a" 1; ECheck "a" 2; ECheck "b" 3; ECheck "" 3; ECheck "a" 4; ECheck "a" 5;
   ECommit ["b"; "a"] 6; ERelease "b" 7; ERelease "b" 7; ECheck "b" 8;
   EEvict ["a"; "b"] 9000 (fun _ => 9000)].

Lemma demo_events_ok : Forall event_ok demo_events.
Proof. apply (bool_decide_unpack _). vm_compute. exact I. Qed.

Lemma service_conserves_units_witness :
  exists (s : Process VSA Scripted (list Call)) tr B,
    run_events demo_server (demo_worker 0) demo_events
      (service_start 3 (mkScripted [Some "down"; Some "down"; None] []) []) = Some (s, tr) /\
    wrep B (world s) /\
    admits (metrics s) - refunds (metrics s) ≡ₘ
      accepted_units (persister (world s)) + pending_total (ledger B).
Proof.
  destruct (service_conserves_units (A := VSA) demo_server (demo_worker 0) 3
    (mkScripted [Some "down"; Some "down"; None] []) ([] : list Call) demo_events)
    as (s & tr & B & He & Hw & _ & Hc); [lia|reflexivity|exact demo_events_ok|].
  exists s, tr, B. split; [exact He|]. split; [exact Hw|exact Hc].
Defined.

(** The history on the mock backend, as the code computes it. *)
Definition demo_history : option (Process VSA mockPersister (list Call) * Trace) :=
  run_events demo_server (demo_worker 0) (take 9 demo_events) (service_start 3 NewMockPersister []).

Lemma demo_history_keys : match demo_history with
  | Some (s, _) => (map_to_list (counters (store (world s)))).*1 = ["a"; "b"]
  | None => False end.
Proof. vm_compute. reflexivity. Qed.

Lemma mock_accepts cs (p : mockPersister) : exists p', CommitBatch cs p = (p', None).
Proof. unfold CommitBatch, mock_CommitBatch. destruct cs; by eexists. Qed.

Lemma graceful_stop_persists_everything_witness :
  match demo_history with
  | Some (s, tr) => exists s', run_event demo_server (demo_worker 0) tr (EFlush ["b"; "a"]) s = Some (s', tr) /\
      admits (metrics s') - refunds (metrics s') ≡ₘ totalRequests (persister (world s'))
  | None => False
  end.
Proof.
  pose proof demo_history_keys as Hkeys.
  destruct demo_history as [[s tr]|] eqn:He; [|exact Hkeys].
  apply (graceful_stop_persists_everything (A := VSA) (PL := mock_laws) demo_server (demo_worker 0) 3
    NewMockPersister ([] : list Call) (take 9 demo_events)).
  - lia.
  - reflexivity.
  - apply Forall_take, demo_events_ok.
  - exact He.
  - apply (bool_decide_unpack _). vm_compute. exact I.
  - intros k [p Hp%elem_of_map_to_list]. apply (list_elem_of_fmap_2 fst) in Hp.
    rewrite Hkeys in Hp. cbn in Hp. revert Hp. rewrite !elem_of_cons. intuition auto.
  - intros cs. apply mock_accepts.
Defined.

Lemma limit_enforced_witness :
  exists (s : Process VSA Scripted (list Call)) tr,
    run_events demo_server (demo_worker 0) (take 7 demo_events)
      (mkProcess (start 3 refusing []) no_metrics) = Some (s, tr) /\
    answers "a" 200 tr = 3 /\ answers "b" 200 tr = 1.
Proof.
  destruct (limit_enforced (A := VSA) demo_server (demo_worker 0) 3 refusing ([] : list Call)
    (take 7 demo_events)) as (s & tr & He & Hk).
  - lia.
  - apply Forall_take, demo_events_ok.
  - apply (bool_decide_unpack _). vm_compute. exact I.
  - exists s, tr. split; [exact He|]. split; [apply (Hk "a")|apply (Hk "b")]; done.
Defined.
