(* ===== verification/Races.v ===== *)
(** * Interleavings the service does not exclude

    The commit loop, the eviction loop and the handlers share the store without
    a common lock.  Each schedule below runs the code's own pieces in an order
    the Go scheduler may choose, on the accumulator of [vsa.go] and a backend
    that accepts every batch, and ends with the final flush; compare the conservation law of [Service.v],
    which every sequential history keeps. *)
From S2P Require Import Prelude Effects Vsa VsaSpec Counter Store Ledger CoreMetrics Worker WorkerSpec Doubles WorkerProps Api ApiSpec Service.
Import Spec.

Definition Proc : Type := Process VSA Scripted (list Call).
Definition race_worker : Worker := mkWorker 3 0 100 0 5000 1000.

(** Admitted less refunded, and accepted by the backend. *)
Definition tally (s : Proc) : Z * Z :=
  (admits (metrics s) - refunds (metrics s), accepted_units (persister (world s))).
Definition run_race (race : SM Proc unit) : option (Z * Z) :=
  match race (service_start 10 accepting []) with
  | Some (s, _) => Some (tally s)
  | None => None
  end.

Definition check (key : string) (now : Z) : SM Proc unit :=
  handleCheckRateLimit (mkServer 10) key now ;; mret tt.

(** The commit loop collects, the eviction loop evicts the same key, the commit
    loop goes on with the batch it collected. *)
Definition commit_evict_race : SM Proc unit :=
  for_each (fun now => check "a" now) [1; 2; 3] ;;
  b ← in_world (in_store (ForEach ["a"] (commit_visit race_worker 9000) no_batch));
  in_world (evict_key race_worker 9000 "a") ;;
  in_world (persist_and_commit b) ;;
  in_world (runFinalFlush ["a"]).

(** A release arrives between the collection of a vector and its commit. *)
Definition refund_race : SM Proc unit :=
  for_each (fun now => check "a" now) [1; 2; 3] ;;
  b ← in_world (in_store (ForEach ["a"] (commit_visit race_worker 4) no_batch));
  handleRelease "a" 5 ;;
  in_world (persist_and_commit b) ;;
  in_world (runFinalFlush ["a"]).

(** [evict_key] has re-checked the access time; a handler then looks the key up;
    the eviction goes on; the handler consumes from the instance it holds. *)
Definition handler_evict_race : SM Proc unit :=
  check "a" 1 ;;
  actual ← in_world (in_store (load "a"));
  match actual with
  | None => mret tt
  | Some p =>
      last ← in_world (in_store (read_field lastAccessed p));
      userVSA ← in_world (in_store (GetOrCreate "a" 9000));
      (if time_Sub 9000 last <=? evictionAge race_worker then mret tt
       else
         gone ← in_world (evict_commit "a" p);
         if (gone : bool) then in_world (in_store (Delete "a")) else mret tt) ;;
      count (RecordAttempt 1) ;;
      ok ← in_world (in_store (on_instance (ctr_TryConsume 1) userVSA));
      (if (ok : bool) then count (RecordAdmit 1) else mret tt) ;;
      in_world (runFinalFlush ["a"])
  end.

(** The commit loop and the eviction loop can both persist the same vector.
    Three units are admitted; the commit loop has collected the vector 3 when the
    eviction loop finds the key stale, persists 3 and deletes it; the commit loop
    then persists its 3 as well.  The backend has accepted six units. *)
Theorem commit_and_eviction_persist_twice :
  run_race commit_evict_race = Some (3, 6).
Proof. vm_compute. reflexivity. Qed.

(** A release between the collection of a vector and its commit is charged
    anyway: three admitted, one refunded, three persisted, and the final flush
    finds nothing to correct. *)
Theorem refund_during_commit_is_lost :
  run_race refund_race = Some (2, 3).
Proof. vm_compute. reflexivity. Qed.

(** A unit consumed from an instance that was evicted after the lookup is
    admitted but never persisted: the second request holds the evicted object,
    which no flush visits. *)
Theorem evicted_instance_loses_unit :
  run_race handler_evict_race = Some (2, 1).
Proof. vm_compute. reflexivity. Qed.

(** ** Eviction forgets what was persisted *)

(** Evicting a key gives it its whole limit again: with a limit of 3, a key
    that has used it up is refused; after its vector is persisted and the key is
    evicted, it is admitted three more times (the scalar of the new instance is
    the configured limit, not the last value persisted). *)
Theorem eviction_renews_limit :
  match run_events demo_server race_worker
    [ECheck "a" 1; ECheck "a" 2; ECheck "a" 3; ECheck "a" 4;
     EEvict ["a"] 9000 (fun _ => 9000);
     ECheck "a" 9001; ECheck "a" 9002; ECheck "a" 9003; ECheck "a" 9004]
    (service_start 3 accepting [] : Proc) with
  | Some (s, tr) => map (fun kr => status kr.2) tr = [200; 200; 200; 429; 200; 200; 200; 429] /\
      accepted (persister (world s)) = [mkCommit "a" 3]
  | None => False
  end.
Proof. vm_compute. by split. Qed.
