(* ===== verification/Durable.v ===== *)
(** * Idempotent persistence ([persistence/types.go], [shim.go])

    The commit entries of the adapters, the contract they promise
    ([IdempotentLaws]: what is durable is the entries applied once per key and
    commit id) and what follows for a batch, and the shim that gives the worker's commits their ids. *)
From Stdlib Require Import Ascii.
From S2P Require Import Prelude CoreMetrics.

(** ** [types.go] *)
Record CommitEntry := mkEntry {
  ce_Key : string;
  ce_Vector : Z;
  ce_CommitID : string;
  ce_FencingToken : option Z
}.

(** A context: [nil], one without a deadline, or one with. *)
Inductive Ctx := NilCtx | Background | WithDeadline (deadline : Z).

(** An adapter: the context, the time of the call and the entries. *)
Class IdempotentPersister (P : Type) :=
  IdemCommitBatch : Ctx -> Z -> list CommitEntry -> P -> P * option string.

(** [context.WithTimeout(ctx, k.defaultTimeout)] when [ctx] has no deadline. *)
Definition defaultTimeout : Z := 10 * 1000000000.
Definition bounded (ctx : Ctx) (now : Z) : Ctx :=
  match ctx with
  | WithDeadline d => WithDeadline d
  | _ => WithDeadline (now + defaultTimeout)
  end.

Definition no_commit_id : string := "CommitEntry.CommitID must be set".

(** ** The abstract state: the applied ids and a balance per key *)
Record Durable := mkDurable { applied : gset (string * string); balance : string -> Z }.

Definition id_of (e : CommitEntry) : string * string := (ce_Key e, ce_CommitID e).

Definition apply_entry (D : Durable) (e : CommitEntry) : Durable :=
  if decide (id_of e ∈ applied D) then D
  else mkDurable ({[id_of e]} ∪ applied D)
         (fun k => if decide (k = ce_Key e) then balance D k - ce_Vector e else balance D k).
Definition apply_all (es : list CommitEntry) (D : Durable) : Durable := foldl apply_entry D es.

(** What a list of entries takes from a key. *)
Definition charge (k : string) (es : list CommitEntry) : Z :=
  Zsum (ce_Vector <$> filter (fun e => ce_Key e = k) es).

Lemma charge_app k es es' : charge k (es ++ es') = charge k es + charge k es'.
Proof. unfold charge. by rewrite list.filter_app, fmap_app, Zsum_app. Qed.
Lemma charge_one k e : charge k [e] = if decide (k = ce_Key e) then ce_Vector e else 0.
Proof.
  unfold charge. rewrite list.filter_cons, list.filter_nil.
  destruct (decide (ce_Key e = k)), (decide (k = ce_Key e)); try congruence; [|done].
  cbn. rewrite Zsum_cons, Zsum_nil. lia.
Qed.

Lemma apply_all_app es es' D : apply_all (es ++ es') D = apply_all es' (apply_all es D).
Proof. apply foldl_app. Qed.

Lemma applied_all es D c : c ∈ applied (apply_all es D) <-> c ∈ applied D \/ c ∈ id_of <$> es.
Proof.
  revert D. induction es as [|e es IH]; intros D; [cbn; rewrite elem_of_nil; tauto|].
  etrans; [apply (IH (apply_entry D e))|]. rewrite fmap_cons, elem_of_cons. unfold apply_entry.
  case_decide as He; cbn [applied]; [|rewrite elem_of_union, elem_of_singleton; tauto].
  split; [tauto|]. intros [?|[->|?]]; tauto.
Qed.

(** Applying what is already applied changes nothing. *)
Lemma apply_all_known es D : Forall (fun e => id_of e ∈ applied D) es -> apply_all es D = D.
Proof.
  induction 1 as [|e es He Hes IH]; [done|]. cbn. unfold apply_entry at 2. by rewrite decide_True.
Qed.

Lemma known_after es es' D : (forall e, e ∈ es' -> e ∈ es) -> apply_all es' (apply_all es D) = apply_all es D.
Proof.
  intros H. apply apply_all_known. rewrite list.Forall_forall. intros e He.
  apply applied_all. right. apply list_elem_of_fmap. eauto.
Qed.

Lemma apply_prefixes i j es D :
  apply_all (take i es) (apply_all (take j es) D) = apply_all (take (max i j) es) D.
Proof.
  destruct (le_lt_dec i j) as [Hij|Hij].
  - rewrite Nat.max_r by done. apply known_after. intros e He.
    apply elem_of_take in He as (n & Hn & ?). apply elem_of_take. exists n. split; [done|lia].
  - rewrite Nat.max_l by lia.
    assert (take i es = take j es ++ drop j (take i es)) as ->.
    { rewrite <- (take_drop j (take i es)) at 1. rewrite take_take. do 2 f_equal. lia. }
    rewrite !apply_all_app. f_equal. by apply known_after.
Qed.

(** New entries are charged once each. *)
Lemma balance_all es D k :
  NoDup (id_of <$> es) -> (forall e, e ∈ es -> id_of e ∉ applied D) ->
  balance (apply_all es D) k = balance D k - charge k es.
Proof.
  revert D. induction es as [|e es IH]; intros D Hnd Hnew; [unfold charge; cbn; rewrite Zsum_nil; lia|].
  apply list.NoDup_cons in Hnd as [He Hnd]. cbn [apply_all foldl].
  change (e :: es) with ([e] ++ es). rewrite charge_app, charge_one.
  assert (Ha : apply_entry D e = mkDurable ({[id_of e]} ∪ applied D)
         (fun k => if decide (k = ce_Key e) then balance D k - ce_Vector e else balance D k)).
  { unfold apply_entry. rewrite decide_False; [done|]. apply Hnew. left. }
  rewrite Ha. etrans; [apply IH; [done|]|cbn; case_decide; lia].
  intros e' He'. cbn. rewrite not_elem_of_union, not_elem_of_singleton. split; [|apply Hnew; by right].
  intros Heq. apply He. rewrite <- Heq. apply list_elem_of_fmap. eauto.
Qed.

(** Every balance on the way fits a 64-bit integer. *)
Definition fits (es : list CommitEntry) (D : Durable) : Prop :=
  forall j k, in64 (balance (apply_all (take j es) D) k).

Lemma fits_prefix i es D : fits es D -> fits es (apply_all (take i es) D).
Proof. intros H j k. rewrite apply_prefixes. apply H. Qed.

Lemma balance_bound es D k :
  Z.abs (balance (apply_all es D) k) <= Z.abs (balance D k) + Zsum (Z.abs <$> (ce_Vector <$> es)).
Proof.
  revert D. induction es as [|e es IH]; intros D; [cbn; rewrite Zsum_nil; lia|].
  cbn [apply_all foldl fmap list_fmap]. rewrite Zsum_cons.
  etrans; [apply (IH (apply_entry D e))|]. unfold apply_entry. case_decide; cbn; [lia|]. case_decide; lia.
Qed.

Lemma Zsum_abs_take j l : Zsum (Z.abs <$> take j l) <= Zsum (Z.abs <$> l).
Proof.
  rewrite <- (take_drop j l) at 2. rewrite fmap_app, Zsum_app.
  pose proof (Zsum_nonneg (Z.abs <$> drop j l)) as H. rewrite Forall_fmap in H.
  enough (0 <= Zsum (Z.abs <$> drop j l)) by lia. apply H, list.Forall_forall. intros. cbn. lia.
Qed.

Lemma fits_bound es D :
  (forall k, Z.abs (balance D k) + Zsum (Z.abs <$> (ce_Vector <$> es)) < H64) -> fits es D.
Proof.
  intros H j k. pose proof (balance_bound (take j es) D k). rewrite fmap_take in *.
  pose proof (Zsum_abs_take j (ce_Vector <$> es)). specialize (H k). unfold in64. lia.
Qed.

(** ** The contract of an adapter

    An attempt applies a prefix of its entries, each at most once, and all of
    them when it reports success. *)
Definition entry_ok (e : CommitEntry) : Prop :=
  ce_CommitID e <> "" /\ Forall (fun a => a <> ":"%char) (String.list_ascii_of_string (ce_CommitID e)) /\
  ce_Vector e <> 0 /\ Z.abs (ce_Vector e) <= 2 ^ 53.

Class IdempotentLaws (P : Type) `{IdempotentPersister P} := {
  durable : P -> Durable -> Prop;
  attempt_ok ctx now es p p' err D :
    Forall entry_ok es -> fits es D -> durable p D -> IdemCommitBatch ctx now es p = (p', err) ->
    exists j, durable p' (apply_all (take j es) D) /\ (err = None -> (length es <= j)%nat)
}.

(** ** [shim.go] *)
(** [hex.Encode]. *)
Definition hex_digit (n : Z) : ascii := default "0"%char (String.get (Z.to_nat n) "0123456789abcdef").
Fixpoint hex_encode (bytes : list Z) : string :=
  match bytes with
  | [] => EmptyString
  | b :: bytes => String (hex_digit (b / 16)) (String (hex_digit (b mod 16)) (hex_encode bytes))
  end.

(** [rand.Read(b[:])] gives the [n]th call the bytes [rand n]; [clock] is the
    time of each call. *)
Record IdemShim (P : Type) := mkIdemShim { impl : P; rand : nat -> list Z; drawn : nat; clock : nat -> Z; calls : nat }.
#[global] Arguments mkIdemShim {P}.
#[global] Arguments impl {P}.
#[global] Arguments rand {P}.
#[global] Arguments drawn {P}.
#[global] Arguments clock {P}.
#[global] Arguments calls {P}.

Definition NewIdemShim {P} (impl : P) (rand : nat -> list Z) (clock : nat -> Z) : IdemShim P :=
  mkIdemShim impl rand 0 clock 0.

Definition randomID (rand : nat -> list Z) (n : nat) : string := hex_encode (rand n).

(** The entries of a call whose first id is the [n]th. *)
Definition entries_of (rand : nat -> list Z) (n : nat) (commits : list Commit) : list CommitEntry :=
  imap (fun i c => mkEntry (Key c) (Vector c) (randomID rand (n + i)%nat) None) commits.

#[export] Instance shim_CommitBatch {P} `{IdempotentPersister P} : Persister (IdemShim P) := fun commits s =>
  match commits with
  | [] => (s, None)
  | _ =>
      let entries := entries_of (rand s) (drawn s) commits in
      let '(p, err) := IdemCommitBatch Background (clock s (calls s)) entries (impl s) in
      (mkIdemShim p (rand s) (drawn s + length commits) (clock s) (S (calls s)), err)
  end.

(** The ids are 32 hexadecimal digits, different for different bytes. *)
Definition byte (b : Z) : Prop := 0 <= b < 256.
Definition hex_table : list ascii := String.list_ascii_of_string "0123456789abcdef".
Lemma hex_digit_table n : 0 <= n < 16 -> hex_table !! Z.to_nat n = Some (hex_digit n).
Proof.
  intros H. assert (n ∈ (Z.of_nat <$> seq 0 16)) as Hn
    by (apply list_elem_of_fmap; exists (Z.to_nat n); split; [lia|]; apply elem_of_seq; lia).
  revert Hn. cbn. rewrite !elem_of_cons, elem_of_nil. intuition (subst; done).
Qed.
Lemma hex_table_NoDup : NoDup hex_table.
Proof. apply (bool_decide_unpack _). vm_compute. exact I. Qed.
Lemma hex_table_colon : Forall (fun a => a <> ":"%char) hex_table.
Proof. apply (bool_decide_unpack _). vm_compute. exact I. Qed.

Lemma hex_digit_inj m n : 0 <= m < 16 -> 0 <= n < 16 -> hex_digit m = hex_digit n -> m = n.
Proof.
  intros Hm Hn He. pose proof (hex_digit_table m Hm) as H1. rewrite He in H1.
  pose proof (NoDup_lookup _ _ _ _ hex_table_NoDup H1 (hex_digit_table n Hn)). lia.
Qed.

Lemma hex_digit_colon n : 0 <= n < 16 -> hex_digit n <> ":"%char.
Proof.
  intros Hn. pose proof hex_table_colon as H. rewrite list.Forall_forall in H.
  apply H. by eapply list_elem_of_lookup_2, hex_digit_table.
Qed.

Lemma hex_encode_inj bs bs' : Forall byte bs -> Forall byte bs' -> hex_encode bs = hex_encode bs' -> bs = bs'.
Proof.
  intros Hbs. revert bs'. unfold byte in *.
  induction Hbs as [|b bs Hb Hbs IH]; intros bs' Hbs'; destruct Hbs' as [|b' bs' Hb' Hbs']; [done..|].
  cbn [hex_encode]. intros [= Hd Hm Ht].
  apply hex_digit_inj in Hd; [|split; [apply Z.div_pos|apply Z.div_lt_upper_bound]; lia..].
  apply hex_digit_inj in Hm; [|apply Z.mod_pos_bound; lia..].
  f_equal; [|by apply IH]. rewrite (Z.div_mod b 16), (Z.div_mod b' 16) by lia. congruence.
Qed.

Lemma hex_encode_colon bs :
  Forall byte bs -> Forall (fun a => a <> ":"%char) (String.list_ascii_of_string (hex_encode bs)).
Proof.
  unfold byte. induction 1 as [|b bs Hb Hbs IH]; [constructor|]. cbn.
  constructor; [|constructor; [|done]]; apply hex_digit_colon.
  - split; [apply Z.div_pos|apply Z.div_lt_upper_bound]; lia.
  - apply Z.mod_pos_bound. lia.
Qed.

(** A source of randomness that gives 16 bytes a call and does not repeat in its
    first [N] calls. *)
Record good_rand (rand : nat -> list Z) (N : nat) : Prop := {
  rand_bytes n : Forall byte (rand n) /\ length (rand n) = 16%nat;
  rand_inj m n : (m < N)%nat -> (n < N)%nat -> rand m = rand n -> m = n
}.

Lemma randomID_inj rand N m n : good_rand rand N -> (m < N)%nat -> (n < N)%nat ->
  randomID rand m = randomID rand n -> m = n.
Proof. intros [Hb Hi] Hm Hn He. apply Hi; [done..|]. apply hex_encode_inj; [apply Hb..|done]. Qed.

Lemma entries_of_cons rand n c cs :
  entries_of rand n (c :: cs) = mkEntry (Key c) (Vector c) (randomID rand n) None :: entries_of rand (S n) cs.
Proof.
  unfold entries_of. rewrite imap_cons, Nat.add_0_r. f_equal. apply imap_ext. intros i x _. cbn.
  by rewrite <- Nat.add_succ_comm.
Qed.

Lemma entries_of_take rand n j cs : take j (entries_of rand n cs) = entries_of rand n (take j cs).
Proof.
  revert n j. induction cs as [|c cs IH]; intros n j; [by destruct j|].
  destruct j as [|j]; [done|]. cbn [take]. rewrite !entries_of_cons. cbn [take]. by rewrite IH.
Qed.

Lemma entries_of_elem rand n cs e :
  e ∈ entries_of rand n cs -> exists i c, cs !! i = Some c /\ e = mkEntry (Key c) (Vector c) (randomID rand (n + i)%nat) None.
Proof.
  intros H. apply list_elem_of_lookup in H as [i Hi]. unfold entries_of in Hi.
  rewrite list_lookup_imap in Hi. apply fmap_Some in Hi as (c & Hc & ->). eauto.
Qed.

Lemma entries_of_NoDup rand N n cs : good_rand rand N -> (n + length cs <= N)%nat ->
  NoDup (id_of <$> entries_of rand n cs).
Proof.
  intros Hr. revert n. induction cs as [|c cs IH]; intros n Hn; [constructor|]. cbn in Hn.
  rewrite entries_of_cons, fmap_cons. constructor; [|apply IH; lia].
  rewrite list_elem_of_fmap. intros (e & He & (i & c' & Hi & ->)%entries_of_elem).
  apply lookup_lt_Some in Hi. injection He as _ Hid. apply (randomID_inj rand N) in Hid; [lia|done|lia..].
Qed.

Definition commit_ok (c : Commit) : Prop := Vector c <> 0 /\ Z.abs (Vector c) <= 2 ^ 53.

Lemma entries_of_ok rand N n cs : good_rand rand N -> Forall commit_ok cs -> Forall entry_ok (entries_of rand n cs).
Proof.
  intros [Hr _] Hcs. apply list.Forall_forall. intros e (i & c & Hc & ->)%entries_of_elem.
  apply list_elem_of_lookup_2 in Hc. rewrite list.Forall_forall in Hcs. destruct (Hcs c Hc) as [H0 Hv].
  destruct (Hr (n + i)%nat) as [Hb Hl]. unfold entry_ok, randomID. cbn. split_and!; [|by apply hex_encode_colon|done..].
  by destruct (rand (n + i)%nat).
Qed.

(** What commits take from a key. *)
Definition commit_charge (k : string) (cs : list Commit) : Z :=
  Zsum (Vector <$> filter (fun c => Key c = k) cs).

Lemma charge_entries rand n cs k : charge k (entries_of rand n cs) = commit_charge k cs.
Proof.
  revert n. unfold charge, commit_charge. induction cs as [|c cs IH]; intros n; [done|].
  rewrite entries_of_cons, !list.filter_cons. cbn [ce_Key].
  destruct (decide (Key c = k)); [|apply IH]. cbn. rewrite !Zsum_cons. f_equal. apply IH.
Qed.

Lemma vectors_entries rand n cs : ce_Vector <$> entries_of rand n cs = Vector <$> cs.
Proof.
  revert n. induction cs as [|c cs IH]; intros n; [done|]. rewrite entries_of_cons. cbn. f_equal. apply IH.
Qed.

Lemma commit_charge_app k cs cs' : commit_charge k (cs ++ cs') = commit_charge k cs + commit_charge k cs'.
Proof. unfold commit_charge. by rewrite list.filter_app, fmap_app, Zsum_app. Qed.

Definition magnitude (cs : list Commit) : Z := Zsum (Z.abs <$> (Vector <$> cs)).
Lemma magnitude_app cs cs' : magnitude (cs ++ cs') = magnitude cs + magnitude cs'.
Proof. unfold magnitude. by rewrite !fmap_app, Zsum_app. Qed.
Lemma magnitude_nonneg cs : 0 <= magnitude cs.
Proof. apply Zsum_nonneg, Forall_fmap, list.Forall_forall. intros. cbn. lia. Qed.
