(* ===== verification/Redis.v ===== *)
(** * The Redis adapter ([persistence/redis.go])

    The server's commands are parameters ([RedisServer]), with their documented
    effects as laws ([RedisDocs]); the Lua script and the adapter are translated.
    A client ([RedisEvaler]) may lose requests and replies and may retry on its
    own ([EvalerLaws]).  The adapter keeps the contract of [Durable]. *)
From Stdlib Require Import Ascii.
From S2P Require Import Prelude CoreMetrics Durable.

(** ** The server *)
Class RedisServer (R : Type) := {
  SETNX : string -> R -> R * bool;
  HINCRBY : string -> string -> Z -> R -> R * option string;
  EXPIRE : string -> Z -> R -> R;
  (** The integer a Lua script passes on for [-tonumber(v)]: Lua computes with
      doubles. *)
  lua_neg : Z -> Z
}.

(** What the documentation says of the commands, in terms of the keys that exist
    and the integer field ["scalar"] of the hash at a key.  [is_counter]: the key
    is absent or such a hash. *)
Class RedisDocs (R : Type) `{RedisServer R} := {
  exists_key : R -> string -> bool;
  hash_scalar : R -> string -> Z;
  is_counter : R -> string -> Prop;
  lua_neg_exact v : v <> 0 -> Z.abs v <= 2 ^ 53 -> lua_neg v = - v;
  setnx_reply m r : (SETNX m r).2 = negb (exists_key r m);
  setnx_exists m r m' : exists_key (SETNX m r).1 m' = bool_decide (m' = m) || exists_key r m';
  setnx_other m r k : k <> m ->
    hash_scalar (SETNX m r).1 k = hash_scalar r k /\ (is_counter r k -> is_counter (SETNX m r).1 k);
  hincrby_adds k d r : is_counter r k -> in64 (hash_scalar r k + d) ->
    exists r', HINCRBY k "scalar" d r = (r', None) /\
      hash_scalar r' k = hash_scalar r k + d /\ is_counter r' k;
  hincrby_other k d r r' err k' : HINCRBY k "scalar" d r = (r', err) -> k' <> k ->
    hash_scalar r' k' = hash_scalar r k' /\ exists_key r' k' = exists_key r k' /\
    (is_counter r k' -> is_counter r' k');
  hincrby_overflow k d r : is_counter r k -> ~ in64 (hash_scalar r k + d) ->
    exists msg, HINCRBY k "scalar" d r = (r, Some msg);
  expire_keeps k ttl r k' :
    hash_scalar (EXPIRE k ttl r) k' = hash_scalar r k' /\ exists_key (EXPIRE k ttl r) k' = exists_key r k' /\
    (is_counter r k' -> is_counter (EXPIRE k ttl r) k')
}.

(** ** The script; an error of a command stops it where it is *)
Definition redisLuaScript : string := "
local counterKey = KEYS[1]
local markerKey = KEYS[2]
local vector = tonumber(ARGV[1])
local ttlSeconds = tonumber(ARGV[2])
-- try to set the idempotency marker
local set = redis.call('SETNX', markerKey, 1)
if set == 1 then
  -- apply the update; convention: scalar = scalar - vector
  redis.call('HINCRBY', counterKey, 'scalar', -vector)
  if ttlSeconds and ttlSeconds > 0 then
    redis.call('EXPIRE', markerKey, ttlSeconds)
  end
  return 1
else
  -- already applied; no-op
  return 0
end
".

Definition run_script {R} `{RedisServer R} (counterKey markerKey : string) (vector ttlSeconds : Z) (r : R) :
    R * (string + Z) :=
  let '(r, set) := SETNX markerKey r in
  if (set : bool) then
    let '(r, err) := HINCRBY counterKey "scalar" (lua_neg vector) r in
    match err with
    | Some msg => (r, inl msg)
    | None => (if ttlSeconds >? 0 then EXPIRE markerKey ttlSeconds r else r, inr 1)
    end
  else (r, inr 0).

(** ** The client *)
Class RedisEvaler (E : Type) :=
  Eval : Ctx -> string -> list string -> list Z -> E -> E * (string + Z).

(** A client in front of the server [R]: a call runs the script some number of
    times, and at least once when it reports a result. *)
Class EvalerLaws (R E : Type) `{RedisServer R} `{RedisEvaler E} := {
  db : E -> R;
  eval_runs ctx ck mk v ttl e e' res :
    Eval ctx redisLuaScript [ck; mk] [v; ttl] e = (e', res) ->
    exists n, db e' = Nat.iter n (fun r => (run_script ck mk v ttl r).1) (db e) /\
      (forall x, res = inr x -> n <> O)
}.

(** ** The adapter *)
Record RedisPersister (E : Type) := mkRedisPersister { client : E; markerTTL : Z }.
#[global] Arguments mkRedisPersister {E}.
#[global] Arguments client {E}.
#[global] Arguments markerTTL {E}.

Definition day : Z := 24 * 3600 * 1000000000.
Definition NewRedisPersister {E} (client : E) (markerTTL : Z) : RedisPersister E :=
  mkRedisPersister client (if markerTTL <=? 0 then day else markerTTL).

Definition RedisCounterKey (key : string) : string := "counter:" +:+ key.
Definition RedisCommitMarkerKey (key commitID : string) : string := "commit:" +:+ key +:+ ":" +:+ commitID.

(** [int(d.Seconds())], without the rounding of [float64] (none up to 48 days). *)
Definition whole_seconds (d : Z) : Z := Z.quot d 1000000000.

Section adapter.
Context {E : Type} {RE : RedisEvaler E}.

Definition eval_entry (ctx : Ctx) (e : CommitEntry) (r : RedisPersister E) : RedisPersister E * option string :=
  let keys := [RedisCounterKey (ce_Key e); RedisCommitMarkerKey (ce_Key e) (ce_CommitID e)] in
  let args := [ce_Vector e; whole_seconds (markerTTL r)] in
  let '(c, res) := Eval ctx redisLuaScript keys args (client r) in
  (mkRedisPersister c (markerTTL r),
   match res with
   | inl err => Some ("redis eval key=" +:+ ce_Key e +:+ " commit=" +:+ ce_CommitID e +:+ ": " +:+ err)
   | inr _ => None
   end).

Fixpoint eval_entries (ctx : Ctx) (es : list CommitEntry) (r : RedisPersister E) :
    RedisPersister E * option string :=
  match es with
  | [] => (r, None)
  | e :: es =>
      if bool_decide (ce_CommitID e = "") then (r, Some no_commit_id)
      else match eval_entry ctx e r with
           | (r, Some err) => (r, Some err)
           | (r, None) => eval_entries ctx es r
           end
  end.

#[export] Instance redis_CommitBatch : IdempotentPersister (RedisPersister E) := fun ctx _ entries r =>
  match entries with [] => (r, None) | _ => eval_entries ctx entries r end.
End adapter.

(** ** Keys *)
Lemma list_ascii_append s t :
  String.list_ascii_of_string (s +:+ t) = String.list_ascii_of_string s ++ String.list_ascii_of_string t.
Proof. induction s as [|a s IH]; [done|].
  change (a :: String.list_ascii_of_string (s +:+ t) =
    a :: String.list_ascii_of_string s ++ String.list_ascii_of_string t).
  by rewrite IH.
Qed.

Lemma list_ascii_inj s t : String.list_ascii_of_string s = String.list_ascii_of_string t -> s = t.
Proof.
  intros H. rewrite <- (String.string_of_list_ascii_of_string s), H. apply String.string_of_list_ascii_of_string.
Qed.

Lemma sep_inj {A} (sep : A) l1 r1 l2 r2 :
  Forall (fun a => a <> sep) r1 -> Forall (fun a => a <> sep) r2 ->
  l1 ++ sep :: r1 = l2 ++ sep :: r2 -> l1 = l2 /\ r1 = r2.
Proof.
  rewrite !list.Forall_forall. intros H1 H2. revert l2.
  induction l1 as [|a l1 IH]; intros [|b l2]; cbn; [by intros [= ->]|intros [= Hh Ht]..].
  - exfalso. apply (H1 sep); [|done]. rewrite Ht, elem_of_app, elem_of_cons. auto.
  - exfalso. apply (H2 sep); [|done]. rewrite <- Ht, elem_of_app, elem_of_cons. auto.
  - destruct (IH l2 Ht) as [-> ->]. by subst.
Qed.

Definition colon_free (s : string) : Prop := Forall (fun a => a <> ":"%char) (String.list_ascii_of_string s).

Lemma marker_key_inj k id k' id' : colon_free id -> colon_free id' ->
  RedisCommitMarkerKey k id = RedisCommitMarkerKey k' id' -> k = k' /\ id = id'.
Proof.
  unfold RedisCommitMarkerKey. intros H H' He.
  apply (f_equal String.list_ascii_of_string) in He. rewrite !list_ascii_append in He.
  cbn in He. injection He as He.
  destruct (sep_inj _ _ _ _ _ H H' He) as [Hk Hi]. split; by apply list_ascii_inj.
Qed.

Lemma counter_key_inj k k' : RedisCounterKey k = RedisCounterKey k' -> k = k'.
Proof.
  unfold RedisCounterKey. intros He. apply (f_equal String.list_ascii_of_string) in He.
  rewrite !list_ascii_append in He. apply app_inv_head in He. by apply list_ascii_inj.
Qed.

Lemma counter_not_marker k k' id : RedisCounterKey k <> RedisCommitMarkerKey k' id.
Proof. done. Qed.

(** ** The adapter keeps the contract *)
Section contract.
Context {R E : Type} {RS : RedisServer R} {RD : RedisDocs R} {RE : RedisEvaler E} {EL : EvalerLaws R E}.

(** The server's keys show the abstract state. *)
Record shows (r : R) (D : Durable) : Prop := {
  sh_marker k id : colon_free id ->
    exists_key r (RedisCommitMarkerKey k id) = bool_decide ((k, id) ∈ applied D);
  sh_scalar k : hash_scalar r (RedisCounterKey k) = balance D k;
  sh_counter k : is_counter r (RedisCounterKey k)
}.

Definition run_entry (ttl : Z) (e : CommitEntry) (r : R) : R :=
  (run_script (RedisCounterKey (ce_Key e)) (RedisCommitMarkerKey (ce_Key e) (ce_CommitID e)) (ce_Vector e) ttl r).1.

Lemma run_known ttl e r : exists_key r (RedisCommitMarkerKey (ce_Key e) (ce_CommitID e)) = true ->
  run_entry ttl e r = (SETNX (RedisCommitMarkerKey (ce_Key e) (ce_CommitID e)) r).1.
Proof.
  intros He. unfold run_entry, run_script. pose proof (setnx_reply (RedisCommitMarkerKey (ce_Key e) (ce_CommitID e)) r) as Hr.
  rewrite He in Hr. destruct (SETNX _ r) as [r' b]. cbn in Hr. by subst.
Qed.

Lemma shows_setnx k id r D : shows r D -> colon_free id ->
  let r' := (SETNX (RedisCommitMarkerKey k id) r).1 in
  (forall k' id', colon_free id' ->
     exists_key r' (RedisCommitMarkerKey k' id') = bool_decide ((k', id') ∈ {[(k, id)]} ∪ applied D)) /\
  forall k', hash_scalar r' (RedisCounterKey k') = balance D k' /\ is_counter r' (RedisCounterKey k').
Proof.
  intros [Hm Hs Hc] Hid r'. split.
  - intros k' id' Hid'. unfold r'. rewrite setnx_exists, Hm by done.
    rewrite <- bool_decide_or. apply bool_decide_ext. rewrite elem_of_union, elem_of_singleton.
    split; [intros [H|H]; [left|by right]|intros [[= -> ->]|H]; [by left|by right]].
    apply marker_key_inj in H as [-> ->]; done.
  - intros k'. destruct (setnx_other (RedisCommitMarkerKey k id) r (RedisCounterKey k')) as [H1 H2]; [done|].
    unfold r'. rewrite H1, Hs. auto.
Qed.

Lemma shows_expire m ttl r D : shows r D -> shows (EXPIRE m ttl r) D.
Proof.
  intros [H1 H2 H3].
  split; [intros k id Hk|intros k..];
    [destruct (expire_keeps m ttl r (RedisCommitMarkerKey k id)) as (_ & -> & _); by apply H1
    |destruct (expire_keeps m ttl r (RedisCounterKey k)) as (E1 & _ & E3)..].
  - by rewrite E1.
  - auto.
Qed.

(** One run of the script is one application of the entry. *)
Lemma run_shows ttl e r D :
  entry_ok e -> shows r D -> in64 (balance (apply_entry D e) (ce_Key e)) ->
  shows (run_entry ttl e r) (apply_entry D e).
Proof.
  intros (Hne & Hid & Hv0 & Hv) Hsh Hin.
  destruct (shows_setnx (ce_Key e) (ce_CommitID e) r D Hsh Hid) as [Hm Hb].
  pose proof (sh_marker _ _ Hsh (ce_Key e) (ce_CommitID e) Hid) as Hex.
  unfold apply_entry in *. fold (id_of e) in Hex. case_decide as Ha.
  - rewrite bool_decide_true in Hex by done. rewrite run_known by done.
    assert ({[(ce_Key e, ce_CommitID e)]} ∪ applied D = applied D) as Hu
      by (apply set_eq; unfold id_of in Ha; intros x; rewrite elem_of_union, elem_of_singleton; split; [intros [->|?]|]; auto).
    split; [intros k id Hc; by rewrite Hm, Hu|apply Hb..].
  - rewrite bool_decide_false in Hex by done. unfold run_entry, run_script.
    set (m := RedisCommitMarkerKey (ce_Key e) (ce_CommitID e)) in *. pose proof (setnx_reply m r) as Hr.
    destruct (SETNX m r) as [r1 b]. cbn [fst snd] in *. rewrite Hex in Hr. subst b. cbn [negb].
    destruct (Hb (ce_Key e)) as [Hbs Hbc].
    set (c := RedisCounterKey (ce_Key e)) in *. cbn [applied balance] in Hin. rewrite decide_True in Hin by done.
    destruct (hincrby_adds c (lua_neg (ce_Vector e)) r1) as (r2 & He & Hs & Hc);
      [exact Hbc|rewrite Hbs, lua_neg_exact by done; by rewrite Z.add_opp_r|].
    rewrite He. cbn [fst].
    assert (Hsh2 : shows r2 (mkDurable ({[id_of e]} ∪ applied D)
      (fun k => if decide (k = ce_Key e) then balance D k - ce_Vector e else balance D k))).
    { split; cbn [applied balance].
      - intros k id Hk. by rewrite (proj1 (proj2 (hincrby_other _ _ _ _ _ _ He (not_eq_sym (counter_not_marker _ _ _))))), Hm.
      - intros k. case_decide as Hk.
        + subst k. fold c. rewrite Hs, Hbs, lua_neg_exact by done. lia.
        + rewrite (proj1 (hincrby_other _ _ _ _ _ _ He (fun H => Hk (counter_key_inj _ _ H)))). apply Hb.
      - intros k. destruct (decide (k = ce_Key e)) as [->|Hk]; [done|].
        apply (hincrby_other _ _ _ _ _ _ He (fun H => Hk (counter_key_inj _ _ H))), Hb. }
    destruct (ttl >? 0); [by apply shows_expire|done].
Qed.

Lemma apply_entry_idem D e : apply_entry (apply_entry D e) e = apply_entry D e.
Proof. apply (known_after [e] [e] D). done. Qed.

Lemma runs_show n ttl e r D :
  entry_ok e -> shows r D -> in64 (balance (apply_entry D e) (ce_Key e)) ->
  shows (Nat.iter n (run_entry ttl e) r) (if decide (n = O) then D else apply_entry D e).
Proof.
  intros He Hr Hin. induction n as [|n IH]; [done|]. cbn [Nat.iter]. rewrite (decide_False (P := S n = O)) by done.
  destruct (decide (n = O)) as [->|Hn]; [by apply run_shows|].
  rewrite <- (apply_entry_idem D e). apply run_shows; [done..|]. by rewrite apply_entry_idem.
Qed.

Lemma eval_entry_shows ctx e p p' err D :
  entry_ok e -> shows (db (client p)) D -> in64 (balance (apply_entry D e) (ce_Key e)) ->
  eval_entry ctx e p = (p', err) ->
  shows (db (client p')) (apply_entry D e) \/ (shows (db (client p')) D /\ err <> None).
Proof.
  intros He Hp Hin. unfold eval_entry. destruct (Eval _ _ _ _ _) as [c res] eqn:Hrun.
  intros [= <- <-]. destruct (eval_runs _ _ _ _ _ _ _ _ Hrun) as (n & Hdb & Hn).
  pose proof (runs_show n (whole_seconds (markerTTL p)) e _ D He Hp Hin) as Hsh.
  unfold run_entry in Hsh. rewrite <- Hdb in Hsh. cbn [client]. case_decide as H0; [right|by left].
  split; [done|]. destruct res as [msg|x]; [done|]. by destruct (Hn x eq_refl).
Qed.

Lemma eval_entries_shows ctx es : forall p p' err D,
  Forall entry_ok es -> fits es D -> shows (db (client p)) D -> eval_entries ctx es p = (p', err) ->
  exists j, shows (db (client p')) (apply_all (take j es) D) /\ (err = None -> (length es <= j)%nat).
Proof.
  induction es as [|e es IH]; intros p p' err D Hes Hfit Hp; cbn [eval_entries].
  { intros [= <- <-]. exists O. split; [done|]. intros _. cbn. lia. }
  apply list.Forall_cons in Hes as [He Hes]. rewrite bool_decide_false by apply He.
  destruct (eval_entry ctx e p) as [q res] eqn:Hq.
  destruct (eval_entry_shows _ _ _ _ _ D He Hp (Hfit 1%nat (ce_Key e)) Hq) as [Hs|[Hs Hr]].
  - destruct res as [msg|].
    + intros [= <- <-]. by exists 1%nat.
    + intros Hrun. destruct (IH q p' err (apply_entry D e) Hes) as (j & Hj & Hl);
        [intros i k; apply (Hfit (S i) k)|done..|]. exists (S j). split; [exact Hj|].
      intros Hn. cbn. specialize (Hl Hn). lia.
  - destruct res as [msg|]; [|done]. intros [= <- <-]. by exists O.
Qed.

#[export] Instance redis_laws : IdempotentLaws (RedisPersister E).
Proof.
  refine {| durable p D := shows (db (client p)) D |}.
  intros ctx now es p p' err D Hes Hfit Hp Hrun. destruct es as [|e es].
  - injection Hrun as <- <-. exists O. by split.
  - by apply (eval_entries_shows ctx (e :: es) p p' err D).
Defined.
(** C16: a call of the Redis adapter charges each entry of a prefix of its batch once.  The server's commands have their documented effects; the client may lose a request or a reply, and may run the script several times, but reports a result only after a run.  Let the counters hold integers, the commit ids be free of ':' (as [randomID]'s are), the vectors be non-zero and at most [2^53] in absolute value (a Lua number holds them exactly) and no counter leave the [int64] range.  Then a call, accepted or refused, leaves the server as if the entries of some prefix had been applied one by one, each unless its marker was there, and of the whole batch when it is accepted; and if the ids are distinct and new, every counter has lost exactly the vectors of that prefix. *)
Theorem redis_batch_charges_once ctx now es (p p' : RedisPersister E) err D :
  Forall entry_ok es -> fits es D -> shows (db (client p)) D ->
  IdemCommitBatch ctx now es p = (p', err) ->
  exists part, part `prefix_of` es /\ (err = None -> part = es) /\
    shows (db (client p')) (apply_all part D) /\
    (NoDup (id_of <$> es) -> (forall e, e ∈ es -> id_of e ∉ applied D) ->
     forall k, hash_scalar (db (client p')) (RedisCounterKey k) =
       hash_scalar (db (client p)) (RedisCounterKey k) - charge k part).
Proof.
  intros Hes Hfit Hp Hrun.
  assert (exists j, shows (db (client p')) (apply_all (take j es) D) /\ (err = None -> (length es <= j)%nat)) as (j & Hs & Hj).
  { destruct es as [|e es]; [injection Hrun as <- <-; by exists O|by apply (eval_entries_shows ctx (e :: es) p p' err D)]. }
  exists (take j es). split_and!; [apply prefix_take|intros He; apply take_ge; auto|done|].
  intros Hnd Hnew k. rewrite (sh_scalar _ _ Hp), (sh_scalar _ _ Hs). apply balance_all.
  - rewrite <- (take_drop j es), fmap_app in Hnd. by apply list.NoDup_app in Hnd as (? & _).
  - intros e He. apply Hnew. apply elem_of_take in He as (n & Hn & _). by eapply list_elem_of_lookup_2.
Qed.
End contract.

(** ** A concrete server and a client on an unreliable network *)
Inductive RVal := RString | RHash (fields : gmap string Z).
Abbreviation Mem := (gmap string RVal).

Definition mem_fields (r : Mem) (k : string) : gmap string Z :=
  match r !! k with Some (RHash h) => h | _ => ∅ end.
Definition mem_scalar (r : Mem) (k : string) : Z := default 0 (mem_fields r k !! "scalar").

#[export] Instance mem_server : RedisServer Mem := {
  SETNX m r := match r !! m with None => (<[m := RString]> r, true) | Some _ => (r, false) end;
  HINCRBY k f d r :=
    match r !! k with
    | Some RString => (r, Some "WRONGTYPE")
    | _ =>
        let x := default 0 (mem_fields r k !! f) + d in
        if decide (in64 x) then (<[k := RHash (<[f := x]> (mem_fields r k))]> r, None)
        else (r, Some "ERR increment or decrement would overflow")
    end;
  EXPIRE _ _ r := r;
  lua_neg := Z.opp
}.

Lemma mem_fields_insert_ne (r : Mem) k k' v : k' <> k -> mem_fields (<[k := v]> r) k' = mem_fields r k'.
Proof. intros H. unfold mem_fields. by rewrite lookup_insert_ne. Qed.

Lemma mem_hincrby k d (r : Mem) : r !! k <> Some RString ->
  HINCRBY k "scalar" d r =
    if decide (in64 (mem_scalar r k + d))
    then (<[k := RHash (<["scalar" := mem_scalar r k + d]> (mem_fields r k))]> r, None)
    else (r, Some "ERR increment or decrement would overflow").
Proof. intros H. cbn. by destruct (r !! k) as [[|h]|]. Qed.

#[export] Instance mem_docs : RedisDocs Mem.
Proof.
  refine {| exists_key r k := bool_decide (is_Some (r !! k)); hash_scalar := mem_scalar;
            is_counter r k := r !! k <> Some RString |}.
  - done.
  - intros m r. cbn. by destruct (r !! m).
  - intros m r m'. cbn. rewrite <- bool_decide_or. apply bool_decide_ext. destruct (r !! m) eqn:Hm; cbn.
    + split; [by right|]. intros [->|]; [by rewrite Hm|done].
    + destruct (decide (m' = m)) as [->|Hne].
      * rewrite lookup_insert_eq. split; [by left|by eexists].
      * rewrite lookup_insert_ne by done. split; [by right|by intros [?|?]].
  - intros m r k Hk. cbn. destruct (r !! m); [done|]. cbn.
    unfold mem_scalar. by rewrite mem_fields_insert_ne, lookup_insert_ne.
  - intros k d r Hc Hin. rewrite mem_hincrby by done. rewrite decide_True by done. eexists. split; [done|].
    rewrite lookup_insert_eq. split; [|done]. unfold mem_scalar at 1, mem_fields at 1.
    by rewrite !lookup_insert_eq.
  - intros k d r r' err k' He Hk. cbn in He. unfold mem_scalar.
    destruct (r !! k) as [[|h]|] eqn:Hr; [by injection He as <- <-|case_decide; injection He as <- <-..];
      rewrite ?mem_fields_insert_ne, ?lookup_insert_ne by done; done.
  - intros k d r Hc Hin. rewrite mem_hincrby by done. rewrite decide_False by done. by eexists.
  - done.
Defined.

Inductive Delivery := Delivered | RequestLost | ReplyLost | SentTwice.
Record Remote := mkRemote { server : Mem; network : list Delivery }.

#[export] Instance remote_Eval : RedisEvaler Remote := fun _ script keys args c =>
  match keys, args with
  | [ck; mk], [v; ttl] =>
      let run r := run_script ck mk v ttl r in
      match network c with
      | RequestLost :: net => (mkRemote (server c) net, inl "timeout")
      | ReplyLost :: net => (mkRemote (run (server c)).1 net, inl "timeout")
      | SentTwice :: net => (mkRemote (run (run (server c)).1).1 net, (run (run (server c)).1).2)
      | Delivered :: net => (mkRemote (run (server c)).1 net, (run (server c)).2)
      | [] => (mkRemote (run (server c)).1 [], (run (server c)).2)
      end
  | _, _ => (c, inl "wrong number of arguments")
  end.

#[export] Instance remote_laws : EvalerLaws Mem Remote.
Proof.
  refine {| db := server |}. intros ctx ck mk v ttl e e' res. unfold Eval, remote_Eval.
  destruct (network e) as [|[] net]; intros [= <- <-]; [by exists 1%nat|by exists 1%nat|by exists O|by exists 1%nat|by exists 2%nat].
Defined.

(** ** An update the server refuses *)
(** The marker outlives a refused update.  A script that stops at HINCRBY keeps
    the marker it has set, so a commit whose update overflows is refused once, and
    the retry of the same entry is accepted and changes nothing: the commit is
    lost. *)
Theorem refused_update_is_lost {R} `{RedisDocs R} (ttl : Z) e r D :
  entry_ok e -> shows r D -> id_of e ∉ applied D -> ~ in64 (balance D (ce_Key e) - ce_Vector e) ->
  let script := run_script (RedisCounterKey (ce_Key e)) (RedisCommitMarkerKey (ce_Key e) (ce_CommitID e))
                           (ce_Vector e) ttl in
  exists r1 msg r2, script r = (r1, inl msg) /\ script r1 = (r2, inr 0) /\
    forall k, hash_scalar r2 (RedisCounterKey k) = balance D k.
Proof.
  intros (Hne & Hid & Hv0 & Hv) Hsh Hnew Hout script.
  destruct (shows_setnx (ce_Key e) (ce_CommitID e) r D Hsh Hid) as [Hm Hb].
  pose proof (sh_marker _ _ Hsh (ce_Key e) (ce_CommitID e) Hid) as Hex.
  fold (id_of e) in Hex. rewrite bool_decide_false in Hex by done.
  unfold script, run_script. set (m := RedisCommitMarkerKey (ce_Key e) (ce_CommitID e)) in *.
  pose proof (setnx_reply m r) as Hr. destruct (SETNX m r) as [r1 b]. cbn [fst snd] in *.
  rewrite Hex in Hr. subst b. cbn [negb]. destruct (Hb (ce_Key e)) as [Hs Hc].
  destruct (hincrby_overflow _ (lua_neg (ce_Vector e)) _ Hc) as [msg ->];
    [rewrite Hs, lua_neg_exact by done; by rewrite Z.add_opp_r|].
  assert (He1 : exists_key r1 m = true).
  { unfold m. rewrite Hm by done. apply bool_decide_true, elem_of_union_l. by apply elem_of_singleton. }
  pose proof (setnx_reply m r1) as Hr. rewrite He1 in Hr. pose proof (setnx_other m r1) as Ho.
  exists r1, msg. destruct (SETNX m r1) as [r2 b2]. cbn [fst snd] in *. subst b2. cbn [negb].
  exists r2. split; [done|]. split; [done|]. intros k.
  rewrite (proj1 (Ho (RedisCounterKey k) (counter_not_marker _ _ _))). apply Hb.
Qed.

Definition demo_entry (key : string) (v : Z) (id : string) : CommitEntry := mkEntry key v id None.
(** A counter that has taken its largest charge. *)
Definition drained_server : Mem := {["counter:a" := RHash {["scalar" := MinInt64]}]}.
Definition drained : Durable := mkDurable ∅ (fun k => if decide (k = "a") then MinInt64 else 0).

Lemma drained_shows : shows drained_server drained.
Proof.
  split.
  - intros k id _. cbn. unfold drained_server, RedisCommitMarkerKey.
    rewrite lookup_singleton_ne by done. by rewrite !bool_decide_false by (set_solver || by intros []).
  - intros k. cbn. unfold drained_server, mem_scalar, mem_fields. cbn [balance drained].
    destruct (decide (k = "a")) as [->|Hk]; [done|].
    rewrite lookup_singleton_ne; [done|]. intros H. apply Hk. symmetry. by apply (counter_key_inj "a" k).
  - intros k. cbn. unfold drained_server. destruct (decide (k = "a")) as [->|Hk]; [done|].
    rewrite lookup_singleton_ne; [done|]. intros H. apply Hk. symmetry. by apply (counter_key_inj "a" k).
Qed.

Lemma refused_update_is_lost_witness :
  exists r1 msg r2, run_script "counter:a" "commit:a:0f" 1 60 drained_server = (r1, inl msg) /\
    run_script "counter:a" "commit:a:0f" 1 60 r1 = (r2, inr 0) /\
    forall k, hash_scalar r2 (RedisCounterKey k) = balance drained k.
Proof.
  apply (refused_update_is_lost 60 (demo_entry "a" 1 "0f") drained_server drained).
  - split; [discriminate|]. split; [repeat constructor; discriminate|]. split; [discriminate|]. vm_compute. discriminate.
  - exact drained_shows.
  - apply not_elem_of_empty.
  - vm_compute. intros [H _]. by apply H.
Defined.

(** ** A batch over a network that loses a reply *)
Definition demo_redis (net : list Delivery) : RedisPersister Remote := NewRedisPersister (mkRemote ∅ net) 0.
Definition empty_ledger : Durable := mkDurable ∅ (fun _ => 0).

Lemma empty_shows net : durable (demo_redis net) empty_ledger.
Proof.
  split.
  - intros k id _. cbn. by rewrite lookup_empty, !bool_decide_false by (set_solver || by intros []).
  - intros k. cbn. unfold mem_scalar, mem_fields. by rewrite lookup_empty.
  - intros k. cbn. by rewrite lookup_empty.
Qed.
Definition demo_entries : list CommitEntry :=
  [demo_entry "a" 5 "01"; demo_entry "b" 7 "02"; demo_entry "a" 2 "03"].
(** The first entry is sent twice, the reply of the second one is lost. *)
Definition demo_call : RedisPersister Remote * option string :=
  IdemCommitBatch Background 1 demo_entries (demo_redis [SentTwice; ReplyLost]).

Lemma redis_batch_charges_once_witness :
  bool_decide (demo_call.2 = None) = false /\ mem_scalar (server (client demo_call.1)) "counter:a" = -5 /\
  exists part, part `prefix_of` demo_entries /\
    shows (server (client demo_call.1)) (apply_all part empty_ledger) /\
    forall k, mem_scalar (server (client demo_call.1)) (RedisCounterKey k) = 0 - charge k part.
Proof.
  split; [vm_compute; reflexivity|]. split; [vm_compute; reflexivity|].
  destruct (redis_batch_charges_once Background 1 demo_entries (demo_redis [SentTwice; ReplyLost]) demo_call.1 demo_call.2 empty_ledger)
    as (part & Hpre & _ & Hs & Hk).
  - repeat constructor; discriminate.
  - apply fits_bound. intros k. vm_compute. reflexivity.
  - apply empty_shows.
  - vm_compute. reflexivity.
  - exists part. split; [exact Hpre|]. split; [exact Hs|]. apply Hk.
    + apply (bool_decide_unpack _). vm_compute. exact I.
    + intros e _. apply not_elem_of_empty.
Defined.
