(* ===== verification/Kafka.v ===== *)
(** * The Kafka adapter, the demo clients and the factory
    ([persistence/kafka.go], [clients.go], [factory.go])

    A producer ([KafkaProducer]) appends messages to a topic's log; it may report
    a failure of a message it appended, and append it more than once
    ([ProducerLaws]).  What is durable is what a consumer that ignores the commit
    ids it has applied makes of the log.  The JSON bytes of a message are
    modelled by the record they encode, which [json.Marshal] never refuses. *)
From S2P Require Import Prelude CoreMetrics Durable Redis.

(** ** [kafka.go] *)
Record CommitMessage := mkMessage {
  cm_Key : string;
  cm_Vector : Z;
  cm_CommitID : string;
  cm_FencingToken : option Z;
  cm_TsUnixMs : Z
}.

(** Context, topic, key, value, headers. *)
Class KafkaProducer (K : Type) :=
  Produce : Ctx -> string -> string -> CommitMessage -> list (string * string) -> K -> K * option string.

Record KafkaPersister (K : Type) := mkKafkaPersister { producer : K; topic : string }.
#[global] Arguments mkKafkaPersister {K}.
#[global] Arguments producer {K}.
#[global] Arguments topic {K}.

Definition NewKafkaPersister {K} (p : K) (topic : string) : KafkaPersister K := mkKafkaPersister p topic.

Definition message (nowMs : Z) (e : CommitEntry) : CommitMessage :=
  mkMessage (ce_Key e) (ce_Vector e) (ce_CommitID e) (ce_FencingToken e) nowMs.

Section adapter.
Context {K : Type} {KP : KafkaProducer K}.

Definition produce_entry (ctx : Ctx) (nowMs : Z) (e : CommitEntry) (k : KafkaPersister K) :
    KafkaPersister K * option string :=
  let '(p, err) := Produce ctx (topic k) (ce_CommitID e) (message nowMs e)
                     [("content-type", "application/json")] (producer k) in
  (mkKafkaPersister p (topic k),
   match err with
   | Some msg => Some ("kafka produce key=" +:+ ce_Key e +:+ " commit=" +:+ ce_CommitID e +:+ ": " +:+ msg)
   | None => None
   end).

Fixpoint produce_entries (ctx : Ctx) (nowMs : Z) (es : list CommitEntry) (k : KafkaPersister K) :
    KafkaPersister K * option string :=
  match es with
  | [] => (k, None)
  | e :: es =>
      if bool_decide (ce_CommitID e = "") then (k, Some no_commit_id)
      else match produce_entry ctx nowMs e k with
           | (k, Some err) => (k, Some err)
           | (k, None) => produce_entries ctx nowMs es k
           end
  end.

#[export] Instance kafka_CommitBatch : IdempotentPersister (KafkaPersister K) := fun ctx now entries k =>
  match entries with
  | [] => (k, None)
  | _ => produce_entries (bounded ctx now) (now / 1000000) entries k
  end.
End adapter.

(** ** The log and its consumer *)
Class ProducerLaws (K : Type) `{KafkaProducer K} := {
  log : K -> string -> list CommitMessage;
  produce_appends ctx t key m hs p p' err : Produce ctx t key m hs p = (p', err) ->
    (forall t', t' <> t -> log p' t' = log p t') /\
    exists n, log p' t = log p t ++ replicate n m /\ (err = None -> n <> O)
}.

(** The entry a message carries. *)
Definition entry_of (m : CommitMessage) : CommitEntry :=
  mkEntry (cm_Key m) (cm_Vector m) (cm_CommitID m) (cm_FencingToken m).
Definition nothing_applied : Durable := mkDurable ∅ (fun _ => 0).
Definition consume (ms : list CommitMessage) : Durable := apply_all (entry_of <$> ms) nothing_applied.

Lemma entry_of_message nowMs e : entry_of (message nowMs e) = e.
Proof. by destruct e. Qed.

Lemma consume_app ms ms' : consume (ms ++ ms') = apply_all (entry_of <$> ms') (consume ms).
Proof. unfold consume. by rewrite fmap_app, apply_all_app. Qed.

Lemma consume_copies ms nowMs e n :
  consume (ms ++ replicate n (message nowMs e)) = if decide (n = O) then consume ms else apply_entry (consume ms) e.
Proof.
  rewrite consume_app, fmap_replicate, entry_of_message. destruct n as [|n]; [done|].
  rewrite decide_False by done. cbn [replicate]. change (e :: ?l) with ([e] ++ l). rewrite apply_all_app.
  apply known_after. intros e' He'. apply elem_of_replicate in He' as [-> _]. by left.
Qed.

Section contract.
Context {K : Type} {KP : KafkaProducer K} {KL : ProducerLaws K}.

Definition consumed (k : KafkaPersister K) : Durable := consume (log (producer k) (topic k)).

Lemma produce_entry_ok ctx nowMs e k k' err : produce_entry ctx nowMs e k = (k', err) ->
  topic k' = topic k /\
  (consumed k' = apply_entry (consumed k) e \/ (consumed k' = consumed k /\ err <> None)).
Proof.
  unfold produce_entry, consumed. destruct (Produce _ _ _ _ _ _) as [p res] eqn:Hp. intros [= <- <-].
  split; [done|]. cbn [producer topic].
  destruct (produce_appends _ _ _ _ _ _ _ _ Hp) as (_ & n & -> & Hn).
  rewrite consume_copies. case_decide as H0; [right|by left]. split; [done|]. destruct res; [done|].
  by destruct (Hn eq_refl).
Qed.

Lemma produce_entries_ok ctx nowMs es : forall k k' err,
  Forall entry_ok es -> produce_entries ctx nowMs es k = (k', err) ->
  exists j, consumed k' = apply_all (take j es) (consumed k) /\ (err = None -> (length es <= j)%nat).
Proof.
  induction es as [|e es IH]; intros k k' err Hes; cbn [produce_entries].
  { intros [= <- <-]. exists O. by split; [|cbn; lia]. }
  apply list.Forall_cons in Hes as [He Hes]. rewrite bool_decide_false by apply He.
  destruct (produce_entry ctx nowMs e k) as [q res] eqn:Hq.
  destruct (produce_entry_ok _ _ _ _ _ _ Hq) as [_ [Hc|[Hc Hr]]].
  - destruct res as [msg|].
    + intros [= <- <-]. by exists 1%nat.
    + intros Hrun. destruct (IH q k' err Hes Hrun) as (j & Hj & Hl). exists (S j).
      split; [by rewrite Hj, Hc|]. intros Hn. specialize (Hl Hn). cbn. lia.
  - destruct res as [msg|]; [|done]. intros [= <- <-]. by exists O.
Qed.

#[export] Instance kafka_laws : IdempotentLaws (KafkaPersister K).
Proof.
  refine {| durable k D := consumed k = D |}.
  intros ctx now es k k' err D Hes _ <- Hrun. destruct es as [|e es].
  - injection Hrun as <- <-. exists O. by split.
  - by apply (produce_entries_ok (bounded ctx now) (now / 1000000)).
Defined.
End contract.

(** ** [clients.go] *)
(** [<-ctx.Done()] is ready once the deadline has passed. *)
Definition ctx_done (ctx : Ctx) (now : Z) : bool :=
  match ctx with WithDeadline d => d <=? now | _ => false end.
Definition deadline_exceeded : string := "context deadline exceeded".

(** The demo clients keep the lines they print here; [le_now] is the clock. *)
Record LoggingRedisEvaler := mkLoggingRedis { le_now : Z; evals : list (list string * list Z) }.
#[export] Instance logging_Eval : RedisEvaler LoggingRedisEvaler := fun ctx _ keys args c =>
  if ctx_done ctx (le_now c) then (c, inl deadline_exceeded)
  else (mkLoggingRedis (le_now c) (evals c ++ [(keys, args)]), inr 1).

(** The client of the Redis library, and its wrapper, which forwards. *)
Class RedisClient (C : Type) := {
  NewClient : string -> C;
  client_Eval : Ctx -> string -> list string -> list Z -> C -> C * (string + Z)
}.
Record GoRedisEvaler (C : Type) := mkGoRedis { go_c : C }.
#[global] Arguments mkGoRedis {C}.
#[global] Arguments go_c {C}.
Definition NewGoRedisEvaler {C} `{RedisClient C} (addr : string) : GoRedisEvaler C := mkGoRedis (NewClient addr).
#[export] Instance go_Eval {C} `{RedisClient C} : RedisEvaler (GoRedisEvaler C) := fun ctx script keys args g =>
  let '(c, res) := client_Eval ctx script keys args (go_c g) in (mkGoRedis c, res).

(** The wrapper keeps what the adapter needs of the library. *)
#[export] Instance go_laws {R C} `{RedisServer R} `{RedisClient C}
  (laws : @EvalerLaws R C _ client_Eval) : EvalerLaws R (GoRedisEvaler C).
Proof.
  refine {| db g := @db R C _ client_Eval laws (go_c g) |}. intros ctx ck mk v ttl [c] e' res. unfold Eval, go_Eval. cbn.
  destruct (client_Eval _ _ _ _ c) as [c' r] eqn:He. intros [= <- <-]. by eapply (@eval_runs R C _ client_Eval laws).
Defined.

Record LoggingKafkaProducer := mkLoggingKafka { lk_now : Z; produced : list (string * string * CommitMessage) }.
#[export] Instance logging_Produce : KafkaProducer LoggingKafkaProducer := fun ctx t key m _ c =>
  if ctx_done ctx (lk_now c) then (c, Some deadline_exceeded)
  else (mkLoggingKafka (lk_now c) (produced c ++ [(t, key, m)]), None).

#[export] Instance logging_producer_laws : ProducerLaws LoggingKafkaProducer.
Proof.
  refine {| log c t := omap (fun '(t', _, m) => if decide (t' = t) then Some m else None) (produced c) |}.
  intros ctx t key m hs p p' err. unfold Produce, logging_Produce.
  destruct (ctx_done ctx (lk_now p)); intros [= <- <-].
  - split; [done|]. exists O. by rewrite app_nil_r.
  - split.
    + intros t' Ht. cbn. rewrite omap_app. cbn. rewrite decide_False by congruence. by rewrite app_nil_r.
    + exists 1%nat. cbn. rewrite omap_app. cbn. by rewrite decide_True.
Defined.

Definition truncate (s : string) (n : nat) : string :=
  if (String.length s <=? n)%nat then s else String.substring 0 n s +:+ "…".

(** ** [factory.go] *)
Record DemoOptions := mkDemoOptions { RedisMarkerTTL : Z; RedisAddr : string; KafkaTopic : string }.

(** The persister a selector gives. *)
Inductive Built :=
| BuiltMock
| BuiltRedis (addr : option string) (ttl : Z)  (* a real client at the address, or the logging one *)
| BuiltKafka (topic : string).

Definition BuildPersister (adapter : string) (opts : DemoOptions) : Built + string :=
  if bool_decide (adapter = "") || bool_decide (adapter = "mock") then inl BuiltMock
  else if bool_decide (adapter = "redis") then
    let ttl := if RedisMarkerTTL opts <=? 0 then day else RedisMarkerTTL opts in
    let addr := if bool_decide (RedisAddr opts = "") then None else Some (RedisAddr opts) in
    inl (BuiltRedis addr ttl)
  else if bool_decide (adapter = "kafka") then
    inl (BuiltKafka (if bool_decide (KafkaTopic opts = "") then "vsa-commits" else KafkaTopic opts))
  else if bool_decide (adapter = "postgres") then
    inr "postgres adapter is not enabled in the demo build; please wire a real *sql.DB and create tables"
  else inr ("unknown persistence adapter: " +:+ adapter).
