(* ===== verification/Retries.v ===== *)
(** * The shim's ledger

    What the shim makes of the contract of [Durable]: its every call draws fresh ids,
    so a batch the worker sends again is charged again. *)
From S2P Require Import Prelude CoreMetrics Durable Redis.

(** ** The shim's ledger *)
Section shim.
Context {P : Type} {IP : IdempotentPersister P} {IL : IdempotentLaws P}.

Fixpoint shim_calls (batches : list (list Commit)) (s : IdemShim P) : IdemShim P * list (option string) :=
  match batches with
  | [] => (s, [])
  | cs :: batches =>
      let '(s1, err) := CommitBatch cs s in
      let '(s2, errs) := shim_calls batches s1 in (s2, err :: errs)
  end.

(** The ids of the draws from the next one to the [N]th are new. *)
Definition fresh_from (rand : nat -> list Z) (n N : nat) (D : Durable) : Prop :=
  forall k m, (n <= m < N)%nat -> (k, randomID rand m) ∉ applied D.

Record shim_rep (N : nat) (s : IdemShim P) (D : Durable) : Prop := {
  sr_durable : durable (impl s) D;
  sr_fresh : fresh_from (rand s) (drawn s) N D;
  sr_rand : good_rand (rand s) N
}.

Definition room (D : Durable) (n : Z) : Prop := forall k, Z.abs (balance D k) + n < H64.

Lemma room_fits rand n cs D : room D (magnitude cs) -> fits (entries_of rand n cs) D.
Proof. intros H. apply fits_bound. intros k. rewrite vectors_entries. apply H. Qed.

Lemma fresh_entries rand n N cs D : fresh_from rand n N D -> (n + length cs <= N)%nat ->
  forall e, e ∈ entries_of rand n cs -> id_of e ∉ applied D.
Proof. intros H Hn e (i & c & Hi & ->)%entries_of_elem. apply lookup_lt_Some in Hi. apply H. lia. Qed.

Lemma apply_entries_fresh rand n N cs len D : good_rand rand N -> fresh_from rand n N D ->
  (length cs <= len)%nat -> (n + len <= N)%nat ->
  fresh_from rand (n + len) N (apply_all (entries_of rand n cs) D).
Proof.
  intros Hr Hf Hl HN k m Hm [Hold|Hnew]%applied_all; [by apply (Hf k m); [lia|]|].
  apply list_elem_of_fmap in Hnew as (e & He & (i & c & Hi & ->)%entries_of_elem).
  apply lookup_lt_Some in Hi. injection He as _ Hid. apply (randomID_inj rand N) in Hid; [lia|done|lia..].
Qed.

Lemma shim_call_ok N cs s s' err D :
  Forall commit_ok cs -> shim_rep N s D -> room D (magnitude cs) -> (drawn s + length cs <= N)%nat ->
  CommitBatch cs s = (s', err) ->
  exists j D', shim_rep N s' D' /\ (err = None -> (length cs <= j)%nat) /\
    drawn s' = (drawn s + length cs)%nat /\
    forall k, balance D' k = balance D k - commit_charge k (take j cs).
Proof.
  intros Hcs [Hd Hf Hr] Hroom HN. destruct (decide (cs = [])) as [->|Hne].
  { intros [= <- <-]. exists O, D. split; [done|]. split; [done|]. split; [cbn; lia|].
    intros k. unfold commit_charge. cbn. rewrite Zsum_nil. lia. }
  unfold CommitBatch, shim_CommitBatch. destruct cs as [|c cs']; [done|]. set (cs := c :: cs') in *.
  destruct (IdemCommitBatch _ _ _ _) as [p e] eqn:He. intros [= <- <-].
  destruct (attempt_ok _ _ _ _ _ _ _ (entries_of_ok _ _ _ _ Hr Hcs) (room_fits _ _ _ _ Hroom) Hd He)
    as (j & Hp & Hj). rewrite entries_of_take in Hp.
  pose proof (length_take cs j) as Hlen. exists j. eexists. split; [split; [exact Hp| |done]|split_and!].
  - apply apply_entries_fresh; [exact Hr|exact Hf|unfold cs in *; cbn [length] in *; lia|done].
  - intros ->. specialize (Hj eq_refl). unfold entries_of in Hj. by rewrite length_imap in Hj.
  - done.
  - intros k. rewrite balance_all, charge_entries; [done|eapply entries_of_NoDup; [done|lia]|].
    eapply fresh_entries; [done|lia].
Qed.

Lemma room_after D D' cs cs' n :
  (forall k, balance D' k = balance D k - commit_charge k cs) ->
  room D (magnitude (cs ++ cs') + n) -> room D' n.
Proof.
  intros Hb Hroom k. rewrite Hb. specialize (Hroom k). rewrite magnitude_app in Hroom.
  pose proof (magnitude_nonneg cs'). enough (Z.abs (commit_charge k cs) <= magnitude cs) by lia.
  clear. unfold commit_charge, magnitude. induction cs as [|c cs IH]; [done|].
  rewrite list.filter_cons. cbn [fmap list_fmap]. rewrite Zsum_cons.
  destruct (decide (Key c = k)); cbn [fmap list_fmap]; rewrite ?Zsum_cons; lia.
Qed.

(** The shim's ledger.  Over any sequence of batches, whatever the backend
    refuses, a refused call charges the commits of some prefix of its batch and
    an accepted call charges all of them, once; every call charges anew, under
    fresh ids, also what a refused call with the same commits has charged. *)
Theorem shim_ledger N batches s s' errs D :
  Forall (Forall commit_ok) batches -> shim_rep N s D -> room D (magnitude (concat batches)) ->
  (drawn s + length (concat batches) <= N)%nat -> shim_calls batches s = (s', errs) ->
  exists sent D', durable (impl s') D' /\
    Forall3 (fun cs err part => part `prefix_of` cs /\ (err = None -> part = cs)) batches errs sent /\
    forall k, balance D' k = balance D k - commit_charge k (concat sent).
Proof.
  intros Hcs. revert s D errs. induction Hcs as [|cs batches Hc Hcs IH]; intros s D errs Hs Hroom HN.
  - intros [= <- <-]. exists [], D. split; [apply Hs|]. split; [constructor|].
    intros k. unfold commit_charge. cbn. rewrite Zsum_nil. lia.
  - cbn [shim_calls concat] in *. destruct (CommitBatch cs s) as [s1 err] eqn:He.
    destruct (shim_calls batches s1) as [s2 errs'] eqn:Hrest. intros [= <- <-].
    rewrite magnitude_app in Hroom. rewrite length_app in HN. pose proof (magnitude_nonneg (concat batches)).
    destruct (shim_call_ok N cs s s1 err D Hc Hs) as (j & D1 & Hs1 & Hj & Hdr & Hb1);
      [intros k; specialize (Hroom k); lia|lia|done|].
    destruct (IH s1 D1 errs' Hs1) as (sent & D2 & Hd & Hall & Hb2); [|lia|done|].
    { apply (room_after D D1 (take j cs) (drop j cs)); [done|]. by rewrite take_drop. }
    exists (take j cs :: sent), D2. split; [done|]. split.
    + constructor; [|done]. split; [apply prefix_take|]. intros ->. apply take_ge. auto.
    + intros k. cbn [concat]. rewrite commit_charge_app, Hb2, Hb1. lia.
Qed.

End shim.

(** ** On the Redis adapter, over a network that loses a reply *)
(** Randomness that counts: the number of the draw in 16 bytes. *)
Definition counting_rand (n : nat) : list Z := Z.of_nat n mod 256 :: replicate 15 0.
Lemma counting_rand_good : good_rand counting_rand 256.
Proof.
  split.
  - intros n. split; [|done]. unfold counting_rand, byte. constructor; [apply Z.mod_pos_bound; lia|].
    apply Forall_replicate. lia.
  - intros m n Hm Hn [= H]. rewrite !Z.mod_small in H by lia. lia.
Qed.

(** The worker retries a batch whose reply was lost half way. *)
Definition demo_batch : list Commit := [mkCommit "a" 5; mkCommit "b" 7].
Definition demo_shim : IdemShim (RedisPersister Remote) :=
  NewIdemShim (demo_redis [Delivered; ReplyLost]) counting_rand (fun n => Z.of_nat n).
Definition demo_shim_run := shim_calls [demo_batch; demo_batch] demo_shim.

Lemma shim_ledger_witness :
  map (fun e => bool_decide (e = None)) demo_shim_run.2 = [false; true] /\
  mem_scalar (server (client (impl demo_shim_run.1))) "counter:a" = -10 /\
  exists sent D', durable (impl demo_shim_run.1) D' /\
    Forall3 (fun cs err part => part `prefix_of` cs /\ (err = None -> part = cs))
      [demo_batch; demo_batch] demo_shim_run.2 sent /\
    forall k, balance D' k = 0 - commit_charge k (concat sent).
Proof.
  split; [vm_compute; reflexivity|]. split; [vm_compute; reflexivity|].
  apply (shim_ledger 256 [demo_batch; demo_batch] demo_shim demo_shim_run.1 demo_shim_run.2 empty_ledger).
  - repeat constructor; discriminate.
  - split; [apply empty_shows| |apply counting_rand_good]. intros k m _. apply not_elem_of_empty.
  - intros k. vm_compute. reflexivity.
  - cbn. lia.
  - vm_compute. reflexivity.
Defined.
