(* ===== verification/Postgres.v ===== *)
(** * The Postgres adapter ([persistence/postgres.go])

    The two tables of the schema and the four statements of the adapter, each a
    function of the tables it sees: in a transaction that is what the earlier
    statements of the same transaction have left.  The connection may refuse any
    statement, and the answer to COMMIT may get lost ([Conn]). *)
From S2P Require Import Prelude CoreMetrics Durable.

Record Row := mkRow { scalar : Z; last_token : option Z }.
Record PgDB := mkPgDB { counters : gmap string Row; applied_commits : gmap string (string * Z) }.

Definition set_counters (c : gmap string Row) (db : PgDB) : PgDB := mkPgDB c (applied_commits db).

(** ** The statements; [inl] is an error of the server *)
(** [INSERT INTO counters(key, scalar) VALUES ($1, 0) ON CONFLICT DO NOTHING] *)
Definition insert_counter (key : string) (db : PgDB) : string + PgDB :=
  inr match counters db !! key with
      | Some _ => db
      | None => set_counters (<[key := mkRow 0 None]> (counters db)) db
      end.

(** [INSERT INTO applied_commits(commit_id, key, vc) VALUES ($1,$2,$3) ON CONFLICT DO NOTHING] *)
Definition insert_applied (id key : string) (vc : Z) (db : PgDB) : string + PgDB :=
  inr match applied_commits db !! id with
      | Some _ => db
      | None => mkPgDB (counters db) (<[id := (key, vc)]> (applied_commits db))
      end.

Definition not_exists_applied (id : string) (db : PgDB) : bool :=
  bool_decide (applied_commits db !! id = None).

(** [UPDATE counters SET last_token = GREATEST(COALESCE(last_token, $3), $3)
     WHERE key = $1 AND NOT EXISTS (...) AND (last_token IS NULL OR $3 >= last_token)] *)
Definition update_token (key id : string) (token : Z) (db : PgDB) : string + PgDB :=
  inr match counters db !! key with
      | Some row =>
          if not_exists_applied id db &&
             (match last_token row with None => true | Some t => t <=? token end)
          then set_counters (<[key := mkRow (scalar row) (Some (Z.max (default token (last_token row)) token))]>
                               (counters db)) db
          else db
      | None => db
      end.

(** [UPDATE counters SET scalar = scalar - $3 WHERE key = $2 AND NOT EXISTS (...)];
    a BIGINT out of range is an error. *)
Definition update_scalar (id key : string) (v : Z) (db : PgDB) : string + PgDB :=
  match counters db !! key with
  | Some row =>
      if not_exists_applied id db then
        if bool_decide (in64 (scalar row - v))
        then inr (set_counters (<[key := mkRow (scalar row - v) (last_token row)]> (counters db)) db)
        else inl "bigint out of range"
      else inr db
  | None => inr db
  end.

(** ** The transaction *)
Inductive CommitReply := Committed | CommitRefused (msg : string) | CommitReplyLost (msg : string).
Record Conn := mkConn {
  begin_err : option string;
  stmt_err : nat -> option string;   (* of the [n]th statement *)
  commit_reply : CommitReply
}.

(** The tables the transaction sees, and the number of its next statement. *)
Abbreviation Tx := (PgDB * nat)%type.

Section transaction.
Context (conn : Conn).

Definition exec (what : string) (stmt : PgDB -> string + PgDB) (tx : Tx) : string + Tx :=
  match stmt_err conn tx.2 with
  | Some msg => inl (what +:+ ": " +:+ msg)
  | None =>
      match stmt tx.1 with
      | inl msg => inl (what +:+ ": " +:+ msg)
      | inr db => inr (db, S tx.2)
      end
  end.

(** [for _, e := range entries { ... }], left by the first error. *)
Fixpoint each (body : CommitEntry -> Tx -> string + Tx) (es : list CommitEntry) (tx : Tx) : string + Tx :=
  match es with
  | [] => inr tx
  | e :: es => match body e tx with inl msg => inl msg | inr tx => each body es tx end
  end.

Definition create_missing (e : CommitEntry) (tx : Tx) : string + Tx :=
  exec ("insert counters(" +:+ ce_Key e +:+ ")") (insert_counter (ce_Key e)) tx.

Definition commit_entry (e : CommitEntry) (tx : Tx) : string + Tx :=
  if bool_decide (ce_CommitID e = "") then inl no_commit_id
  else
    match exec ("insert applied_commits(" +:+ ce_CommitID e +:+ ")")
               (insert_applied (ce_CommitID e) (ce_Key e) (ce_Vector e)) tx with
    | inl msg => inl msg
    | inr tx =>
        match (match ce_FencingToken e with
               | Some t => exec ("update last_token(" +:+ ce_Key e +:+ ")")
                                (update_token (ce_Key e) (ce_CommitID e) t) tx
               | None => inr tx
               end) with
        | inl msg => inl msg
        | inr tx => exec ("update counters(" +:+ ce_Key e +:+ ")")
                         (update_scalar (ce_CommitID e) (ce_Key e) (ce_Vector e)) tx
        end
    end.
End transaction.

Record PostgresPersister := mkPostgres { pg : PgDB; createMissingKeys : bool; conns : list Conn }.
Definition steady : Conn := mkConn None (fun _ => None) Committed.

Definition NewPostgresPersister (db : PgDB) (createMissingKeys : bool) : PostgresPersister :=
  mkPostgres db createMissingKeys [].

(** What is left in the database, and the error. *)
Definition pg_batch (conn : Conn) (create : bool) (es : list CommitEntry) (db : PgDB) : PgDB * option string :=
  match begin_err conn with
  | Some msg => (db, Some msg)
  | None =>
      match (if create then each (create_missing conn) es (db, O) else inr (db, O)) with
      | inl msg => (db, Some msg)
      | inr tx =>
          match each (commit_entry conn) es tx with
          | inl msg => (db, Some msg)
          | inr tx =>
              match commit_reply conn with
              | Committed => (tx.1, None)
              | CommitRefused msg => (db, Some msg)
              | CommitReplyLost msg => (tx.1, Some msg)
              end
          end
      end
  end.

(** The context bounds the time of the call, which [Conn] stands for. *)
#[export] Instance postgres_CommitBatch : IdempotentPersister PostgresPersister := fun _ _ entries p =>
  match entries with
  | [] => (p, None)
  | _ =>
      let '(db, err) := pg_batch (default steady (head (conns p))) (createMissingKeys p) entries (pg p) in
      (mkPostgres db (createMissingKeys p) (tail (conns p)), err)
  end.

(** ** What a batch does *)
(** The row a batch may add. *)
Definition untouched (db db' : PgDB) : Prop :=
  forall k, counters db' !! k = counters db !! k \/
            (counters db !! k = None /\ counters db' !! k = Some (mkRow 0 None)).

Lemma untouched_refl db : untouched db db.
Proof. intros k. by left. Qed.
Lemma untouched_trans db1 db2 db3 : untouched db1 db2 -> untouched db2 db3 -> untouched db1 db3.
Proof.
  intros H1 H2 k. destruct (H2 k) as [->|[Hn ->]]; [apply H1|].
  right. split; [|done]. by destruct (H1 k) as [<-|[? Hs]]; [|rewrite Hn in Hs].
Qed.

(** A property of the tables that every statement keeps. *)
Lemma exec_inr conn what stmt tx tx' : exec conn what stmt tx = inr tx' -> stmt tx.1 = inr tx'.1.
Proof.
  unfold exec. destruct (stmt_err conn tx.2); [done|]. destruct (stmt tx.1); [done|]. by intros [= <-].
Qed.

Lemma each_ind (R : relation PgDB) (body : CommitEntry -> Tx -> string + Tx) es :
  (forall db, R db db) -> (forall a b c, R a b -> R b c -> R a c) ->
  (forall e tx tx', body e tx = inr tx' -> R tx.1 tx'.1) ->
  forall tx tx', each body es tx = inr tx' -> R tx.1 tx'.1.
Proof.
  intros Hr Ht Hb. induction es as [|e es IH]; intros tx tx'; cbn [each]; [by intros [= <-]|].
  destruct (body e tx) as [|tx1] eqn:He; [done|]. intros Hrest. eapply Ht; [by eapply Hb|by apply IH].
Qed.

Lemma create_missing_untouched conn e tx tx' : create_missing conn e tx = inr tx' -> untouched tx.1 tx'.1.
Proof.
  intros H%exec_inr. injection H as <-. destruct (counters tx.1 !! ce_Key e) eqn:Hk; [apply untouched_refl|].
  intros k. cbn. destruct (decide (k = ce_Key e)) as [->|Hne].
  - right. by rewrite lookup_insert_eq.
  - left. by rewrite lookup_insert_ne.
Qed.

(** After its marker, an entry's other statements match no row. *)
Lemma insert_applied_marks id key v db db' : insert_applied id key v db = inr db' ->
  counters db' = counters db /\ not_exists_applied id db' = false.
Proof.
  intros [= <-]. destruct (applied_commits db !! id) eqn:Hid.
  - split; [done|]. apply bool_decide_false. by rewrite Hid.
  - split; [done|]. apply bool_decide_false. cbn. by rewrite lookup_insert_eq.
Qed.

Lemma marked_statements id key v t db : not_exists_applied id db = false ->
  update_token key id t db = inr db /\ update_scalar id key v db = inr db.
Proof. intros H. unfold update_token, update_scalar. rewrite H. by destruct (counters db !! key). Qed.

Lemma commit_entry_marks conn e tx tx' : commit_entry conn e tx = inr tx' ->
  insert_applied (ce_CommitID e) (ce_Key e) (ce_Vector e) tx.1 = inr tx'.1.
Proof.
  unfold commit_entry. case_bool_decide; [done|].
  destruct (exec _ _ _ tx) as [|tx1] eqn:H1; [done|]. apply exec_inr in H1. rewrite H1.
  destruct (insert_applied_marks _ _ _ _ _ H1) as [_ Hm].
  destruct (ce_FencingToken e) as [t|].
  - destruct (exec _ _ _ tx1) as [|tx2] eqn:H2; [done|]. apply exec_inr in H2.
    rewrite (proj1 (marked_statements _ _ 0 t _ Hm)) in H2. injection H2 as H2. rewrite H2 in Hm |- *.
    intros H3%exec_inr. by rewrite (proj2 (marked_statements _ _ _ 0 _ Hm)) in H3.
  - intros H3%exec_inr. by rewrite (proj2 (marked_statements _ _ _ 0 _ Hm)) in H3.
Qed.

(** C38: no batch ever charges a counter.  The adapter inserts the marker of a
    commit before the updates that ask for its absence, in one transaction, so
    whatever the entries, the tokens and the failures, every counter keeps its
    scalar and its token, also when the batch is accepted; with
    [createMissingKeys] unknown keys get a row that holds 0. *)
Theorem postgres_never_charges ctx now es p p' err :
  IdemCommitBatch ctx now es p = (p', err) -> untouched (pg p) (pg p').
Proof.
  unfold IdemCommitBatch, postgres_CommitBatch. destruct es as [|e0 es0]; [intros [= <- <-]; apply untouched_refl|].
  set (es := e0 :: es0). set (conn := default steady _). destruct (pg_batch _ _ _ _) as [db r] eqn:Hb.
  intros [= <- <-]. cbn [pg]. revert Hb. unfold pg_batch.
  destruct (begin_err conn); [intros [= <- <-]; apply untouched_refl|].
  set (pre := if createMissingKeys p then _ else _).
  assert (Hpre : forall tx, pre = inr tx -> untouched (pg p) tx.1).
  { unfold pre. intros tx. destruct (createMissingKeys p); [|intros [= <-]; apply untouched_refl].
    apply (each_ind untouched _ es untouched_refl untouched_trans (create_missing_untouched conn) (pg p, O)). }
  destruct pre as [|tx]; [intros [= <- <-]; apply untouched_refl|].
  destruct (each (commit_entry conn) es tx) as [|tx'] eqn:He; [intros [= <- <-]; apply untouched_refl|].
  assert (Hu : untouched (pg p) tx'.1).
  { eapply untouched_trans; [by apply Hpre|].
    apply (each_ind untouched _ es untouched_refl untouched_trans) in He; [done|].
    intros e tx1 tx2 H%commit_entry_marks k. left. by rewrite (proj1 (insert_applied_marks _ _ _ _ _ H)). }
  destruct (commit_reply conn); intros [= <- <-]; [done|apply untouched_refl|done].
Qed.

Definition demo_pg : PostgresPersister :=
  NewPostgresPersister (mkPgDB {["a" := mkRow 100 (Some 3)]} ∅) true.
Definition demo_pg_batch : list CommitEntry :=
  [mkEntry "a" 5 "01" (Some 4); mkEntry "b" 7 "02" None; mkEntry "a" 5 "01" (Some 4)].
Definition demo_pg_run := IdemCommitBatch Background 0 demo_pg_batch demo_pg.

Lemma postgres_never_charges_witness :
  demo_pg_run.2 = None /\ applied_commits (pg demo_pg_run.1) !! "01" = Some ("a", 5) /\
  counters (pg demo_pg_run.1) !! "a" = Some (mkRow 100 (Some 3)) /\
  untouched (pg demo_pg) (pg demo_pg_run.1).
Proof.
  split; [vm_compute; reflexivity|]. split; [vm_compute; reflexivity|]. split; [vm_compute; reflexivity|].
  apply (postgres_never_charges Background 0 demo_pg_batch demo_pg demo_pg_run.1 demo_pg_run.2).
  vm_compute. reflexivity.
Defined.

(** Without failures a batch whose ids are set is accepted, and afterwards each of
    its ids is marked. *)
Lemma exec_steady conn what stmt tx : (forall n, stmt_err conn n = None) ->
  exec conn what stmt tx =
    match stmt tx.1 with inl msg => inl (what +:+ ": " +:+ msg) | inr db => inr (db, S tx.2) end.
Proof. intros H. unfold exec. by rewrite H. Qed.

Lemma commit_entry_steady conn e tx : (forall n, stmt_err conn n = None) -> ce_CommitID e <> "" ->
  exists tx', commit_entry conn e tx = inr tx' /\ is_Some (applied_commits tx'.1 !! ce_CommitID e) /\
    forall id, is_Some (applied_commits tx.1 !! id) -> is_Some (applied_commits tx'.1 !! id).
Proof.
  intros Hc Hid. unfold commit_entry. rewrite bool_decide_false by done. rewrite (exec_steady conn) by done.
  unfold insert_applied at 1. set (db1 := match applied_commits tx.1 !! ce_CommitID e with Some _ => tx.1 | None => _ end).
  cbn [fst snd].
  assert (Hm : is_Some (applied_commits db1 !! ce_CommitID e) /\
               forall id, is_Some (applied_commits tx.1 !! id) -> is_Some (applied_commits db1 !! id)).
  { unfold db1. destruct (applied_commits tx.1 !! ce_CommitID e) eqn:He; [by rewrite He; split|].
    cbn. rewrite lookup_insert_eq. split; [by eexists|]. intros id Hs.
    rewrite lookup_insert_is_Some. destruct (decide (ce_CommitID e = id)); auto. }
  assert (Hne : not_exists_applied (ce_CommitID e) db1 = false).
  { apply bool_decide_false. intros H. rewrite H in Hm. by destruct Hm as [[] _]. }
  pose proof (fun t => marked_statements (ce_CommitID e) (ce_Key e) (ce_Vector e) t db1 Hne) as Hst.
  destruct (ce_FencingToken e) as [t|]; rewrite ?exec_steady by done; cbn [fst snd].
  - rewrite (proj1 (Hst t)). rewrite exec_steady by done. cbn [fst snd]. rewrite (proj2 (Hst 0)). eauto.
  - rewrite (proj2 (Hst 0)). eauto.
Qed.

Lemma create_all_steady conn es : (forall n, stmt_err conn n = None) -> forall tx,
  exists tx', each (create_missing conn) es tx = inr tx'.
Proof.
  intros Hc. induction es as [|e es IH]; intros tx; cbn [each]; [eauto|].
  unfold create_missing at 1. rewrite exec_steady by done. unfold insert_counter. apply IH.
Qed.

(** A batch over a connection that does not fail is accepted when all its ids
    are set, and then marks every id as applied (and charges nothing). *)
Lemma postgres_accepts_and_marks ctx now es p :
  (forall n, stmt_err (default steady (head (conns p))) n = None) ->
  begin_err (default steady (head (conns p))) = None ->
  commit_reply (default steady (head (conns p))) = Committed ->
  Forall (fun e => ce_CommitID e <> "") es ->
  exists p', IdemCommitBatch ctx now es p = (p', None) /\
    Forall (fun e => is_Some (applied_commits (pg p') !! ce_CommitID e)) es.
Proof.
  intros Hst Hb Hc Hids. unfold IdemCommitBatch, postgres_CommitBatch. destruct es as [|e0 es0]; [eauto|].
  set (es := e0 :: es0) in *. set (conn := default steady _) in *. unfold pg_batch. rewrite Hb.
  destruct (create_all_steady conn es Hst (pg p, O)) as [txc Htxc].
  destruct (if createMissingKeys p then _ else _) as [|tx] eqn:Hpre.
  { by destruct (createMissingKeys p); [rewrite Htxc in Hpre|]. }
  clear Hpre Htxc txc. enough (exists tx', each (commit_entry conn) es tx = inr tx' /\
    Forall (fun e => is_Some (applied_commits tx'.1 !! ce_CommitID e)) es /\
    forall id, is_Some (applied_commits tx.1 !! id) -> is_Some (applied_commits tx'.1 !! id)) as (tx' & -> & Hall & _)
    by (rewrite Hc; eauto).
  clearbody es. clear Hb Hc. revert tx. induction Hids as [|e es He Hids IH]; intros tx; cbn [each]; [eauto|].
  destruct (commit_entry_steady conn e tx Hst He) as (tx1 & -> & Hm & Hk1).
  destruct (IH tx1) as (tx2 & -> & Hall & Hk2). exists tx2. split; [done|]. split; [constructor; auto|auto].
Qed.
