(* ===== verification/OpenAddr.v ===== *)
(** * Linear probing

    The two open-addressed tables of the program ([plugin/tfd]: the shards and
    the small path of [Compress]) probe from a home index to the first slot that
    is empty or holds the key.  A table in order ([table_ok]) represents a finite
    map: a probe finds the slot of a key, or a free one on its path, as long as
    some slot is free; filling that slot keeps the table in order and updates
    the map at the key. *)
From S2P Require Import Prelude.

Section OpenAddr.
Context {T K : Type} `{Countable K}.
Context (key_of : T -> option K) (home : K -> nat).
Implicit Types (t : list T) (k : K).

(** The index [d] steps after the home of [k] in a table of [n] slots. *)
Definition path (n : nat) (k : K) (d : nat) : nat := (home k + d) `mod` n.

Definition stops (t : list T) (k : K) (i : nat) : bool :=
  match t !! i with
  | Some s => match key_of s with None => true | Some k' => bool_decide (k' = k) end
  | None => false
  end.

(** Probe at most [fuel] slots from [d] steps on. *)
Fixpoint find_from (fuel : nat) (t : list T) (k : K) (d : nat) : option nat :=
  match fuel with
  | O => None
  | S fuel =>
      if stops t k (path (length t) k d) then Some (path (length t) k d)
      else find_from fuel t k (S d)
  end.
Definition find (t : list T) (k : K) : option nat := find_from (length t) t k 0.

Record table_ok (t : list T) (m : gmap K T) : Prop := {
  tok_pos : (0 < length t)%nat;
  tok_map k s : m !! k = Some s <-> key_of s = Some k /\ s ∈ t;
  tok_unique i j s s' k : t !! i = Some s -> t !! j = Some s' ->
    key_of s = Some k -> key_of s' = Some k -> i = j;
  tok_path i s k : t !! i = Some s -> key_of s = Some k ->
    exists d, (d < length t)%nat /\ i = path (length t) k d /\
      forall d', (d' < d)%nat -> exists s', t !! path (length t) k d' = Some s' /\ key_of s' <> None
}.

Definition has_free (t : list T) : Prop := exists i s, t !! i = Some s /\ key_of s = None.

Lemma path_lt n k d : (0 < n)%nat -> (path n k d < n)%nat.
Proof. intros. apply Nat.mod_upper_bound. lia. Qed.

(** Every index is on every path. *)
Lemma path_surj n k i : (i < n)%nat -> exists d, (d < n)%nat /\ path n k d = i.
Proof.
  intros Hi. unfold path. exists ((i + n - home k `mod` n) `mod` n)%nat.
  split; [apply Nat.mod_upper_bound; lia|].
  rewrite Nat.Div0.add_mod_idemp_r. rewrite <- (Nat.Div0.add_mod_idemp_l (home k)).
  pose proof (Nat.mod_upper_bound (home k) n).
  replace (home k `mod` n + (i + n - home k `mod` n))%nat with (i + 1 * n)%nat by lia.
  rewrite Nat.Div0.mod_add. apply Nat.mod_small. lia.
Qed.

Lemma find_from_Some fuel t k d i :
  find_from fuel t k d = Some i ->
  exists d', (d <= d' < d + fuel)%nat /\ i = path (length t) k d' /\ stops t k i = true /\
    forall e, (d <= e < d')%nat -> stops t k (path (length t) k e) = false.
Proof.
  revert d. induction fuel as [|fuel IH]; intros d; [done|]. cbn.
  destruct (stops t k (path (length t) k d)) eqn:Hs.
  - intros [= <-]. exists d. split_and!; [lia|lia|done|done|]. intros; lia.
  - intros (d' & Hd & -> & Hst & Hno)%IH. exists d'. split_and!; [lia|lia|done|done|].
    intros e He. destruct (decide (e = d)) as [->|]; [done|]. apply Hno. lia.
Qed.

Lemma find_from_None fuel t k d :
  find_from fuel t k d = None ->
  forall e, (d <= e < d + fuel)%nat -> stops t k (path (length t) k e) = false.
Proof.
  revert d. induction fuel as [|fuel IH]; intros d; [intros; lia|]. cbn.
  destruct (stops t k (path (length t) k d)) eqn:Hs; [done|].
  intros Hn e He. destruct (decide (e = d)) as [->|]; [done|]. apply (IH (S d) Hn). lia.
Qed.

(** A probe ends as soon as some slot is free or holds the key, and only then. *)
Lemma find_is_Some t k :
  (0 < length t)%nat ->
  is_Some (find t k) <-> exists i s, t !! i = Some s /\ (key_of s = None \/ key_of s = Some k).
Proof.
  intros Hpos. split.
  - intros [i Hi]. apply find_from_Some in Hi as (d & _ & -> & Hs & _). unfold stops in Hs.
    destruct (t !! path (length t) k d) as [s|] eqn:Ht; [|done]. exists (path (length t) k d), s.
    split; [done|]. destruct (key_of s) as [k'|]; [right|by left]. f_equal. by apply bool_decide_eq_true in Hs.
  - intros (i & s & Ht & Hs). destruct (find t k) eqn:Hf; [by eexists|].
    destruct (path_surj (length t) k i) as (d & Hd & Hp); [by eapply lookup_lt_Some|].
    pose proof (find_from_None _ _ _ _ Hf d ltac:(lia)) as Hst. rewrite Hp in Hst. unfold stops in Hst.
    rewrite Ht in Hst. destruct Hs as [Hs|Hs]; rewrite Hs in Hst; [done|]. by rewrite bool_decide_true in Hst.
Qed.

(** In a table in order the probe answers the map. *)
Lemma find_ok t m k i :
  table_ok t m -> find t k = Some i ->
  exists s, t !! i = Some s /\
    match m !! k with Some s' => s = s' /\ key_of s = Some k | None => key_of s = None end.
Proof.
  intros Hok (d & Hd & -> & Hst & Hno)%find_from_Some. unfold stops in Hst.
  destruct (t !! path (length t) k d) as [s|] eqn:Ht; [|done]. exists s. split; [done|].
  destruct (m !! k) as [s'|] eqn:Hm.
  - apply (tok_map t m Hok) in Hm as [Hk Hin]. apply list_elem_of_lookup in Hin as [j Hj].
    destruct (tok_path t m Hok j s' k Hj Hk) as (e & He & -> & Hpath).
    destruct (key_of s) as [k'|] eqn:Hks.
    + apply bool_decide_eq_true in Hst as ->.
      pose proof (tok_unique t m Hok _ _ _ _ k Ht Hj Hks Hk) as Heq. rewrite Heq in Ht. split; [congruence|done].
    + destruct (Nat.lt_ge_cases d e) as [Hlt|Hge].
      { destruct (Hpath d Hlt) as (s0 & Hs0 & Hn). congruence. }
      destruct (decide (d = e)) as [->|Hne]; [congruence|].
      specialize (Hno e ltac:(lia)). unfold stops in Hno. rewrite Hj, Hk in Hno.
      by rewrite bool_decide_true in Hno.
  - destruct (key_of s) as [k'|] eqn:Hks; [|done]. apply bool_decide_eq_true in Hst as ->.
    assert (m !! k = Some s) by (apply (tok_map t m Hok); split; [done|by eapply list_elem_of_lookup_2]).
    congruence.
Qed.

(** Writing a used slot keeps the others used. *)
Lemma insert_keeps_used t i q k s s1 : key_of s = Some k -> t !! q = Some s1 -> key_of s1 <> None ->
  exists s2, <[i := s]> t !! q = Some s2 /\ key_of s2 <> None.
Proof.
  intros Hk Hq Hn. pose proof (lookup_lt_Some _ _ _ Hq) as Hlt. destruct (decide (i = q)) as [<-|Hne].
  - rewrite list_lookup_insert_eq by done. exists s. split; [done|congruence].
  - rewrite list_lookup_insert_ne by done. by exists s1.
Qed.

(** On the way to where the probe stopped every slot is used. *)
Lemma find_passes_used t k i : (0 < length t)%nat -> find t k = Some i ->
  exists d, (d < length t)%nat /\ i = path (length t) k d /\
    forall d', (d' < d)%nat -> exists s, t !! path (length t) k d' = Some s /\ key_of s <> None.
Proof.
  intros Hpos (d & Hd & -> & _ & Hno)%find_from_Some. exists d. split_and!; [lia|done|].
  intros d' Hd'. pose proof (Hno d' ltac:(lia)) as Hst. unfold stops in Hst.
  destruct (lookup_lt_is_Some_2 t (path (length t) k d') (path_lt _ _ _ Hpos)) as [s1 Hs1]. rewrite Hs1 in Hst.
  exists s1. split; [done|]. by destruct (key_of s1).
Qed.

(** Writing a slot for [k] where the probe stopped. *)
Lemma table_insert t m k i s :
  table_ok t m -> find t k = Some i -> key_of s = Some k -> table_ok (<[i := s]> t) (<[k := s]> m).
Proof.
  intros Hok Hf Hk. pose proof (find_ok t m k i Hok Hf) as (s0 & Ht & Hs0).
  pose proof (lookup_lt_Some _ _ _ Ht) as Hlt.
  assert (Hother : forall j s' k', t !! j = Some s' -> key_of s' = Some k' -> j <> i -> k' <> k).
  { intros j s' k' Hj Hk' Hne ->. destruct (m !! k) as [s1|] eqn:Hm.
    - destruct Hs0 as [-> Hks]. by apply Hne, (tok_unique t m Hok j i s' s1 k).
    - assert (m !! k = Some s') by (apply (tok_map t m Hok); split; [done|by eapply list_elem_of_lookup_2]).
      congruence. }
  assert (Hself : forall k', k' <> k -> key_of s0 <> Some k').
  { intros k' Hne Hk0. destruct (m !! k); [destruct Hs0; congruence|congruence]. }
  split; [by rewrite length_insert; apply (tok_pos t m Hok)|..].
  - intros k' s'. rewrite lookup_insert_Some. split.
    + intros [[<- <-]|[Hne Hm]]; [split; [done|]; eapply (list_elem_of_lookup_2 _ i), list_lookup_insert_eq; done|].
      apply (tok_map t m Hok) in Hm as [Hk' Hin]. split; [done|]. apply list_elem_of_lookup in Hin as [j Hj].
      apply (list_elem_of_lookup_2 _ j). rewrite list_lookup_insert_ne; [done|].
      intros <-. rewrite Ht in Hj. injection Hj as <-. by apply (Hself k').
    + intros [Hk' Hin]. apply list_elem_of_lookup in Hin as [j Hj].
      destruct (decide (i = j)) as [<-|Hne].
      * rewrite list_lookup_insert_eq in Hj by done. injection Hj as <-. left. split; [congruence|done].
      * rewrite list_lookup_insert_ne in Hj by done. right. split.
        -- intros <-. by apply (Hother j s' k Hj Hk').
        -- apply (tok_map t m Hok). split; [done|by eapply list_elem_of_lookup_2].
  - intros a b s1 s2 k' Ha Hb H1 H2.
    destruct (decide (i = a)) as [<-|Ha'], (decide (i = b)) as [<-|Hb']; [done|..].
    + rewrite list_lookup_insert_eq in Ha by done. injection Ha as <-.
      rewrite list_lookup_insert_ne in Hb by done. exfalso. apply (Hother b s2 k' Hb H2); [done|congruence].
    + rewrite list_lookup_insert_eq in Hb by done. injection Hb as <-.
      rewrite list_lookup_insert_ne in Ha by done. exfalso. apply (Hother a s1 k' Ha H1); [done|congruence].
    + rewrite list_lookup_insert_ne in Ha, Hb by done. by eapply (tok_unique t m Hok).
  - intros j s' k' Hj Hk'. rewrite length_insert.
    destruct (decide (i = j)) as [<-|Hne].
    + rewrite list_lookup_insert_eq in Hj by done. injection Hj as <-. assert (k' = k) as -> by congruence.
      destruct (find_passes_used t k i (tok_pos t m Hok) Hf) as (d & Hd & Hi & Hpath). exists d. split_and!; [done..|].
      intros d' Hd'. destruct (Hpath d' Hd') as (s1 & Hs1 & Hn). by apply (insert_keeps_used t i _ k s s1).
    + rewrite list_lookup_insert_ne in Hj by done.
      destruct (tok_path t m Hok j s' k' Hj Hk') as (d & Hd & -> & Hpath). exists d.
      split_and!; [done..|]. intros d' Hd'. destruct (Hpath d' Hd') as (s1 & Hs1 & Hn). by apply (insert_keeps_used t i _ k s s1).
Qed.

(** A table of empty slots is the empty map. *)
Lemma table_empty t : (0 < length t)%nat -> Forall (fun s => key_of s = None) t -> table_ok t ∅.
Proof.
  intros Hpos Hall. rewrite list.Forall_forall in Hall.
  assert (Hno : forall i s k, t !! i = Some s -> key_of s <> Some k).
  { intros i s k Hi Hk. rewrite (Hall s) in Hk; [done|by eapply list_elem_of_lookup_2]. }
  split; [done|..].
  - intros k s. rewrite lookup_empty. split; [done|]. intros [Hk Hin]. by rewrite (Hall s Hin) in Hk.
  - intros i j s s' k Hi _ Hk. by destruct (Hno i s k Hi).
  - intros i s k Hi Hk. by destruct (Hno i s k Hi).
Qed.

(** The map has at most as many keys as the table has slots, and if it has
    fewer some slot is free. *)
Definition occupied (t : list T) : list T := filter (fun s => key_of s <> None) t.

Lemma keys_NoDup t :
  (forall i j s s' k, t !! i = Some s -> t !! j = Some s' ->
     key_of s = Some k -> key_of s' = Some k -> i = j) ->
  NoDup (key_of <$> occupied t).
Proof.
  unfold occupied. induction t as [|s t IH]; intros Hu; [constructor|]. rewrite list.filter_cons.
  assert (Ht : NoDup (key_of <$> filter (fun s => key_of s <> None) t)).
  { apply IH. intros i j s1 s2 k Hi Hj H1 H2. by pose proof (Hu (S i) (S j) s1 s2 k Hi Hj H1 H2) as [= ->]. }
  case_decide as Hs; [|done]. cbn. apply list.NoDup_cons. split; [|done].
  intros (s' & Hk & Hin)%list_elem_of_fmap. apply list_elem_of_filter in Hin as [_ Hin].
  apply list_elem_of_lookup in Hin as [j Hj]. destruct (key_of s) as [k|] eqn:Hks; [|done].
  by pose proof (Hu O (S j) s s' k eq_refl Hj Hks (eq_sym Hk)).
Qed.

Lemma occupied_perm t m : table_ok t m -> occupied t ≡ₚ (map_to_list m).*2.
Proof.
  intros Hok. apply NoDup_Permutation.
  - eapply NoDup_fmap_1, keys_NoDup, (tok_unique t m Hok).
  - apply (NoDup_fmap_1 key_of).
    assert (key_of <$> (map_to_list m).*2 = Some <$> (map_to_list m).*1) as ->.
    { rewrite <- !list_fmap_compose. apply list_fmap_ext. intros i [k s] Hi. cbn.
      assert (m !! k = Some s) as Hm by (apply elem_of_map_to_list; by eapply list_elem_of_lookup_2).
      by apply (tok_map t m Hok) in Hm as [? _]. }
    apply NoDup_fmap_2; [apply _|]. apply NoDup_fst_map_to_list.
  - intros s. unfold occupied. rewrite list_elem_of_filter, list_elem_of_fmap. split.
    + intros [Hk Hin]. destruct (key_of s) as [k|] eqn:Hks; [|done]. exists (k, s). split; [done|].
      apply elem_of_map_to_list, (tok_map t m Hok). done.
    + intros ([k s'] & -> & Hin). apply elem_of_map_to_list, (tok_map t m Hok) in Hin as [Hk Hin].
      cbn. split; [congruence|done].
Qed.

Lemma occupied_length t m : table_ok t m -> length (occupied t) = size m.
Proof. intros Hok. rewrite (occupied_perm t m Hok), length_fmap. apply length_map_to_list. Qed.

Lemma has_free_size t m : table_ok t m -> (size m < length t)%nat -> has_free t.
Proof.
  intros Hok. rewrite <- (occupied_length t m Hok). unfold occupied, has_free. clear Hok.
  induction t as [|s t IH]; cbn [length]; [lia|]. rewrite list.filter_cons.
  destruct (key_of s) as [k|] eqn:Hs; [|intros _; by exists 0%nat, s].
  rewrite decide_True by congruence. cbn [length]. intros Hlt.
  destruct IH as (i & s' & Hi & Hk); [lia|]. by exists (S i), s'.
Qed.
End OpenAddr.
