(* ===== verification/TfdShard.v ===== *)
(** * The scalar lane's accumulator ([plugin/tfd/saccumulator*.go])

    A shard is an open-addressed table.  Its five parallel slices, always of the
    same length and indexed together, are one list of slots here; key 0 marks an
    empty slot.  [None] is a probe that never returns: a probe that has not
    stopped after visiting every slot never will. *)
From S2P Require Import Prelude Effects OpenAddr TfdTypes.

Definition packKeyBucket (keyID bucketID : Z) : Z :=
  Z.lxor (u64 (Z.shiftl bucketID 1)) (u64 (keyID * golden64)).

Record Slot := mkSlot {
  s_key : Z;
  s_keyID : Z;
  s_bucketID : Z;
  s_sum : Z;
  s_seqEnd : Z
}.
Definition empty_slot : Slot := mkSlot 0 0 0 0 0.
#[export] Instance Slot_eq_dec : EqDecision Slot.
Proof. solve_decision. Defined.

Record SShard := mkSShard {
  slots : list Slot;
  used : Z;
  mask : Z;
  countThreshold : Z;
  timeCap : Z;
  lastFlushAt : Z
}.

Definition newSShard (orderPow2 : nat) (countThreshold timeCap now : Z) : SShard :=
  let n := 2 ^ Z.of_nat orderPow2 in
  mkSShard (replicate (Z.to_nat n) empty_slot) 0 (n - 1) countThreshold timeCap now.

Fixpoint probe_from (fuel : nat) (s : SShard) (k i : Z) : option Z :=
  match fuel with
  | O => None
  | S fuel =>
      slot ← idx_get (slots s) i;
      let kk := s_key slot in
      if (kk =? 0) || (kk =? k) then Some i
      else probe_from fuel s k (Z.land (i + 1) (mask s))
  end.
Definition probe (s : SShard) (k : Z) : option Z :=
  probe_from (length (slots s)) s k (Z.land k (mask s)).

Definition set_slots (ss : list Slot) (u : Z) (s : SShard) : SShard :=
  mkSShard ss u (mask s) (countThreshold s) (timeCap s) (lastFlushAt s).

Definition maybeFlush (now : Z) (s : SShard) : SShard * bool :=
  if (used s >=? countThreshold s) || (time_Sub now (lastFlushAt s) >=? timeCap s)
  then (mkSShard (slots s) (used s) (mask s) (countThreshold s) (timeCap s) now, true)
  else (s, false).

(** The slot an envelope leaves, from the slot the probe found. *)
Definition merge_slot (k : Z) (env : Envelope) (slot : Slot) : Slot :=
  let '(keyID, bucketID) :=
    if s_key slot =? 0 then (f_KeyID (e_Footprint env), t_BucketID (f_Time (e_Footprint env)))
    else (s_keyID slot, s_bucketID slot) in
  mkSlot (if s_key slot =? 0 then k else s_key slot) keyID bucketID
    (s_sum slot +! e_Delta env)
    (if e_SeqEnd env >? s_seqEnd slot then e_SeqEnd env else s_seqEnd slot).

Definition Ingest (now : Z) (env : Envelope) (s : SShard) : option SShard :=
  let k := packKeyBucket (f_KeyID (e_Footprint env)) (t_BucketID (f_Time (e_Footprint env))) in
  i ← probe s k;
  slot ← idx_get (slots s) i;
  ss ← idx_set (slots s) i (merge_slot k env slot);
  let s := set_slots ss (if s_key slot =? 0 then used s + 1 else used s) s in
  Some (maybeFlush now s).1.

Definition batch_of_slot (slot : Slot) : SBatch :=
  mkSBatch (s_keyID slot) (s_bucketID slot) (s_sum slot) (s_seqEnd slot).

Definition Flush (s : SShard) (out : list SBatch) : SShard * list SBatch :=
  if used s =? 0 then (s, out)
  else
    let live := filter (fun slot => s_key slot <> 0) (slots s) in
    (set_slots (map (fun slot => if s_key slot =? 0 then slot else empty_slot) (slots s)) 0 s,
     out ++ map batch_of_slot live).

Definition FlushKey (keyID : Z) (s : SShard) (out : list SBatch) : SShard * list SBatch :=
  if used s =? 0 then (s, out)
  else
    let hit slot := negb (s_key slot =? 0) && (s_keyID slot =? keyID) in
    let gone := filter (fun slot => hit slot = true) (slots s) in
    (set_slots (map (fun slot => if hit slot then empty_slot else slot) (slots s))
       (used s - Z.of_nat (length gone)) s,
     out ++ map batch_of_slot gone).

(** ** [saccumulator_wrap.go] *)
Abbreviation SAccumulator := (list SShard).

Definition NewSAccumulator (p orderPow2 countThreshold timeCap now : Z) : SAccumulator :=
  let p := if p <=? 0 then 1 else p in
  let orderPow2 := if orderPow2 <=? 0 then 8 else orderPow2 in
  replicate (Z.to_nat p) (newSShard (Z.to_nat orderPow2) countThreshold timeCap now).

Definition shardIndex (a : SAccumulator) (keyID bucketID : Z) : Z :=
  packKeyBucket keyID bucketID mod Z.of_nat (length a).

Definition acc_Ingest (now : Z) (env : Envelope) (a : SAccumulator) : option SAccumulator :=
  if negb (bool_decide (e_Channel env = ChannelScalar)) then Some a
  else
    let i := shardIndex a (f_KeyID (e_Footprint env)) (t_BucketID (f_Time (e_Footprint env))) in
    s ← idx_get a i;
    s' ← Ingest now env s;
    idx_set a i s'.

Definition FlushAll (a : SAccumulator) : SAccumulator * list SBatch :=
  foldl (fun '(done, out) s => let '(s', out') := Flush s out in (done ++ [s'], out')) ([], []) a.

(** Ingesting a stream of envelopes, each with the time of its arrival. *)
Fixpoint ingest_all (envs : list (Z * Envelope)) (s : SShard) : option SShard :=
  match envs with
  | [] => Some s
  | (now, env) :: envs => s' ← Ingest now env s; ingest_all envs s'
  end.
