(* ===== verification/TfdShardSpec.v ===== *)
(** * What the accumulator computes

    While the packed ids of the cells in play are distinct and non-zero and the
    cells fit the table, a shard is a map from cells to a net delta and the
    highest sequence number ([coalesce]), and a flush is that map.  The theorems
    at the end say what happens outside those conditions. *)
From S2P Require Import Prelude Effects OpenAddr TfdTypes TfdShard.

(** ** The table of a shard *)
Definition key_of (slot : Slot) : option Z := if s_key slot =? 0 then None else Some (s_key slot).
Definition home (o : nat) (k : Z) : nat := Z.to_nat (k mod 2 ^ Z.of_nat o).

Record shape (o : nat) (s : SShard) : Prop := {
  shape_len : Z.of_nat (length (slots s)) = 2 ^ Z.of_nat o;
  shape_mask : mask s = 2 ^ Z.of_nat o - 1
}.

Lemma land_mod o i : Z.land i (2 ^ Z.of_nat o - 1) = i mod 2 ^ Z.of_nat o.
Proof. rewrite Z.sub_1_r, <- Z.ones_equiv. apply Z.land_ones. lia. Qed.

Lemma pow2_pos o : 0 < 2 ^ Z.of_nat o.
Proof. apply Z.pow_pos_nonneg; lia. Qed.

Lemma path_next o n k d : Z.of_nat n = 2 ^ Z.of_nat o ->
  Z.land (Z.of_nat (path (home o) n k d) + 1) (2 ^ Z.of_nat o - 1) = Z.of_nat (path (home o) n k (S d)).
Proof.
  intros Hn. pose proof (pow2_pos o). rewrite land_mod, <- Hn. unfold path.
  rewrite !Nat2Z.inj_mod, !Nat2Z.inj_add, Zplus_mod_idemp_l. f_equal. lia.
Qed.

Lemma path_start o n k : 0 <= k -> Z.of_nat n = 2 ^ Z.of_nat o ->
  Z.land k (2 ^ Z.of_nat o - 1) = Z.of_nat (path (home o) n k 0).
Proof.
  intros Hk Hn. pose proof (pow2_pos o). pose proof (Z.mod_pos_bound k (2 ^ Z.of_nat o)).
  rewrite land_mod. unfold path, home.
  rewrite Nat.add_0_r, Nat2Z.inj_mod, Z2Nat.id, Hn by lia. by rewrite Z.mod_mod by lia.
Qed.

Lemma idx_get_nat {A} (l : list A) (i : nat) : idx_get l (Z.of_nat i) = l !! i.
Proof. unfold idx_get. case_Z; [lia|]. by rewrite Nat2Z.id. Qed.

(** The code's probe is the probe of [OpenAddr]. *)
Lemma probe_from_find o s k fuel d :
  shape o s -> k <> 0 ->
  probe_from fuel s k (Z.of_nat (path (home o) (length (slots s)) k d)) =
  Z.of_nat <$> find_from key_of (home o) fuel (slots s) k d.
Proof.
  intros [Hl Hm] Hk. revert d. induction fuel as [|fuel IH]; intros d; [done|].
  cbn [probe_from find_from]. rewrite idx_get_nat. unfold stops.
  assert (Hp : (path (home o) (length (slots s)) k d < length (slots s))%nat)
    by (apply path_lt; pose proof (pow2_pos o); lia).
  destruct (lookup_lt_is_Some_2 (slots s) _ Hp) as [slot Hs]. rewrite Hs. simpl. unfold key_of at 1.
  rewrite Hm, path_next, IH by done.
  destruct (Z.eqb_spec (s_key slot) 0); [done|]. cbn [orb].
  destruct (Z.eqb_spec (s_key slot) k); [by rewrite bool_decide_true|by rewrite bool_decide_false].
Qed.

Lemma probe_find o s k :
  shape o s -> 0 < k -> probe s k = Z.of_nat <$> find key_of (home o) (slots s) k.
Proof.
  intros Hs Hk. unfold probe, find. rewrite (shape_mask _ _ Hs), (path_start o (length (slots s)) k)
    by (lia || apply (shape_len _ _ Hs)).
  apply probe_from_find; [done|lia].
Qed.

Definition pack (c : Z * Z) : Z := packKeyBucket c.1 c.2.
Definition env_cell (env : Envelope) : Z * Z := cell (e_Footprint env).

(** What a cell accumulates: net delta and highest sequence number. *)
Definition merge_cell (env : Envelope) (old : option (Z * Z)) : Z * Z :=
  let '(v, q) := default (0, 0) old in
  (v +! e_Delta env, if e_SeqEnd env >? q then e_SeqEnd env else q).
Definition add_env (N : gmap (Z * Z) (Z * Z)) (env : Envelope) : gmap (Z * Z) (Z * Z) :=
  <[env_cell env := merge_cell env (N !! env_cell env)]> N.
Definition coalesce (envs : list Envelope) : gmap (Z * Z) (Z * Z) := foldl add_env ∅ envs.

(** The cells in play are told apart by their packed ids, none of which is 0. *)
Definition packable (D : gset (Z * Z)) : Prop :=
  (forall c, c ∈ D -> pack c <> 0) /\
  forall c c', c ∈ D -> c' ∈ D -> pack c = pack c' -> c = c'.

(** A shard in order, with the cells [N], all in [D]. *)
Record shard_rep (o : nat) (D : gset (Z * Z)) (s : SShard) (N : gmap (Z * Z) (Z * Z)) : Prop := {
  sr_shape : shape o s;
  sr_table : exists M, table_ok key_of (home o) (slots s) M /\
    used s = Z.of_nat (size N) /\ size M = size N /\
    forall c v q, N !! c = Some (v, q) <-> c ∈ D /\ M !! pack c = Some (mkSlot (pack c) c.1 c.2 v q);
  sr_clean : Forall (fun slot => s_key slot = 0 -> slot = empty_slot) (slots s);
  sr_cells : Forall (fun slot => s_key slot <> 0 ->
    s_key slot = pack (s_keyID slot, s_bucketID slot) /\ (s_keyID slot, s_bucketID slot) ∈ D) (slots s)
}.

Lemma pack_nonneg c : 0 <= pack c.
Proof.
  unfold pack, packKeyBucket. pose proof (u64_in (Z.shiftl c.2 1)) as [H1 _].
  pose proof (u64_in (c.1 * golden64)) as [H2 _]. by apply Z.lxor_nonneg.
Qed.

(** ** One envelope *)
Section ingest.
Context (o : nat) (D : gset (Z * Z)) (HD : packable D).

Lemma merge_slot_key k env slot :
  s_key slot = 0 \/ s_key slot = k -> k <> 0 -> key_of (merge_slot k env slot) = Some k.
Proof.
  intros Hs Hk. unfold merge_slot, key_of.
  destruct (Z.eqb_spec (s_key slot) 0) as [E|E]; cbn; [|destruct Hs as [?|Hs]; [done|]; rewrite Hs];
    by rewrite (proj2 (Z.eqb_neq _ _)).
Qed.

(** The slot of a cell after an envelope for it. *)
Lemma merge_slot_cell (c : Z * Z) (env : Envelope) (N : gmap (Z * Z) (Z * Z)) (slot : Slot) :
  env_cell env = c -> pack c <> 0 ->
  match N !! c with
  | Some (v, q) => slot = mkSlot (pack c) c.1 c.2 v q
  | None => slot = empty_slot
  end ->
  merge_slot (pack c) env slot =
  mkSlot (pack c) c.1 c.2 (merge_cell env (N !! c)).1 (merge_cell env (N !! c)).2.
Proof.
  intros Hc Hp Hs. unfold merge_slot, merge_cell.
  destruct (N !! c) as [[v q]|]; subst slot; cbn -[Z.eqb];
    [rewrite (proj2 (Z.eqb_neq _ _)) by done|]; cbn; subst c; done.
Qed.

Lemma shard_get (s : SShard) (N : gmap (Z * Z) (Z * Z)) (c : Z * Z) (M : gmap Z Slot) :
  shard_rep o D s N -> table_ok key_of (home o) (slots s) M -> c ∈ D ->
  (forall c v q, N !! c = Some (v, q) <-> c ∈ D /\ M !! pack c = Some (mkSlot (pack c) c.1 c.2 v q)) ->
  M !! pack c = (fun vq => mkSlot (pack c) c.1 c.2 vq.1 vq.2) <$> N !! c.
Proof.
  intros Hr Ht Hc HN. destruct (M !! pack c) as [slot|] eqn:HM.
  - pose proof (proj1 (tok_map _ _ _ _ Ht _ _) HM) as [Hk Hin]. unfold key_of in Hk.
    destruct (Z.eqb_spec (s_key slot) 0) as [|Hnz]; [done|]. injection Hk as Hk.
    pose proof (sr_cells _ _ _ _ Hr) as Hcells. rewrite list.Forall_forall in Hcells.
    destruct (Hcells slot Hin Hnz) as [Hpk Hcin].
    assert (Hcell : (s_keyID slot, s_bucketID slot) = c) by (apply HD; [done|done|congruence]).
    assert (HNc : N !! c = Some (s_sum slot, s_seqEnd slot)).
    { apply HN. split; [done|]. rewrite HM. f_equal. subst c. destruct slot; cbn in *. congruence. }
    rewrite HNc. cbn. f_equal. subst c. destruct slot; cbn in *. congruence.
  - destruct (N !! c) as [[v q]|] eqn:HNc; [|done]. apply HN in HNc as [_ HNc]. congruence.
Qed.

Lemma maybeFlush_rep now s N :
  shard_rep o D s N -> shard_rep o D (maybeFlush now s).1 N.
Proof. intros Hr. unfold maybeFlush. destruct (_ || _); [|done]. destruct Hr as [[] ? ? ?]. by split. Qed.

(** The probe of a cell that is present, or for which there is room, ends. *)
Lemma shard_probe_ends (s : SShard) (N : gmap (Z * Z) (Z * Z)) (c : Z * Z) (M : gmap Z Slot) :
  shard_rep o D s N -> table_ok key_of (home o) (slots s) M -> Z.of_nat (size M) = Z.of_nat (size N) ->
  M !! pack c = (fun vq => mkSlot (pack c) c.1 c.2 vq.1 vq.2) <$> N !! c ->
  is_Some (N !! c) \/ Z.of_nat (size N) < 2 ^ Z.of_nat o ->
  is_Some (find key_of (home o) (slots s) (pack c)).
Proof.
  intros Hr Ht Hsz Hget Hroom. apply find_is_Some; [by eapply tok_pos|]. destruct Hroom as [[[v q] Hv]|Hlt].
  - rewrite Hv in Hget. cbn in Hget. apply (tok_map _ _ _ _ Ht) in Hget as [Hk Hm].
    apply list_elem_of_lookup in Hm as [j Hj]. by eexists j, _; eauto.
  - destruct (has_free_size _ _ _ _ Ht) as (j & slot & Hj & Hk);
      [pose proof (shape_len _ _ (sr_shape _ _ _ _ Hr)); lia|]. exists j, slot. by auto.
Qed.

Lemma ingest_ok (now : Z) (env : Envelope) (s : SShard) (N : gmap (Z * Z) (Z * Z)) :
  shard_rep o D s N -> env_cell env ∈ D ->
  (is_Some (N !! env_cell env) \/ Z.of_nat (size N) < 2 ^ Z.of_nat o) ->
  exists s', Ingest now env s = Some s' /\ shard_rep o D s' (add_env N env).
Proof.
  intros Hr Hin Hroom.
  remember (env_cell env) as c eqn:Hc. destruct (sr_table _ _ _ _ Hr) as (M & Ht & Hu & Hsz & HN).
  pose proof (sr_shape _ _ _ _ Hr) as Hsh. pose proof (proj1 HD c Hin) as Hp0.
  pose proof (pack_nonneg c) as Hp1. pose proof (tok_pos _ _ _ _ Ht) as Hpos.
  pose proof (shard_get s N c M Hr Ht Hin HN) as Hget.
  destruct (shard_probe_ends s N c M Hr Ht ltac:(lia) Hget Hroom) as [i Hi].
  destruct (find_ok _ _ _ _ _ _ Ht Hi) as (slot & Hslot & Hmatch). rewrite Hget in Hmatch.
  assert (Hold : match N !! c with Some (v, q) => slot = mkSlot (pack c) c.1 c.2 v q | None => slot = empty_slot end).
  { destruct (N !! c) as [[v q]|]; cbn in Hmatch; [by destruct Hmatch|].
    pose proof (sr_clean _ _ _ _ Hr) as Hcl. rewrite list.Forall_forall in Hcl. apply Hcl.
    - by eapply list_elem_of_lookup_2.
    - unfold key_of in Hmatch. by destruct (Z.eqb_spec (s_key slot) 0). }
  assert (Hprobe : probe s (pack c) = Some (Z.of_nat i)) by (rewrite (probe_find o) by (done || lia); by rewrite Hi).
  unfold Ingest. replace (packKeyBucket _ _) with (pack c) by by subst c. rewrite Hprobe. simpl.
  rewrite idx_get_nat, Hslot. simpl. unfold idx_set. rewrite idx_get_nat, Hslot, Nat2Z.id. simpl.
  rewrite (merge_slot_cell c env N slot (eq_sym Hc) Hp0 Hold).
  set (new := mkSlot (pack c) c.1 c.2 _ _).
  assert (Hused : (s_key slot =? 0) = bool_decide (N !! c = None)).
  { destruct (N !! c) as [[v q]|]; subst slot; cbn -[Z.eqb]; [by rewrite (proj2 (Z.eqb_neq _ _))|done]. }
  rewrite Hused. eexists. split; [done|]. apply maybeFlush_rep.
  pose proof (table_insert _ _ _ _ (pack c) i new Ht Hi) as Ht'.
  assert (Hk : key_of new = Some (pack c)) by (unfold key_of; cbn -[Z.eqb]; by rewrite (proj2 (Z.eqb_neq _ _))).
  specialize (Ht' Hk). pose proof (lookup_lt_Some _ _ _ Hslot) as Hlt. split.
  - split; cbn; [rewrite length_insert|]; apply Hsh.
  - exists (<[pack c := new]> M). split_and!; [done|..].
    + cbn [used set_slots]. unfold add_env. rewrite <- Hc. rewrite map_size_insert. rewrite Hu.
      destruct (N !! c); [rewrite bool_decide_false by done|rewrite bool_decide_true by done];
        unfold id; lia.
    + unfold add_env. rewrite <- Hc. rewrite !map_size_insert, Hget, Hsz. by destruct (N !! c).
    + intros c' v q. unfold add_env. rewrite <- Hc. destruct (decide (c' = c)) as [->|Hne].
      * rewrite !lookup_insert_eq. destruct (merge_cell env (N !! c)) as [v0 q0]. subst new. cbn.
        split; [intros [= -> ->]; done|intros [_ [= -> ->]]; done].
      * rewrite lookup_insert_ne by done. rewrite HN. split; intros [Hc' Hm]; (split; [done|]);
          rewrite lookup_insert_ne in * by (intros Heq; apply Hne; symmetry; by apply HD); done.
  - cbn. apply Forall_insert; [apply (sr_clean _ _ _ _ Hr)|]. subst new. cbn. done.
  - cbn. apply Forall_insert; [apply (sr_cells _ _ _ _ Hr)|]. subst new. cbn. intros _.
    by rewrite <- surjective_pairing.
Qed.

Lemma shard_empty (s : SShard) :
  shape o s -> used s = 0 -> Forall (fun slot => slot = empty_slot) (slots s) -> shard_rep o D s ∅.
Proof.
  intros Hsh Hu Hall. pose proof (pow2_pos o). pose proof (shape_len _ _ Hsh).
  rewrite list.Forall_forall in Hall. split; [done|..].
  - exists ∅. split_and!; [|by rewrite Hu|done|].
    + apply table_empty; [lia|]. rewrite list.Forall_forall. intros slot Hin. by rewrite (Hall slot Hin).
    + intros c v q. rewrite !lookup_empty. split; [done|by intros []].
  - rewrite list.Forall_forall. intros slot Hin _. by apply Hall.
  - rewrite list.Forall_forall. intros slot Hin Hk. by rewrite (Hall slot Hin) in Hk.
Qed.

Lemma newSShard_rep cnt cap now : shard_rep o D (newSShard o cnt cap now) ∅.
Proof.
  pose proof (pow2_pos o). apply shard_empty; [|done|].
  - split; cbn; [|done]. rewrite length_replicate. lia.
  - apply Forall_replicate. done.
Qed.

Definition batches_of (N : gmap (Z * Z) (Z * Z)) : list SBatch :=
  (fun cvq => mkSBatch cvq.1.1 cvq.1.2 cvq.2.1 cvq.2.2) <$> map_to_list N.

Lemma live_perm (s : SShard) (N : gmap (Z * Z) (Z * Z)) :
  shard_rep o D s N ->
  filter (fun slot => s_key slot <> 0) (slots s) ≡ₚ
  (fun cvq => mkSlot (pack cvq.1) cvq.1.1 cvq.1.2 cvq.2.1 cvq.2.2) <$> map_to_list N.
Proof.
  intros Hr. destruct (sr_table _ _ _ _ Hr) as (M & Ht & _ & _ & HN).
  assert (Hocc : filter (fun slot => s_key slot <> 0) (slots s) = occupied key_of (slots s)).
  { unfold occupied. apply list_filter_iff. intros slot. unfold key_of. by case_Z. }
  rewrite Hocc. apply NoDup_Permutation.
  - eapply NoDup_fmap_1, keys_NoDup, (tok_unique _ _ _ _ Ht).
  - apply NoDup_fmap_2; [|apply NoDup_map_to_list].
    intros [[a b] [v q]] [[a' b'] [v' q']] [=]. by subst.
  - intros slot. rewrite list_elem_of_fmap. rewrite <- Hocc, list_elem_of_filter. split.
    + intros [Hk Hin]. pose proof (sr_cells _ _ _ _ Hr) as Hc. rewrite list.Forall_forall in Hc.
      destruct (Hc slot Hin Hk) as [Hp HinD].
      exists ((s_keyID slot, s_bucketID slot), (s_sum slot, s_seqEnd slot)). split.
      * cbn. rewrite <- Hp. by destruct slot.
      * apply elem_of_map_to_list, HN. split; [done|]. apply (tok_map _ _ _ _ Ht). cbn. rewrite <- Hp. split.
        -- unfold key_of. cbn. by rewrite (proj2 (Z.eqb_neq _ _)).
        -- by destruct slot.
    + intros ([c [v q]] & -> & Hin). cbn. apply elem_of_map_to_list, HN in Hin as [Hc Hm].
      apply (tok_map _ _ _ _ Ht) in Hm as [_ Hm]. split; [by apply HD|done].
Qed.

Lemma flush_ok (s : SShard) (N : gmap (Z * Z) (Z * Z)) out :
  shard_rep o D s N ->
  shard_rep o D (Flush s out).1 ∅ /\ exists bs, (Flush s out).2 = out ++ bs /\ bs ≡ₚ batches_of N.
Proof.
  intros Hr. unfold Flush. destruct (Z.eqb_spec (used s) 0) as [Hu|Hu]; cbn [fst snd].
  - destruct (sr_table _ _ _ _ Hr) as (M & _ & Hsz & _).
    assert (N = ∅) as -> by (apply map_size_empty_inv; lia). split; [done|].
    exists []. unfold batches_of. rewrite map_to_list_empty. by rewrite app_nil_r.
  - split.
    + pose proof (sr_shape _ _ _ _ Hr) as Hsh. apply shard_empty.
      * split; cbn; [rewrite length_map|]; apply Hsh.
      * done.
      * cbn. pose proof (sr_clean _ _ _ _ Hr) as Hc. rewrite list.Forall_forall in *.
        intros slot (slot' & -> & Hin)%list_elem_of_fmap. case_Z; [by apply Hc|done].
    + eexists. split; [done|]. change (map batch_of_slot) with (fmap (M := list) batch_of_slot).
      rewrite (live_perm s N Hr). unfold batches_of. rewrite <- list_fmap_compose. done.
Qed.

Lemma add_env_size (N : gmap (Z * Z) (Z * Z)) (env : Envelope) :
  (size N <= size (add_env N env))%nat.
Proof. unfold add_env. rewrite map_size_insert. destruct (N !! env_cell env); cbn; lia. Qed.

Lemma add_envs_size (envs : list Envelope) (N : gmap (Z * Z) (Z * Z)) :
  (size N <= size (foldl add_env N envs))%nat.
Proof.
  revert N. induction envs as [|env envs IH]; intros N; [done|]. cbn.
  etrans; [apply (add_env_size N env)|apply IH].
Qed.

Lemma ingest_all_ok (envs : list (Z * Envelope)) (s : SShard) (N : gmap (Z * Z) (Z * Z)) :
  shard_rep o D s N -> Forall (fun te => env_cell te.2 ∈ D) envs ->
  Z.of_nat (size (foldl add_env N envs.*2)) <= 2 ^ Z.of_nat o ->
  exists s', ingest_all envs s = Some s' /\ shard_rep o D s' (foldl add_env N envs.*2).
Proof.
  revert s N. induction envs as [|[now env] envs IH]; intros s N Hr Hall Hroom; [by exists s|].
  inversion_clear Hall as [|?? Hin Hrest]. cbn [fmap list_fmap foldl snd] in *.
  destruct (ingest_ok now env s N Hr Hin) as (s1 & He & Hr1).
  - destruct (N !! env_cell env) eqn:HN; [left; by eexists|right].
    pose proof (add_envs_size envs.*2 (add_env N env)) as Hle. unfold add_env in Hle at 1.
    rewrite map_size_insert, HN in Hle. lia.
  - destruct (IH s1 (add_env N env) Hr1 Hrest Hroom) as (s2 & He2 & Hr2).
    exists s2. cbn [ingest_all]. rewrite He. by split.
Qed.
End ingest.

(** ** The sharded accumulator *)
Section accumulator.
Context (o : nat) (D : gset (Z * Z)) (HD : packable D).
Implicit Types (a : SAccumulator) (N : gmap (Z * Z) (Z * Z)) (env : Envelope).

Definition shard_of (p : nat) (c : Z * Z) : nat := Z.to_nat (pack c mod Z.of_nat p).

(** The cells of shard [i] of [p]. *)
Definition part (p i : nat) (N : gmap (Z * Z) (Z * Z)) : gmap (Z * Z) (Z * Z) :=
  filter (fun cv => shard_of p cv.1 = i) N.

Definition acc_rep a N : Prop :=
  (0 < length a)%nat /\
  forall i s, a !! i = Some s -> shard_rep o D s (part (length a) i N).

Lemma shard_of_lt p c : (0 < p)%nat -> (shard_of p c < p)%nat.
Proof. intros. unfold shard_of. pose proof (Z.mod_pos_bound (pack c) (Z.of_nat p)). lia. Qed.

Lemma part_add_same p N env :
  part p (shard_of p (env_cell env)) (add_env N env) =
  add_env (part p (shard_of p (env_cell env)) N) env.
Proof.
  unfold part, add_env. rewrite map_filter_insert_True by done. f_equal. unfold merge_cell. f_equal.
  destruct (N !! env_cell env) as [vq|] eqn:HN.
  - by rewrite (map_lookup_filter_Some_2 _ _ _ vq).
  - destruct (filter _ N !! env_cell env) as [vq|] eqn:HF; [|done].
    apply map_lookup_filter_Some in HF as [HF _]. congruence.
Qed.

Lemma part_add_other p i N env :
  shard_of p (env_cell env) <> i -> part p i (add_env N env) = part p i N.
Proof. intros Hi. unfold part, add_env. apply map_filter_insert_not. by intros. Qed.

Lemma part_size p i N : (size (part p i N) <= size N)%nat.
Proof. apply map_subseteq_size, map_filter_subseteq. Qed.

Lemma acc_ingest_ok now env a N :
  acc_rep a N -> e_Channel env = ChannelScalar -> env_cell env ∈ D ->
  (is_Some (N !! env_cell env) \/ Z.of_nat (size N) < 2 ^ Z.of_nat o) ->
  exists a', acc_Ingest now env a = Some a' /\ acc_rep a' (add_env N env) /\ length a' = length a.
Proof.
  intros [Hpos Ha] Hch Hin Hroom. unfold acc_Ingest. rewrite bool_decide_true by done. cbn [negb].
  remember (shard_of (length a) (env_cell env)) as i eqn:Ei.
  assert (Hi : (i < length a)%nat) by (subst i; by apply shard_of_lt).
  assert (Hidx : shardIndex a (f_KeyID (e_Footprint env)) (t_BucketID (f_Time (e_Footprint env))) = Z.of_nat i).
  { subst i. unfold shard_of, shardIndex. change (packKeyBucket _ _) with (pack (env_cell env)).
    pose proof (Z.mod_pos_bound (pack (env_cell env)) (Z.of_nat (length a))). lia. }
  rewrite Hidx, idx_get_nat. destruct (lookup_lt_is_Some_2 a i Hi) as [s Hs]. rewrite Hs. simpl.
  destruct (ingest_ok o D HD now env s (part (length a) i N)) as (s' & He & Hr); [by apply Ha|done| |].
  { destruct Hroom as [[vq Hv]|Hlt]; [left; exists vq; by apply map_lookup_filter_Some_2|right].
    pose proof (part_size (length a) i N). lia. }
  rewrite He. simpl. unfold idx_set. rewrite idx_get_nat, Hs, Nat2Z.id.
  eexists. split; [done|]. split; [|apply length_insert]. split; [by rewrite length_insert|].
  intros j sj Hj. rewrite length_insert. destruct (decide (i = j)) as [<-|Hne].
  - rewrite list_lookup_insert_eq in Hj by done. injection Hj as <-. rewrite Ei, part_add_same. by rewrite <- Ei.
  - rewrite list_lookup_insert_ne in Hj by done. rewrite part_add_other by congruence. by apply Ha.
Qed.

Lemma flush_fold a Ns done0 out :
  Forall2 (shard_rep o D) a Ns ->
  exists a' bs, foldl (fun '(done, out) s => let '(s', out') := Flush s out in (done ++ [s'], out')) (done0, out) a
      = (done0 ++ a', out ++ bs) /\
    length a' = length a /\ Forall (fun s => shard_rep o D s ∅) a' /\
    bs ≡ₚ concat (batches_of <$> Ns).
Proof.
  intros Hall. revert done0 out. induction Hall as [|s N a Ns Hs Hall IH]; intros done0 out.
  { exists [], []. rewrite !app_nil_r. by split_and!. }
  cbn [foldl]. destruct (flush_ok o D HD s N out Hs) as (Hr & bs & Hout & Hbs).
  destruct (Flush s out) as [s' out'] eqn:HF. cbn [fst snd] in *. subst out'.
  destruct (IH (done0 ++ [s']) (out ++ bs)) as (a' & bs' & -> & Hlen & Hr' & Hbs').
  exists (s' :: a'), (bs ++ bs'). rewrite <- !app_assoc. split_and!; [done|cbn; lia|by constructor|].
  cbn. by rewrite Hbs, Hbs'.
Qed.

Lemma filter_sublist {X} (Q : X -> Prop) `{!forall x, Decision (Q x)} (l : list X) :
  filter Q l `sublist_of` l.
Proof.
  induction l as [|x l IH]; [done|]. rewrite list.filter_cons. case_decide; by constructor.
Qed.

Lemma map_to_list_part p i N :
  map_to_list (part p i N) ≡ₚ filter (fun cv => shard_of p cv.1 = i) (map_to_list N).
Proof.
  unfold part. rewrite map_filter_alt, map_to_list_to_map; [done|].
  eapply sublist_NoDup; [apply (NoDup_fst_map_to_list N)|]. by apply fmap_sublist, filter_sublist.
Qed.

(** A list is the concatenation of its classes. *)
Lemma classes_cons {X} (f : X -> nat) (x : X) l (ids : list nat) :
  NoDup ids -> f x ∈ ids ->
  concat ((fun i => filter (fun x => f x = i) (x :: l)) <$> ids) ≡ₚ
  x :: concat ((fun i => filter (fun x => f x = i) l) <$> ids).
Proof.
  induction ids as [|i ids IH]; intros Hnd Hin; [by apply not_elem_of_nil in Hin|].
  apply list.NoDup_cons in Hnd as [Hi Hnd]. cbn [fmap list_fmap concat]. rewrite list.filter_cons.
  destruct (decide (f x = i)) as [Hx|Hx].
  - assert (Hsame : (fun i => filter (fun x => f x = i) (x :: l)) <$> ids =
      (fun i => filter (fun x => f x = i) l) <$> ids).
    { apply list_fmap_ext. intros j y Hj. cbv beta. rewrite list.filter_cons, decide_False; [done|].
      intros Hy. apply Hi. rewrite <- Hx, Hy. by eapply list_elem_of_lookup_2. }
    by rewrite Hsame.
  - apply elem_of_cons in Hin as [?|Hin]; [done|]. rewrite (IH Hnd Hin).
    by rewrite Permutation_middle.
Qed.

Lemma classes_perm {X} (f : X -> nat) p (l : list X) :
  (forall x, (f x < p)%nat) ->
  concat ((fun i => filter (fun x => f x = i) l) <$> seq 0 p) ≡ₚ l.
Proof.
  intros Hf. induction l as [|x l IH].
  - generalize (seq 0 p). intros ids. induction ids as [|i ids IH]; [done|]. cbn. exact IH.
  - rewrite classes_cons; [by rewrite IH|apply NoDup_seq|]. apply elem_of_seq. specialize (Hf x). lia.
Qed.

Lemma parts_perm p N : (0 < p)%nat ->
  concat (batches_of <$> ((fun i => part p i N) <$> seq 0 p)) ≡ₚ batches_of N.
Proof.
  intros Hp. unfold batches_of at 2.
  rewrite <- (classes_perm (fun cv : (Z * Z) * (Z * Z) => shard_of p cv.1) p (map_to_list N)) at 1
    by (intros; by apply shard_of_lt).
  generalize (seq 0 p). intros ids. induction ids as [|i ids IH]; [done|].
  cbn [fmap list_fmap concat]. rewrite fmap_app. rewrite <- IH. f_equiv.
  unfold batches_of. by rewrite map_to_list_part.
Qed.

Lemma FlushAll_ok a N :
  acc_rep a N ->
  acc_rep (FlushAll a).1 ∅ /\ length (FlushAll a).1 = length a /\ (FlushAll a).2 ≡ₚ batches_of N.
Proof.
  intros [Hpos Ha].
  assert (Hall : Forall2 (shard_rep o D) a ((fun i => part (length a) i N) <$> seq 0 (length a))).
  { apply Forall2_lookup. intros i. rewrite list_lookup_fmap.
    destruct (a !! i) as [s|] eqn:Hs.
    - rewrite lookup_seq_lt by (by eapply lookup_lt_Some). constructor. by apply Ha.
    - rewrite lookup_seq_ge; [constructor|]. by apply lookup_ge_None. }
  destruct (flush_fold a _ [] [] Hall) as (a' & bs & Hf & Hlen & Hr & Hbs).
  unfold FlushAll. rewrite Hf. cbn [fst snd app]. split_and!; [|done|].
  - split; [lia|]. intros i s Hi. rewrite list.Forall_forall in Hr.
    unfold part. rewrite map_filter_empty. apply Hr. by eapply list_elem_of_lookup_2.
  - rewrite Hbs. by apply parts_perm.
Qed.
End accumulator.
