(* ===== verification/TfdState.v ===== *)
(** * Compression and reconstruction ([vsa_integration.go], [reconstruct.go])

    [Compress] merges the batches of a flush by cell, through a small
    open-addressed table or through a Go map according to the length of the
    input; [Reconstruct] and [BaselineApply] apply batches and envelopes to a
    state.  States that differ only in cells holding 0 are equivalent
    ([state_eq]). *)
From stdpp Require Import sorting.
From S2P Require Import Prelude Effects OpenAddr TfdTypes TfdShard TfdShardSpec.

Definition batch_cell (b : SBatch) : Z * Z := (b_KeyID b, b_BucketID b).

(** The batch [b] merged into [old], a batch of the same cell. *)
Definition merge_batch (old b : SBatch) : SBatch :=
  mkSBatch (b_KeyID old) (b_BucketID old) (b_NetDelta old +! b_NetDelta b)
    (if b_SeqEnd b >? b_SeqEnd old then b_SeqEnd b else b_SeqEnd old).

(** ** [SimpleVSA.Compress] *)
Record kv := mkKv { kv_key : Z * Z; kv_val : SBatch; kv_used : bool }.
Definition zero_kv : kv := mkKv (0, 0) (mkSBatch 0 0 0 0) false.

(** [for n < len(in)*2 { n <<= 1 }] *)
Fixpoint table_size (fuel : nat) (n target : Z) : Z :=
  match fuel with
  | O => n
  | S fuel => if n <? target then table_size fuel (Z.shiftl n 1) target else n
  end.

Fixpoint compress_probe (fuel : nat) (tab : list kv) (msk : Z) (k : Z * Z) (idx : Z) : option Z :=
  match fuel with
  | O => None
  | S fuel =>
      slot ← idx_get tab idx;
      if negb (kv_used slot) then Some idx
      else if bool_decide (kv_key slot = k) then Some idx
      else compress_probe fuel tab msk k (Z.land (idx + 1) msk)
  end.

Definition compress_insert (msk : Z) (tab : list kv) (b : SBatch) : option (list kv) :=
  let k := (b_KeyID b, b_BucketID b) in
  idx ← compress_probe (length tab) tab msk k
          (Z.land (int_of_u64 (packKeyBucket (b_KeyID b) (b_BucketID b))) msk);
  slot ← idx_get tab idx;
  if negb (kv_used slot) then idx_set tab idx (mkKv k b true)
  else idx_set tab idx (mkKv (kv_key slot) (merge_batch (kv_val slot) b) true).

Fixpoint compress_table (msk : Z) (tab : list kv) (bs : list SBatch) : option (list kv) :=
  match bs with
  | [] => Some tab
  | b :: bs => tab' ← compress_insert msk tab b; compress_table msk tab' bs
  end.

Definition nonzero (b : SBatch) : Prop := b_NetDelta b <> 0.

Definition compress_small (bs : list SBatch) : option (list SBatch) :=
  let n := table_size 8 1 (Z.of_nat (length bs) * 2) in
  tab ← compress_table (n - 1) (replicate (Z.to_nat n) zero_kv) bs;
  Some (filter nonzero (map kv_val (filter (fun slot => kv_used slot = true) tab))).

Definition merge_map (bs : list SBatch) : gmap (Z * Z) SBatch :=
  foldl (fun m b =>
    let k := (b_KeyID b, b_BucketID b) in
    match m !! k with
    | Some prev => <[k := merge_batch prev b]> m
    | None => <[k := b]> m
    end) ∅ bs.

(** [range m] goes through the keys in the order [order]. *)
Definition compress_large (order : list (Z * Z)) (bs : list SBatch) : list SBatch :=
  filter nonzero (omap (fun k => merge_map bs !! k) order).

Definition oaThreshold : Z := 64.
Definition Compress (order : list (Z * Z)) (bs : list SBatch) : option (list SBatch) :=
  if Z.of_nat (length bs) =? 0 then Some bs
  else if Z.of_nat (length bs) <=? oaThreshold then compress_small bs
  else Some (compress_large order bs).

(** ** [reconstruct.go] *)
Abbreviation State := (gmap (Z * Z) Z).
Definition NewState : State := ∅.

Definition add_cell (k : Z * Z) (d : Z) (s : State) : State :=
  <[k := default 0 (s !! k) +! d]> s.
Definition applyS (s : State) (b : SBatch) : State :=
  add_cell (b_KeyID b, b_BucketID b) (b_NetDelta b) s.
Definition applyV (s : State) (env : Envelope) : State :=
  add_cell (f_KeyID (e_Footprint env), t_BucketID (f_Time (e_Footprint env))) (e_Delta env) s.

(** The order [sort.Slice] sorts by. *)
Definition v_before (a b : Envelope) : bool :=
  if f_KeyID (e_Footprint a) =? f_KeyID (e_Footprint b) then e_SeqEnd a <? e_SeqEnd b
  else f_KeyID (e_Footprint a) <? f_KeyID (e_Footprint b).
Definition v_le (a b : Envelope) : Prop := v_before b a = false.
#[export] Instance v_le_dec a b : Decision (v_le a b).
Proof. unfold v_le. apply _. Defined.

Definition Reconstruct (sBatches : list SBatch) (vEnvs : list Envelope) (s : State) : State :=
  foldl applyV (foldl applyS s sBatches) (merge_sort v_le vEnvs).

Definition BaselineApply (envs : list Envelope) (s : State) : State :=
  foldl (fun s e =>
    if bool_decide (e_Channel e = ChannelScalar)
    then applyS s (mkSBatch (f_KeyID (e_Footprint e)) (t_BucketID (f_Time (e_Footprint e)))
                     (e_Delta e) (e_SeqEnd e))
    else applyV s e) s envs.

(** ** The value of a cell *)
Definition value (s : State) (c : Z * Z) : Z := default 0 (s !! c).

Definition state_eq (s s' : State) : Prop := forall c, value s c = value s' c.
Infix "≈" := state_eq (at level 70, no associativity).
#[export] Instance state_eq_equivalence : Equivalence state_eq.
Proof.
  split; [by intros s c|by intros s s' H c; rewrite H|intros s1 s2 s3 H1 H2 c; by rewrite H1, H2].
Qed.

Lemma value_add_cell k d s c :
  value (add_cell k d s) c = if decide (k = c) then value s c +! d else value s c.
Proof.
  unfold value, add_cell. case_decide as Hk; [subst; by rewrite lookup_insert_eq|by rewrite lookup_insert_ne].
Qed.

#[export] Instance add_cell_proper k d : Proper (state_eq ==> state_eq) (add_cell k d).
Proof. intros s s' Hs c. rewrite !value_add_cell, Hs. done. Qed.

(** What a list of increments adds to a cell. *)
Definition deltas_at (c : Z * Z) (ps : list ((Z * Z) * Z)) : Z :=
  Zsum (omap (fun p => if decide (p.1 = c) then Some p.2 else None) ps).

Lemma deltas_at_app c ps qs : deltas_at c (ps ++ qs) = deltas_at c ps + deltas_at c qs.
Proof. unfold deltas_at. by rewrite omap_app, Zsum_app. Qed.

Lemma deltas_at_perm c ps qs : ps ≡ₚ qs -> deltas_at c ps = deltas_at c qs.
Proof. intros H. unfold deltas_at. apply Zsum_perm. by rewrite H. Qed.

Definition add_cells (ps : list ((Z * Z) * Z)) (s : State) : State :=
  foldl (fun s p => add_cell p.1 p.2 s) s ps.

Definition in_range (s : State) : Prop := forall c, in64 (value s c).

Lemma add_cell_range k d s : in_range s -> in_range (add_cell k d s).
Proof. intros Hs c. rewrite value_add_cell. case_decide; auto with go. Qed.

Lemma value_add_cells ps s c :
  in_range s -> value (add_cells ps s) c = wrap64 (value s c + deltas_at c ps).
Proof.
  revert s. induction ps as [|[k d] ps IH]; intros s Hs.
  - unfold deltas_at. cbn. rewrite Zsum_nil, Z.add_0_r. symmetry. apply wrap64_id, Hs.
  - cbn [add_cells foldl fst snd]. etrans; [apply IH; by apply add_cell_range|].
    rewrite value_add_cell. unfold deltas_at. cbn [omap list_omap fst snd].
    case_decide; [|done]. rewrite Zsum_cons. apply wrap64_unique. eqm_norm.
    by rewrite Z.add_assoc.
Qed.

(** Two lists of increments that give each cell the same sum, modulo [2^64]. *)
Lemma add_cells_eq ps qs s :
  in_range s -> (forall c, deltas_at c ps ≡ₘ deltas_at c qs) -> add_cells ps s ≈ add_cells qs s.
Proof.
  intros Hs Heq c. rewrite !value_add_cells by done. apply wrap64_unique. by rewrite Heq.
Qed.

Definition batch_delta (b : SBatch) : (Z * Z) * Z := (batch_cell b, b_NetDelta b).
Definition env_delta (e : Envelope) : (Z * Z) * Z := (env_cell e, e_Delta e).

Lemma applyS_all bs s : foldl applyS s bs = add_cells (batch_delta <$> bs) s.
Proof. revert s. induction bs as [|b bs IH]; intros s; [done|apply IH]. Qed.
Lemma applyV_all es s : foldl applyV s es = add_cells (env_delta <$> es) s.
Proof. revert s. induction es as [|e es IH]; intros s; [done|apply IH]. Qed.

Lemma BaselineApply_all es s : BaselineApply es s = add_cells (env_delta <$> es) s.
Proof.
  revert s. induction es as [|e es IH]; intros s; [done|]. unfold BaselineApply in *. cbn [foldl].
  rewrite IH. by case_bool_decide.
Qed.

Lemma add_cells_app ps qs s : add_cells (ps ++ qs) s = add_cells qs (add_cells ps s).
Proof. unfold add_cells. by rewrite foldl_app. Qed.

Lemma Reconstruct_all bs es s :
  Reconstruct bs es s = add_cells ((batch_delta <$> bs) ++ (env_delta <$> merge_sort v_le es)) s.
Proof. unfold Reconstruct. by rewrite applyS_all, applyV_all, add_cells_app. Qed.

Lemma NewState_range : in_range NewState.
Proof. intros c. unfold value, NewState. by rewrite lookup_empty. Qed.
