(* ===== verification/TfdStateSpec.v ===== *)
(** * Compression and reconstruction are correct

    Whatever path [Compress] takes, it returns the merged batches of its input
    that are not zero; and neither coalescing in the shards nor compression
    changes the state that is reconstructed. *)
From stdpp Require Import sorting.
From S2P Require Import Prelude Effects OpenAddr TfdTypes TfdShard TfdShardSpec TfdState.

(** ** Sums over maps *)
Lemma deltas_at_cons c p ps :
  deltas_at c (p :: ps) = (if decide (p.1 = c) then p.2 else 0) + deltas_at c ps.
Proof. unfold deltas_at. cbn. case_decide; [by rewrite Zsum_cons|done]. Qed.

Lemma deltas_at_notin c ps : c ∉ ps.*1 -> deltas_at c ps = 0.
Proof.
  induction ps as [|p ps IH]; intros Hc; [done|]. cbn in Hc.
  apply not_elem_of_cons in Hc as [Hp Hc]. rewrite deltas_at_cons, decide_False, IH; [done|done|congruence].
Qed.

Lemma deltas_at_unique c v ps : NoDup ps.*1 -> (c, v) ∈ ps -> deltas_at c ps = v.
Proof.
  induction ps as [|[k w] ps IH]; intros Hnd Hin; [by apply not_elem_of_nil in Hin|].
  cbn in Hnd. apply list.NoDup_cons in Hnd as [Hk Hnd]. rewrite deltas_at_cons. cbn [fst snd].
  apply elem_of_cons in Hin as [[= <- <-]|Hin].
  - rewrite decide_True, deltas_at_notin by done. lia.
  - rewrite decide_False, (IH Hnd Hin); [done|]. intros ->. apply Hk, list_elem_of_fmap. by exists (c, v).
Qed.

Lemma deltas_at_map {X} (f : X -> Z) (m : gmap (Z * Z) X) c :
  deltas_at c ((fun kx => (kx.1, f kx.2)) <$> map_to_list m) = default 0 (f <$> m !! c).
Proof.
  assert (Hnd : NoDup ((fun kx : (Z * Z) * X => (kx.1, f kx.2)) <$> map_to_list m).*1).
  { rewrite <- list_fmap_compose. apply NoDup_fst_map_to_list. }
  destruct (m !! c) as [x|] eqn:Hx.
  - apply deltas_at_unique; [done|]. apply list_elem_of_fmap. exists (c, x).
    split; [done|]. by apply elem_of_map_to_list.
  - apply deltas_at_notin. intros Hin. apply list_elem_of_fmap in Hin as (p & -> & Hin).
    apply list_elem_of_fmap in Hin as ([k x] & -> & Hin). apply elem_of_map_to_list in Hin. cbn in Hx. congruence.
Qed.

(** ** The reference of [Compress] *)
Definition merged_ok (bs : list SBatch) (m : gmap (Z * Z) SBatch) : Prop :=
  forall c, match m !! c with
  | Some b => batch_cell b = c /\ c ∈ batch_cell <$> bs /\
      b_NetDelta b ≡ₘ deltas_at c (batch_delta <$> bs) /\
      (forall b', b' ∈ bs -> batch_cell b' = c -> b_SeqEnd b' <= b_SeqEnd b) /\
      (exists b', b' ∈ bs /\ batch_cell b' = c /\ b_SeqEnd b' = b_SeqEnd b)
  | None => c ∉ batch_cell <$> bs
  end.

Definition merge_into (m : gmap (Z * Z) SBatch) (b : SBatch) : gmap (Z * Z) SBatch :=
  <[batch_cell b := match m !! batch_cell b with Some prev => merge_batch prev b | None => b end]> m.

Lemma merge_map_eq bs : merge_map bs = foldl merge_into ∅ bs.
Proof.
  unfold merge_map. generalize (∅ : gmap (Z * Z) SBatch).
  induction bs as [|b bs IH]; intros m; [done|]. cbn [foldl]. rewrite IH. f_equal.
  unfold merge_into, batch_cell. by destruct (m !! (b_KeyID b, b_BucketID b)).
Qed.

Lemma merge_into_ok bs m b : merged_ok bs m -> merged_ok (bs ++ [b]) (merge_into m b).
Proof.
  intros Hm c. unfold merge_into. specialize (Hm c).
  assert (Hd : deltas_at c (batch_delta <$> bs ++ [b]) =
    deltas_at c (batch_delta <$> bs) + if decide (batch_cell b = c) then b_NetDelta b else 0).
  { rewrite fmap_app, deltas_at_app. cbn [fmap list_fmap]. rewrite deltas_at_cons. unfold batch_delta at 2 3.
    cbn [fst snd]. unfold deltas_at at 2. cbn. rewrite Zsum_nil. lia. }
  destruct (decide (batch_cell b = c)) as [Hc|Hc].
  - rewrite Hc, lookup_insert_eq. destruct (m !! c) as [prev|] eqn:Hp.
    + destruct Hm as (Hcell & Hin & Hnet & Hmax & (b0 & Hb0 & Hc0 & Hs0)). split_and!.
      * done.
      * rewrite fmap_app. apply elem_of_app. by left.
      * rewrite Hd. cbn. by rewrite add64_eqm, Hnet.
      * intros b' [Hb'|Hb']%elem_of_app Hc'; cbn.
        -- specialize (Hmax b' Hb' Hc'). rewrite Z.gtb_ltb. case_Z; lia.
        -- apply list_elem_of_singleton in Hb' as ->. rewrite Z.gtb_ltb. case_Z; lia.
      * cbn. rewrite Z.gtb_ltb. case_Z.
        -- exists b. split_and!; [apply elem_of_app; right; apply list_elem_of_here|done|done].
        -- exists b0. split_and!; [apply elem_of_app; by left|done|done].
    + assert (Hz : deltas_at c (batch_delta <$> bs) = 0).
      { apply deltas_at_notin. by rewrite <- list_fmap_compose. }
      split_and!; [done| | | |].
      * rewrite fmap_app. apply elem_of_app. right. cbn. rewrite Hc. apply list_elem_of_here.
      * by rewrite Hd, Hz.
      * intros b' [Hb'|Hb']%elem_of_app Hc'.
        -- exfalso. apply Hm. rewrite <- Hc'. by apply list_elem_of_fmap_2.
        -- by apply list_elem_of_singleton in Hb' as ->.
      * exists b. split_and!; [apply elem_of_app; right; apply list_elem_of_here|done|done].
  - rewrite lookup_insert_ne by done. destruct (m !! c) as [prev|] eqn:Hp.
    + destruct Hm as (Hcell & Hin & Hnet & Hmax & (b0 & Hb0 & Hc0 & Hs0)). split_and!.
      * done.
      * rewrite fmap_app. apply elem_of_app. by left.
      * by rewrite Hd, Z.add_0_r.
      * intros b' [Hb'|Hb']%elem_of_app Hc'; [by apply Hmax|].
        by apply list_elem_of_singleton in Hb' as ->.
      * exists b0. split_and!; [apply elem_of_app; by left|done|done].
    + rewrite fmap_app. intros [?|Hb']%elem_of_app; [done|]. apply list_elem_of_singleton in Hb'. by apply Hc.
Qed.

Lemma merge_map_ok bs : merged_ok bs (merge_map bs).
Proof.
  rewrite merge_map_eq. induction bs as [|b bs IH] using rev_ind.
  - intros c. cbn. rewrite lookup_empty. apply not_elem_of_nil.
  - rewrite foldl_app. by apply merge_into_ok.
Qed.

Definition compressed (bs : list SBatch) : list SBatch :=
  filter nonzero (map_to_list (merge_map bs)).*2.

(** The delta of each cell survives the merge and the dropped zeros. *)
Lemma deltas_nonzero c bs :
  deltas_at c (batch_delta <$> filter nonzero bs) = deltas_at c (batch_delta <$> bs).
Proof.
  induction bs as [|b bs IH]; [done|]. rewrite list.filter_cons. unfold nonzero at 1.
  case_decide as Hb; cbn [fmap list_fmap]; rewrite !deltas_at_cons, IH; [done|].
  unfold nonzero in Hb. cbn [batch_delta fst snd]. repeat case_decide; lia.
Qed.

Lemma compressed_deltas c bs :
  deltas_at c (batch_delta <$> compressed bs) ≡ₘ deltas_at c (batch_delta <$> bs).
Proof.
  unfold compressed. rewrite deltas_nonzero, <- list_fmap_compose.
  assert (Hm : batch_delta ∘ snd <$> map_to_list (merge_map bs) =
    (fun kx => (kx.1, b_NetDelta kx.2)) <$> map_to_list (merge_map bs)).
  { apply list_fmap_ext. intros i [k b] Hi. cbn. unfold batch_delta. f_equal.
    pose proof (merge_map_ok bs k) as Hk.
    assert (merge_map bs !! k = Some b) as Hb by (apply elem_of_map_to_list; by eapply list_elem_of_lookup_2).
    rewrite Hb in Hk. apply Hk. }
  rewrite Hm, deltas_at_map. pose proof (merge_map_ok bs c) as Hc.
  destruct (merge_map bs !! c) as [b|]; cbn; [apply Hc|].
  rewrite deltas_at_notin; [done|]. by rewrite <- list_fmap_compose.
Qed.

(** ** The small path *)
Definition kkey (slot : kv) : option (Z * Z) := if kv_used slot then Some (kv_key slot) else None.
Definition khome (o : nat) (c : Z * Z) : nat := Z.to_nat (pack c mod 2 ^ Z.of_nat o).
Definition kslot (c : Z * Z) (b : SBatch) : kv := mkKv c b true.

Record tab_rep (o : nat) (tab : list kv) (m : gmap (Z * Z) SBatch) : Prop := {
  tr_len : Z.of_nat (length tab) = 2 ^ Z.of_nat o;
  tr_table : table_ok kkey (khome o) tab (map_imap (fun c b => Some (kslot c b)) m)
}.

Lemma kslots_lookup (m : gmap (Z * Z) SBatch) c :
  map_imap (fun c b => Some (kslot c b)) m !! c = kslot c <$> m !! c.
Proof. rewrite map_lookup_imap. by destruct (m !! c). Qed.

Lemma kslots_insert (m : gmap (Z * Z) SBatch) c b :
  map_imap (fun c b => Some (kslot c b)) (<[c := b]> m) =
  <[c := kslot c b]> (map_imap (fun c b => Some (kslot c b)) m).
Proof.
  apply map_eq. intros c'. rewrite kslots_lookup. destruct (decide (c' = c)) as [->|Hne].
  - by rewrite !lookup_insert_eq.
  - by rewrite !lookup_insert_ne, kslots_lookup by done.
Qed.

Lemma kslots_size (m : gmap (Z * Z) SBatch) :
  size (map_imap (fun c b => Some (kslot c b)) m) = size m.
Proof.
  assert (H : dom (map_imap (fun c b => Some (kslot c b)) m) = dom m).
  { apply set_eq. intros c. rewrite !elem_of_dom, kslots_lookup. by rewrite fmap_is_Some. }
  by rewrite <- !size_dom, H.
Qed.

Lemma kpath_next o n k d : Z.of_nat n = 2 ^ Z.of_nat o ->
  Z.land (Z.of_nat (path (khome o) n k d) + 1) (2 ^ Z.of_nat o - 1) = Z.of_nat (path (khome o) n k (S d)).
Proof. apply (path_next o n (pack k) d). Qed.

Lemma kpath_start o n c : (o <= 64)%nat -> Z.of_nat n = 2 ^ Z.of_nat o ->
  Z.land (int_of_u64 (pack c)) (2 ^ Z.of_nat o - 1) = Z.of_nat (path (khome o) n c 0).
Proof.
  intros Ho Hn. rewrite land_mod. pose proof (pow2_pos o) as Hp.
  assert (Hmod : int_of_u64 (pack c) mod 2 ^ Z.of_nat o = pack c mod 2 ^ Z.of_nat o).
  { destruct (wrap64_eqm (pack c)) as [k Hk]. unfold int_of_u64. rewrite Hk.
    change M64 with (2 ^ 64). replace (2 ^ 64) with (2 ^ (64 - Z.of_nat o) * 2 ^ Z.of_nat o)
      by (rewrite <- Z.pow_add_r by lia; f_equal; lia).
    rewrite Z.mul_assoc. apply Z.mod_add. lia. }
  rewrite Hmod, <- land_mod. apply (path_start o n (pack c) (pack_nonneg c) Hn).
Qed.

Lemma compress_probe_find o tab k fuel d :
  Z.of_nat (length tab) = 2 ^ Z.of_nat o ->
  compress_probe fuel tab (2 ^ Z.of_nat o - 1) k (Z.of_nat (path (khome o) (length tab) k d)) =
  Z.of_nat <$> find_from kkey (khome o) fuel tab k d.
Proof.
  intros Hl. pose proof (pow2_pos o). revert d. induction fuel as [|fuel IH]; intros d; [done|].
  cbn [compress_probe find_from]. rewrite idx_get_nat. unfold stops.
  assert (Hp : (path (khome o) (length tab) k d < length tab)%nat) by (apply path_lt; lia).
  destruct (lookup_lt_is_Some_2 tab _ Hp) as [slot Hs]. rewrite Hs. simpl. unfold kkey at 1.
  rewrite kpath_next, IH by done. destruct (kv_used slot); cbn; [|done]. by case_bool_decide.
Qed.

Lemma compress_insert_ok o tab m b :
  (o <= 64)%nat -> tab_rep o tab m ->
  (is_Some (m !! batch_cell b) \/ Z.of_nat (size m) < 2 ^ Z.of_nat o) ->
  exists tab', compress_insert (2 ^ Z.of_nat o - 1) tab b = Some tab' /\ tab_rep o tab' (merge_into m b).
Proof.
  intros Ho [Hl Ht] Hroom. unfold compress_insert, merge_into.
  change (b_KeyID b, b_BucketID b) with (batch_cell b).
  change (packKeyBucket (b_KeyID b) (b_BucketID b)) with (pack (batch_cell b)).
  generalize dependent (batch_cell b). intros c Hroom.
  assert (is_Some (find kkey (khome o) tab c)) as [i Hi].
  { apply find_is_Some; [apply (tok_pos _ _ _ _ Ht)|]. destruct Hroom as [[prev Hp]|Hlt].
    - pose proof (kslots_lookup m c) as Hk. rewrite Hp in Hk. cbn in Hk.
      apply (tok_map _ _ _ _ Ht) in Hk as [Hk Hin]. apply list_elem_of_lookup in Hin as [j Hj]. eauto 10.
    - destruct (has_free_size _ _ _ _ Ht) as (j & slot & Hj & Hk); [rewrite kslots_size; lia|]. eauto 10. }
  rewrite (kpath_start o (length tab) c Ho Hl), compress_probe_find by done.
  unfold find in Hi. rewrite Hi. simpl. rewrite idx_get_nat.
  destruct (find_ok _ _ _ _ _ _ Ht Hi) as (slot & Hslot & Hmatch). rewrite Hslot. simpl.
  rewrite kslots_lookup in Hmatch.
  assert (Hwrite : forall b', exists tab', idx_set tab (Z.of_nat i) (mkKv c b' true) = Some tab' /\
    tab_rep o tab' (<[c := b']> m)).
  { intros b'. unfold idx_set. rewrite idx_get_nat, Hslot, Nat2Z.id. eexists. split; [done|].
    split; [by rewrite length_insert|]. rewrite kslots_insert. by apply table_insert. }
  destruct (m !! c) as [prev|]; cbn in Hmatch.
  - destruct Hmatch as [-> _]. cbn. apply Hwrite.
  - unfold kkey in Hmatch. destruct (kv_used slot); [done|]. cbn. apply Hwrite.
Qed.

Lemma merge_into_size m b : (size (merge_into m b) <= S (size m))%nat.
Proof. unfold merge_into. rewrite map_size_insert. destruct (m !! batch_cell b); cbn; lia. Qed.

Lemma compress_table_ok o tab m bs :
  (o <= 64)%nat -> tab_rep o tab m -> Z.of_nat (size m) + Z.of_nat (length bs) <= 2 ^ Z.of_nat o ->
  exists tab', compress_table (2 ^ Z.of_nat o - 1) tab bs = Some tab' /\
    tab_rep o tab' (foldl merge_into m bs).
Proof.
  intros Ho. revert tab m. induction bs as [|b bs IH]; intros tab m Hr Hroom; [by exists tab|].
  cbn [length foldl compress_table] in *.
  destruct (compress_insert_ok o tab m b Ho Hr) as (tab1 & He & Hr1); [right; lia|].
  rewrite He. simpl. apply IH; [done|]. pose proof (merge_into_size m b). lia.
Qed.

(** The table has a power-of-two size of at least twice the input. *)
Lemma table_size_ok fuel o target :
  target <= 2 ^ Z.of_nat (o + fuel) ->
  exists o', (o <= o' <= o + fuel)%nat /\
    table_size fuel (2 ^ Z.of_nat o) target = 2 ^ Z.of_nat o' /\ target <= 2 ^ Z.of_nat o'.
Proof.
  revert o. induction fuel as [|fuel IH]; intros o Ht.
  - exists o. rewrite Nat.add_0_r in Ht. split_and!; [lia|lia|done|done].
  - cbn [table_size]. case_Z; [|exists o; split_and!; [lia|lia|done|done]].
    destruct (IH (S o)) as (o' & Ho' & He & Ht'); [by rewrite Nat.add_succ_r in Ht|].
    exists o'. split_and!; [lia|lia| |done]. rewrite <- He. f_equal.
    rewrite Z.shiftl_mul_pow2, Nat2Z.inj_succ, Z.pow_succ_r by lia. lia.
Qed.

Lemma compress_small_ok bs :
  Z.of_nat (length bs) <= oaThreshold ->
  exists out, compress_small bs = Some out /\ out ≡ₚ compressed bs.
Proof.
  intros Hlen. unfold oaThreshold in Hlen. unfold compress_small.
  destruct (table_size_ok 8 0 (Z.of_nat (length bs) * 2)) as (o & Ho & He & Hroom);
    [change (2 ^ Z.of_nat (0 + 8)) with 256; lia|].
  change (2 ^ Z.of_nat 0) with 1 in He. rewrite He. pose proof (pow2_pos o) as Hp.
  destruct (compress_table_ok o (replicate (Z.to_nat (2 ^ Z.of_nat o)) zero_kv) ∅ bs) as (tab & Ht & Hr).
  - lia.
  - split; [rewrite length_replicate; lia|].
    assert (map_imap (fun c b => Some (kslot c b)) (∅ : gmap (Z * Z) SBatch) = ∅) as ->
      by (apply map_eq; intros c; by rewrite kslots_lookup, !lookup_empty).
    apply table_empty; [rewrite length_replicate; lia|by apply Forall_replicate].
  - rewrite map_size_empty. lia.
  - rewrite Ht. simpl. eexists. split; [done|]. unfold compressed. rewrite merge_map_eq.
    generalize dependent (foldl merge_into ∅ bs). intros m Hr.
    assert (Hocc : filter (fun slot => kv_used slot = true) tab = occupied kkey tab).
    { unfold occupied. apply list_filter_iff. intros slot. unfold kkey. by destruct (kv_used slot). }
    rewrite Hocc. change (map kv_val) with (fmap (M := list) kv_val).
    rewrite (occupied_perm _ _ _ _ (tr_table _ _ _ Hr)).
    f_equiv. rewrite <- list_fmap_compose.
    assert (Hml : map_to_list (map_imap (fun c b => Some (kslot c b)) m) ≡ₚ
      (fun cb => (cb.1, kslot cb.1 cb.2)) <$> map_to_list m).
    { apply NoDup_Permutation; [apply NoDup_map_to_list| |].
      - apply NoDup_fmap_2; [intros [] [] [=]; by subst|apply NoDup_map_to_list].
      - intros [c slot]. rewrite elem_of_map_to_list, kslots_lookup, list_elem_of_fmap. split.
        + intros (b & Hb & ->)%fmap_Some. exists (c, b). split; [done|]. by apply elem_of_map_to_list.
        + intros ([c' b] & Heq & Hb). apply elem_of_map_to_list in Hb. cbn in Heq.
          injection Heq as -> ->. apply fmap_Some. by exists b. }
    rewrite Hml, <- list_fmap_compose. done.
Qed.

(** [range m] visits every key once. *)
Definition ranges (order : list (Z * Z)) (bs : list SBatch) : Prop :=
  order ≡ₚ (map_to_list (merge_map bs)).*1.

Lemma compress_large_ok order bs :
  ranges order bs -> compress_large order bs ≡ₚ compressed bs.
Proof.
  intros Ho. unfold compress_large, compressed. f_equiv. unfold ranges in Ho. rewrite Ho.
  assert (H : omap (fun k => merge_map bs !! k) (map_to_list (merge_map bs)).*1 = (map_to_list (merge_map bs)).*2).
  { assert (Hall : Forall (fun kb => merge_map bs !! kb.1 = Some kb.2) (map_to_list (merge_map bs))).
    { rewrite list.Forall_forall. intros [k b] Hin. by apply elem_of_map_to_list. }
    clear Ho. induction Hall as [|[k b] l Hk Hl IH]; [done|].
    cbn [fmap list_fmap omap list_omap fst snd] in *. rewrite Hk. f_equal. exact IH. }
  by rewrite H.
Qed.

Lemma Compress_ok order bs :
  ranges order bs -> exists out, Compress order bs = Some out /\ out ≡ₚ compressed bs.
Proof.
  intros Ho. unfold Compress. destruct (Z.eqb_spec (Z.of_nat (length bs)) 0) as [Hz|Hz].
  - destruct bs; [|done]. exists []. split; [done|]. unfold compressed, merge_map. cbn.
    by rewrite map_to_list_empty.
  - destruct (Z.leb_spec (Z.of_nat (length bs)) oaThreshold); [by apply compress_small_ok|].
    eexists. split; [done|]. by apply compress_large_ok.
Qed.

Lemma compressed_cells_NoDup bs : NoDup (batch_cell <$> compressed bs).
Proof.
  unfold compressed. eapply sublist_NoDup; [|apply fmap_sublist, filter_sublist].
  rewrite <- list_fmap_compose.
  assert (batch_cell ∘ snd <$> map_to_list (merge_map bs) = (map_to_list (merge_map bs)).*1) as ->;
    [|apply NoDup_fst_map_to_list].
  apply list_fmap_ext. intros i [k b] Hi. cbn. pose proof (merge_map_ok bs k) as Hk.
  assert (merge_map bs !! k = Some b) as Hb by (apply elem_of_map_to_list; by eapply list_elem_of_lookup_2).
  rewrite Hb in Hk. apply Hk.
Qed.

(** C33: [SimpleVSA.Compress] is correct on both of its paths (the open-addressed
    table for at most 64 batches, the Go map, iterated in any order, above): it
    always returns; the output has at most one batch per cell, none of them zero;
    the net delta of every cell is that of the input, modulo [2^64]; and a batch
    carries the highest sequence number of its cell. *)
Theorem compress_merges order bs :
  ranges order bs ->
  exists out, Compress order bs = Some out /\
    NoDup (batch_cell <$> out) /\ Forall nonzero out /\
    (forall c, deltas_at c (batch_delta <$> out) ≡ₘ deltas_at c (batch_delta <$> bs)) /\
    forall b, b ∈ out ->
      (forall b', b' ∈ bs -> batch_cell b' = batch_cell b -> b_SeqEnd b' <= b_SeqEnd b) /\
      exists b', b' ∈ bs /\ batch_cell b' = batch_cell b /\ b_SeqEnd b' = b_SeqEnd b.
Proof.
  intros Ho. destruct (Compress_ok order bs Ho) as (out & He & Hp).
  exists out. split; [done|]. split; [rewrite Hp; apply compressed_cells_NoDup|].
  split; [rewrite Hp; unfold compressed; apply list.Forall_forall; intros b Hb;
          by apply list_elem_of_filter in Hb as [? _]|].
  split.
  - intros c. rewrite <- (compressed_deltas c bs).
    rewrite (deltas_at_perm c (batch_delta <$> out) (batch_delta <$> compressed bs)); [done|]. by rewrite Hp.
  - intros b Hb. rewrite Hp in Hb. unfold compressed in Hb. apply list_elem_of_filter in Hb as [_ Hb].
    apply list_elem_of_fmap in Hb as ([k b0] & -> & Hb). apply elem_of_map_to_list in Hb. cbn.
    pose proof (merge_map_ok bs k) as Hk. rewrite Hb in Hk. destruct Hk as (<- & _ & _ & Hmax & Hex).
    split; [done|exact Hex].
Qed.

Definition demo_batches : list SBatch :=
  [mkSBatch 1 2 5 7; mkSBatch 3 4 1 1; mkSBatch 1 2 (-2) 3; mkSBatch 3 4 (-1) 9].

Lemma compress_merges_witness :
  ranges [(1, 2); (3, 4)] demo_batches /\
  exists out, Compress [(1, 2); (3, 4)] demo_batches = Some out /\ Forall nonzero out.
Proof.
  assert (Hr : ranges [(1, 2); (3, 4)] demo_batches).
  { unfold ranges. apply (bool_decide_unpack _). vm_compute. exact I. }
  split; [exact Hr|]. destruct (compress_merges [(1, 2); (3, 4)] demo_batches Hr) as (out & He & _ & Hn & _).
  exists out. split; [exact He|exact Hn].
Defined.
