(* ===== verification/TfdPipeline.v ===== *)
(** * The vector lane, the service and the pipeline ([vactors.go], [sservice.go],
    [pipeline.go])

    The service's goroutine is the list of events its [select] receives, with the
    senders' events between them; [None] is a panic or a call that never
    returns.  The clock only feeds the shards' flush hint, so an event reads it
    once. *)
From S2P Require Import Prelude Effects OpenAddr TfdTypes TfdShard TfdState.

(** ** [vactors.go] *)
Record VActor := mkVActor { a_keyID : Z; a_prev : list Z; a_queue : list Envelope }.
Definition newVActor (keyID : Z) : VActor := mkVActor keyID no_hash [].

Definition set_HashPrev (h : list Z) (env : Envelope) : Envelope :=
  mkEnvelope (e_Channel env) (e_Footprint env) (e_Delta env) (e_SeqEnd env) h.

Definition Enqueue (env : Envelope) (a : VActor) : VActor :=
  if negb (bool_decide (e_Channel env = ChannelVector)) then a
  else
    let prev := Hash128 [a_keyID a; e_SeqEnd env] in
    mkVActor (a_keyID a) prev (a_queue a ++ [set_HashPrev prev env]).

Definition Drain (a : VActor) : VActor * list Envelope :=
  (mkVActor (a_keyID a) (a_prev a) [], a_queue a).

Definition NewVRouter : gmap Z VActor := ∅.
(** The router with the key's actor in it, and that actor. *)
Definition Route (keyID : Z) (r : gmap Z VActor) : gmap Z VActor * VActor :=
  match r !! keyID with
  | Some act => (r, act)
  | None => (<[keyID := newVActor keyID]> r, newVActor keyID)
  end.

(** ** [sservice.go] *)
Record SService := mkSService {
  acc : SAccumulator;
  vsa : option (list SBatch -> option (list SBatch));
  sunk : list (list SBatch);  (* what the sink has received *)
  ingress : list Envelope;    (* the channel's buffer *)
  buffer : Z;
  stopped : bool
}.

Definition NewSService (a : SAccumulator) (v : option (list SBatch -> option (list SBatch)))
    (opt_Buffer : Z) : SService :=
  mkSService a v [] [] (if opt_Buffer <=? 0 then 4096 else opt_Buffer) false.

Definition set_acc (a : SAccumulator) (s : SService) : SService :=
  mkSService a (vsa s) (sunk s) (ingress s) (buffer s) (stopped s).
Definition set_ingress (q : list Envelope) (s : SService) : SService :=
  mkSService (acc s) (vsa s) (sunk s) q (buffer s) (stopped s).
Definition OnSBatches (b : list SBatch) (s : SService) : SService :=
  mkSService (acc s) (vsa s) (sunk s ++ [b]) (ingress s) (buffer s) (stopped s).

(** The closure [flush] of [run]. *)
Definition flush (s : SService) : option SService :=
  let '(a, b) := FlushAll (acc s) in
  let s := set_acc a s in
  match b with
  | [] => Some s
  | _ =>
      b' ← (match vsa s with Some compress => compress b | None => Some b end);
      match b' with [] => Some s | _ => Some (OnSBatches b' s) end
  end.

(** [case env := <-s.in] *)
Definition receive (now : Z) (s : SService) : option SService :=
  match ingress s with
  | [] => Some s
  | env :: q =>
      if bool_decide (e_Channel env = ChannelScalar)
      then a ← acc_Ingest now env (acc s); Some (set_acc a (set_ingress q s))
      else Some (set_ingress q s)
  end.

(** A case of the loop's [select]; after the loop has ended there is none. *)
Definition in_loop (f : SService -> option SService) (s : SService) : option SService :=
  if stopped s then Some s else f s.

(** The drain loops: until the buffer is empty. *)
Fixpoint drain_n (n : nat) (now : Z) (s : SService) : option SService :=
  match n with
  | O => Some s
  | S n => s' ← receive now s; drain_n n now s'
  end.
Definition drain (now : Z) (s : SService) : option SService := drain_n (length (ingress s)) now s.

Definition TryIngest (env : Envelope) (s : SService) : SService * bool :=
  if negb (bool_decide (e_Channel env = ChannelScalar)) then (s, true)
  else if Z.of_nat (length (ingress s)) <? buffer s then (set_ingress (ingress s ++ [env]) s, true)
  else (s, false).

(** A full buffer makes the sender wait until the loop has received; once the
    loop is gone it waits for ever. *)
Definition svc_Ingest (now : Z) (env : Envelope) (s : SService) : option SService :=
  if negb (bool_decide (e_Channel env = ChannelScalar)) then Some s
  else if Z.of_nat (length (ingress s)) <? buffer s then Some (set_ingress (ingress s ++ [env]) s)
  else if stopped s then None
  else s' ← receive now s; Some (set_ingress (ingress s' ++ [env]) s').

(** [Flush]: the loop drains, flushes and answers; with no loop no answer comes. *)
Definition svc_Flush (now : Z) (s : SService) : option SService :=
  if stopped s then None else s' ← drain now s; flush s'.

(** [Stop]: the loop drains, flushes and ends; a second [Stop] closes a closed
    channel. *)
Definition svc_Stop (now : Z) (s : SService) : option SService :=
  if stopped s then None
  else
    s' ← drain now s;
    s' ← flush s';
    Some (mkSService (acc s') (vsa s') (sunk s') (ingress s') (buffer s') true).

(** ** [pipeline.go] *)
Record Pipeline := mkPipeline {
  svc : SService;
  router : gmap Z VActor;
  persisted : list Envelope   (* what the caller's [persistV] has received *)
}.

Definition NewPipeline (shards orderPow2 countThresh timeCap buf now : Z)
    (v : option (list SBatch -> option (list SBatch))) : Pipeline :=
  mkPipeline (NewSService (NewSAccumulator shards orderPow2 countThresh timeCap now) v buf) NewVRouter [].

(** [persistV] says whether the caller passes a callback or [nil]. *)
Definition Handle (now : Z) (env : Envelope) (persistV : bool) (p : Pipeline) : option Pipeline :=
  if bool_decide (e_Channel env = ChannelScalar) then
    let '(s, ok) := TryIngest env (svc p) in
    s' ← (if ok then Some s else svc_Ingest now env s);
    Some (mkPipeline s' (router p) (persisted p))
  else
    let k := f_KeyID (e_Footprint env) in
    let '(r, act) := Route k (router p) in
    Some (mkPipeline (svc p) (<[k := Enqueue env act]> r) 
      (if persistV then persisted p ++ [env] else persisted p)).

Definition DrainV (keyID : Z) (p : Pipeline) : Pipeline * list Envelope :=
  let '(r, act) := Route keyID (router p) in
  let '(act', out) := Drain act in
  (mkPipeline (svc p) (<[keyID := act']> r) (persisted p), out).

(** Every envelope is handled with a callback. *)
Inductive PEvent :=
| PHandle (now : Z) (env : Envelope)
| PReceive (now : Z)
| PTick
| PFlushS (now : Z)
| PStop (now : Z).

Definition on_svc (f : SService -> option SService) (p : Pipeline) : option Pipeline :=
  s ← f (svc p); Some (mkPipeline s (router p) (persisted p)).

Definition pstep (e : PEvent) (p : Pipeline) : option Pipeline :=
  match e with
  | PHandle now env => Handle now env true p
  | PReceive now => on_svc (in_loop (receive now)) p
  | PTick => on_svc (in_loop flush) p
  | PFlushS now => on_svc (svc_Flush now) p
  | PStop now => on_svc (svc_Stop now) p
  end.

Fixpoint prun (es : list PEvent) (p : Pipeline) : option Pipeline :=
  match es with
  | [] => Some p
  | e :: es => p' ← pstep e p; prun es p'
  end.
