(* ===== verification/TfdPipelineSpec.v ===== *)
(** * The pipeline reconstructs the sequential state

    Batching, compression and the split in two lanes do not change the state, as long
    as the packed ids tell the cells apart and the cells fit one table ([fits]): what the sink and [persistV] have received, applied in any of the orders the
    code allows, is the state of applying every envelope in arrival order. *)
From stdpp Require Import sorting.
From S2P Require Import Prelude Effects OpenAddr TfdTypes TfdShard TfdShardSpec TfdState TfdStateSpec TfdPipeline.

(** ** Coalescing an envelope stream *)
Definition env_batch (e : Envelope) : SBatch :=
  mkSBatch (f_KeyID (e_Footprint e)) (t_BucketID (f_Time (e_Footprint e))) (e_Delta e) (e_SeqEnd e).
Definition env_ok (e : Envelope) : Prop := in64 (e_Delta e) /\ inu64 (e_SeqEnd e).
#[export] Instance env_ok_dec e : Decision (env_ok e).
Proof. unfold env_ok. apply _. Defined.

Lemma coalesce_merge envs :
  Forall env_ok envs ->
  coalesce envs = (fun b => (b_NetDelta b, b_SeqEnd b)) <$> merge_map (env_batch <$> envs).
Proof.
  intros Hok. rewrite merge_map_eq. unfold coalesce.
  induction envs as [|e envs IH] using rev_ind; [cbn; symmetry; apply fmap_empty|].
  apply list.Forall_app in Hok as [Hok He]. inversion_clear He as [|?? [Hd Hq] _].
  rewrite fmap_app, !foldl_app. cbn [fmap list_fmap foldl]. rewrite (IH Hok).
  generalize (foldl merge_into ∅ (env_batch <$> envs)). intros m. unfold add_env, merge_into. rewrite fmap_insert. f_equal. unfold merge_cell.
  change (batch_cell (env_batch e)) with (env_cell e). rewrite lookup_fmap.
  destruct (m !! env_cell e) as [b|]; cbn; [done|].
  unfold inu64 in Hq. f_equal; [unfold add64; by apply wrap64_id|]. rewrite Z.gtb_ltb. case_Z; lia.
Qed.

Fixpoint acc_ingest_all (envs : list (Z * Envelope)) (a : SAccumulator) : option SAccumulator :=
  match envs with
  | [] => Some a
  | (now, env) :: envs => a' ← acc_Ingest now env a; acc_ingest_all envs a'
  end.

(** Cells in play that fit one table. *)
Record fits (o : nat) (D : gset (Z * Z)) : Prop := {
  fits_pack : packable D;
  fits_size : Z.of_nat (size D) <= 2 ^ Z.of_nat o
}.

(** A cell of [D] is in the map, or the map has room for it. *)
Lemma cells_room o D a N c :
  fits o D -> acc_rep o D a N -> c ∈ D -> is_Some (N !! c) \/ Z.of_nat (size N) < 2 ^ Z.of_nat o.
Proof.
  intros [_ Hsize] [Hpos Ha] Hc. destruct (N !! c) as [vq|] eqn:HN; [left; by eexists|right].
  assert (Hsub : dom N ⊆ D).
  { intros c' [[v q] Hv]%elem_of_dom. assert (Hlt := shard_of_lt (length a) c' Hpos).
    destruct (lookup_lt_is_Some_2 a _ Hlt) as [s Hs]. specialize (Ha _ _ Hs).
    destruct (sr_table _ _ _ _ Ha) as (M & _ & _ & _ & Hmap).
    apply (Hmap c' v q). by apply map_lookup_filter_Some_2. }
  assert (Hstrict : dom N ⊂ D).
  { split; [done|]. intros Hsup. specialize (Hsup c Hc). apply elem_of_dom in Hsup. rewrite HN in Hsup.
    by apply is_Some_None in Hsup. }
  apply subset_size in Hstrict. rewrite size_dom in Hstrict. lia.
Qed.

Lemma acc_new_rep o D p cnt cap now :
  0 < p -> acc_rep o D (replicate (Z.to_nat p) (newSShard o cnt cap now)) ∅.
Proof.
  intros Hp. split; [rewrite length_replicate; lia|]. intros i s Hi.
  apply lookup_replicate in Hi as [-> _]. unfold part. rewrite map_filter_empty. apply newSShard_rep.
Qed.

Lemma NewSAccumulator_rep D p ord cnt cap now :
  acc_rep (Z.to_nat (if ord <=? 0 then 8 else ord)) D (NewSAccumulator p ord cnt cap now) ∅.
Proof. unfold NewSAccumulator. apply acc_new_rep. case_Z; lia. Qed.

Lemma acc_ingest_all_ok o D envs a N :
  fits o D -> acc_rep o D a N ->
  Forall (fun te => e_Channel te.2 = ChannelScalar /\ env_cell te.2 ∈ D) envs ->
  exists a', acc_ingest_all envs a = Some a' /\ acc_rep o D a' (foldl add_env N envs.*2).
Proof.
  intros Hf Ha Hall. revert a N Ha. induction Hall as [|[now env] envs [Hch Hin] Hall IH];
    intros a N Ha; [by exists a|]. cbn [acc_ingest_all fmap list_fmap foldl fst snd] in *.
  destruct (acc_ingest_ok o D (fits_pack _ _ Hf) now env a N Ha Hch Hin) as (a1 & He & Ha1 & _);
    [by eapply cells_room|]. rewrite He. simpl. by apply IH.
Qed.

(** C24: the sharded accumulator coalesces exactly.  As long as the packed ids of
    the cells are distinct and non-zero and the cells fit one table, ingesting any
    stream of scalar envelopes returns, whatever the number of shards, the flush
    thresholds and the clock, and flushing gives one batch per cell touched, with
    the cell's net delta (wrapped) and its highest sequence number: the merge of
    the stream.  The accumulator is then empty. *)
Theorem accumulator_coalesces p ord cnt cap t0 D (envs : list (Z * Envelope)) :
  let o := Z.to_nat (if ord <=? 0 then 8 else ord) in
  fits o D -> Forall env_ok envs.*2 ->
  Forall (fun te => e_Channel te.2 = ChannelScalar /\ env_cell te.2 ∈ D) envs ->
  exists a, acc_ingest_all envs (NewSAccumulator p ord cnt cap t0) = Some a /\
    (FlushAll a).2 ≡ₚ (map_to_list (merge_map (env_batch <$> envs.*2))).*2 /\
    (FlushAll (FlushAll a).1).2 = [].
Proof.
  intros o Hf Hok Hall.
  destruct (acc_ingest_all_ok o D envs _ ∅ Hf (NewSAccumulator_rep D p ord cnt cap t0) Hall) as (a & He & Ha).
  destruct (FlushAll_ok o D (fits_pack _ _ Hf) a _ Ha) as (Ha' & _ & Hout).
  destruct (FlushAll_ok o D (fits_pack _ _ Hf) _ _ Ha') as (_ & _ & Hout').
  exists a. split; [done|]. split.
  - rewrite Hout. fold (coalesce envs.*2). rewrite (coalesce_merge _ Hok). unfold batches_of.
    rewrite map_to_list_fmap, <- list_fmap_compose.
    assert (Heq : (fun cvq => mkSBatch cvq.1.1 cvq.1.2 cvq.2.1 cvq.2.2) ∘
        prod_map id (fun b => (b_NetDelta b, b_SeqEnd b)) <$> map_to_list (merge_map (env_batch <$> envs.*2)) =
      (map_to_list (merge_map (env_batch <$> envs.*2))).*2); [|by rewrite Heq].
    apply list_fmap_ext. intros i [k b] Hi. cbn. pose proof (merge_map_ok (env_batch <$> envs.*2) k) as Hk.
    assert (Hb : merge_map (env_batch <$> envs.*2) !! k = Some b)
      by (apply elem_of_map_to_list; by eapply list_elem_of_lookup_2).
    rewrite Hb in Hk. destruct Hk as [<- _]. by destruct b.
  - unfold batches_of in Hout'. rewrite map_to_list_empty in Hout'. by apply Permutation_nil.
Qed.

(** ** The service *)

(** What the service asks of a [VSATransformer]: it returns, and keeps the net
    delta of every cell. *)
Definition transformer_ok (v : option (list SBatch -> option (list SBatch))) : Prop :=
  forall f bs, v = Some f -> exists out, f bs = Some out /\
    forall c, deltas_at c (batch_delta <$> out) ≡ₘ deltas_at c (batch_delta <$> bs).

Definition acc_value (N : gmap (Z * Z) (Z * Z)) (c : Z * Z) : Z := default 0 (fst <$> N !! c).

Lemma acc_value_add N env c :
  acc_value (add_env N env) c ≡ₘ acc_value N c + deltas_at c [env_delta env].
Proof.
  unfold acc_value, add_env. rewrite deltas_at_cons, deltas_at_notin by apply not_elem_of_nil.
  cbn [env_delta fst snd]. case_decide as Hc.
  - rewrite Hc, lookup_insert_eq. unfold merge_cell. destruct (N !! c) as [[v q]|]; cbn;
      rewrite add64_eqm; by rewrite Z.add_0_r.
  - rewrite lookup_insert_ne by done. by rewrite Z.add_0_r.
Qed.

Lemma batches_of_deltas N c :
  deltas_at c (batch_delta <$> batches_of N) = acc_value N c.
Proof.
  unfold batches_of, acc_value. rewrite <- list_fmap_compose.
  etrans; [|apply (deltas_at_map (fun vq : Z * Z => vq.1) N c)].
  f_equal. apply list_fmap_ext. by intros i [[a b] [v q]] _.
Qed.

Section service.
Context (o : nat) (D : gset (Z * Z)) (HD : fits o D).

(** The units of each cell: received by the sink, in the accumulator, in the
    channel. *)
Record svc_inv (s : SService) (N : gmap (Z * Z) (Z * Z)) : Prop := {
  si_acc : acc_rep o D (acc s) N;
  si_vsa : transformer_ok (vsa s);
  si_in : Forall (fun env => e_Channel env = ChannelScalar /\ env_cell env ∈ D) (ingress s);
  si_buffer : 0 < buffer s
}.

Definition svc_total (s : SService) (N : gmap (Z * Z) (Z * Z)) (c : Z * Z) : Z :=
  deltas_at c (batch_delta <$> concat (sunk s)) + acc_value N c + deltas_at c (env_delta <$> ingress s).

Lemma receive_ok now s N :
  svc_inv s N ->
  exists s' N', receive now s = Some s' /\ svc_inv s' N' /\
    ingress s' = tail (ingress s) /\ stopped s' = stopped s /\ buffer s' = buffer s /\ sunk s' = sunk s /\
    forall c, svc_total s' N' c ≡ₘ svc_total s N c.
Proof.
  intros Hs. pose proof Hs as [Ha Hv Hin Hb]. unfold receive. destruct (ingress s) as [|env q] eqn:Hq.
  { exists s, N. by split_and!. }
  inversion_clear Hin as [|?? [Hch Hcell] Hrest]. rewrite bool_decide_true by done.
  destruct (acc_ingest_ok o D (fits_pack _ _ HD) now env (acc s) N Ha Hch Hcell) as (a & He & Ha' & _);
    [by eapply cells_room|]. rewrite He. simpl.
  eexists _, (add_env N env). split; [done|]. split; [by split|]. split_and!; [done..|].
  intros c. unfold svc_total. cbn [sunk set_acc set_ingress ingress]. rewrite Hq, acc_value_add.
  cbn [fmap list_fmap]. rewrite !(deltas_at_cons c (env_delta env)).
  rewrite (deltas_at_notin c []) by apply not_elem_of_nil.
  eqm_lia.
Qed.

Lemma drain_ok now s N :
  svc_inv s N ->
  exists s' N', drain now s = Some s' /\ svc_inv s' N' /\
    ingress s' = [] /\ stopped s' = stopped s /\
    forall c, svc_total s' N' c ≡ₘ svc_total s N c.
Proof.
  unfold drain. intros Hs. remember (length (ingress s)) as n eqn:Hn. revert s N Hs Hn.
  induction n as [|n IH]; intros s N Hs Hn.
  - exists s, N. split_and!; try done. by destruct (ingress s).
  - cbn [drain_n]. destruct (receive_ok now s N Hs) as (s1 & N1 & He & Hs1 & Hq & Hst & _ & _ & Htot).
    rewrite He. simpl. destruct (IH s1 N1 Hs1) as (s2 & N2 & He2 & Hs2 & Hq2 & Hst2 & Htot2).
    + rewrite Hq. by destruct (ingress s); [|cbn in *; lia].
    + exists s2, N2. split_and!; [done..|congruence|]. intros c. by rewrite Htot2, Htot.
Qed.

Lemma flush_svc_ok s N :
  svc_inv s N ->
  exists s', flush s = Some s' /\ svc_inv s' ∅ /\
    ingress s' = ingress s /\ stopped s' = stopped s /\
    forall c, svc_total s' ∅ c ≡ₘ svc_total s N c.
Proof.
  intros [Ha Hv Hin Hb]. unfold flush.
  destruct (FlushAll_ok o D (fits_pack _ _ HD) (acc s) N Ha) as (Ha' & _ & Hout).
  destruct (FlushAll (acc s)) as [a b]. cbn [fst snd] in *.
  assert (Hval : forall c, acc_value N c = deltas_at c (batch_delta <$> b)).
  { intros c. rewrite <- batches_of_deltas. symmetry. apply deltas_at_perm. by rewrite Hout. }
  assert (Hz : forall c, acc_value ∅ c = 0) by (intros c; unfold acc_value; by rewrite lookup_empty).
  assert (Hquiet : b = [] -> exists s', Some (set_acc a s) = Some s' /\ svc_inv s' ∅ /\
    ingress s' = ingress s /\ stopped s' = stopped s /\ forall c, svc_total s' ∅ c ≡ₘ svc_total s N c).
  { intros ->. eexists. split; [done|]. split; [by split|]. split_and!; [done..|].
    intros c. unfold svc_total. cbn. rewrite Hz, Hval. done. }
  assert (Hsend : forall b', (forall c, deltas_at c (batch_delta <$> b') ≡ₘ deltas_at c (batch_delta <$> b)) ->
    exists s', (match b' with [] => Some (set_acc a s) | _ => Some (OnSBatches b' (set_acc a s)) end) = Some s' /\
      svc_inv s' ∅ /\ ingress s' = ingress s /\ stopped s' = stopped s /\
      forall c, svc_total s' ∅ c ≡ₘ svc_total s N c).
  { intros b' Hb'. destruct b' as [|x b0] eqn:Hbb.
    - eexists. split; [done|]. split; [by split|]. split_and!; [done..|]. intros c. unfold svc_total.
      cbn [sunk set_acc ingress]. rewrite Hz, Hval, <- Hb'. done.
    - eexists. split; [done|]. split; [by split|]. split_and!; [done..|]. intros c. unfold svc_total.
      cbn [sunk set_acc OnSBatches ingress]. rewrite Hz, Hval, concat_app, fmap_app, deltas_at_app.
      cbn [concat]. rewrite app_nil_r, Hb'.
      eqm_lia. }
  destruct b as [|x b0] eqn:Hbb; [by apply Hquiet|]. rewrite <- Hbb in *. clear Hquiet.
  cbn [vsa set_acc]. destruct (vsa s) as [f|] eqn:Hf; simpl.
  - destruct (Hv f b eq_refl) as (out & Hfo & Hd). rewrite Hfo. simpl. by apply Hsend.
  - by apply Hsend.
Qed.
End service.

(** ** The pipeline *)
Definition handled (es : list PEvent) : list Envelope :=
  omap (fun e => match e with PHandle _ env => Some env | _ => None end) es.

Definition is_vector (env : Envelope) : Prop := e_Channel env = ChannelVector.
#[export] Instance is_vector_dec env : Decision (is_vector env).
Proof. unfold is_vector. apply _. Defined.

(** Events of a running pipeline whose scalar cells are in [D]. *)
Definition pevent_ok (D : gset (Z * Z)) (e : PEvent) : Prop :=
  match e with
  | PHandle _ env => e_Channel env = ChannelScalar -> env_cell env ∈ D
  | PStop _ => False
  | _ => True
  end.
#[export] Instance pevent_ok_dec D e : Decision (pevent_ok D e).
Proof. destruct e; cbn; apply _. Defined.

(** The V-envelopes of a key, each with the hash [Enqueue] gives it. *)
Definition queue_of (k : Z) (envs : list Envelope) : list Envelope :=
  (fun env => set_HashPrev (Hash128 [k; e_SeqEnd env]) env) <$>
  filter (fun env => is_vector env /\ f_KeyID (e_Footprint env) = k) envs.

Section pipeline.
Context (o : nat) (D : gset (Z * Z)) (HD : fits o D).

Record pinv (envs : list Envelope) (p : Pipeline) (N : gmap (Z * Z) (Z * Z)) : Prop := {
  pi_svc : svc_inv o D (svc p) N;
  pi_total : forall c,
    svc_total (svc p) N c + deltas_at c (env_delta <$> persisted p) ≡ₘ deltas_at c (env_delta <$> envs);
  pi_persisted : persisted p = filter is_vector envs;
  pi_queues : forall k, a_keyID (Route k (router p)).2 = k /\
    a_queue (Route k (router p)).2 = queue_of k envs
}.

(** A change of the service that keeps its total keeps the pipeline's. *)
Lemma pinv_svc envs p N s' N' :
  pinv envs p N -> svc_inv o D s' N' -> (forall c, svc_total s' N' c ≡ₘ svc_total (svc p) N c) ->
  pinv envs (mkPipeline s' (router p) (persisted p)) N'.
Proof.
  intros [Hs Ht Hp Hq] Hs' Htot. split; cbn; [done| |done|done]. intros c. by rewrite Htot, Ht.
Qed.

Lemma Route_insert k k' act r :
  (Route k (<[k' := act]> r)).2 = if decide (k' = k) then act else (Route k r).2.
Proof.
  unfold Route. case_decide as Hk; [subst; by rewrite lookup_insert_eq|rewrite lookup_insert_ne by done].
  by destruct (r !! k).
Qed.

Lemma Route_router k r k' : (Route k' (Route k r).1).2 = (Route k' r).2.
Proof.
  unfold Route at 2. destruct (r !! k) as [act|] eqn:Hk; [done|]. cbn [fst]. rewrite Route_insert.
  case_decide; [subst|done]. unfold Route. by rewrite Hk.
Qed.

Lemma queue_of_app k envs env :
  queue_of k (envs ++ [env]) =
  queue_of k envs ++ (if decide (is_vector env /\ f_KeyID (e_Footprint env) = k)
                      then [set_HashPrev (Hash128 [k; e_SeqEnd env]) env] else []).
Proof.
  unfold queue_of. rewrite list.filter_app, fmap_app. f_equal. rewrite list.filter_cons.
  by destruct (decide _).
Qed.

Lemma deltas_snoc c (l : list Envelope) env :
  deltas_at c (env_delta <$> l ++ [env]) = deltas_at c (env_delta <$> l) + deltas_at c [env_delta env].
Proof. by rewrite fmap_app, deltas_at_app. Qed.

Lemma scalar_ok envs p N now env :
  pinv envs p N -> stopped (svc p) = false -> e_Channel env = ChannelScalar -> env_cell env ∈ D ->
  exists s' N', (let '(s, ok) := TryIngest env (svc p) in
                 if (ok : bool) then Some s else svc_Ingest now env s) = Some s' /\
    svc_inv o D s' N' /\ stopped s' = false /\
    forall c, svc_total s' N' c ≡ₘ svc_total (svc p) N c + deltas_at c [env_delta env].
Proof.
  intros [Hs _ _ _] Hst Hch Hcell. unfold TryIngest, svc_Ingest. rewrite bool_decide_true by done. cbn [negb].
  assert (Hpush : forall s N0, svc_inv o D s N0 -> svc_inv o D (set_ingress (ingress s ++ [env]) s) N0 /\
    forall c, svc_total (set_ingress (ingress s ++ [env]) s) N0 c = svc_total s N0 c + deltas_at c [env_delta env]).
  { intros s N0 [Ha Hv Hin Hb]. split.
    - split; [done|done| |done]. cbn. apply list.Forall_app. split; [done|]. by constructor.
    - intros c. unfold svc_total. cbn. rewrite deltas_snoc. lia. }
  destruct (Z.ltb_spec (Z.of_nat (length (ingress (svc p)))) (buffer (svc p))) as [Hlt|Hge].
  - destruct (Hpush _ _ Hs) as [H1 H2]. eexists _, N. split_and!; [done..|]. intros c. by rewrite H2.
  - rewrite (proj2 (Z.ltb_ge _ _)) by done. rewrite Hst.
    destruct (receive_ok o D HD now (svc p) N Hs) as (s1 & N1 & He & Hs1 & _ & Hst1 & _ & _ & Htot).
    rewrite He. simpl. destruct (Hpush _ _ Hs1) as [H1 H2]. eexists _, N1. split_and!; [done..| |].
    + cbn. congruence.
    + intros c. by rewrite H2, Htot.
Qed.

Lemma handle_ok envs p N now env :
  pinv envs p N -> stopped (svc p) = false -> (e_Channel env = ChannelScalar -> env_cell env ∈ D) ->
  exists p' N', Handle now env true p = Some p' /\ pinv (envs ++ [env]) p' N' /\ stopped (svc p') = false.
Proof.
  intros Hp Hst Hcell. unfold Handle. destruct (e_Channel env) eqn:Hch.
  - rewrite bool_decide_true by done.
    destruct (scalar_ok envs p N now env Hp Hst Hch (Hcell eq_refl)) as (s' & N' & He & Hs' & Hst' & Htot).
    destruct (TryIngest env (svc p)) as [s ok]. rewrite He. simpl.
    eexists _, N'. split; [done|]. split; [|done]. destruct Hp as [Hs Ht Hp Hq]. split; cbn; [done|..].
    + intros c. rewrite deltas_snoc, Htot, <- Ht.
      eqm_lia.
    + rewrite list.filter_app, Hp, list.filter_cons, decide_False by (unfold is_vector; congruence).
      by rewrite app_nil_r.
    + intros k. destruct (Hq k) as [Hk Hqk]. split; [done|].
      rewrite queue_of_app, decide_False by (unfold is_vector; intros [? _]; congruence). by rewrite app_nil_r.
  - rewrite bool_decide_false by done. destruct Hp as [Hs Ht Hp Hq].
    destruct (Route (f_KeyID (e_Footprint env)) (router p)) as [r act] eqn:Hr.
    eexists _, N. split; [done|]. split; [|done]. split; cbn; [done|..].
    + intros c. rewrite !deltas_snoc, <- Ht.
      eqm_lia.
    + rewrite list.filter_app, Hp, list.filter_cons, decide_True by done. done.
    + intros k. rewrite Route_insert, queue_of_app.
      pose proof (Route_router (f_KeyID (e_Footprint env)) (router p) k) as Hrr. rewrite Hr in Hrr. cbn in Hrr.
      destruct (decide (f_KeyID (e_Footprint env) = k)) as [<-|Hne].
      * destruct (Hq (f_KeyID (e_Footprint env))) as [Hk Hqk]. rewrite Hr in Hk, Hqk. cbn in Hk, Hqk.
        rewrite decide_True by done. unfold Enqueue. rewrite bool_decide_true by done. cbn.
        by rewrite Hk, Hqk.
      * rewrite decide_False by tauto. rewrite app_nil_r, Hrr. apply Hq.
Qed.

Lemma pstep_ok envs p N e :
  pinv envs p N -> stopped (svc p) = false -> pevent_ok D e ->
  exists p' N', pstep e p = Some p' /\ pinv (envs ++ handled [e]) p' N' /\ stopped (svc p') = false.
Proof.
  intros Hp Hst Hok. destruct e as [now env|now| |now|now]; cbn in Hok; [by eapply handle_ok|..|done];
    cbn [pstep handled omap list_omap]; rewrite app_nil_r; unfold on_svc, in_loop, svc_Flush; rewrite Hst.
  - destruct (receive_ok o D HD now _ N (pi_svc _ _ _ Hp)) as (s & N' & He & Hs & _ & Hst' & _ & _ & Ht).
    rewrite He. simpl. eexists _, N'. split; [done|]. split; [by eapply pinv_svc|cbn; congruence].
  - destruct (flush_svc_ok o D HD _ N (pi_svc _ _ _ Hp)) as (s & He & Hs & _ & Hst' & Ht).
    rewrite He. simpl. eexists _, ∅. split; [done|]. split; [by eapply pinv_svc|cbn; congruence].
  - destruct (drain_ok o D HD now _ N (pi_svc _ _ _ Hp)) as (s1 & N1 & He1 & Hs1 & _ & Hst1 & Ht1).
    destruct (flush_svc_ok o D HD s1 N1 Hs1) as (s & He & Hs & _ & Hst' & Ht).
    rewrite He1. simpl. rewrite He. simpl. eexists _, ∅. split; [done|]. split; [|cbn; congruence].
    eapply pinv_svc; [done..|]. intros c. by rewrite Ht, Ht1.
Qed.

Lemma prun_ok es envs p N :
  pinv envs p N -> stopped (svc p) = false -> Forall (pevent_ok D) es ->
  exists p' N', prun es p = Some p' /\ pinv (envs ++ handled es) p' N' /\ stopped (svc p') = false.
Proof.
  intros Hp Hst Hes. revert envs p N Hp Hst. induction Hes as [|e es He Hes IH]; intros envs p N Hp Hst.
  - exists p, N. cbn [handled omap list_omap]. by rewrite app_nil_r.
  - destruct (pstep_ok envs p N e Hp Hst He) as (p1 & N1 & Hr & Hp1 & Hst1). cbn [prun]. rewrite Hr. simpl.
    destruct (IH _ p1 N1 Hp1 Hst1) as (p2 & N2 & Hr2 & Hp2 & Hst2). exists p2, N2.
    rewrite <- app_assoc in Hp2. split_and!; [done| |done].
    unfold handled in *. by rewrite <- omap_app in Hp2.
Qed.

Lemma pstop_ok envs p N now :
  pinv envs p N -> stopped (svc p) = false ->
  exists p', pstep (PStop now) p = Some p' /\ pinv envs p' ∅ /\ ingress (svc p') = [].
Proof.
  intros Hp Hst. cbn [pstep]. unfold on_svc, svc_Stop. rewrite Hst.
  destruct (drain_ok o D HD now _ N (pi_svc _ _ _ Hp)) as (s1 & N1 & He1 & Hs1 & Hq1 & Hst1 & Ht1).
  destruct (flush_svc_ok o D HD s1 N1 Hs1) as (s & He & Hs & Hq & Hst' & Ht).
  rewrite He1. simpl. rewrite He. simpl. eexists. split; [done|]. split; [|cbn; congruence].
  eapply pinv_svc; [done| |].
  - destruct Hs. by split.
  - intros c. change (svc_total _ ∅ c) with (svc_total s ∅ c). by rewrite Ht, Ht1.
Qed.
End pipeline.

Lemma prun_app es1 es2 p : prun (es1 ++ es2) p = p' ← prun es1 p; prun es2 p'.
Proof.
  revert p. induction es1 as [|e es1 IH]; intros p; [done|]. cbn. destruct (pstep e p); [apply IH|done].
Qed.

Definition table_order (orderPow2 : Z) : nat := Z.to_nat (if orderPow2 <=? 0 then 8 else orderPow2).

Lemma NewPipeline_inv D shards ord cnt cap buf now v :
  transformer_ok v ->
  pinv (table_order ord) D [] (NewPipeline shards ord cnt cap buf now v) ∅ /\
  stopped (svc (NewPipeline shards ord cnt cap buf now v)) = false.
Proof.
  intros Hv. split; [|done]. split; cbn.
  - split; cbn; [apply NewSAccumulator_rep|done|constructor|case_Z; lia].
  - intros c. unfold svc_total, acc_value. cbn. by rewrite lookup_empty.
  - done.
  - intros k. unfold Route, NewVRouter. by rewrite lookup_empty.
Qed.

(** Events of a pipeline that is then stopped. *)
Lemma pipeline_run D shards ord cnt cap buf t0 v es tend :
  fits (table_order ord) D -> transformer_ok v -> Forall (pevent_ok D) es ->
  exists p, prun (es ++ [PStop tend]) (NewPipeline shards ord cnt cap buf t0 v) = Some p /\
    pinv (table_order ord) D (handled es) p ∅ /\ ingress (svc p) = [].
Proof.
  intros Hf Hv Hes. destruct (NewPipeline_inv D shards ord cnt cap buf t0 v Hv) as [Hp Hst].
  destruct (prun_ok _ D Hf es [] _ ∅ Hp Hst Hes) as (p1 & N1 & He1 & Hp1 & Hst1).
  destruct (pstop_ok _ D Hf _ p1 N1 tend Hp1 Hst1) as (p & He & Hp' & Hq).
  exists p. rewrite prun_app, He1. cbn [app] in *. simpl. cbn [pstep] in He. rewrite He. simpl.
  by split_and!.
Qed.

(** C12: the pipeline computes the sequential state, as long as the cells of the S lane
    have distinct non-zero packed ids and all fit one shard's table ([fits]; beyond it,
    see [TfdLimits]) and the compression keeps the sums.  Then for any number of shards,
    buffer size, flush thresholds and clock, and any order of incoming envelopes with
    the service's receives, ticks and flush requests, a stopped pipeline has handed over
    everything: the batches its sink received and the V-envelopes it persisted, put
    through [Reconstruct], give the state of [BaselineApply] on the envelopes in arrival
    order, and no event has blocked for ever or panicked on the way.  Events come one
    after the other here; [TfdService] has the threads. *)
Theorem pipeline_equals_baseline D shards ord cnt cap buf t0 v es tend :
  fits (table_order ord) D -> transformer_ok v -> Forall (pevent_ok D) es ->
  exists p, prun (es ++ [PStop tend]) (NewPipeline shards ord cnt cap buf t0 v) = Some p /\
    Reconstruct (concat (sunk (svc p))) (persisted p) NewState ≈ BaselineApply (handled es) NewState.
Proof.
  intros Hf Hv Hes. destruct (pipeline_run D shards ord cnt cap buf t0 v es tend Hf Hv Hes)
    as (p & He & Hp & Hq).
  exists p. split; [done|]. rewrite Reconstruct_all, BaselineApply_all.
  apply add_cells_eq; [apply NewState_range|]. intros c. rewrite deltas_at_app.
  rewrite (deltas_at_perm c (env_delta <$> merge_sort v_le (persisted p)) (env_delta <$> persisted p))
    by (by rewrite merge_sort_Permutation).
  rewrite <- (pi_total _ _ _ _ _ Hp c). unfold svc_total, acc_value. rewrite Hq, lookup_empty.
  change (deltas_at c (env_delta <$> [])) with 0. cbn [default fmap option_fmap option_map].
  eqm_lia.
Qed.

(** The V-lane is a FIFO per key: [DrainV] returns the V-envelopes of the key
    in arrival order, each once, and leaves the key's queue empty and the other
    keys' as they were; scalar envelopes never enter it.  The [HashPrev] an
    envelope gets depends on its own key and sequence number only, not on the
    envelopes before it. *)
Theorem vector_lane_fifo D shards ord cnt cap buf t0 v es tend k :
  fits (table_order ord) D -> transformer_ok v -> Forall (pevent_ok D) es ->
  exists p p', prun (es ++ [PStop tend]) (NewPipeline shards ord cnt cap buf t0 v) = Some p /\
    DrainV k p = (p', queue_of k (handled es)) /\ (DrainV k p').2 = [] /\
    forall k', k' <> k -> (DrainV k' p').2 = queue_of k' (handled es).
Proof.
  intros Hf Hv Hes. destruct (pipeline_run D shards ord cnt cap buf t0 v es tend Hf Hv Hes)
    as (p & He & Hp & _).
  unfold DrainV. destruct (Route k (router p)) as [r act] eqn:Hr.
  pose proof (pi_queues _ _ _ _ _ Hp) as Hq. destruct (Hq k) as [_ Hk]. rewrite Hr in Hk. cbn in Hk.
  pose proof (fun k' => Route_router k (router p) k') as Hrr. rewrite Hr in Hrr. cbn in Hrr.
  exists p, (mkPipeline (svc p) (<[k := mkVActor (a_keyID act) (a_prev act) []]> r) (persisted p)).
  split; [done|]. cbn [Drain router]. split; [by rewrite Hr; unfold Drain; rewrite Hk|].
  split.
  - pose proof (Route_insert k k (mkVActor (a_keyID act) (a_prev act) []) r) as Hi.
    rewrite decide_True in Hi by done.
    destruct (Route k (<[k := mkVActor (a_keyID act) (a_prev act) []]> r)) as [r2 act2]. cbn in Hi |- *. by subst act2.
  - intros k' Hne. pose proof (Route_insert k' k (mkVActor (a_keyID act) (a_prev act) []) r) as Hi.
    rewrite decide_False in Hi by done.
    destruct (Route k' (<[k := mkVActor (a_keyID act) (a_prev act) []]> r)) as [r2 act2]. cbn in Hi |- *.
    subst act2. rewrite Hrr. apply Hq.
Qed.

(** ** Witnesses *)
Definition demo_cells : gset (Z * Z) := {[ (7, 9); (8, 1) ]}.
Lemma demo_fits : fits (table_order 2) demo_cells.
Proof.
  assert (Hc : forall c, c ∈ demo_cells -> c = (7, 9) \/ c = (8, 1)) by (unfold demo_cells; set_solver).
  split; [split|by vm_compute].
  - intros c [->| ->]%Hc; by vm_compute.
  - intros c c' [->| ->]%Hc [->| ->]%Hc; by vm_compute.
Qed.

Definition demo_env (ch : Channel) (k b d q : Z) : Envelope :=
  mkEnvelope ch (mkFootprint k (mkTime b false) ch) d q no_hash.
Definition demo_pevents : list PEvent :=
  [PHandle 1 (demo_env ChannelScalar 7 9 5 1); PHandle 2 (demo_env ChannelVector 7 9 (-2) 2); PReceive 3;
   PHandle 4 (demo_env ChannelScalar 8 1 4 3); PFlushS 5; PHandle 6 (demo_env ChannelScalar 7 9 1 4);
   PHandle 7 (demo_env ChannelVector 7 0 9 5); PReceive 8; PTick].

(** The compressor of [vsa_integration.go], with the map's own order. *)
Definition demo_compress (bs : list SBatch) : option (list SBatch) :=
  Compress (map_to_list (merge_map bs)).*1 bs.

Lemma demo_compress_ok : transformer_ok (Some demo_compress).
Proof.
  intros f bs [= <-]. destruct (Compress_ok (map_to_list (merge_map bs)).*1 bs) as (out & He & Hp);
    [unfold ranges; done|].
  exists out. split; [done|]. intros c. rewrite <- (compressed_deltas c bs).
  rewrite (deltas_at_perm c (batch_delta <$> out) (batch_delta <$> compressed bs)); [done|]. by rewrite Hp.
Qed.

Lemma demo_pevents_ok : Forall (pevent_ok demo_cells) demo_pevents.
Proof. apply (bool_decide_unpack _). vm_compute. exact I. Qed.

Lemma accumulator_coalesces_witness :
  exists a, acc_ingest_all [(1, demo_env ChannelScalar 7 9 5 1); (2, demo_env ChannelScalar 8 1 4 2);
      (3, demo_env ChannelScalar 7 9 (-7) 3)] (NewSAccumulator 3 2 1 0 0) = Some a /\
    (FlushAll (FlushAll a).1).2 = [].
Proof.
  destruct (accumulator_coalesces 3 2 1 0 0 demo_cells
    [(1, demo_env ChannelScalar 7 9 5 1); (2, demo_env ChannelScalar 8 1 4 2);
     (3, demo_env ChannelScalar 7 9 (-7) 3)]) as (a & He & _ & Hz).
  - exact demo_fits.
  - apply (bool_decide_unpack _). vm_compute. exact I.
  - apply (bool_decide_unpack _). vm_compute. exact I.
  - exists a. split; [exact He|exact Hz].
Defined.

Lemma pipeline_equals_baseline_witness :
  exists p, prun (demo_pevents ++ [PStop 9]) (NewPipeline 3 2 1 0 1 0 (Some demo_compress)) = Some p /\
    Reconstruct (concat (sunk (svc p))) (persisted p) NewState ≈ BaselineApply (handled demo_pevents) NewState.
Proof.
  apply (pipeline_equals_baseline demo_cells 3 2 1 0 1 0 (Some demo_compress) demo_pevents 9).
  - exact demo_fits.
  - exact demo_compress_ok.
  - exact demo_pevents_ok.
Defined.

Lemma vector_lane_fifo_witness :
  exists p p', prun (demo_pevents ++ [PStop 9]) (NewPipeline 3 2 1 0 1 0 None) = Some p /\
    DrainV 7 p = (p', queue_of 7 (handled demo_pevents)).
Proof.
  destruct (vector_lane_fifo demo_cells 3 2 1 0 1 0 None demo_pevents 9 7) as (p & p' & He & Hd & _).
  - exact demo_fits.
  - intros f bs Hf. discriminate Hf.
  - exact demo_pevents_ok.
  - exists p, p'. split; [exact He|exact Hd].
Defined.
