(* ===== verification/TfdLimits.v ===== *)
(** * Outside the conditions: what the lanes do not guarantee

    [pipeline_equals_baseline] asks for packed ids that are distinct and not
    zero, and for a table that is never full.  Each theorem here shows what the
    code does without one of these, or where a promise of its comments is not
    kept. *)
From S2P Require Import Prelude Effects OpenAddr TfdTypes TfdShard TfdShardSpec TfdState TfdPipeline.

Definition s_env (k b d q : Z) : Envelope :=
  mkEnvelope ChannelScalar (mkFootprint k (mkTime b false) ChannelScalar) d q no_hash.
Definition small_shard (order : nat) : SShard := newSShard order 1 0 0.

Fixpoint shard_run (envs : list Envelope) (s : SShard) : option SShard :=
  match envs with
  | [] => Some s
  | env :: envs => s' ← Ingest 0 env s; shard_run envs s'
  end.

(** Every slot is taken, by other keys. *)
Definition full_without (s : SShard) (k : Z) : Prop :=
  Forall (fun slot => s_key slot <> 0 /\ s_key slot <> k) (slots s).

(** A probe of a full table for a key it does not hold never returns: no
    number of steps is enough, so [Ingest] of one envelope more than the table
    has room for blocks its goroutine for ever. *)
Theorem full_table_probe_diverges o s k :
  shape o s -> 0 < k -> full_without s k ->
  forall fuel, probe_from fuel s k (Z.land k (mask s)) = None.
Proof.
  intros Hs Hk Hfull fuel.
  rewrite (shape_mask _ _ Hs), (path_start o (length (slots s)) k) by (lia || apply (shape_len _ _ Hs)).
  generalize 0%nat. induction fuel as [|fuel IH]; intros d; [done|]. cbn [probe_from]. rewrite idx_get_nat.
  pose proof (pow2_pos o) as Hpos. pose proof (shape_len _ _ Hs) as Hlen.
  assert (Hp : (path (home o) (length (slots s)) k d < length (slots s))%nat) by (apply path_lt; lia).
  destruct (lookup_lt_is_Some_2 (slots s) _ Hp) as [slot Hslot]. rewrite Hslot. simpl.
  unfold full_without in Hfull. rewrite list.Forall_forall in Hfull.
  destruct (Hfull slot) as [Hz Hne]; [by eapply list_elem_of_lookup_2|].
  rewrite (proj2 (Z.eqb_neq _ _) Hz), (proj2 (Z.eqb_neq _ _) Hne). cbn [orb].
  by rewrite (shape_mask _ _ Hs), path_next by apply (shape_len _ _ Hs).
Qed.

Definition full_shard : SShard :=
  default (small_shard 1) (shard_run [s_env 1 1 10 1; s_env 2 1 20 2] (small_shard 1)).

Lemma full_table_probe_diverges_witness :
  full_without full_shard (packKeyBucket 3 1) /\
  forall fuel, probe_from fuel full_shard (packKeyBucket 3 1)
    (Z.land (packKeyBucket 3 1) (mask full_shard)) = None.
Proof.
  assert (Hf : full_without full_shard (packKeyBucket 3 1)).
  { unfold full_without. vm_compute. repeat constructor; discriminate. }
  split; [exact Hf|].
  apply (full_table_probe_diverges 1); [split; vm_compute; reflexivity|vm_compute; reflexivity|exact Hf].
Defined.

(** Packing is not injective, and 0 is a packed id.  Two buckets that differ
    in the top bit are one cell: their deltas come out as one batch of the first.
    A cell that packs to 0 is stored in a slot that still looks empty: its delta
    is missing from the flush, and the next key that probes that slot starts from
    it. *)
Theorem packing_confuses_cells :
  (let s := shard_run [s_env 7 1 100 1; s_env 7 (1 + H64) 23 2] (small_shard 3) in
   option_map (fun s => (Flush s []).2) s = Some [mkSBatch 7 1 123 2]) /\
  (let s := shard_run [s_env 0 0 100 1; s_env 0 4 23 2] (small_shard 3) in
   option_map (fun s => (Flush s []).2) s = Some [mkSBatch 0 4 123 2]).
Proof. split; vm_compute; reflexivity. Qed.

(** [FlushKey] empties slots in the middle of probe chains: afterwards a key
    displaced by a collision is no longer found, gets a second slot, and one flush
    emits two batches for its cell. *)
Theorem flush_key_splits_cells :
  let s1 := shard_run [s_env 8 0 5 1; s_env 16 0 6 2] (small_shard 3) in
  match s1 with
  | None => False
  | Some s1 =>
      let '(s2, out) := FlushKey 8 s1 [] in
      out = [mkSBatch 8 0 5 1] /\
      option_map (fun s => (Flush s []).2) (shard_run [s_env 16 0 7 3] s2) =
        Some [mkSBatch 16 0 7 3; mkSBatch 16 0 6 2]
  end.
Proof. vm_compute. by split. Qed.

(** The count threshold triggers nothing: [Ingest] computes [maybeFlush] and
    drops its answer, so with a threshold of 1 (and a zero time cap) three
    envelopes are still all in the table. *)
Theorem count_threshold_ignored :
  option_map used (shard_run [s_env 1 1 1 1; s_env 2 1 1 2; s_env 3 1 1 3] (small_shard 3)) = Some 3 /\
  (maybeFlush 0 (set_slots [] 3 (small_shard 3))).2 = true.
Proof. split; vm_compute; reflexivity. Qed.

(** The audit hash never reaches persistence: [Handle] enqueues a copy of a
    V-envelope with its [HashPrev] set, and hands [persistV] the original. *)
Theorem persisted_envelope_unhashed now env p :
  e_Channel env = ChannelVector ->
  exists p', Handle now env true p = Some p' /\ persisted p' = persisted p ++ [env] /\
    forall act, router p' !! f_KeyID (e_Footprint env) = Some act ->
      exists q, a_queue act = q ++ [set_HashPrev (Hash128 [a_keyID act; e_SeqEnd env]) env].
Proof.
  intros Hch. unfold Handle. rewrite bool_decide_false by congruence.
  destruct (Route (f_KeyID (e_Footprint env)) (router p)) as [r act]. eexists. split; [done|].
  split; [done|]. intros act'. cbn. rewrite lookup_insert_eq. intros [= <-].
  unfold Enqueue. rewrite bool_decide_true by done. cbn. by eexists.
Qed.

Lemma persisted_envelope_unhashed_witness :
  let env := mkEnvelope ChannelVector (mkFootprint 5 (mkTime 1 false) ChannelVector) 3 4 no_hash in
  exists p', Handle 0 env true (NewPipeline 1 1 1 0 4 0 None) = Some p' /\ persisted p' = [env].
Proof.
  destruct (persisted_envelope_unhashed 0
    (mkEnvelope ChannelVector (mkFootprint 5 (mkTime 1 false) ChannelVector) 3 4 no_hash)
    (NewPipeline 1 1 1 0 4 0 None) eq_refl) as (p' & He & Hp & _).
  exists p'. split; [exact He|exact Hp].
Defined.
