(* ===== verification/TfdService.v ===== *)
(** * The scalar lane's service with its goroutines ([sservice.go])

    [TfdPipeline] runs the service one event at a time.  Here the senders, the callers
    of [Flush], [Stop] and [Start] and the goroutine of [run] are threads over the
    service's four channels and its [sync.Once], and a schedule is any sequence of
    their steps.  A send completes when the buffer has room; the drain loops of [run]
    are cut into their receives, so senders come between them. *)
From S2P Require Import Prelude Effects OpenAddr TfdTypes TfdShard TfdState TfdPipeline.

(** ** Options *)
Record SServiceOptions := mkSServiceOptions { Buffer : Z; FlushInterval : Z }.
Definition with_defaults (o : SServiceOptions) : SServiceOptions :=
  mkSServiceOptions (if Buffer o <=? 0 then 4096 else Buffer o)
    (if FlushInterval o <=? 0 then 2000000 else FlushInterval o).

Record PipelineOptions := mkPipelineOptions {
  Shards : Z; OrderPow2 : Z; CountThresh : Z; TimeCap : Z; opt_FlushInterval : Z; opt_Buffer : Z;
  opt_VSA : option (list SBatch -> option (list SBatch))
}.
Definition pipeline_of (o : PipelineOptions) (now : Z) : Pipeline :=
  NewPipeline (Shards o) (OrderPow2 o) (CountThresh o) (TimeCap o) (opt_Buffer o) now (opt_VSA o).

(** ** The threads *)
Inductive Caller :=
| Sending (env : Envelope)    (* [Handle]: about to [TryIngest] *)
| Blocked (env : Envelope)    (* in [Ingest]: waiting for room *)
| Sent
| Flushing                    (* [Flush]: about to send its channel *)
| AwaitsFlush                 (* waiting for it to be closed *)
| Flushed
| Stopping                    (* [Stop]: about to close [stopCh] *)
| AwaitsEnd                   (* waiting for [doneCh] *)
| HasStopped
| Starting
| HasStarted.

(** The goroutine of [run]. *)
Inductive RunLoop :=
| NotStarted
| Selecting
| Draining (flusher : nat)    (* serving the request of this caller *)
| Ending
| Ended.

Record SConf := mkSConf {
  service : SService;
  runner : RunLoop;
  stopCh : bool;               (* closed *)
  flushReqCh : list nat;       (* at most one request *)
  answered : list nat;         (* the requests whose channel was closed *)
  callers : list Caller;
  sent : list Envelope;        (* the sends so far, in order *)
  sent_at_end : nat            (* how many there were when the loop ended *)
}.

Definition service_conf (s : SService) : SConf := mkSConf s NotStarted false [] [] [] [] 0.

Definition set_callers x c := mkSConf (service c) (runner c) (stopCh c) (flushReqCh c) (answered c) x (sent c) (sent_at_end c).
Definition set_caller (i : nat) (x : Caller) (c : SConf) : SConf := set_callers (<[i := x]> (callers c)) c.
Definition set_loop (s : SService) (x : RunLoop) (c : SConf) : SConf :=
  mkSConf s x (stopCh c) (flushReqCh c) (answered c) (callers c) (sent c) (sent_at_end c).

(** What the select picks among what is ready. *)
Inductive Ready := RIn | RTick | RFlush | RStop.
Inductive SEvent :=
| SCall (x : Caller)
| SCaller (i : nat)
| SLoop (pick : Ready) (now : Z).

(** [s.in <- env], when there is room. *)
Definition has_room (s : SService) : bool := Z.of_nat (length (ingress s)) <? buffer s.
Definition push (env : Envelope) (c : SConf) : SConf :=
  mkSConf (set_ingress (ingress (service c) ++ [env]) (service c)) (runner c) (stopCh c) (flushReqCh c) (answered c)
    (callers c) (sent c ++ [env]) (sent_at_end c).

(** A step of a caller; [None] is a panic, a caller that must wait stays. *)
Definition caller_step (i : nat) (c : SConf) : option SConf :=
  match callers c !! i with
  | None => Some c
  | Some (Sending env) =>
      Some (if negb (bool_decide (e_Channel env = ChannelScalar)) then set_caller i Sent c
            else if has_room (service c) then set_caller i Sent (push env c)
            else set_caller i (Blocked env) c)
  | Some (Blocked env) => Some (if has_room (service c) then set_caller i Sent (push env c) else c)
  | Some Flushing =>
      Some (match flushReqCh c with
            | [] => set_caller i AwaitsFlush
                (mkSConf (service c) (runner c) (stopCh c) [i] (answered c) (callers c) (sent c) (sent_at_end c))
            | _ => c
            end)
  | Some AwaitsFlush => Some (if decide (i ∈ answered c) then set_caller i Flushed c else c)
  | Some Stopping =>
      if stopCh c then None
      else Some (set_caller i AwaitsEnd
        (mkSConf (service c) (runner c) true (flushReqCh c) (answered c) (callers c) (sent c) (sent_at_end c)))
  | Some AwaitsEnd => Some (match runner c with Ended => set_caller i HasStopped c | _ => c end)
  | Some Starting =>
      Some (set_caller i HasStarted (match runner c with NotStarted => set_loop (service c) Selecting c | _ => c end))
  | Some Sent | Some Flushed | Some HasStopped | Some HasStarted => Some c
  end.

(** A step of [run]; a case that is not ready is not picked. *)
Definition run_step (pick : Ready) (now : Z) (c : SConf) : option SConf :=
  let s := service c in
  match runner c with
  | NotStarted | Ended => Some c
  | Selecting =>
      match pick with
      | RIn => s' ← receive now s; Some (set_loop s' Selecting c)
      | RTick => s' ← flush s; Some (set_loop s' Selecting c)
      | RFlush =>
          Some (match flushReqCh c with
                | [] => c
                | i :: rest => mkSConf s (Draining i) (stopCh c) rest (answered c) (callers c) (sent c) (sent_at_end c)
                end)
      | RStop => Some (if stopCh c then set_loop s Ending c else c)
      end
  | Draining i =>
      match ingress s with
      | _ :: _ => s' ← receive now s; Some (set_loop s' (Draining i) c)
      | [] =>
          s' ← flush s;
          Some (mkSConf s' Selecting (stopCh c) (flushReqCh c) (answered c ++ [i]) (callers c) (sent c) (sent_at_end c))
      end
  | Ending =>
      match ingress s with
      | _ :: _ => s' ← receive now s; Some (set_loop s' Ending c)
      | [] =>
          s' ← flush s;
          Some (mkSConf s' Ended (stopCh c) (flushReqCh c) (answered c) (callers c) (sent c) (length (sent c)))
      end
  end.

Definition service_event (c : SConf) (e : SEvent) : option SConf :=
  match e with
  | SCall x => Some (set_callers (callers c ++ [x]) c)
  | SCaller i => caller_step i c
  | SLoop pick now => run_step pick now c
  end.
Fixpoint service_events (es : list SEvent) (c : SConf) : option SConf :=
  match es with
  | [] => Some c
  | e :: es => c' ← service_event c e; service_events es c'
  end.
