(* ===== verification/TfdServiceSpec.v ===== *)
(** * The service among its goroutines: what is kept, and who waits for ever

    Whatever the schedule, as long as the cells sent fit the shards' tables ([fits]), an
    envelope whose send has completed is in the sink, in the
    accumulator or in the buffer, but for those sent after the loop has ended, which
    stay in the buffer.  A flush the loop has taken is answered; one that is still in
    its channel when the loop ends never is. *)
From stdpp Require Import sorting.
From S2P Require Import Prelude Effects OpenAddr TfdTypes TfdShard TfdShardSpec TfdState TfdStateSpec TfdPipeline TfdPipelineSpec TfdService.

#[export] Instance is_loop_dec (e : SEvent) : Decision (match e with SLoop _ _ => True | _ => False end).
Proof. destruct e; apply _. Defined.
#[export] Instance is_caller_dec (e : SEvent) : Decision (match e with SCaller _ => True | _ => False end).
Proof. destruct e; apply _. Defined.

Section service.
Context (o : nat) (D : gset (Z * Z)) (HD : fits o D).

Definition call_ok (x : Caller) : Prop :=
  match x with
  | Sending env | Blocked env => e_Channel env = ChannelScalar -> env_cell env ∈ D
  | _ => True
  end.
(** A blocked sender has a scalar envelope. *)
Definition caller_ok (x : Caller) : Prop :=
  call_ok x /\ match x with Blocked env => e_Channel env = ChannelScalar | _ => True end.

Record conf_ok (c : SConf) (N : gmap (Z * Z) (Z * Z)) : Prop := {
  co_svc : svc_inv o D (service c) N;
  co_callers : Forall caller_ok (callers c);
  co_running : runner c <> Ended -> forall k, svc_total (service c) N k ≡ₘ deltas_at k (env_delta <$> sent c);
  co_ended : runner c = Ended -> N = ∅ /\ ingress (service c) = drop (sent_at_end c) (sent c) /\
    (sent_at_end c <= length (sent c))%nat /\
    forall k, deltas_at k (batch_delta <$> concat (sunk (service c))) ≡ₘ deltas_at k (env_delta <$> take (sent_at_end c) (sent c))
}.

(** Callers change the threads and the channels; only a send reaches the service. *)
Lemma conf_ok_callers c N x : conf_ok c N -> Forall caller_ok x -> conf_ok (set_callers x c) N.
Proof. intros [Hs Hc Hr He] Hx. by split. Qed.

Lemma conf_ok_caller c N i x : conf_ok c N -> caller_ok x -> conf_ok (set_caller i x c) N.
Proof. intros H Hx. apply conf_ok_callers; [done|]. apply Forall_insert; [apply H|done]. Qed.

Lemma push_ok c N env : conf_ok c N -> e_Channel env = ChannelScalar -> env_cell env ∈ D -> conf_ok (push env c) N.
Proof.
  intros [Hs Hc Hr He] Hch Hcell. split; cbn [service push callers runner sent sent_at_end].
  - destruct Hs as [Ha Hv Hin Hb]. split; [done|done| |done]. cbn. apply list.Forall_app. split; [done|]. by constructor.
  - done.
  - intros Hne k. rewrite deltas_snoc, <- (Hr Hne k). unfold svc_total. cbn [ingress set_ingress sunk]. rewrite deltas_snoc. eqm_lia.
  - intros Hend. destruct (He Hend) as (HN & Hq & Hlen & Hsunk). split_and!; [done| |rewrite length_app; lia|].
    + cbn [ingress set_ingress]. rewrite Hq, drop_app_le by done. done.
    + intros k. cbn [sunk set_ingress]. rewrite take_app_le by done. apply Hsunk.
Qed.

Lemma caller_step_ok i c N : conf_ok c N -> (callers c !! i = Some Stopping -> stopCh c = false) ->
  exists c', caller_step i c = Some c' /\ conf_ok c' N.
Proof.
  intros Hok Hstop. pose proof (co_callers _ _ Hok) as Hall. unfold caller_step.
  destruct (callers c !! i) as [x|] eqn:Hi; [|by exists c].
  pose proof (Forall_lookup_1 _ _ _ _ Hall Hi) as [Hx Hb].
  destruct x as [env|env| | | | | | | | |]; try (eexists; split; [reflexivity|]); try done.
  - destruct (decide (e_Channel env = ChannelScalar)) as [Hch|Hch].
    + rewrite bool_decide_true by done. cbn [negb]. destruct (has_room (service c)).
      * apply conf_ok_caller; [by apply push_ok; auto|done].
      * by apply conf_ok_caller.
    + rewrite bool_decide_false by done. by apply conf_ok_caller.
  - destruct (has_room (service c)); [|done]. apply conf_ok_caller; [by apply push_ok; auto|done].
  - destruct (flushReqCh c); [|done]. apply conf_ok_caller; [|done]. by destruct Hok as [? ? ? ?].
  - case_decide; [by apply conf_ok_caller|done].
  - rewrite (Hstop eq_refl). eexists. split; [reflexivity|]. apply conf_ok_caller; [|done]. by destruct Hok as [? ? ? ?].
  - destruct (runner c); try done. by apply conf_ok_caller.
  - destruct (runner c) eqn:Hr; try (by apply conf_ok_caller). apply conf_ok_caller; [|done].
    destruct Hok as [Hs Hc Hrun He]. split; [done|done| |done]. intros _. apply Hrun. congruence.
Qed.

(** A receive and a flush of a running loop. *)
Lemma loop_receive now c N st : conf_ok c N -> runner c <> Ended -> st <> Ended ->
  exists s' N', receive now (service c) = Some s' /\ ingress s' = tail (ingress (service c)) /\ conf_ok (set_loop s' st c) N'.
Proof.
  intros [Hs Hc Hr He] Hne Hst. destruct (receive_ok o D HD now (service c) N Hs) as (s' & N' & Hrec & Hs' & Hq & _ & _ & _ & Ht).
  exists s', N'. split_and!; [done..|]. split; cbn [service set_loop callers runner sent]; [done..| |done].
  intros _ k. by rewrite Ht, Hr.
Qed.

Lemma loop_flush c N : conf_ok c N -> runner c <> Ended -> exists s', flush (service c) = Some s' /\
  ingress s' = ingress (service c) /\ svc_inv o D s' ∅ /\ forall k, svc_total s' ∅ k ≡ₘ deltas_at k (env_delta <$> sent c).
Proof.
  intros [Hs Hc Hr He] Hne. destruct (flush_svc_ok o D HD (service c) N Hs) as (s' & Hf & Hs' & Hq & _ & Ht).
  exists s'. split_and!; [done..|]. intros k. by rewrite Ht, Hr.
Qed.

Lemma empty_acc_value k : acc_value ∅ k = 0.
Proof. unfold acc_value. by rewrite lookup_empty. Qed.

Lemma run_step_ok pick now c N : conf_ok c N -> exists c' N', run_step pick now c = Some c' /\ conf_ok c' N'.
Proof.
  intros Hok. unfold run_step. destruct (runner c) as [| |i| |] eqn:Hr; [by exists c, N| | | |by exists c, N].
  - destruct pick.
    + destruct (loop_receive now c N Selecting Hok) as (s' & N' & He & _ & Hok'); [congruence|done|]. rewrite He. by exists (set_loop s' Selecting c), N'.
    + destruct (loop_flush c N Hok) as (s' & He & _ & Hs' & Ht); [congruence|]. rewrite He. exists (set_loop s' Selecting c), ∅.
      split; [done|]. split; cbn; [done|apply Hok|done|done].
    + eexists _, N. split; [reflexivity|]. destruct (flushReqCh c) as [|i rest]; [done|].
      destruct Hok as [Hs Hc Hrun He]. split; [done|done| |done]. intros _. apply Hrun. congruence.
    + eexists _, N. split; [reflexivity|]. destruct (stopCh c); [|done].
      destruct Hok as [Hs Hc Hrun He]. split; [done|done| |done]. intros _. apply Hrun. congruence.
  - destruct (ingress (service c)) as [|env q] eqn:Hq.
    + destruct (loop_flush c N Hok) as (s' & He & _ & Hs' & Ht); [congruence|]. rewrite He. eexists _, ∅.
      split; [reflexivity|]. split; cbn; [done|apply Hok|done|done].
    + destruct (loop_receive now c N (Draining i) Hok) as (s' & N' & He & _ & Hok'); [congruence|done|]. rewrite He.
      by exists (set_loop s' (Draining i) c), N'.
  - destruct (ingress (service c)) as [|env q] eqn:Hq.
    + destruct (loop_flush c N Hok) as (s' & He & Hq' & Hs' & Ht); [congruence|]. rewrite He. eexists _, ∅.
      split; [reflexivity|]. split; cbn; [done|apply Hok|done|]. intros _. rewrite Hq', Hq, drop_all, take_ge by done.
      split_and!; [done..|]. intros k. rewrite <- Ht. unfold svc_total. rewrite empty_acc_value, Hq', Hq.
      cbn [fmap list_fmap]. change (deltas_at k []) with 0. eqm_lia.
    + destruct (loop_receive now c N Ending Hok) as (s' & N' & He & _ & Hok'); [congruence|done|]. rewrite He.
      by exists (set_loop s' Ending c), N'.
Qed.
(** ** The calls of [Stop] *)
Definition is_stopping (x : Caller) : Z := match x with Stopping => 1 | _ => 0 end.
Definition stops (c : SConf) : Z := Zsum (is_stopping <$> callers c) + (if stopCh c then 1 else 0).

Lemma stopping_nonneg l : 0 <= Zsum (is_stopping <$> l).
Proof. apply Zsum_nonneg, Forall_fmap, list.Forall_forall. by intros []. Qed.

Lemma stopping_insert l i x y : l !! i = Some x ->
  Zsum (is_stopping <$> <[i := y]> l) = Zsum (is_stopping <$> l) - is_stopping x + is_stopping y.
Proof. intros Hi. rewrite list_fmap_insert. apply Zsum_insert. by rewrite list_lookup_fmap, Hi. Qed.

Lemma one_stop c i : stops c <= 1 -> callers c !! i = Some Stopping -> stopCh c = false.
Proof.
  unfold stops. intros Hs Hi. destruct (stopCh c); [|done]. exfalso.
  rewrite <- (take_drop_middle _ _ _ Hi), fmap_app, Zsum_app in Hs. cbn [fmap list_fmap is_stopping] in Hs. rewrite Zsum_cons in Hs.
  pose proof (stopping_nonneg (take i (callers c))). pose proof (stopping_nonneg (drop (S i) (callers c))). unfold fmap in *. lia.
Qed.

Lemma caller_step_stops i c c' : caller_step i c = Some c' -> stops c' = stops c.
Proof.
  unfold caller_step, stops. destruct (callers c !! i) as [x|] eqn:Hi; [|by intros [= <-]].
  pose proof (fun y => stopping_insert _ i _ y Hi) as Hins. cbn in Hins.
  destruct x; cbn in Hins; intros He; try (injection He as <-); try done.
  all: try (destruct (negb _); [|destruct (has_room _)]; cbn; rewrite Hins; cbn; lia).
  - destruct (has_room _); cbn; rewrite ?Hins; cbn; lia.
  - destruct (flushReqCh c); cbn; rewrite ?Hins; cbn; lia.
  - case_decide; cbn; rewrite ?Hins; cbn; lia.
  - destruct (stopCh c) eqn:Hs; [done|]. injection He as <-. cbn. rewrite Hins. cbn. lia.
  - destruct (runner c); cbn; rewrite ?Hins; cbn; lia.
  - destruct (runner c); cbn; rewrite ?Hins; cbn; lia.
Qed.

Lemma run_step_same pick now c c' : run_step pick now c = Some c' -> callers c' = callers c /\ stopCh c' = stopCh c /\ sent c' = sent c.
Proof.
  unfold run_step, mbind, option_bind. intros He. by repeat case_match; simplify_eq/=.
Qed.

(** A caller starts with a call. *)
Definition sevent_ok (e : SEvent) : Prop :=
  match e with
  | SCall (Sending env) => e_Channel env = ChannelScalar -> env_cell env ∈ D
  | SCall Flushing | SCall Stopping | SCall Starting => True
  | SCall _ => False
  | _ => True
  end.
Definition stop_call (e : SEvent) : Z := match e with SCall Stopping => 1 | _ => 0 end.

Lemma stop_calls_nonneg es : 0 <= Zsum (stop_call <$> es).
Proof. apply Zsum_nonneg, Forall_fmap, list.Forall_forall. by intros [[]| |]. Qed.

Lemma service_event_ok c N e : conf_ok c N -> sevent_ok e -> stops c + stop_call e <= 1 ->
  exists c' N', service_event c e = Some c' /\ conf_ok c' N' /\ stops c' = stops c + stop_call e.
Proof.
  intros Hok He Hst. destruct e as [x|i|pick now]; cbn [service_event].
  - eexists _, N. split; [reflexivity|]. split.
    + apply conf_ok_callers; [done|]. apply Forall_app. split; [apply Hok|]. constructor; [|done].
      by destruct x; cbn in He |- *.
    + unfold stops. cbn. rewrite fmap_app, Zsum_app. cbn. rewrite Zsum_cons, Zsum_nil. destruct x; cbn; lia.
  - cbn in Hst. destruct (caller_step_ok i c N Hok) as (c' & Hc & Hok'); [intros; by eapply one_stop; [lia|]|].
    exists c', N. split_and!; [done..|]. rewrite (caller_step_stops _ _ _ Hc). cbn. lia.
  - destruct (run_step_ok pick now c N Hok) as (c' & N' & Hc & Hok'). exists c', N'. split_and!; [done..|].
    destruct (run_step_same _ _ _ _ Hc) as (Hcs & Hs & _). unfold stops. rewrite Hcs, Hs. cbn. lia.
Qed.

Lemma service_events_ok es c N : conf_ok c N -> Forall sevent_ok es -> stops c + Zsum (stop_call <$> es) <= 1 ->
  exists c' N', service_events es c = Some c' /\ conf_ok c' N' /\ stops c' = stops c + Zsum (stop_call <$> es).
Proof.
  intros Hok Hes. revert c N Hok. induction Hes as [|e es He Hes IH]; intros c N Hok Hst; cbn [service_events fmap list_fmap] in *.
  - exists c, N. rewrite Zsum_nil in *. split_and!; [done..|lia].
  - rewrite Zsum_cons in *. pose proof (stop_calls_nonneg es). unfold fmap in *.
    destruct (service_event_ok c N e Hok He) as (c1 & N1 & H1 & Hok1 & Hs1); [lia|]. rewrite H1. simpl.
    destruct (IH c1 N1 Hok1) as (c2 & N2 & H2 & Hok2 & Hs2); [lia|]. exists c2, N2. split_and!; [done..|lia].
Qed.

(** ** Who is answered *)
Definition loop_steps (es : list SEvent) : nat := length (filter (fun e => match e with SLoop _ _ => True | _ => False end) es).

Lemma loop_steps_cons e es : loop_steps (e :: es) = ((match e with SLoop _ _ => 1 | _ => 0 end) + loop_steps es)%nat.
Proof. unfold loop_steps. rewrite filter_cons. destruct e; by repeat case_decide. Qed.

(** A caller moves the loop only by starting it, and what enters the buffer was sent. *)
Lemma caller_step_loop i c c' : caller_step i c = Some c' -> runner c <> NotStarted ->
  runner c' = runner c /\ answered c' = answered c /\ 
  (length (ingress (service c')) + length (sent c) = length (ingress (service c)) + length (sent c'))%nat.
Proof.
  unfold caller_step. intros He Hr. repeat case_match; simplify_eq/=; try done; (split_and!; [done..|]); cbn; rewrite ?length_app; cbn; lia.
Qed.

(** Serving one request, or ending. *)
Definition draining (st : RunLoop) : Prop := match st with Draining _ | Ending => True | _ => False end.
Definition drained (st : RunLoop) (c : SConf) : Prop :=
  match st with Draining i => i ∈ answered c | Ending => runner c = Ended | _ => False end.

Lemma drained_keeps st e c c' : service_event c e = Some c' -> drained st c -> drained st c'.
Proof.
  intros He Hd. destruct st as [| |i| |]; cbn in *; try done.
  - destruct e as [x|j|pick now]; cbn [service_event] in He; [by injection He as <-| |].
    + unfold caller_step in He. by repeat case_match; simplify_eq/=.
    + unfold run_step, mbind, option_bind in He. repeat case_match; simplify_eq/=; try done. apply elem_of_app. by left.
  - destruct e as [x|j|pick now]; cbn [service_event] in He; [by injection He as <-| |].
    + apply caller_step_loop in He as (-> & _); congruence.
    + unfold run_step in He. rewrite Hd in He. by injection He as <-.
Qed.

Lemma drained_run st es c c' : service_events es c = Some c' -> drained st c -> drained st c'.
Proof.
  revert c. induction es as [|e es IH]; intros c; cbn [service_events]; [by intros [= <-]|].
  destruct (service_event c e) as [c1|] eqn:He; simpl; [|done]. intros Hes Hd. eapply IH; [done|]. by eapply drained_keeps.
Qed.

Lemma drain_ends es c N c' : conf_ok c N -> draining (runner c) -> Forall sevent_ok es ->
  stops c + Zsum (stop_call <$> es) <= 1 -> service_events es c = Some c' ->
  (length (ingress (service c)) + length (sent c') < length (sent c) + loop_steps es)%nat -> drained (runner c) c'.
Proof.
  intros Hok Hd Hes. revert c N Hok Hd. induction Hes as [|e es He Hes IH]; intros c N Hok Hd Hst Hrun Hlen; [injection Hrun as <-; cbn in Hlen; lia|].
  rewrite loop_steps_cons in Hlen. cbn [service_events fmap list_fmap] in *. rewrite Zsum_cons in Hst.
  pose proof (stop_calls_nonneg es) as Hnn. unfold fmap in *.
  destruct (service_event_ok c N e Hok He) as (c1 & N1 & H1 & Hok1 & Hs1); [lia|]. rewrite H1 in Hrun. simpl in Hrun.
  destruct e as [x|j|pick now]; cbn [service_event] in H1.
  - injection H1 as <-. apply (IH _ N1 Hok1 Hd); [lia|done|done].
  - destruct (caller_step_loop _ _ _ H1) as (Hr & _ & Hin); [by intros Hn; rewrite Hn in Hd|].
    rewrite <- Hr in Hd |- *. apply (IH _ N1 Hok1 Hd); [lia|done|lia].
  - unfold run_step in H1. destruct (ingress (service c)) as [|env q] eqn:Hq.
    + eapply drained_run; [done|]. destruct (runner c) as [| |i| |]; cbn in Hd; try done;
        destruct (flush (service c)); simpl in H1; try done; injection H1 as <-; cbn; [|done].
      apply elem_of_app. right. by apply list_elem_of_singleton.
    + destruct (loop_receive now c N (runner c) Hok) as (s' & N' & Hrec & Htl & _); [by intros Hn; rewrite Hn in Hd..|].
      destruct (runner c) as [| |i| |] eqn:Hr; cbn in Hd; try done; rewrite Hrec in H1; simpl in H1; injection H1 as <-.
      all: eapply (IH _ N1 Hok1); [done|lia|done|].
      all: cbn [service set_loop sent]; rewrite Htl, Hq; cbn [tail length] in *; lia.
Qed.

(** Who is not: a request still in its channel when the loop ends. *)
Definition forgotten (i : nat) (c : SConf) : Prop :=
  (runner c = Ending \/ runner c = Ended) /\ callers c !! i = Some AwaitsFlush /\ i ∉ answered c.

Lemma forgotten_keeps i e c c' : service_event c e = Some c' -> forgotten i c -> forgotten i c'.
Proof.
  intros He (Hr & Hi & Ha). destruct e as [x|j|pick now]; cbn [service_event] in He.
  - injection He as <-. split_and!; [done| |done]. cbn. by apply lookup_app_l_Some.
  - assert (Hc' : runner c' = runner c /\ answered c' = answered c).
    { destruct (caller_step_loop _ _ _ He) as (? & ? & _); [destruct Hr; congruence|done]. }
    destruct Hc' as [Hr' Ha']. split_and!; [by rewrite Hr'| |by rewrite Ha'].
    destruct (decide (j = i)) as [->|Hne].
    + unfold caller_step in He. rewrite Hi, decide_False in He by done. by injection He as <-.
    + unfold caller_step in He. repeat case_match; simplify_eq/=; by rewrite ?list_lookup_insert_ne.
  - unfold run_step, mbind, option_bind in He. destruct Hr as [Hr|Hr]; rewrite Hr in He; repeat case_match; simplify_eq/=;
      (split_and!; [by (left + right)|done|done]).
Qed.
End service.

Definition service_start (o : PipelineOptions) (now : Z) : SConf := service_conf (svc (pipeline_of o now)).

Section runs.
Context (D : gset (Z * Z)) (o : PipelineOptions) (t0 : Z).
Context (Hfits : fits (table_order (OrderPow2 o)) D) (Hvsa : transformer_ok (opt_VSA o)).

Lemma service_start_ok : conf_ok (table_order (OrderPow2 o)) D (service_start o t0) ∅.
Proof using Hvsa.
  destruct (NewPipeline_inv D (Shards o) (OrderPow2 o) (CountThresh o) (TimeCap o) (opt_Buffer o) t0 (opt_VSA o) Hvsa) as [Hp _].
  split; [apply Hp|constructor| |done]. intros _ k. pose proof (pi_total _ _ _ _ _ Hp k) as Ht.
  change (deltas_at k (env_delta <$> persisted _)) with 0 in Ht. rewrite Z.add_0_r in Ht. exact Ht.
Qed.

Lemma service_start_stops : stops (service_start o t0) = 0.
Proof. done. Qed.

Lemma service_run es : Forall (sevent_ok D) es -> Zsum (stop_call <$> es) <= 1 ->
  exists c N, service_events es (service_start o t0) = Some c /\ conf_ok (table_order (OrderPow2 o)) D c N /\
    stops c = Zsum (stop_call <$> es).
Proof using Hfits Hvsa.
  intros Hes Hst. apply (service_events_ok _ D Hfits es (service_start o t0) ∅ service_start_ok Hes). by rewrite service_start_stops.
Qed.

Lemma service_events_app es1 es2 c : service_events (es1 ++ es2) c = c' ← service_events es1 c; service_events es2 c'.
Proof. revert c. induction es1 as [|e es1 IH]; intros c; [done|]. cbn. destruct (service_event c e); [apply IH|done]. Qed.
End runs.

(** C13: nothing sent is lost before the end, as long as the cells sent in the whole run
    have distinct non-zero packed ids and all fit one shard's table ([fits]) and the
    compression keeps the sums.  Let senders, callers of [Flush], [Start] and at most
    one [Stop], and the service's goroutine take their steps in any order, with any
    choice of its selects.  Then nothing panics and no probe runs for ever; as long as
    the goroutine has not ended, what the sink received, the accumulator holds and the
    buffer keeps adds up, cell by cell and modulo [2^64], to the sends so far; and when
    it has ended, what was sunk reconstructs the state of the sends before the end, and
    those after it, accepted all the same, are exactly what is left in the buffer. *)
Theorem concurrent_service_keeps_sends D o t0 es :
  fits (table_order (OrderPow2 o)) D -> transformer_ok (opt_VSA o) ->
  Forall (sevent_ok D) es -> Zsum (stop_call <$> es) <= 1 ->
  exists c N, service_events es (service_start o t0) = Some c /\
    acc_rep (table_order (OrderPow2 o)) D (acc (service c)) N /\
    (runner c <> Ended -> forall k,
      deltas_at k (batch_delta <$> concat (sunk (service c))) + acc_value N k +
        deltas_at k (env_delta <$> ingress (service c)) ≡ₘ deltas_at k (env_delta <$> sent c)) /\
    (runner c = Ended ->
      ingress (service c) = drop (sent_at_end c) (sent c) /\ (sent_at_end c <= length (sent c))%nat /\
      Reconstruct (concat (sunk (service c))) [] NewState ≈ BaselineApply (take (sent_at_end c) (sent c)) NewState).
Proof.
  intros Hf Hv Hes Hst. destruct (service_run D o t0 Hf Hv es Hes Hst) as (c & N & He & [Hs _ Hr Hend] & _).
  exists c, N. split_and!; [done|apply Hs|done|]. intros Hc. destruct (Hend Hc) as (_ & Hq & Hl & Hd).
  split_and!; [done..|]. rewrite Reconstruct_all, BaselineApply_all. apply add_cells_eq; [apply NewState_range|].
  intros k. rewrite deltas_at_app, <- (Hd k). change (merge_sort v_le []) with (@nil Envelope).
  change (deltas_at k (env_delta <$> [])) with 0. eqm_lia.
Qed.

(** C28: a flush and a stop the goroutine has taken are done.  Let the cells sent in the
    whole run have distinct non-zero packed ids and all fit one shard's table ([fits]),
    the compression keep the sums, and [Stop] be called at most once.  Once the
    goroutine serves a caller of [Flush] or has seen the stop channel closed, it answers
    the caller, or ends, as soon as it has made more steps than there were envelopes in
    the buffer and sends accepted meanwhile, in any interleaving. *)
Theorem taken_requests_are_served D o t0 es1 es2 c1 :
  fits (table_order (OrderPow2 o)) D -> transformer_ok (opt_VSA o) ->
  Forall (sevent_ok D) (es1 ++ es2) -> Zsum (stop_call <$> es1 ++ es2) <= 1 ->
  service_events es1 (service_start o t0) = Some c1 -> draining (runner c1) ->
  exists c2, service_events (es1 ++ es2) (service_start o t0) = Some c2 /\
    ((length (ingress (service c1)) + (length (sent c2) - length (sent c1)) < loop_steps es2)%nat ->
     match runner c1 with Draining i => i ∈ answered c2 | _ => runner c2 = Ended end).
Proof.
  intros Hf Hv Hes Hst He1 Hd. apply Forall_app in Hes as [Hes1 Hes2].
  rewrite fmap_app, Zsum_app in Hst. pose proof (stop_calls_nonneg es2). unfold fmap in *.
  destruct (service_run D o t0 Hf Hv es1 Hes1) as (c & N & He & Hok & Hs); [unfold fmap in *; lia|].
  rewrite He1 in He. injection He as <-. unfold fmap in *.
  destruct (service_events_ok _ D Hf es2 c1 N Hok Hes2) as (c2 & N2 & He2 & _); [unfold fmap in *; lia|].
  exists c2. rewrite service_events_app, He1. split; [done|]. intros Hlen.
  pose proof (drain_ends _ D Hf es2 c1 N c2 Hok Hd Hes2) as Hdr. unfold fmap in *.
  specialize (Hdr ltac:(lia) He2 ltac:(lia)). destruct (runner c1); cbn in Hd; by try done.
Qed.

(** A flush the stop overtakes waits for ever.  If the goroutine takes the stop while a
    request of [Flush] is in its channel, it ends without answering, and whatever
    anybody does afterwards the caller stays in [<-done]. *)
Theorem overtaken_flush_waits_for_ever D o t0 es1 i c1 es2 :
  fits (table_order (OrderPow2 o)) D -> transformer_ok (opt_VSA o) ->
  Forall (sevent_ok D) (es1 ++ es2) -> Zsum (stop_call <$> es1 ++ es2) <= 1 ->
  service_events es1 (service_start o t0) = Some c1 -> forgotten i c1 ->
  exists c2, service_events (es1 ++ es2) (service_start o t0) = Some c2 /\ callers c2 !! i = Some AwaitsFlush.
Proof.
  intros Hf Hv Hes Hst He1 Hfor. destruct (service_run D o t0 Hf Hv _ Hes Hst) as (c2 & N & He & _).
  exists c2. split; [done|]. rewrite service_events_app, He1 in He. simpl in He. clear -He Hfor.
  revert c1 He Hfor. induction es2 as [|e es IH]; intros c1 He Hfor; cbn [service_events] in He.
  - injection He as <-. apply Hfor.
  - destruct (service_event c1 e) as [c3|] eqn:H3; simpl in He; [|done]. eapply IH; [done|]. by eapply forgotten_keeps.
Qed.

(** ** Examples *)
#[export] Instance sevent_ok_dec D e : Decision (sevent_ok D e).
Proof. destruct e as [[]| |]; cbn; apply _. Defined.

Definition demo_pipeline : PipelineOptions := mkPipelineOptions 3 2 1 0 0 1 (Some demo_compress).
Definition plain_pipeline : PipelineOptions := mkPipelineOptions 3 2 1 0 0 1 None.
Lemma no_transformer : transformer_ok None.
Proof. intros f bs Hf. discriminate Hf. Qed.
(** The service starts; the second send finds the one place of the buffer taken and
    waits; a flush is served; then a stop ends the loop, and a last send comes too late. *)
Definition demo_until_flush : list SEvent :=
  [SCall Starting; SCaller 0; SCall (Sending (demo_env ChannelScalar 7 9 5 1)); SCaller 1;
   SCall (Sending (demo_env ChannelScalar 8 1 4 2)); SCaller 2; SCaller 2; SCall Flushing; SCaller 3; SLoop RFlush 1].
Definition demo_from_flush : list SEvent :=
  [SLoop RTick 1; SCaller 2; SLoop RTick 1; SLoop RTick 1; SCaller 3; SCall Stopping; SCaller 4; SLoop RStop 2;
   SCall (Sending (demo_env ChannelScalar 7 9 1 3)); SLoop RIn 2; SCaller 5].
Definition demo_service : list SEvent := demo_until_flush ++ demo_from_flush.

Example demo_service_end : option_map (fun c => (runner c, callers c, concat (sunk (service c)), length (ingress (service c))))
    (service_events demo_service (service_start demo_pipeline 0)) =
  Some (Ended, [HasStarted; Sent; Sent; Flushed; AwaitsEnd; Sent], [mkSBatch 7 9 5 1; mkSBatch 8 1 4 2], 1%nat).
Proof. vm_compute. reflexivity. Qed.

Lemma concurrent_service_keeps_sends_witness :
  exists c N, service_events demo_service (service_start demo_pipeline 0) = Some c /\
    acc_rep (table_order 2) demo_cells (acc (service c)) N.
Proof.
  destruct (concurrent_service_keeps_sends demo_cells demo_pipeline 0 demo_service) as (c & N & He & Ha & _).
  - exact demo_fits.
  - exact demo_compress_ok.
  - apply (bool_decide_unpack _). vm_compute. exact I.
  - apply (bool_decide_unpack _). vm_compute. exact I.
  - exists c, N. split; [exact He|exact Ha].
Defined.

(** Caller 3 is served after two receives. *)
Lemma taken_requests_are_served_witness :
  exists c1, service_events demo_until_flush (service_start plain_pipeline 0) = Some c1 /\ runner c1 = Draining 3 /\
  exists c2, service_events (demo_until_flush ++ firstn 4 demo_from_flush) (service_start plain_pipeline 0) = Some c2 /\
    length (sent c2) = 2%nat /\ 3%nat ∈ answered c2.
Proof.
  eexists. split; [vm_compute; reflexivity|]. split; [reflexivity|].
  edestruct (taken_requests_are_served demo_cells plain_pipeline 0 demo_until_flush (firstn 4 demo_from_flush)) as (c2 & He2 & Hdone).
  - exact demo_fits.
  - exact no_transformer.
  - apply (bool_decide_unpack _). vm_compute. exact I.
  - apply (bool_decide_unpack _). vm_compute. exact I.
  - vm_compute. reflexivity.
  - exact I.
  - exists c2. split; [exact He2|]. vm_compute in He2. injection He2 as <-. split; [reflexivity|].
    apply Hdone. vm_compute. lia.
Defined.

(** The flush (caller 1) has sent its request when the loop takes the stop of caller 2. *)
Definition demo_overtaken : list SEvent :=
  [SCall Starting; SCaller 0; SCall Flushing; SCaller 1; SCall Stopping; SCaller 2; SLoop RStop 1].
Lemma overtaken_flush_waits_for_ever_witness :
  exists c2, service_events (demo_overtaken ++ [SLoop RFlush 2; SCaller 1; SLoop RFlush 3; SCaller 1; SCaller 2])
      (service_start plain_pipeline 0) = Some c2 /\ callers c2 !! 1%nat = Some AwaitsFlush.
Proof.
  destruct (service_events demo_overtaken (service_start plain_pipeline 0)) as [c1|] eqn:He1;
    [|vm_compute in He1; discriminate He1].
  apply (overtaken_flush_waits_for_ever demo_cells plain_pipeline 0 demo_overtaken 1 c1
    [SLoop RFlush 2; SCaller 1; SLoop RFlush 3; SCaller 1; SCaller 2]).
  - exact demo_fits.
  - exact no_transformer.
  - apply (bool_decide_unpack _). vm_compute. exact I.
  - apply (bool_decide_unpack _). vm_compute. exact I.
  - exact He1.
  - vm_compute in He1. injection He1 as <-. split_and!; [left; reflexivity|reflexivity|apply not_elem_of_nil].
Defined.
