(* ===== verification/Churn.v ===== *)
(** * Telemetry ([telemetry/churn])

    [prom_counters.go]: what is observed and which keys are sampled;
    [exporter.go]: the per-key aggregates, the rolling window of the KPIs and the
    line the exporter overwrites.  Rates are the exact rationals that doubles are;
    Prometheus counters are integers and a ratio is kept as its numerator and
    denominator. *)
From Stdlib Require Import QArith Qround.
From S2P Require Import Prelude Worker TfdTypes Durable.

(** ** Configuration *)
Record Config := mkConfig {
  Enabled : bool;
  SampleRate : Q;
  MetricsAddr : string;
  LogInterval : Z;
  Window : Z;
  TopN : Z;
  KeyHashLen : Z
}.

Definition clamp_config (cfg : Config) : Config :=
  mkConfig (Enabled cfg)
    (if Qle_bool (SampleRate cfg) 0 then 0%Q else if Qle_bool 1 (SampleRate cfg) then 1%Q else SampleRate cfg)
    (MetricsAddr cfg) (LogInterval cfg)
    (if Window cfg <=? 0 then 60 * 1000000000 else Window cfg)
    (if TopN cfg <=? 0 then 50 else TopN cfg)
    (if KeyHashLen cfg <=? 0 then 8 else KeyHashLen cfg).

(** [float64(max) + 1.0] is [2^64], and multiplying by it is exact. *)
Definition threshold (rate : Q) : Z :=
  if Qle_bool rate 0 then 0
  else if Qle_bool 1 rate then M64 - 1
  else
    let f := (rate * inject_Z M64)%Q in
    let f := if Qle_bool 1 f then f else 1%Q in
    u64 (Qfloor f - 1).

(** ** The state of the module *)
Record keyAgg := mkKeyAgg { ka_abs : Z; ka_net : Z; ka_last : Z }.

Record point := mkPoint { p_ts : Z; p_naive : Z; p_commits : Z; p_sumAbs : Z; p_sumNet : Z }.

Record Prom := mkProm {
  naiveWritesTotal : Z;
  commitsRowsTotal : Z;
  rowsPerBatch : list Z;
  commitErrorsTotal : Z;
  keysTracked : Z;
  writeReduction : Z * Z;   (* [1 - a/b] *)
  churnRatio : Z * Z        (* [a/b] *)
}.
Definition no_prom : Prom := mkProm 0 0 [] 0 0 (0, 1) (0, 1).

(** The counters of the exporter. *)
Record Totals := mkTotals {
  naiveWritesInternal : Z;
  naiveWritesAll : Z;
  commitRowsInternal : Z;
  sumAbsGlobal : Z;
  sumNetGlobal : Z
}.
Definition no_totals : Totals := mkTotals 0 0 0 0 0.

Record Telemetry := mkTelemetry {
  modEnabled : bool;
  samplingThreshold : Z;
  currCfg : Config;
  prom : Prom;
  agg : gmap Z keyAgg;
  totals : Totals;
  windowPoints : list point;
  exporterRunning : bool;
  clock : Z
}.

Definition set_prom (p : Prom) (t : Telemetry) : Telemetry :=
  mkTelemetry (modEnabled t) (samplingThreshold t) (currCfg t) p (agg t) (totals t) (windowPoints t)
    (exporterRunning t) (clock t).
Definition set_agg (a : gmap Z keyAgg) (tt : Totals) (t : Telemetry) : Telemetry :=
  mkTelemetry (modEnabled t) (samplingThreshold t) (currCfg t) (prom t) a tt (windowPoints t)
    (exporterRunning t) (clock t).
Definition set_window (ps : list point) (t : Telemetry) : Telemetry :=
  mkTelemetry (modEnabled t) (samplingThreshold t) (currCfg t) (prom t) (agg t) (totals t) ps
    (exporterRunning t) (clock t).

(** The loop that ran is stopped; a new one runs if there is something to log. *)
Definition startOrUpdateExporter (cfg : Config) (t : Telemetry) : Telemetry :=
  mkTelemetry (modEnabled t) (samplingThreshold t) cfg (prom t) (agg t) (totals t) (windowPoints t)
    (Enabled cfg && negb (LogInterval cfg <=? 0)) (clock t).

Definition Enable (cfg : Config) (t : Telemetry) : Telemetry :=
  let cfg := clamp_config cfg in
  startOrUpdateExporter cfg
    (mkTelemetry (Enabled cfg) (threshold (SampleRate cfg)) (currCfg t) (prom t) (agg t) (totals t)
       (windowPoints t) (exporterRunning t) (clock t)).

(** ** Recording *)
Definition hashKey (key : string) : Z := HashKey key.
Definition sampled (key : string) (t : Telemetry) : bool :=
  if samplingThreshold t =? 0 then false else hashKey key <=? samplingThreshold t.

Definition getAgg (h : Z) (t : Telemetry) : keyAgg := default (mkKeyAgg 0 0 0) (agg t !! h).

Definition exporterRecordAdmit (h : Z) (t : Telemetry) : Telemetry :=
  let ka := getAgg h t in
  let c := totals t in
  set_agg (<[h := mkKeyAgg (ka_abs ka +! 1) (ka_net ka) (clock t)]> (agg t))
    (mkTotals (naiveWritesInternal c +! 1) (naiveWritesAll c) (commitRowsInternal c)
       (sumAbsGlobal c +! 1) (sumNetGlobal c)) t.

Definition exporterRecordCommit (h vector : Z) (t : Telemetry) : Telemetry :=
  let ka := getAgg h t in
  let c := totals t in
  let v := if vector <? 0 then neg64 vector else vector in
  set_agg (<[h := mkKeyAgg (ka_abs ka) (ka_net ka +! v) (clock t)]> (agg t))
    (mkTotals (naiveWritesInternal c) (naiveWritesAll c) (commitRowsInternal c)
       (sumAbsGlobal c) (sumNetGlobal c +! v)) t.

Definition exporterObserveBatchInternal (size : Z) (t : Telemetry) : Telemetry :=
  if size >? 0 then
    let c := totals t in
    set_agg (agg t)
      (mkTotals (naiveWritesInternal c) (naiveWritesAll c) (commitRowsInternal c +! size)
         (sumAbsGlobal c) (sumNetGlobal c)) t
  else t.

(** [naiveWritesTotal.Inc()] and [naiveWritesAll.Add(1)]. *)
Definition count_naive (t : Telemetry) : Telemetry :=
  let p := prom t in
  let c := totals t in
  set_agg (agg t)
    (mkTotals (naiveWritesInternal c) (naiveWritesAll c +! 1) (commitRowsInternal c)
       (sumAbsGlobal c) (sumNetGlobal c))
    (set_prom (mkProm (naiveWritesTotal p + 1) (commitsRowsTotal p) (rowsPerBatch p)
                 (commitErrorsTotal p) (keysTracked p) (writeReduction p) (churnRatio p)) t).

Definition churn_ObserveRequest (key : string) (admitted : bool) (t : Telemetry) : Telemetry :=
  if negb (modEnabled t) then t
  else if admitted then
    let t := count_naive t in
    if negb (bool_decide (key = ""%string)) && sampled key t then exporterRecordAdmit (hashKey key) t else t
  else t.

Definition churn_ObserveBatch (size : Z) (t : Telemetry) : Telemetry :=
  if negb (modEnabled t) || (size <=? 0) then t
  else
    let p := prom t in
    exporterObserveBatchInternal size
      (set_prom (mkProm (naiveWritesTotal p) (commitsRowsTotal p + size) (rowsPerBatch p ++ [size])
                   (commitErrorsTotal p) (keysTracked p) (writeReduction p) (churnRatio p)) t).

Definition churn_ObserveCommit (key : string) (vector : Z) (t : Telemetry) : Telemetry :=
  if negb (modEnabled t) || bool_decide (key = ""%string) || (vector =? 0) then t
  else if sampled key t then exporterRecordCommit (hashKey key) vector t else t.

Definition churn_ObserveCommitError (n : Z) (t : Telemetry) : Telemetry :=
  if negb (modEnabled t) || (n <=? 0) then t
  else
    let p := prom t in
    set_prom (mkProm (naiveWritesTotal p) (commitsRowsTotal p) (rowsPerBatch p)
                (commitErrorsTotal p + n) (keysTracked p) (writeReduction p) (churnRatio p)) t.

#[export] Instance telemetry_churn : Churn Telemetry := {
  ObserveRequest := churn_ObserveRequest;
  ObserveCommit := churn_ObserveCommit;
  ObserveBatch := churn_ObserveBatch;
  ObserveCommitError := churn_ObserveCommitError
}.

(** ** Publishing *)
Definition max64 (a b : Z) : Z := if a >? b then a else b.
Definition abs64 (n : Z) : Z := if n <? 0 then neg64 n else n.

(** [agg.Range]: an aggregate idle for two windows is dropped. *)
Definition idle (cutoff : Z) (ka : keyAgg) : bool := (ka_last ka >? 0) && (ka_last ka <? cutoff).
Definition evict_idle (cutoff : Z) (a : gmap Z keyAgg) : gmap Z keyAgg :=
  filter (fun kv => idle cutoff kv.2 = false) a.

Definition snapshot_point (now : Z) (t : Telemetry) : point :=
  let c := totals t in
  mkPoint now (naiveWritesAll c) (commitRowsInternal c) (sumAbsGlobal c) (sumNetGlobal c).

(** [for idx < len(windowPoints) && windowPoints[idx].ts.Before(winStart) { idx++ }] *)
Fixpoint prune (winStart : Z) (ps : list point) : list point :=
  match ps with
  | p :: ps' => if p_ts p <? winStart then prune winStart ps' else ps
  | [] => []
  end.

(** The two readings of the clock of one call; [None] is an index out of range. *)
Definition publishSnapshot (now1 now2 : Z) (t : Telemetry) : option Telemetry :=
  let cfg := currCfg t in
  let idleTTL := Window cfg *! 2 in
  let a := evict_idle (now1 - idleTTL) (agg t) in
  let tracked := Z.of_nat (size a) in
  let pt := snapshot_point now2 t in
  let ps := prune (now2 - Window cfg) (windowPoints t ++ [pt]) in
  old ← idx_get ps 0;
  let dNaive := p_naive pt -! p_naive old in
  let dCommits := p_commits pt -! p_commits old in
  let dAbs := p_sumAbs pt -! p_sumAbs old in
  let dNet := p_sumNet pt -! p_sumNet old in
  let p := prom t in
  Some (set_prom (mkProm (naiveWritesTotal p) (commitsRowsTotal p) (rowsPerBatch p) (commitErrorsTotal p)
                    tracked (dCommits, max64 1 dNaive) (dAbs, max64 1 (abs64 dNet)))
          (set_window ps (set_agg a (totals t) t))).

(** The loop of the exporter: a snapshot per tick, with its clock readings. *)
Fixpoint exporterLoop (ticks : list (Z * Z)) (t : Telemetry) : option Telemetry :=
  match ticks with
  | [] => Some t
  | (now1, now2) :: ticks => t' ← publishSnapshot now1 now2 t; exporterLoop ticks t'
  end.

(** ** Rendering *)
Definition u64_bytes (h : Z) : list Z := rev (PutUint64 h).
Definition shortHash (h n : Z) : string :=
  let n := if n <=? 0 then 8 else n in
  let s := hex_encode (u64_bytes h) in
  if n <? Z.of_nat (String.length s) then String.substring 0 (Z.to_nat n) s else s.

Definition ESC : Z := 27.
Definition ansiReset : list Z := [27; 91; 48; 109].   (* "\x1b[0m" *)
Definition ansiBold : list Z := [27; 91; 49; 109].
Definition ansiRed : list Z := [27; 91; 51; 49; 109].
Definition ansiGreen : list Z := [27; 91; 51; 50; 109].
Definition ansiYellow : list Z := [27; 91; 51; 51; 109].
Definition ansiCyan : list Z := [27; 91; 51; 54; 109].

Definition final_byte (c : Z) : bool := (64 <=? c) && (c <=? 126).

(** The scanner's state: in plain text, after ESC, or inside a CSI sequence. *)
Inductive Scan := Plain | InEsc | InCsi.
Definition scan_byte (s : Scan) (c : Z) : Scan * bool :=
  match s with
  | InEsc => if c =? 91 then (InCsi, false) else if final_byte c then (Plain, false) else (InEsc, false)
  | InCsi => if final_byte c then (Plain, false) else (InCsi, false)
  | Plain => if c =? ESC then (InEsc, false) else (Plain, true)
  end.
Fixpoint visible_from (s : Scan) (bytes : list Z) : Z :=
  match bytes with
  | [] => 0
  | c :: bytes => let '(s', keep) := scan_byte s c in (if keep : bool then 1 else 0) + visible_from s' bytes
  end.
Definition printableLen (bytes : list Z) : Z :=
  if forallb (fun c => negb (c =? ESC)) bytes then Z.of_nat (length bytes) else visible_from Plain bytes.

(** What [renderSimple] prints, and the visible length it remembers; [prev] is
    [None] before the first line. *)
Definition renderSimple (line : list Z) (prev : option Z) : list Z * option Z :=
  let visLen := printableLen line in
  match prev with
  | None => (line, Some visLen)
  | Some prev =>
      let pad := prev - visLen in
      let pad := if pad <? 0 then 0 else pad in
      (13 :: line ++ replicate (Z.to_nat pad) 32, Some visLen)
  end.
