(* ===== verification/ChurnSpec.v ===== *)
(** * What the telemetry reports

    The sampled share of the keys, the KPIs of a window as counts of what was
    observed in it, and the line the exporter overwrites. *)
From Stdlib Require Import QArith Qround.
From S2P Require Import Prelude Worker TfdTypes Durable Churn.

(** ** Sampling *)
Lemma threshold_between rate : (0 < rate)%Q -> (rate < 1)%Q ->
  threshold rate = Z.max 0 (Qfloor (rate * inject_Z M64) - 1) /\ 0 <= Qfloor (rate * inject_Z M64) < M64 + 1.
Proof.
  intros H0 H1. unfold threshold.
  destruct (Qle_bool rate 0) eqn:E0; [apply Qle_bool_iff in E0; by destruct (Qlt_not_le _ _ H0)|].
  destruct (Qle_bool 1 rate) eqn:E1; [apply Qle_bool_iff in E1; by destruct (Qlt_not_le _ _ H1)|].
  set (f := (rate * inject_Z M64)%Q).
  assert (Hf0 : 0 <= Qfloor f).
  { change 0 with (Qfloor 0). apply Qfloor_resp_le. unfold f. apply Qmult_le_0_compat; [by apply Qlt_le_weak|done]. }
  assert (Hf1 : Qfloor f <= M64).
  { rewrite <- (Qfloor_Z M64). apply Qfloor_resp_le. unfold f.
    rewrite <- (Qmult_1_l (inject_Z M64)) at 2. apply Qmult_le_compat_r; [by apply Qlt_le_weak|done]. }
  destruct (Qle_bool 1 f) eqn:E.
  - apply Qle_bool_iff in E. assert (1 <= Qfloor f) by (change 1 with (Qfloor 1); by apply Qfloor_resp_le).
    rewrite u64_id by (unfold inu64; lia). lia.
  - assert (Qfloor f < 1).
    { apply Z.nle_gt. intros Hle. rewrite Zle_Qle in Hle. apply not_true_iff_false in E. apply E, Qle_bool_iff.
      eapply Qle_trans; [exact Hle|apply Qfloor_le]. }
    replace (Qfloor 1) with 1 by done. change (u64 (1 - 1)) with 0. lia.
Qed.

(** The number of hash values a rate is worth. *)
Definition share (rate : Q) : Z := Qfloor (rate * inject_Z M64).

(** Sampling takes the share it was asked for.  Of the 2^64 hash values, the
    ones below the whole part of rate * 2^64 are sampled, for every rate between 0
    and 1 that is worth at least two values; a smaller rate samples nothing. *)
Theorem sampling_share cfg t key :
  (0 < SampleRate cfg)%Q -> (SampleRate cfg < 1)%Q ->
  let n := share (SampleRate cfg) in
  sampled key (Enable cfg t) = (2 <=? n) && (hashKey key <? n).
Proof.
  intros H0 H1 n. destruct (threshold_between _ H0 H1) as [Ht Hn]. fold (share (SampleRate cfg)) in Ht, Hn. fold n in Ht, Hn.
  unfold sampled, Enable, startOrUpdateExporter. cbn [samplingThreshold].
  assert (SampleRate (clamp_config cfg) = SampleRate cfg) as ->.
  { cbn. destruct (Qle_bool (SampleRate cfg) 0) eqn:E0;
      [apply Qle_bool_iff in E0; by destruct (Qlt_not_le _ _ H0)|].
    destruct (Qle_bool 1 (SampleRate cfg)) eqn:E1; [apply Qle_bool_iff in E1; by destruct (Qlt_not_le _ _ H1)|done]. }
  rewrite Ht. pose proof (HashKey_in key) as Hh. unfold hashKey, inu64 in *.
  repeat case_Z; cbn [andb]; lia || done.
Qed.

(** ** The rolling window *)
Inductive TEvent :=
| TRequest (key : string) (admitted : bool)
| TCommit (key : string) (vector : Z)
| TBatch (size : Z)
| TError (n : Z)
| TPublish (now1 now2 : Z).

Definition tstep (e : TEvent) (t : Telemetry) : option Telemetry :=
  match e with
  | TRequest key ok => Some (ObserveRequest key ok t)
  | TCommit key v => Some (ObserveCommit key v t)
  | TBatch n => Some (ObserveBatch n t)
  | TError n => Some (ObserveCommitError n t)
  | TPublish now1 now2 => publishSnapshot now1 now2 t
  end.
Fixpoint trun (es : list TEvent) (t : Telemetry) : option Telemetry :=
  match es with [] => Some t | e :: es => t' ← tstep e t; trun es t' end.

(** What the events of a list add to the counters. *)
Definition thr_sampled (thr : Z) (key : string) : bool :=
  if thr =? 0 then false else hashKey key <=? thr.
Definition admitted_of (e : TEvent) : Z := match e with TRequest _ true => 1 | _ => 0 end.
Definition rows_of (e : TEvent) : Z := match e with TBatch n => Z.max 0 n | _ => 0 end.
Definition abs_of (thr : Z) (e : TEvent) : Z :=
  match e with
  | TRequest key true => if negb (bool_decide (key = ""%string)) && thr_sampled thr key then 1 else 0
  | _ => 0
  end.
Definition net_of (thr : Z) (e : TEvent) : Z :=
  match e with
  | TCommit key v => if negb (bool_decide (key = ""%string)) && thr_sampled thr key then Z.abs v else 0
  | _ => 0
  end.
Definition count (f : TEvent -> Z) (es : list TEvent) : Z := Zsum (f <$> es).

Lemma count_cons f e es : count f (e :: es) = f e + count f es.
Proof. unfold count. cbn. apply Zsum_cons. Qed.
Lemma count_app f es es' : count f (es ++ es') = count f es + count f es'.
Proof. unfold count. by rewrite fmap_app, Zsum_app. Qed.

(** A telemetry state that differs only in what observations may change. *)
Record same_setup (t t' : Telemetry) : Prop := {
  ss_enabled : modEnabled t' = modEnabled t;
  ss_thr : samplingThreshold t' = samplingThreshold t;
  ss_cfg : currCfg t' = currCfg t
}.
#[export] Instance same_setup_preorder : PreOrder same_setup.
Proof. split; [by split|]. intros a b c [] []. split; congruence. Qed.

Record adds (e : TEvent) (t t' : Telemetry) : Prop := {
  ad_setup : same_setup t t';
  ad_naive : naiveWritesAll (totals t') ≡ₘ naiveWritesAll (totals t) + admitted_of e;
  ad_rows : commitRowsInternal (totals t') ≡ₘ commitRowsInternal (totals t) + rows_of e;
  ad_abs : sumAbsGlobal (totals t') ≡ₘ sumAbsGlobal (totals t) + abs_of (samplingThreshold t) e;
  ad_net : sumNetGlobal (totals t') ≡ₘ sumNetGlobal (totals t) + net_of (samplingThreshold t) e
}.

Lemma eqm_plus_0 a : a ≡ₘ a + 0.
Proof. by rewrite Z.add_0_r. Qed.
#[local] Hint Resolve eqm_plus_0 add64_eqm : core.
#[local] Hint Extern 0 (same_setup _ _) => (split; reflexivity) : core.
#[local] Hint Extern 1 (_ ≡ₘ _) => reflexivity : core.

Lemma sampled_thr key t : sampled key t = thr_sampled (samplingThreshold t) key.
Proof. done. Qed.

Lemma request_adds key ok t : modEnabled t = true -> adds (TRequest key ok) t (ObserveRequest key ok t).
Proof.
  intros He. cbn. unfold churn_ObserveRequest. rewrite He. cbn [negb]. destruct ok; [|by split; cbn; auto].
  change (sampled key (count_naive t)) with (thr_sampled (samplingThreshold t) key).
  destruct (negb (bool_decide (key = ""%string)) && thr_sampled (samplingThreshold t) key) eqn:Hs;
    split; cbn; rewrite ?Hs; auto.
Qed.

Lemma commit_adds key v t : modEnabled t = true -> adds (TCommit key v) t (ObserveCommit key v t).
Proof.
  intros He. cbn. unfold churn_ObserveCommit. rewrite He. cbn [negb orb]. rewrite sampled_thr.
  destruct (bool_decide (key = ""%string)) eqn:Hk; [by split; cbn; rewrite ?Hk; auto|].
  destruct (thr_sampled (samplingThreshold t) key) eqn:Hs; cbn [orb].
  - destruct (Z.eqb_spec v 0) as [->|Hv]; [by split; cbn; rewrite ?Hk, ?Hs; cbn; auto|].
    split; cbn; rewrite ?Hk, ?Hs; cbn; auto.
    rewrite add64_eqm. destruct (Z.ltb_spec v 0);
      [rewrite neg64_eqm, Z.abs_neq by lia|rewrite Z.abs_eq by lia]; reflexivity.
  - destruct (v =? 0); split; cbn; rewrite ?Hk, ?Hs; cbn; auto.
Qed.

Lemma batch_adds n t : modEnabled t = true -> adds (TBatch n) t (ObserveBatch n t).
Proof.
  intros He. cbn. unfold churn_ObserveBatch. rewrite He. cbn [negb orb].
  destruct (Z.leb_spec n 0); cbn; unfold exporterObserveBatchInternal.
  - split; cbn; rewrite ?Z.max_l by done; auto.
  - rewrite (proj2 (Z.gtb_lt n 0)) by done. split; cbn; rewrite ?Z.max_r by lia; auto.
Qed.

Lemma error_adds n t : modEnabled t = true -> adds (TError n) t (ObserveCommitError n t).
Proof.
  intros He. cbn. unfold churn_ObserveCommitError. rewrite He. cbn [negb orb].
  destruct (n <=? 0); split; cbn; auto.
Qed.

Lemma publish_adds a b t t' : publishSnapshot a b t = Some t' -> adds (TPublish a b) t t'.
Proof.
  unfold publishSnapshot. destruct (idx_get _ 0) as [old|]; [|done]. intros [= <-].
  split; cbn; auto.
Qed.

Lemma tstep_adds e t t' : modEnabled t = true -> tstep e t = Some t' -> adds e t t'.
Proof.
  intros He. destruct e; cbn [tstep]; [intros [= <-]..|].
  - by apply request_adds.
  - by apply commit_adds.
  - by apply batch_adds.
  - by apply error_adds.
  - by apply publish_adds.
Qed.

(** Events that are not publications leave the window alone. *)
Lemma tstep_window e t t' : (forall a b, e <> TPublish a b) -> tstep e t = Some t' ->
  windowPoints t' = windowPoints t.
Proof.
  intros Hp. destruct e; cbn [tstep]; [intros [= <-]; cbn..|by destruct (Hp now1 now2)].
  - unfold churn_ObserveRequest. destruct (modEnabled t), admitted; cbn [negb]; try done.
    by destruct (_ && _).
  - unfold churn_ObserveCommit. destruct (_ || _); [done|]. by destruct (sampled key t).
  - unfold churn_ObserveBatch, exporterObserveBatchInternal. destruct (_ || _); [done|]. by destruct (_ >? _).
  - unfold churn_ObserveCommitError. by destruct (_ || _).
Qed.

(** Pruning drops a prefix of points before the start of the window. *)
Lemma prune_before s l1 l2 : Forall (fun p => p_ts p < s) l1 -> prune s (l1 ++ l2) = prune s l2.
Proof. induction 1 as [|p l1 Hp Hl IH]; [done|]. cbn. by rewrite (proj2 (Z.ltb_lt _ _) Hp). Qed.

Lemma prune_keeps s p l2 : s <= p_ts p -> prune s (p :: l2) = p :: l2.
Proof. intros H. cbn. by rewrite (proj2 (Z.ltb_ge _ _) H). Qed.

Lemma prune_up_to s l1 p l2 : s <= p_ts p ->
  exists l1', prune s (l1 ++ p :: l2) = l1' ++ p :: l2 /\ (forall q, q ∈ l1' -> q ∈ l1).
Proof.
  intros H. induction l1 as [|q l1 (l1' & IH & Hin)]; cbn [app].
  - exists []. by rewrite prune_keeps.
  - cbn [prune]. destruct (p_ts q <? s).
    + exists l1'. split; [done|]. intros r Hr. right. auto.
    + by exists (q :: l1).
Qed.

Lemma publish_window a b t : 0 <= Window (currCfg t) ->
  exists t', publishSnapshot a b t = Some t' /\
    windowPoints t' = prune (b - Window (currCfg t)) (windowPoints t ++ [snapshot_point b t]).
Proof.
  intros HW. unfold publishSnapshot.
  destruct (prune_up_to (b - Window (currCfg t)) (windowPoints t) (snapshot_point b t) []) as (l & -> & _);
    [cbn; lia|]. destruct (idx_get_Some (l ++ [snapshot_point b t]) 0) as [old ->];
    [rewrite length_app; cbn; lia|]. by eexists.
Qed.

Definition publish_time (e : TEvent) : option Z := match e with TPublish _ b => Some b | _ => None end.

(** A run, its counters, and its window relative to a time. *)
Lemma trun_adds es : forall t, modEnabled t = true -> 0 <= Window (currCfg t) ->
  exists t', trun es t = Some t' /\ same_setup t t' /\
    naiveWritesAll (totals t') ≡ₘ naiveWritesAll (totals t) + count admitted_of es /\
    commitRowsInternal (totals t') ≡ₘ commitRowsInternal (totals t) + count rows_of es /\
    sumAbsGlobal (totals t') ≡ₘ sumAbsGlobal (totals t) + count (abs_of (samplingThreshold t)) es /\
    sumNetGlobal (totals t') ≡ₘ sumNetGlobal (totals t) + count (net_of (samplingThreshold t)) es.
Proof.
  induction es as [|e es IH]; intros t He HW.
  - exists t. unfold count. cbn [fmap list_fmap]. rewrite Zsum_nil, !Z.add_0_r. by split_and!.
  - assert (exists t1, tstep e t = Some t1) as [t1 H1].
    { destruct e; cbn [tstep]; eauto. destruct (publish_window now1 now2 t HW) as (t1 & ? & _). eauto. }
    destruct (tstep_adds e t t1 He H1) as [Hs A1 A2 A3 A4].
    destruct (IH t1) as (t2 & H2 & Hs2 & B1 & B2 & B3 & B4);
      [by rewrite (ss_enabled _ _ Hs)|by rewrite (ss_cfg _ _ Hs)|].
    rewrite (ss_thr _ _ Hs) in B3, B4.
    exists t2. cbn [trun]. rewrite H1, !count_cons, !Z.add_assoc, <- A1, <- A2, <- A3, <- A4.
    split; [done|]. split; [by etrans|done].
Qed.

Lemma trun_app es1 es2 t : trun (es1 ++ es2) t = (t' ← trun es1 t; trun es2 t').
Proof. revert t. induction es1 as [|e es1 IH]; intros t; [done|]. cbn. destruct (tstep e t); [apply IH|done]. Qed.

(** Publications before [s] leave a window of points before [s]. *)
Lemma trun_old s es : forall t t', modEnabled t = true -> 0 <= Window (currCfg t) ->
  Forall (fun e => forall b, publish_time e = Some b -> b < s) es ->
  Forall (fun p => p_ts p < s) (windowPoints t) -> trun es t = Some t' ->
  Forall (fun p => p_ts p < s) (windowPoints t').
Proof.
  induction es as [|e es IH]; intros t t' He HW Hes Hw; cbn [trun]; [by intros [= <-]|].
  apply list.Forall_cons in Hes as [Hev Hes]. destruct (tstep e t) as [t1|] eqn:H1; [|done]. cbn.
  pose proof (ad_setup _ _ _ (tstep_adds e t t1 He H1)) as Hs.
  apply IH; [by rewrite (ss_enabled _ _ Hs)|by rewrite (ss_cfg _ _ Hs)|done|].
  destruct (publish_time e) as [b|] eqn:Hp.
  - destruct e as [| | | |a b']; try done. injection Hp as ->. cbn [tstep] in H1.
    destruct (publish_window a b t HW) as (t1' & H1' & Hwin). rewrite H1 in H1'. injection H1' as <-. rewrite Hwin.
    assert (Hall : Forall (fun p => p_ts p < s) (windowPoints t ++ [snapshot_point b t])).
    { apply Forall_app. split; [done|]. constructor; [|done]. cbn. by apply Hev. }
    clear -Hall. induction Hall as [|p ps Hp Hps IH]; [done|]. cbn. destruct (_ <? _); [done|by constructor].
  - rewrite (tstep_window e t t1); [done| |done]. intros a b ->. done.
Qed.

(** Later publications keep a point that the windows up to [now] contain. *)
Lemma trun_keeps now p es : forall t t' l1 l2, modEnabled t = true -> 0 <= Window (currCfg t) ->
  Forall (fun e => forall b, publish_time e = Some b -> b <= now) es ->
  now - Window (currCfg t) <= p_ts p ->
  windowPoints t = l1 ++ p :: l2 -> Forall (fun q => p_ts q < now - Window (currCfg t)) l1 ->
  trun es t = Some t' ->
  exists l1' l2', windowPoints t' = l1' ++ p :: l2' /\ Forall (fun q => p_ts q < now - Window (currCfg t)) l1'.
Proof.
  induction es as [|e es IH]; intros t t' l1 l2 He HW Hes Hp Hw Hl1; cbn [trun]; [intros [= <-]; eauto|].
  apply list.Forall_cons in Hes as [Hev Hes]. destruct (tstep e t) as [t1|] eqn:H1; [|done]. cbn.
  pose proof (ad_setup _ _ _ (tstep_adds e t t1 He H1)) as Hs. rewrite <- (ss_cfg _ _ Hs) in *.
  assert (exists l1' l2', windowPoints t1 = l1' ++ p :: l2' /\ Forall (fun q => p_ts q < now - Window (currCfg t1)) l1')
    as (l1' & l2' & Hw1 & Hl1').
  { destruct (publish_time e) as [b|] eqn:Hpt.
    - destruct e as [| | | |a b']; try done. injection Hpt as ->. cbn [tstep] in H1.
      destruct (publish_window a b t) as (t1' & H1' & Hwin); [by rewrite <- (ss_cfg _ _ Hs)|].
      rewrite H1 in H1'. injection H1' as <-. rewrite <- (ss_cfg _ _ Hs), Hw, <- app_assoc in Hwin.
      destruct (prune_up_to (b - Window (currCfg t1)) l1 p (l2 ++ [snapshot_point b t])) as (l1' & Hpr & Hin);
        [specialize (Hev b eq_refl); lia|].
      exists l1', (l2 ++ [snapshot_point b t]). split; [by rewrite Hwin|].
      rewrite list.Forall_forall in Hl1 |- *. auto.
    - exists l1, l2. rewrite (tstep_window e t t1); [done| |done]. intros a b ->. done. }
  apply (IH t1 t' l1' l2'); [by rewrite (ss_enabled _ _ Hs)|done..].
Qed.

Lemma count_nonneg f es : (forall e, 0 <= f e) -> 0 <= count f es.
Proof. intros H. apply Zsum_nonneg, Forall_fmap, list.Forall_forall. intros e _. apply H. Qed.
Lemma admitted_nonneg e : 0 <= admitted_of e.
Proof. destruct e as [? []| | | |]; cbn; lia. Qed.
Lemma rows_nonneg e : 0 <= rows_of e.
Proof. destruct e; cbn; lia. Qed.
Lemma abs_nonneg thr e : 0 <= abs_of thr e.
Proof. destruct e as [? []| | | |]; cbn; try lia. destruct (_ && _); lia. Qed.
Lemma net_nonneg thr e : 0 <= net_of thr e.
Proof. destruct e; cbn; try lia. destruct (_ && _); lia. Qed.

(** The difference of two readings of a counter. *)
Lemma delta_count a b n : a ≡ₘ b + n -> 0 <= n < H64 -> a -! b = n.
Proof.
  intros H Hn. unfold sub64. apply wrap64_eq_of; [|unfold in64; lia].
  rewrite H. by replace (b + n - b) with n by lia.
Qed.

Lemma max64_max a b : max64 a b = Z.max a b.
Proof. unfold max64. destruct (Z.gtb_spec a b); lia. Qed.

Lemma publish_totals a b t t' : publishSnapshot a b t = Some t' -> totals t' = totals t.
Proof. unfold publishSnapshot. destruct (idx_get _ 0); [|done]. by intros [= <-]. Qed.

(** What a publication reports, from the oldest point of its window. *)
Lemma publish_kpis a b t old l n1 n2 n3 n4 :
  prune (b - Window (currCfg t)) (windowPoints t ++ [snapshot_point b t]) = old :: l ->
  naiveWritesAll (totals t) ≡ₘ p_naive old + n1 -> commitRowsInternal (totals t) ≡ₘ p_commits old + n2 ->
  sumAbsGlobal (totals t) ≡ₘ p_sumAbs old + n3 -> sumNetGlobal (totals t) ≡ₘ p_sumNet old + n4 ->
  0 <= n1 < H64 -> 0 <= n2 < H64 -> 0 <= n3 < H64 -> 0 <= n4 < H64 ->
  exists t', publishSnapshot a b t = Some t' /\
    writeReduction (prom t') = (n2, Z.max 1 n1) /\ churnRatio (prom t') = (n3, Z.max 1 n4).
Proof.
  intros Hp H1 H2 H3 H4 B1 B2 B3 B4. unfold publishSnapshot. rewrite Hp. cbn [idx_get Z.ltb Z.compare lookup].
  eexists. split; [reflexivity|]. cbn [prom set_prom writeReduction churnRatio p_naive p_commits p_sumAbs p_sumNet snapshot_point].
  rewrite (delta_count _ _ _ H1 B1), (delta_count _ _ _ H2 B2), (delta_count _ _ _ H3 B3), (delta_count _ _ _ H4 B4).
  rewrite !max64_max. unfold abs64. by rewrite (proj2 (Z.ltb_ge n4 0)) by lia.
Qed.

(** C25: the KPIs are those of the window.  Let telemetry be enabled and what is counted
    stay below [2^63].  Let the publication at [b] be the oldest
    one not older than the window when the one at [now] is made.  Then the latter
    reports exactly what was observed in between: committed rows over admitted
    requests, and admitted requests of sampled keys over the absolute vectors
    committed for them, with denominators of at least 1. *)
Theorem kpi_window t es1 a b es2 c now :
  let W := Window (currCfg t) in let thr := samplingThreshold t in
  modEnabled t = true -> 0 <= W ->
  Forall (fun p => p_ts p < now - W) (windowPoints t) ->
  Forall (fun e => forall x, publish_time e = Some x -> x < now - W) es1 -> now - W <= b ->
  Forall (fun e => forall x, publish_time e = Some x -> x <= now) es2 ->
  count admitted_of es2 < H64 -> count rows_of es2 < H64 ->
  count (abs_of thr) es2 < H64 -> count (net_of thr) es2 < H64 ->
  exists t', trun (es1 ++ TPublish a b :: es2 ++ [TPublish c now]) t = Some t' /\
    writeReduction (prom t') = (count rows_of es2, Z.max 1 (count admitted_of es2)) /\
    churnRatio (prom t') = (count (abs_of thr) es2, Z.max 1 (count (net_of thr) es2)).
Proof.
  intros W thr He HW Hw0 H1 Hb H2 C1 C2 C3 C4.
  destruct (trun_adds es1 t He HW) as (t1 & R1 & S1 & _).
  pose proof (trun_old _ es1 t t1 He HW H1 Hw0 R1) as Hold.
  assert (He1 : modEnabled t1 = true) by (by rewrite (ss_enabled _ _ S1)).
  assert (HW1 : Window (currCfg t1) = W) by (by rewrite (ss_cfg _ _ S1)).
  destruct (publish_window a b t1) as (t2 & R2 & Hw2); [by rewrite HW1|].
  pose proof (ad_setup _ _ _ (publish_adds _ _ _ _ R2)) as S2. set (p := snapshot_point b t1) in *.
  destruct (prune_up_to (b - Window (currCfg t1)) (windowPoints t1) p []) as (l1 & Hpr & Hin); [cbn; lia|].
  assert (He2 : modEnabled t2 = true) by (by rewrite (ss_enabled _ _ S2)).
  assert (HW2 : Window (currCfg t2) = W) by (by rewrite (ss_cfg _ _ S2)).
  assert (Hthr : samplingThreshold t2 = thr) by (by rewrite (ss_thr _ _ S2), (ss_thr _ _ S1)).
  destruct (trun_adds es2 t2 He2) as (t3 & R3 & S3 & A1 & A2 & A3 & A4); [by rewrite HW2|].
  rewrite Hthr in A3, A4. rewrite (publish_totals _ _ _ _ R2) in A1, A2, A3, A4.
  assert (Hl1 : Forall (fun q => p_ts q < now - Window (currCfg t2)) l1).
  { rewrite HW2. rewrite list.Forall_forall in Hold |- *. auto. }
  destruct (trun_keeps now p es2 t2 t3 l1 []) as (l1' & l2' & Hw3 & Hl1');
    [done|by rewrite HW2|done|by rewrite HW2|by rewrite Hw2, Hpr|done|done|].
  rewrite HW2 in Hl1'.
  destruct (publish_kpis c now t3 p (l2' ++ [snapshot_point now t3]) (count admitted_of es2)
      (count rows_of es2) (count (abs_of thr) es2) (count (net_of thr) es2)) as (t4 & R4 & K1 & K2).
  - rewrite Hw3, (ss_cfg _ _ S3), HW2, <- app_assoc, (prune_before _ _ _ Hl1'). by apply prune_keeps.
  - done.
  - done.
  - done.
  - done.
  - split; [apply count_nonneg, admitted_nonneg|done].
  - split; [apply count_nonneg, rows_nonneg|done].
  - split; [apply count_nonneg, abs_nonneg|done].
  - split; [apply count_nonneg, net_nonneg|done].
  - exists t4. split; [|done]. rewrite trun_app, R1. cbn [mbind option_bind trun tstep]. rewrite R2.
    cbn [mbind option_bind]. rewrite trun_app, R3. cbn [mbind option_bind trun tstep]. by rewrite R4.
Qed.

(** ** The line that is overwritten *)
Fixpoint scan_end (s : Scan) (bytes : list Z) : Scan :=
  match bytes with [] => s | c :: bytes => scan_end (scan_byte s c).1 bytes end.

Lemma visible_app s l1 l2 : visible_from s (l1 ++ l2) = visible_from s l1 + visible_from (scan_end s l1) l2.
Proof.
  revert s. induction l1 as [|c l1 IH]; intros s; [done|]. cbn [app visible_from scan_end].
  destruct (scan_byte s c) as [s' keep]. cbn [fst]. rewrite IH. lia.
Qed.

Lemma printableLen_visible l : printableLen l = visible_from Plain l.
Proof.
  unfold printableLen. destruct (forallb _ l) eqn:H; [|done].
  induction l as [|c l IH]; [done|]. cbn in H. apply andb_true_iff in H as [Hc Hl].
  cbn [visible_from scan_byte]. destruct (c =? ESC); [done|]. cbn [length]. rewrite Nat2Z.inj_succ, (IH Hl). lia.
Qed.

Lemma visible_nonneg s l : 0 <= visible_from s l.
Proof.
  revert s. induction l as [|c l IH]; intros s; [done|]. cbn. destruct (scan_byte s c) as [s' []]; specialize (IH s'); lia.
Qed.

Lemma visible_spaces n : visible_from Plain (replicate n 32) = Z.of_nat n.
Proof. induction n as [|n IH]; [done|]. cbn [replicate visible_from scan_byte]. change (32 =? ESC) with false. cbn iota beta. lia. Qed.

(** Colours are not visible. *)
Definition coloured (colour : list Z) (txt : list Z) : list Z := ansiBold ++ colour ++ txt ++ ansiReset.
Lemma coloured_visible colour txt : colour ∈ [ansiRed; ansiGreen; ansiYellow; ansiCyan] ->
  scan_end Plain txt = Plain ->
  printableLen (coloured colour txt) = printableLen txt /\ scan_end Plain (coloured colour txt) = Plain.
Proof.
  intros Hc Ht. rewrite !printableLen_visible. unfold coloured.
  assert (Hsc : scan_end Plain colour = Plain /\ visible_from Plain colour = 0)
    by (revert Hc; rewrite !elem_of_cons, elem_of_nil; intros [->|[->|[->|[->|[]]]]]; done).
  destruct Hsc as [Hs Hv]. assert (scan_app : forall l1 l2 s, scan_end s (l1 ++ l2) = scan_end (scan_end s l1) l2)
    by (intros l1 l2; induction l1 as [|c l1 IH]; [done|intros s; apply IH]).
  rewrite !visible_app, !scan_app. change (visible_from Plain ansiBold) with 0.
  change (scan_end Plain ansiBold) with Plain. rewrite Hs, Hv, Ht.
  change (visible_from Plain ansiReset) with 0. split; [lia|done].
Qed.

(** A rendered line wipes out the one before.  After a carriage return the
    exporter prints the line padded to at least the visible length of the line it
    overwrites, whatever colours either has, and remembers the visible length of
    the new line. *)
Theorem overwrite_covers line prev :
  scan_end Plain line = Plain ->
  exists body, renderSimple line (Some prev) = (13 :: line ++ body, Some (printableLen line)) /\
    printableLen (line ++ body) = Z.max prev (printableLen line).
Proof.
  intros Hend. unfold renderSimple. eexists. split; [reflexivity|].
  rewrite !printableLen_visible, visible_app, Hend, visible_spaces.
  pose proof (visible_nonneg Plain line). case_Z; lia.
Qed.

(** ** Witnesses *)
Definition demo_config : Config := mkConfig true (1 # 2) "" 0 100 0 0.
Definition demo_telemetry : Telemetry :=
  Enable demo_config (mkTelemetry false 0 demo_config no_prom ∅ no_totals [] false 5).

Lemma sampling_share_witness :
  sampled "alice" demo_telemetry = (2 <=? 2 ^ 63) && (hashKey "alice" <? 2 ^ 63).
Proof.
  exact (sampling_share demo_config (mkTelemetry false 0 demo_config no_prom ∅ no_totals [] false 5) "alice"
    eq_refl eq_refl).
Defined.

Definition demo_before : list TEvent := [TRequest "alice" true; TPublish 10 10; TRequest "bob" true].
Definition demo_inside : list TEvent :=
  [TRequest "alice" true; TRequest "bob" true; TRequest "carol" false; TPublish 200 200; TBatch 2;
   TCommit "alice" (-3); TError 1].

Lemma kpi_window_witness :
  exists t', trun (demo_before ++ TPublish 150 150 :: demo_inside ++ [TPublish 249 250]) demo_telemetry = Some t' /\
    writeReduction (prom t') = (2, 2) /\
    churnRatio (prom t') = (count (abs_of (samplingThreshold demo_telemetry)) demo_inside,
                            Z.max 1 (count (net_of (samplingThreshold demo_telemetry)) demo_inside)).
Proof.
  apply (kpi_window demo_telemetry demo_before 150 150 demo_inside 249 250).
  - reflexivity.
  - vm_compute. discriminate.
  - constructor.
  - repeat constructor; intros x; try discriminate. intros [= <-]. reflexivity.
  - vm_compute. discriminate.
  - repeat constructor; intros x; try discriminate. intros [= <-]. vm_compute. discriminate.
  - reflexivity.
  - reflexivity.
  - vm_compute. reflexivity.
  - vm_compute. reflexivity.
Defined.

Lemma overwrite_covers_witness :
  exists body, renderSimple (coloured ansiGreen [79; 75]) (Some 5) =
      (13 :: coloured ansiGreen [79; 75] ++ body, Some 2) /\
    printableLen (coloured ansiGreen [79; 75] ++ body) = 5.
Proof. exact (overwrite_covers (coloured ansiGreen [79; 75]) 5 eq_refl). Defined.
