(* ===== verification/ChurnView.v ===== *)
(** * What the exporter shows ([telemetry/churn/exporter.go])

    The ranking of the keys, the two lines of a snapshot with their colours, the
    three ways of printing them and the choice between them.  A [float64] is a
    [spec_float] of the Standard Library, the executable definition of IEEE 754
    with 53 bits of mantissa; only the text that [%.3f] and [%.2f] give it is an
    argument.  The environment is a function, and text is a list of bytes. *)
From Stdlib Require Import Ascii SpecFloat QArith.
From stdpp Require Import sorting pretty.
From S2P Require Import Prelude Worker TfdTypes Durable Churn.

(** ** [float64] *)
Definition f64 (z : Z) : spec_float := binary_normalize 53 1024 z 0 false.
Definition f_div : spec_float -> spec_float -> spec_float := SFdiv 53 1024.
Definition f_sub : spec_float -> spec_float -> spec_float := SFsub 53 1024.
(** The constants of the source: what the decimals are rounded to. *)
Definition f_0_95 : spec_float := f_div (f64 95) (f64 100).
Definition f_0_80 : spec_float := f_div (f64 80) (f64 100).
Definition f_1_5 : spec_float := f_div (f64 15) (f64 10).
Definition f_3_0 : spec_float := f64 3.

(** ** The rows *)
Record row := mkRow { keyHash : Z; row_abs : Z; row_net : Z; churnFactor : spec_float }.

Definition row_of (h : Z) (ka : keyAgg) : row :=
  mkRow h (ka_abs ka) (ka_net ka) (f_div (f64 (ka_abs ka)) (f64 (max64 1 (abs64 (ka_net ka))))).

(** The comparison given to [sort.Slice]. *)
Definition row_less (r1 r2 : row) : bool :=
  if SFeqb (churnFactor r1) (churnFactor r2) then row_abs r1 >? row_abs r2
  else SFltb (churnFactor r2) (churnFactor r1).
Definition row_le (r1 r2 : row) : Prop := row_less r2 r1 = false.
#[export] Instance row_le_dec r1 r2 : Decision (row_le r1 r2).
Proof. unfold row_le. apply _. Defined.

(** [range]: the order in which [agg.Range] goes through what is left. *)
Definition top_rows (range : gmap Z keyAgg -> list (Z * keyAgg)) (topN : Z) (a : gmap Z keyAgg) : list row :=
  let rows := merge_sort row_le (map (fun kv => row_of kv.1 kv.2) (range a)) in
  if Z.of_nat (length rows) >? topN then take (Z.to_nat topN) rows else rows.

(** ** Text *)
Definition bytes (s : string) : list Z := map (fun a => Z.of_N (N_of_ascii a)) (String.list_ascii_of_string s).
Definition newline_byte : list Z := [10].
Definition ansiClearLine : list Z := [27; 91; 50; 75].    (* "\x1b[2K" *)
Definition ansiPrevLines2 : list Z := [27; 91; 50; 70].   (* "\x1b[2F" *)

Definition colorWR (colorOn : bool) (val : spec_float) (txt : list Z) : list Z :=
  if negb colorOn then txt
  else if SFleb f_0_95 val then ansiBold ++ ansiGreen ++ txt ++ ansiReset
  else if SFleb f_0_80 val then ansiYellow ++ txt ++ ansiReset
  else ansiRed ++ txt ++ ansiReset.

Definition colorCF (colorOn : bool) (val : spec_float) (txt : list Z) : list Z :=
  if negb colorOn then txt
  else if SFleb f_3_0 val then ansiBold ++ ansiCyan ++ txt ++ ansiReset
  else if SFleb f_1_5 val then ansiCyan ++ txt ++ ansiReset
  else txt.

(** ** How it is printed *)
Record Mode := mkMode { liveMode : bool; colorOn : bool; ansiSupported : bool }.
Record View := mkView { livePrinted : bool; prevSimpleLen : Z }.
Definition first_view : View := mkView false 0.

Definition renderLive (summary top : list Z) (v : View) : list Z * View :=
  if negb (livePrinted v) then
    (summary ++ newline_byte ++ top ++ newline_byte, mkView true (prevSimpleLen v))
  else
    (ansiPrevLines2 ++ ansiClearLine ++ summary ++ newline_byte ++ ansiClearLine ++ top ++ newline_byte, v).

Definition no_top : list Z := bytes "top key: (none yet)".
Definition simple_line (summary top : list Z) : list Z :=
  if negb (bool_decide (top = [])) && negb (bool_decide (top = no_top)) then summary ++ bytes " | " ++ top
  else summary.
Definition show_simple (summary top : list Z) (v : View) : list Z * View :=
  let '(out, prev) := renderSimple (simple_line summary top) (if livePrinted v then Some (prevSimpleLen v) else None) in
  (out, mkView true (default (prevSimpleLen v) prev)).

(** The multi-line snapshot; [ts] is the time in RFC 3339. *)
Definition print_lines (ts summary top : list Z) : list Z :=
  bytes "[" ++ ts ++ bytes "] " ++ summary ++ newline_byte ++ bytes "  - " ++ top ++ newline_byte.

Definition show (md : Mode) (ts summary top : list Z) (v : View) : list Z * View :=
  if liveMode md then
    if ansiSupported md then renderLive summary top v else show_simple summary top v
  else (print_lines ts summary top, v).

Section snapshot.
Context (range : gmap Z keyAgg -> list (Z * keyAgg)) (fmt3 : spec_float -> list Z) (fmt2 : Q -> list Z).

(** The values of the two gauges. *)
Definition wrWindow (p : Prom) : spec_float :=
  let '(dCommits, b) := writeReduction p in f_sub (f64 1) (f_div (f64 dCommits) (f64 b)).
Definition churnWin (p : Prom) : spec_float :=
  let '(dAbs, b) := churnRatio p in f_div (f64 dAbs) (f64 b).

Definition summary_text (md : Mode) (cfg : Config) (p : Prom) (dNaive dCommits : Z) : list Z :=
  let wrTxt := colorWR (colorOn md) (wrWindow p) (fmt3 (wrWindow p)) in
  let cfTxt := colorCF (colorOn md) (churnWin p) (fmt3 (churnWin p)) in
  bytes "churn summary: global_churn=" ++ cfTxt ++ bytes " write_reduction_est=" ++ wrTxt ++
  bytes " naive=" ++ bytes (pretty dNaive) ++ bytes " commits=" ++ bytes (pretty dCommits) ++
  bytes " sample=" ++ fmt2 (SampleRate cfg) ++ bytes " topN=" ++ bytes (pretty (TopN cfg)).

Definition top_text (md : Mode) (cfg : Config) (rows : list row) : list Z :=
  match rows with
  | [] => no_top
  | first :: _ =>
      bytes "top key=" ++ bytes (shortHash (keyHash first) (KeyHashLen cfg)) ++ bytes " churn=" ++
      colorCF (colorOn md) (churnFactor first) (fmt3 (churnFactor first)) ++
      bytes " abs=" ++ bytes (pretty (row_abs first)) ++ bytes " net=" ++ bytes (pretty (row_net first))
  end.

(** A snapshot and what it prints. *)
Definition publish_and_show (md : Mode) (ts : list Z) (now1 now2 : Z) (t : Telemetry) (v : View) :
    option (Telemetry * (list Z * View)) :=
  let pt := snapshot_point now2 t in
  old ← idx_get (prune (now2 - Window (currCfg t)) (windowPoints t ++ [pt])) 0;
  t' ← publishSnapshot now1 now2 t;
  let rows := top_rows range (TopN (currCfg t)) (agg t') in
  let summary := summary_text md (currCfg t) (prom t') (p_naive pt -! p_naive old) (p_commits pt -! p_commits old) in
  Some (t', show md ts summary (top_text md (currCfg t) rows) v).
End snapshot.

(** [float64(^uint64(0))] is [2^64]. *)
Definition sampleRate (t : Telemetry) : spec_float := f_div (f64 (samplingThreshold t)) (f64 (M64 - 1)).

(** ** The environment *)
Definition lower_ascii (a : ascii) : ascii :=
  let n := N_of_ascii a in if ((65 <=? n) && (n <=? 90))%N then ascii_of_N (n + 32) else a.
(** [strings.ToLower] and [strings.EqualFold], on ASCII. *)
Definition ToLower (s : string) : string :=
  String.string_of_list_ascii (map lower_ascii (String.list_ascii_of_string s)).
Definition EqualFold (s1 s2 : string) : bool := bool_decide (ToLower s1 = ToLower s2).
Fixpoint Contains (s sub : string) : bool :=
  String.prefix sub s || match s with EmptyString => false | String _ s => Contains s sub end.

Definition detectANSISupport (windows : bool) (env : string -> string) : bool :=
  if bool_decide (env "VSA_CHURN_LIVE" = "0") || EqualFold (env "VSA_CHURN_LIVE") "false" then false
  else if negb (bool_decide (env "GOLAND_IDE" = "")) || negb (bool_decide (env "IDEA_INITIAL_DIRECTORY" = "")) then false
  else
    let term := ToLower (env "TERM") in
    if windows then
      if negb (bool_decide (env "WT_SESSION" = "")) || EqualFold (env "ConEmuANSI") "ON" then true
      else Contains term "xterm" || Contains term "ansi"
    else if bool_decide (term = "") then false
    else Contains term "xterm" || Contains term "screen" || Contains term "tmux" || Contains term "ansi".

(** What [startOrUpdateExporter] configures. *)
Definition configure (windows : bool) (env : string -> string) : Mode :=
  let lm := env "VSA_CHURN_LIVE" in
  mkMode (negb (bool_decide (lm = "0") || bool_decide (lm = "false"))) (bool_decide (env "NO_COLOR" = ""))
    (detectANSISupport windows env).
