(* ===== verification/ChurnViewSpec.v ===== *)
(** * The key at the top and the colours

    The comparison of the rows is a total preorder because a churn factor is a
    [float64] that is never negative and never NaN; so the key shown is one of the
    largest factor, whatever the order in which the aggregates were found. *)
From Stdlib Require Import Ascii SpecFloat QArith.
From stdpp Require Import sorting pretty.
From S2P Require Import Prelude Worker TfdTypes Durable Churn ChurnSpec ChurnView.

(** ** Rounding keeps what is positive positive *)
Definition shifted (n : nat) (r : shr_record) : shr_record := Nat.iter n shr_1 r.

Lemma iter_pos_iter (n : positive) (r : shr_record) : SpecFloat.iter_pos shr_1 n r = shifted (Pos.to_nat n) r.
Proof.
  unfold shifted. revert r. induction n as [n IH|n IH|]; intros r; cbn [SpecFloat.iter_pos]; [| |done].
  - rewrite !IH, Pos2Nat.inj_xI, <- Nat.iter_add, <- Nat.iter_succ_r. f_equal. lia.
  - rewrite !IH, Pos2Nat.inj_xO, <- Nat.iter_add. f_equal. lia.
Qed.

Lemma shr_1_nonneg r : 0 <= shr_m r -> 0 <= shr_m (shr_1 r).
Proof. destruct r as [m r s]. cbn. destruct m as [|[p|p|]|[p|p|]]; cbn; lia. Qed.

Lemma shifted_nonneg n r : 0 <= shr_m r -> 0 <= shr_m (shifted n r).
Proof. intros H. induction n as [|n IH]; [done|]. by apply shr_1_nonneg. Qed.

(** Fewer shifts than digits. *)
Lemma shifted_pos n p r s : (n < Pos.to_nat (digits2_pos p))%nat -> 0 < shr_m (shifted n {| shr_m := Zpos p; shr_r := r; shr_s := s |}).
Proof.
  unfold shifted. revert p r s. induction n as [|n IH]; intros p r s Hn; [done|].
  rewrite Nat.iter_succ_r. destruct p as [p|p|]; cbn [shr_1 digits2_pos] in *; [apply IH; lia..|lia].
Qed.

Lemma shr_pos m e n l : 0 < m -> n < Zdigits2 m ->
  0 < shr_m (shr (shr_record_of_loc m l) e n).1.
Proof.
  intros Hm Hn. destruct m as [|p|p]; [lia| |lia]. cbn [Zdigits2] in Hn.
  assert (Hsr : exists r s, shr_record_of_loc (Zpos p) l = {| shr_m := Zpos p; shr_r := r; shr_s := s |})
    by (destruct l as [|[]]; by eexists _, _).
  destruct Hsr as (r & s & ->). destruct n as [|n|n]; cbn [shr fst]; [done| |done].
  rewrite iter_pos_iter. apply shifted_pos. lia.
Qed.

Lemma shr_nonneg m e n l : 0 <= m -> 0 <= shr_m (shr (shr_record_of_loc m l) e n).1.
Proof.
  intros Hm. assert (Hsr : shr_m (shr_record_of_loc m l) = m) by by destruct l as [|[]].
  destruct n as [|n|n]; cbn [shr fst]; rewrite ?iter_pos_iter; try apply shifted_nonneg; by rewrite Hsr.
Qed.

Lemma round_nearest_ge m l : m <= round_nearest_even m l.
Proof. destruct l as [|[]]; cbn; try lia. destruct (Z.even m); lia. Qed.

Lemma digits_pos m : 0 < m -> 0 < Zdigits2 m.
Proof. destruct m; cbn; lia. Qed.

(** A float that is not negative and not NaN. *)
Definition plain_float (f : spec_float) : Prop :=
  match f with S754_zero s | S754_infinity s | S754_finite s _ _ => s = false | S754_nan => False end.
Definition positive_float (f : spec_float) : Prop :=
  match f with S754_infinity s | S754_finite s _ _ => s = false | _ => False end.

Lemma positive_plain f : positive_float f -> plain_float f.
Proof. by destruct f. Qed.

Lemma round_plain m e l : 0 <= m -> plain_float (binary_round_aux 53 1024 false m e l).
Proof.
  intros Hm. unfold binary_round_aux, shr_fexp. destruct (shr (shr_record_of_loc m l) e _) as [r1 e1] eqn:E1.
  pose proof (shr_nonneg m e (fexp 53 1024 (Zdigits2 m + e) - e) l Hm) as H1. rewrite E1 in H1. cbn [fst] in H1.
  set (m2 := round_nearest_even _ _).
  assert (H2 : 0 <= m2) by (pose proof (round_nearest_ge (shr_m r1) (loc_of_shr_record r1)); fold m2 in H; lia).
  destruct (shr (shr_record_of_loc m2 loc_Exact) e1 _) as [r3 e3] eqn:E3.
  pose proof (shr_nonneg m2 e1 (fexp 53 1024 (Zdigits2 m2 + e1) - e1) loc_Exact H2) as H3. rewrite E3 in H3. cbn [fst] in H3.
  destruct (shr_m r3); [done| |lia]. by destruct (_ <=? _).
Qed.

Lemma shift_small m e : 0 < m -> emin 53 1024 <= e -> fexp 53 1024 (Zdigits2 m + e) - e < Zdigits2 m.
Proof. intros Hm%digits_pos He. unfold fexp in *. change (emin 53 1024) with (-1074) in *. lia. Qed.

Lemma shr_exponent r e n : (shr r e n).2 = e + Z.max 0 n.
Proof. destruct n; cbn; lia. Qed.

Lemma round_positive m e l : 0 < m -> emin 53 1024 <= e -> positive_float (binary_round_aux 53 1024 false m e l).
Proof.
  intros Hm He. unfold binary_round_aux, shr_fexp. destruct (shr (shr_record_of_loc m l) e _) as [r1 e1] eqn:E1.
  pose proof (shr_pos m e _ l Hm (shift_small m e Hm He)) as H1.
  pose proof (shr_exponent (shr_record_of_loc m l) e (fexp 53 1024 (Zdigits2 m + e) - e)) as Hx.
  rewrite E1 in H1, Hx. cbn [fst snd] in H1, Hx. set (m2 := round_nearest_even _ _).
  assert (H2 : 0 < m2) by (pose proof (round_nearest_ge (shr_m r1) (loc_of_shr_record r1)); fold m2 in H; lia).
  destruct (shr (shr_record_of_loc m2 loc_Exact) e1 _) as [r3 e3] eqn:E3.
  pose proof (shr_pos m2 e1 _ loc_Exact H2 (shift_small m2 e1 H2 ltac:(lia))) as H3. rewrite E3 in H3. cbn [fst] in H3.
  destruct (shr_m r3); [lia| |lia]. by destruct (_ <=? _).
Qed.

Lemma f64_positive z : 0 < z -> positive_float (f64 z).
Proof.
  intros Hz. unfold f64, binary_normalize. destruct z as [|p|p]; [lia| |lia]. unfold binary_round, shl_align.
  destruct (fexp 53 1024 (Z.pos (digits2_pos p) + 0) - 0) as [|q|q] eqn:E; try (apply round_positive; [done|vm_compute; discriminate]).
  apply round_positive; [done|]. unfold fexp in *. lia.
Qed.

Lemma f64_plain z : 0 <= z -> plain_float (f64 z).
Proof. intros Hz. destruct (Z.eq_dec z 0) as [->|]; [done|]. apply positive_plain, f64_positive. lia. Qed.

Lemma f_div_plain x y : plain_float x -> positive_float y ->
  match x, y with S754_infinity _, S754_infinity _ => False | _, _ => True end -> plain_float (f_div x y).
Proof.
  intros Hx Hy Hi. unfold f_div, SFdiv. destruct x as [s|s| |s m e], y as [s'|s'| |s' m' e']; cbn in Hx, Hy; try done; subst; try done.
  destruct (SFdiv_core_binary _ _ _ _ _ _) as [[mz ez] lz] eqn:E. apply round_plain.
  unfold SFdiv_core_binary in E. set (m1 := match _ with Z0 => _ | _ => _ end) in E.
  assert (Hm1 : 0 <= m1) by (unfold m1; destruct (_ - _); [done|apply Z.shiftl_nonneg; done|done]).
  pose proof (Z.div_pos m1 (Z.pos m') Hm1 ltac:(lia)) as Hq. unfold Z.div in Hq.
  destruct (Z.div_eucl m1 (Z.pos m')) as [q r]. by injection E as <- _ _.
Qed.

(** An [int64] is far from the largest float. *)
Lemma digits_size p : digits2_pos p = Pos.size p.
Proof. induction p as [p IH|p IH|]; cbn; [by rewrite IH..|done]. Qed.

Lemma digits_le m k : 0 < m -> 0 <= k -> m < 2 ^ k -> Zdigits2 m <= k.
Proof.
  intros Hm Hk Hlt. destruct m as [|p|p]; [lia| |lia]. cbn [Zdigits2]. rewrite digits_size.
  pose proof (Pos.size_le p) as Hs. apply Pos2Z.pos_le_pos in Hs. rewrite Pos2Z.inj_pow in Hs.
  rewrite (Pos2Z.inj_xO p) in Hs.
  destruct (Z.le_gt_cases (Z.pos (Pos.size p)) k) as [|Hgt]; [done|].
  pose proof (Z.pow_le_mono_r 2 (k + 1) (Z.pos (Pos.size p)) ltac:(lia) ltac:(lia)) as Hp.
  rewrite Z.pow_add_r in Hp by lia. change (2 ^ 1) with 2 in Hp. lia.
Qed.

Lemma digits_mono m m' : 0 < m -> m <= m' -> Zdigits2 m <= Zdigits2 m'.
Proof.
  intros Hm Hle. apply digits_le; [done|pose proof (digits_pos m' ltac:(lia)); lia|].
  destruct m' as [|p|p]; [lia| |lia]. cbn [Zdigits2]. rewrite digits_size.
  pose proof (Pos.size_gt p) as Hs. apply Pos2Z.pos_lt_pos in Hs. rewrite Pos2Z.inj_pow in Hs. lia.
Qed.

Lemma digits_double m k : 0 < m -> 0 <= k -> Zdigits2 m <= k -> Zdigits2 (m + 1) <= k + 1.
Proof.
  intros Hm Hk Hd. apply digits_le; [lia..|]. rewrite Z.pow_add_r by lia. change (2 ^ 1) with 2.
  destruct m as [|p|p]; [lia| |lia]. cbn [Zdigits2] in Hd. rewrite digits_size in Hd.
  pose proof (Pos.size_gt p) as Hs. apply Pos2Z.pos_lt_pos in Hs. rewrite Pos2Z.inj_pow in Hs.
  pose proof (Z.pow_le_mono_r 2 (Z.pos (Pos.size p)) k ltac:(lia) Hd).
  change (Z.pos 2) with 2 in *. lia.
Qed.

Lemma shifted_le n r : 0 <= shr_m r -> shr_m (shifted n r) <= shr_m r.
Proof.
  intros Hr. unfold shifted. induction n as [|n IH]; [done|].
  change (Nat.iter (S n) shr_1 r) with (shr_1 (Nat.iter n shr_1 r)).
  pose proof (shifted_nonneg n r Hr) as Hn. unfold shifted in Hn.
  destruct (Nat.iter n shr_1 r) as [m b s]. cbn in *. destruct m as [|[p|p|]|[p|p|]]; cbn in *; lia.
Qed.

Lemma shr_le m e n l : 0 <= m -> shr_m (shr (shr_record_of_loc m l) e n).1 <= m.
Proof.
  intros Hm. assert (Hsr : shr_m (shr_record_of_loc m l) = m) by by destruct l as [|[]].
  destruct n as [|n|n]; cbn [shr fst]; rewrite ?iter_pos_iter; [by rewrite Hsr| |by rewrite Hsr].
  rewrite <- Hsr at 2. apply shifted_le. by rewrite Hsr.
Qed.

Lemma round_nearest_le m l : round_nearest_even m l <= m + 1.
Proof. destruct l as [|[]]; cbn; try lia. destruct (Z.even m); lia. Qed.

Definition finite_float (f : spec_float) : Prop := match f with S754_infinity _ | S754_nan => False | _ => True end.

Lemma round_finite m e : 0 < m -> -53 <= e <= 0 -> Zdigits2 m <= 200 ->
  finite_float (binary_round_aux 53 1024 false m e loc_Exact).
Proof.
  intros Hm He Hd. pose proof (round_positive m e loc_Exact Hm ltac:(change (emin 53 1024) with (-1074); lia)) as Hpos. revert Hpos.
  unfold binary_round_aux, shr_fexp. destruct (shr (shr_record_of_loc m loc_Exact) e _) as [r1 e1] eqn:E1.
  pose proof (shr_exponent (shr_record_of_loc m loc_Exact) e (fexp 53 1024 (Zdigits2 m + e) - e)) as Hx.
  pose proof (shr_le m e (fexp 53 1024 (Zdigits2 m + e) - e) loc_Exact ltac:(lia)) as Hle.
  rewrite E1 in Hx, Hle. cbn [fst snd] in Hx, Hle. set (m2 := round_nearest_even _ _).
  assert (H2 : 0 <= m2 <= m + 1).
  { pose proof (round_nearest_le (shr_m r1) (loc_of_shr_record r1)). pose proof (round_nearest_ge (shr_m r1) (loc_of_shr_record r1)).
    pose proof (shr_nonneg m e (fexp 53 1024 (Zdigits2 m + e) - e) loc_Exact ltac:(lia)) as Hn. rewrite E1 in Hn. cbn in Hn. unfold m2. lia. }
  clearbody m2.
  destruct (shr (shr_record_of_loc m2 loc_Exact) e1 _) as [r3 e3] eqn:E3.
  pose proof (shr_exponent (shr_record_of_loc m2 loc_Exact) e1 (fexp 53 1024 (Zdigits2 m2 + e1) - e1)) as Hx3.
  rewrite E3 in Hx3. cbn [snd] in Hx3.
  assert (Hd2 : Zdigits2 m2 <= 201).
  { destruct (Z.eq_dec m2 0) as [->|]; [done|].
    pose proof (digits_mono m2 (m + 1) ltac:(lia) ltac:(lia)). pose proof (digits_double m 200 Hm ltac:(lia) Hd). lia. }
  destruct (shr_m r3); [done| |done]. destruct (Z.leb_spec e3 (1024 - 53)) as [|Hbig]; [done|].
  exfalso. unfold fexp in *. change (emin 53 1024) with (-1074) in *. lia.
Qed.

Lemma f64_finite z : 0 < z < 2 ^ 63 -> finite_float (f64 z).
Proof.
  intros Hz. unfold f64, binary_normalize. destruct z as [|p|p]; [lia| |lia].
  pose proof (digits_le (Z.pos p) 63 ltac:(lia) ltac:(lia) ltac:(lia)) as Hd.
  unfold binary_round, shl_align. cbn [Zdigits2] in Hd.
  destruct (fexp 53 1024 (Z.pos (digits2_pos p) + 0) - 0) as [|q|q] eqn:E.
  - apply round_finite; [done..|cbn [Zdigits2]; lia].
  - apply round_finite; [done..|cbn [Zdigits2]; lia].
  - unfold fexp in *. change (emin 53 1024) with (-1074) in *.
    apply round_finite; [done|pose proof (digits_pos (Z.pos p) ltac:(lia)) as Hp; cbn [Zdigits2] in Hp; lia|].
    apply digits_le; [done..|]. fold (Zpower.shift_pos q p). rewrite shift_pos_correct.
    change (Z.pow_pos 2 q) with (2 ^ Z.pos q).
    pose proof (Z.pow_le_mono_r 2 (Z.pos q) 53 ltac:(lia) ltac:(lia)). nia.
Qed.

(** ** The order of the rows *)

(** [r1] is shown before [r2] or could be: its factor is larger, or they are equal
    and [r1] has counted at least as many requests. *)
Definition not_behind (r1 r2 : row) : Prop :=
  SFltb (churnFactor r2) (churnFactor r1) = true \/
  SFeqb (churnFactor r1) (churnFactor r2) = true /\ row_abs r2 <= row_abs r1.

(** A float that is not negative as three integers in lexicographic order. *)
Definition rank (f : spec_float) : Z * Z * Z :=
  match f with S754_finite _ m e => (1, e, Zpos m) | S754_infinity _ => (2, 0, 0) | _ => (0, 0, 0) end.
Definition rank_lt (x y : Z * Z * Z) : Prop :=
  let '(a, b, c) := x in let '(a', b', c') := y in a < a' \/ a = a' /\ (b < b' \/ b = b' /\ c < c').

Lemma compare_rank f g : plain_float f -> plain_float g ->
  match SFcompare f g with
  | Some Eq => rank f = rank g
  | Some Lt => rank_lt (rank f) (rank g)
  | Some Gt => rank_lt (rank g) (rank f)
  | None => False
  end.
Proof.
  destruct f as [s|s| |s m e], g as [s'|s'| |s' m' e']; cbn; intros Hf Hg; try done; subst; cbn; try lia; try done.
  destruct (Z.compare_spec e e') as [->|He|He]; [|lia..].
  change (Pos.compare_cont Eq m m') with (Pos.compare m m'). destruct (Pos.compare_spec m m') as [->|Hm|Hm]; [done|lia..].
Qed.

(** On such floats the comparison of the source is a total preorder. *)
Definition plain_row (r : row) : Prop := plain_float (churnFactor r).

#[local] Ltac by_rank H1 H2 :=
  let Ha := fresh in let Hb := fresh in
  pose proof (compare_rank _ _ H1 H2) as Ha; pose proof (compare_rank _ _ H2 H1) as Hb;
  unfold row_le, row_less, not_behind, SFeqb, SFltb;
  destruct (rank (churnFactor _)) as [[? ?] ?], (rank (churnFactor _)) as [[? ?] ?];
  destruct (SFcompare _ _) as [[]|], (SFcompare _ _) as [[]|]; cbn in *; simplify_eq;
  try destruct (Z.gtb_spec _ _); intuition (try discriminate; simplify_eq; lia).

Lemma row_le_rank r1 r2 : plain_row r1 -> plain_row r2 ->
  row_le r1 r2 <->
  rank_lt (rank (churnFactor r2)) (rank (churnFactor r1)) \/
  rank (churnFactor r1) = rank (churnFactor r2) /\ row_abs r2 <= row_abs r1.
Proof. intros H1 H2. by_rank H1 H2. Qed.

Lemma row_le_not_behind r1 r2 : plain_row r1 -> plain_row r2 -> row_le r1 r2 <-> not_behind r1 r2.
Proof. intros H1 H2. by_rank H1 H2. Qed.

Lemma row_le_trans r1 r2 r3 : plain_row r1 -> plain_row r2 -> plain_row r3 -> row_le r1 r2 -> row_le r2 r3 -> row_le r1 r3.
Proof.
  intros H1 H2 H3. rewrite !row_le_rank by done.
  destruct (rank (churnFactor r1)) as [[? ?] ?], (rank (churnFactor r2)) as [[? ?] ?], (rank (churnFactor r3)) as [[? ?] ?].
  cbn. intuition (simplify_eq; try lia). right. split; [done|lia].
Qed.

Lemma compare_swap f g : SFcompare g f = option_map CompOpp (SFcompare f g).
Proof.
  destruct f as [[]|[]| |[] m e], g as [[]|[]| |[] m' e']; try done; cbn; rewrite (Z.compare_antisym e e'); destruct (e ?= e'); try done; cbn.
  all: change (Pos.compare_cont Eq m m') with (Pos.compare m m'); change (Pos.compare_cont Eq m' m) with (Pos.compare m' m).
  all: by rewrite (Pos.compare_antisym m m').
Qed.

(** The comparison is total even on NaN, which comes before and after everything. *)
#[export] Instance row_le_total : Total row_le.
Proof.
  intros r1 r2. unfold row_le, row_less, SFeqb, SFltb. rewrite (compare_swap (churnFactor r1) (churnFactor r2)).
  destruct (SFcompare (churnFactor r1) (churnFactor r2)) as [[]|]; cbn; auto.
  destruct (Z.gtb_spec (row_abs r2) (row_abs r1)); auto. destruct (Z.gtb_spec (row_abs r1) (row_abs r2)); auto. lia.
Qed.

Lemma sorted_rows l : Sorted row_le l -> Forall plain_row l -> StronglySorted not_behind l.
Proof.
  intros Hs Hp. induction Hs as [|r l Hs IH Hh]; [constructor|]. inversion Hp as [|? ? Hr Hp']; subst.
  constructor; [by apply IH|]. clear IH Hp.
  revert r Hr Hh. induction Hs as [|r' l Hs IH Hh']; intros r Hr Hh; [constructor|].
  inversion Hp' as [|? ? Hr' Hp]; subst. inversion Hh; subst. constructor; [by apply row_le_not_behind|].
  apply IH; [done..|]. destruct Hh' as [|r'']; constructor. inversion Hp; subst. by apply (row_le_trans r r' r'').
Qed.

(** ** The row of a key whose counters are [int64] and whose count is not negative *)
Lemma abs64_in n : in64 n -> in64 (abs64 n).
Proof. intros Hn. unfold abs64. destruct (n <? 0); [apply neg64_in|done]. Qed.

Lemma plain_row_of h ka : 0 <= ka_abs ka -> in64 (ka_net ka) -> plain_row (row_of h ka).
Proof.
  intros Ha Hn%abs64_in. unfold plain_row, row_of. cbn [churnFactor]. rewrite max64_max.
  assert (Hb : 0 < Z.max 1 (abs64 (ka_net ka)) < 2 ^ 63) by (unfold in64 in Hn; lia).
  pose proof (f64_positive _ (proj1 Hb)) as Hp. pose proof (f64_finite _ Hb) as Hf.
  apply f_div_plain; [by apply f64_plain|done|].
  destruct (f64 (ka_abs ka)), (f64 (Z.max _ _)); done.
Qed.

(** ** What is kept *)
Section kept.
Context (range : gmap Z keyAgg -> list (Z * keyAgg)) (a : gmap Z keyAgg) (Hr : range a ≡ₚ map_to_list a).
Let sorted : list row := merge_sort row_le (map (fun kv => row_of kv.1 kv.2) (range a)).

Lemma sorted_permutation : sorted ≡ₚ map (fun kv => row_of kv.1 kv.2) (map_to_list a).
Proof using Hr. unfold sorted. rewrite merge_sort_Permutation. by apply Permutation_map. Qed.

Lemma sorted_length : length sorted = size a.
Proof using Hr. rewrite sorted_permutation, length_map. apply length_map_to_list. Qed.

Lemma sorted_members r : r ∈ sorted <-> exists h ka, a !! h = Some ka /\ r = row_of h ka.
Proof using Hr.
  rewrite sorted_permutation, list_elem_of_In, in_map_iff. split.
  - intros ([h ka] & <- & Hk). apply list_elem_of_In, elem_of_map_to_list in Hk. eauto.
  - intros (h & ka & Hk & ->). exists (h, ka). split; [done|]. by apply list_elem_of_In, elem_of_map_to_list.
Qed.

Lemma top_rows_take topN : 0 <= topN -> top_rows range topN a = take (Z.to_nat topN) sorted.
Proof.
  intros Hn. unfold top_rows. fold sorted. destruct (Z.gtb_spec (Z.of_nat (length sorted)) topN); [done|].
  by rewrite take_ge by lia.
Qed.

Lemma sorted_strongly : (forall h ka, a !! h = Some ka -> 0 <= ka_abs ka /\ in64 (ka_net ka)) ->
  StronglySorted not_behind sorted.
Proof using Hr.
  intros Ha. apply sorted_rows; [apply Sorted_merge_sort, _|].
  apply Forall_forall. intros r Hm. apply list_elem_of_In, sorted_members in Hm as (h & ka & Hk & ->). destruct (Ha _ _ Hk). by apply plain_row_of.
Qed.
End kept.

(** The rows kept for the top line are the right ones.  Whatever the order in
    which the aggregates are ranged over, with non-negative counts ([int64] sums),
    the exporter keeps as many rows as it is asked for or has keys, each the row of
    a tracked key, sorted with the largest churn factor first (equal factors by
    count), and a key that is left out is not ahead of any that is kept.  The
    factors are IEEE 754 quotients: none of them is NaN. *)
Theorem top_rows_are_the_top range topN a :
  range a ≡ₚ map_to_list a -> 0 <= topN ->
  (forall h ka, a !! h = Some ka -> 0 <= ka_abs ka /\ in64 (ka_net ka)) ->
  let rows := top_rows range topN a in
  length rows = Nat.min (Z.to_nat topN) (size a) /\
  (forall r, r ∈ rows -> exists h ka, a !! h = Some ka /\ r = row_of h ka) /\
  StronglySorted not_behind rows /\
  (forall h ka r, a !! h = Some ka -> r ∈ rows -> row_of h ka ∈ rows \/ not_behind r (row_of h ka)).
Proof.
  intros Hr Hn Ha rows. unfold rows. rewrite (top_rows_take range a topN Hn). clear rows.
  pose proof (sorted_length range a Hr) as Hlen. pose proof (sorted_members range a Hr) as Hin.
  pose proof (sorted_strongly range a Hr Ha) as Hss. cbn zeta in Hlen, Hin, Hss.
  set (l := merge_sort _ _) in *. rewrite <- (take_drop (Z.to_nat topN) l) in Hin, Hss.
  apply StronglySorted_app in Hss as (Hx & Ht & _). split_and!.
  - by rewrite length_take, Hlen.
  - intros r Hm. apply Hin, elem_of_app. by left.
  - done.
  - intros h ka r Hk Hm. assert (Hd : row_of h ka ∈ take (Z.to_nat topN) l ++ drop (Z.to_nat topN) l) by (apply Hin; eauto).
    apply elem_of_app in Hd as [|Hd]; [by left|right; by apply Hx].
Qed.

(** Three keys, two rows: 10/2 and 7/2 are kept, 3/3 is not. *)
Definition three_keys : gmap Z keyAgg := {[ 11 := mkKeyAgg 3 3 0; 22 := mkKeyAgg 10 2 0; 33 := mkKeyAgg 7 (-2) 0 ]}.

Lemma top_rows_are_the_top_witness :
  map keyHash (top_rows map_to_list 2 three_keys) = [22; 33] /\
  StronglySorted not_behind (top_rows map_to_list 2 three_keys).
Proof.
  split; [vm_compute; reflexivity|].
  refine (proj1 (proj2 (proj2 (top_rows_are_the_top map_to_list 2 three_keys ltac:(reflexivity) ltac:(lia) _)))).
  intros h ka Hk. unfold three_keys in Hk.
  repeat first [apply lookup_insert_Some in Hk as [[_ <-]|[_ Hk]] | apply lookup_singleton_Some in Hk as [_ <-]];
    cbn; unfold in64; lia.
Defined.

(** The cut-offs of the colours on the quotients themselves: 3/1 is bold, and the
    nearest float below it is not. *)
Example colour_cutoffs :
  colorCF true (f_div (f64 6) (f64 2)) [51] = ansiBold ++ ansiCyan ++ [51] ++ ansiReset /\
  colorCF true (f_div (f64 3) (f64 2)) [51] = ansiCyan ++ [51] ++ ansiReset /\
  colorCF true (f64 1) [51] = [51] /\
  colorWR true (f_div (f64 19) (f64 20)) [57] = ansiBold ++ ansiGreen ++ [57] ++ ansiReset /\
  colorWR true (f_sub (f64 1) (f_div (f64 1) (f64 5))) [56] = ansiYellow ++ [56] ++ ansiReset /\
  colorWR false (f64 0) [48] = [48].
Proof. vm_compute. done. Qed.

(** [VSA_CHURN_LIVE=FALSE]: the terminal detection takes it for an opt-out of the
    live display and the choice of the mode does not, so that the single-line
    renderer is used; [false] gives the two-line log. *)
Example live_opt_out_cases :
  let env v := fun name => if bool_decide (name = "VSA_CHURN_LIVE") then v else if bool_decide (name = "TERM") then "xterm" else "" in
  configure false (env "") = mkMode true true true /\
  configure false (env "false") = mkMode false true false /\
  configure false (env "FALSE") = mkMode true true false.
Proof. vm_compute. done. Qed.

(** A first publication in live mode, without colours: two requests of one key are
    admitted and one unit is committed for it. *)
Definition text_of (l : list Z) : string := String.string_of_list_ascii (map (fun b => ascii_of_N (Z.to_N b)) l).
Definition demo_env (name : string) : string :=
  if bool_decide (name = "TERM") then "xterm-256color" else if bool_decide (name = "NO_COLOR") then "1" else "".
Definition demo_fmt3 (f : spec_float) : list Z := bytes (if SFeqb f (f64 2) then "2.000" else "0.500").
Definition demo_viewed : Telemetry :=
  churn_ObserveCommit "alice" 1 (churn_ObserveBatch 1
    (churn_ObserveRequest "alice" true (churn_ObserveRequest "alice" true
      (set_window [mkPoint 0 0 0 0 0] demo_telemetry)))).

Example first_snapshot_shown :
  exists t v out, publish_and_show map_to_list demo_fmt3 (fun _ => bytes "0.50") (configure false demo_env) [] 5 6
    demo_viewed first_view = Some (t, (out, v)) /\ livePrinted v = true /\
  text_of out = ("churn summary: global_churn=2.000 write_reduction_est=0.500 naive=2 commits=1 sample=0.50 topN=50" ++
                 String (ascii_of_N 10) ("top key=508b2abb churn=2.000 abs=2 net=1" ++ String (ascii_of_N 10) ""))%string.
Proof. eexists _, _, _. split; [vm_compute; reflexivity|]. vm_compute. done. Qed.
