(* ===== verification/ServiceTelemetry.v ===== *)
(** * The service with its telemetry

    The handlers and the worker over the telemetry of [Churn]: the baseline of the
    write-reduction KPI counts exactly the requests the process admitted. *)
From S2P Require Import Prelude Effects Vsa VsaSpec Counter Store Ledger CoreMetrics Worker WorkerSpec Doubles WorkerProps Api ApiSpec Service Churn ChurnSpec.

Import Spec.

(** Telemetry that is on and has counted [n] admissions. *)
Definition baseline (n : Z) (t : Telemetry) : Prop :=
  modEnabled t = true /\ naiveWritesAll (totals t) ≡ₘ n.

Lemma baseline_step e n t t' : baseline n t -> tstep e t = Some t' -> baseline (n + admitted_of e) t'.
Proof.
  intros [He Hn] Hs. pose proof (tstep_adds e t t' He Hs) as [[H _ _] Ha _ _ _].
  split; [by rewrite H|]. by rewrite Ha, Hn.
Qed.

Lemma baseline_quiet e n t t' : baseline n t -> tstep e t = Some t' -> admitted_of e = 0 -> baseline n t'.
Proof. intros H Hs He. rewrite <- (Z.add_0_r n), <- He. by eapply baseline_step. Qed.

Lemma baseline_record cs n t : baseline n t -> baseline n (record_commits cs t).
Proof.
  intros H. unfold record_commits.
  assert (Hb : baseline n (ObserveBatch (Z.of_nat (length cs)) t)) by (by eapply (baseline_quiet (TBatch _))).
  revert Hb. generalize (ObserveBatch (Z.of_nat (length cs)) t). clear.
  induction cs as [|c cs IH]; intros t Ht; [done|]. cbn. apply IH. by eapply (baseline_quiet (TCommit _ _)).
Qed.

Section service.
Context {A P : Type} {CA : Counter A} {CL : CounterLaws A} {PP : Persister P}.
Implicit Types (B : Books P Telemetry).

Lemma baseline_outcome items B n : baseline n (telemetry B) -> baseline n (telemetry (outcome items B)).
Proof.
  intros H. unfold outcome. destruct items; [done|]. destruct (CommitBatch _ _) as [P' [msg|]]; cbn [telemetry].
  - by eapply (baseline_quiet (TError 1)).
  - by apply baseline_record.
Qed.

Lemma evict_one_telemetry w later key B : telemetry (evict_one w later key B) = telemetry B.
Proof.
  unfold evict_one. destruct (entries (ledger B) !! key) as [p|]; [|done]. cbn.
  destruct (objs (ledger B) !! p) as [o|]; [|done]. cbn.
  destruct (negb (stale w later o)); [done|]. destruct (pending (bal o) =? 0); [done|].
  by destruct (CommitBatch _ _) as [P' [msg|]].
Qed.

Lemma eviction_telemetry w order now later B : telemetry (eviction_cycle w order now later B) = telemetry B.
Proof.
  unfold eviction_cycle. generalize (stale_keys w now order (ledger B)) as keys. intros keys. revert B.
  induction keys as [|key keys IH]; intros B; [done|]. cbn [foldl]. by rewrite IH, evict_one_telemetry.
Qed.

(** The baseline a process reports. *)
Definition reported_baseline (s : Process A P Telemetry) : Z := naiveWritesAll (totals (churn (world s))).

(** The books agree with the process, and the telemetry with its counters. *)
Definition counted (s : Process A P Telemetry) : Prop :=
  exists B m, prep B m s /\ baseline (admits m) (telemetry B).

Lemma counted_event sv w e tr : event_ok e -> triple counted (run_event sv w tr e) (fun s _ => counted s).
Proof.
  intros Hok s (B & m & Hs & Hb). destruct e as [key now|key now|order now|order|order now later]; cbn [run_event event_ok] in *.
  - destruct (decide (key = "")) as [->|Hkey].
    + exists s. eexists. unfold handleCheckRateLimit. rewrite decide_True by done. split; [done|by exists B, m].
    + destruct (handleCheck_ok sv key now B m Hkey s Hs) as (s' & r & He & _ & Hs').
      exists s'. eexists. erewrite bind_Some by done. split; [done|]. eexists _, _. split; [done|].
      cbn [checked telemetry]. unfold count_check, RecordAdmit, RecordAttempt.
      destruct (0 <? units_left (ledger B) key); cbn.
      * destruct (baseline_step (TRequest key true) _ _ _ Hb eq_refl) as [H1 H2]. split; [done|].
        by rewrite add64_eqm.
      * by apply (baseline_quiet (TRequest key false) _ (telemetry B)).
  - destruct (decide (key = "")) as [->|Hkey].
    + exists s. eexists. unfold handleRelease. rewrite decide_True by done. split; [done|by exists B, m].
    + destruct (handleRelease_ok key now B m Hkey s Hs) as (s' & r & He & _ & Hs').
      exists s'. eexists. erewrite bind_Some by done. split; [done|]. eexists _, _. split; [done|].
      by destruct (refundable (ledger B) key).
  - destruct (in_world_wrep _ B _ m (runCommitCycle_ok w order now B Hok) s Hs) as (s' & [] & He & Hs').
    exists s', tr. erewrite bind_Some by done. split; [done|]. eexists _, m. split; [done|].
    by apply baseline_outcome.
  - destruct (in_world_wrep _ B _ m (runFinalFlush_ok order B Hok) s Hs) as (s' & [] & He & Hs').
    exists s', tr. erewrite bind_Some by done. split; [done|]. eexists _, m. split; [done|].
    by apply baseline_outcome.
  - destruct (in_world_wrep _ B _ m (runEvictionCycle_ok w order now later B) s Hs) as (s' & [] & He & Hs').
    exists s', tr. erewrite bind_Some by done. split; [done|]. eexists _, m. split; [done|].
    by rewrite eviction_telemetry.
Qed.

Lemma counted_run sv w evs tr : Forall event_ok evs ->
  triple counted (foldM (run_event sv w) tr evs) (fun s _ => counted s).
Proof.
  intros Hevs. revert tr. induction Hevs as [|e evs He Hevs IH]; intros tr; [by intros s H; exists s, tr|].
  cbn [foldM]. eapply triple_bind; [by apply counted_event|apply IH].
Qed.

(** The telemetry's baseline is the process's.  Over any sequential history of
    requests, commit cycles, flushes and evictions, against any backend, the
    unsampled count of naive writes equals the number of requests admitted. *)
Theorem telemetry_counts_admits sv w s0 (P0 : P) (t0 : Telemetry) evs :
  0 <= s0 < H64 -> modEnabled t0 = true -> naiveWritesAll (totals t0) = 0 -> Forall event_ok evs ->
  exists (s : Process A P Telemetry) tr, run_events sv w evs (service_start s0 P0 t0) = Some (s, tr) /\
    reported_baseline s ≡ₘ admits (metrics s).
Proof.
  intros Hs0 He H0 Hevs.
  destruct (counted_run sv w evs [] Hevs (service_start s0 P0 t0)) as (s & tr & Hr & B & m & Hp & Hb).
  - exists (start_books s0 P0 t0), no_metrics. split; [split; [by apply start_ok|done]|].
    split; [done|]. cbn. by rewrite H0.
  - exists s, tr. split; [exact Hr|].
    unfold reported_baseline. rewrite (wrep_telemetry _ _ (prep_world _ _ _ Hp)), (prep_metrics _ _ _ Hp). apply Hb.
Qed.
End service.

Lemma telemetry_counts_admits_witness :
  exists (s : Process VSA Scripted Telemetry) tr,
    run_events demo_server (demo_worker 0) demo_events (service_start 3 refusing demo_telemetry) = Some (s, tr) /\
    reported_baseline s ≡ₘ admits (metrics s).
Proof.
  apply (telemetry_counts_admits (A := VSA)).
  - lia.
  - vm_compute. reflexivity.
  - vm_compute. reflexivity.
  - exact demo_events_ok.
Defined.
