(* ===== verification/Overlap.v ===== *)
(** * The commit loop among the handlers

    A commit cycle and the final flush of [core/worker.go] hold no lock while
    they run: requests are served between any two of their steps.  Here the pass
    of the loop is cut into the steps the handlers can come between: the visit of
    a key, the call of [CommitBatch] (with the records of the telemetry, which no
    handler reads), and the [Commit] of one instance.  A handler and a visit are
    one step each: after the vector is read, a visit decides on fields that no
    handler uses for an answer. *)
From S2P Require Import Prelude Effects Counter Store CoreMetrics Worker Api Service.

(** A tick of the commit loop, or the flush it ends with. *)
Inductive Pass := PCycle (now : Z) | PFlush.

(** Where the loop is: waiting for a tick, going through the keys, or committing
    the instances of an accepted batch. *)
Inductive Stage :=
| Idle
| Collecting (pass : Pass) (keys : list string) (b : Batch)
| Committing (b : Batch) (i : nat).

Definition busy (st : Stage) : bool := match st with Idle => false | _ => true end.

Inductive OEvent :=
| OCheck (key : string) (now : Z)
| ORelease (key : string) (now : Z)
| OBegin (pass : Pass) (order : list string)   (* received only when the loop waits *)
| OAdvance.                                    (* the loop's next step *)

Section Overlap.
Context {A P C : Type} {CA : Counter A} {PP : Persister P} {CC : Churn C}.

Definition visit_of (w : Worker) (pass : Pass) : Batch -> string -> nat -> SM (Store A) Batch :=
  match pass with PCycle now => commit_visit w now | PFlush => flush_visit end.

(** The pass as the code runs it. *)
Definition run_pass (w : Worker) (pass : Pass) (order : list string) : SM (World A P C) unit :=
  match pass with PCycle now => runCommitCycle w order now | PFlush => runFinalFlush order end.

(** One step. *)
Definition advance (w : Worker) (st : Stage) : SM (World A P C) Stage :=
  match st with
  | Idle => mret Idle
  | Collecting pass (key :: keys) b =>
      b' ← in_store (ForEach [key] (visit_of w pass) b);
      mret (Collecting pass keys b')
  | Collecting _ [] b =>
      match commits b with
      | [] => mret Idle
      | _ => accepted ← send b; mret (if (accepted : bool) then Committing b 0 else Idle)
      end
  | Committing b i =>
      if bool_decide (i < length (vsaToCommit b))%nat
      then in_store (commit_at b i) ;; mret (Committing b (S i))
      else mret Idle
  end.

(** The machine: the loop's stage, the responses, and how many releases came while
    a pass was running. *)
Record OState := mkOState { stage : Stage; trace : Trace; crossing : Z }.
Definition no_events : OState := mkOState Idle [] 0.

Definition overlap_event (sv : Server) (w : Worker) (o : OState) (e : OEvent) : SM (Process A P C) OState :=
  match e with
  | OCheck key now =>
      r ← handleCheckRateLimit sv key now;
      mret (mkOState (stage o) (trace o ++ [(key, r)]) (crossing o))
  | ORelease key now =>
      r ← handleRelease key now;
      mret (mkOState (stage o) (trace o ++ [(key, r)]) (if busy (stage o) then crossing o + 1 else crossing o))
  | OBegin pass order =>
      mret (if busy (stage o) then o else mkOState (Collecting pass order no_batch) (trace o) (crossing o))
  | OAdvance =>
      st ← in_world (advance w (stage o));
      mret (mkOState st (trace o) (crossing o))
  end.

Definition overlap_events (sv : Server) (w : Worker) (es : list OEvent) : SM (Process A P C) OState :=
  foldM (overlap_event sv w) no_events es.

(** The loop, undisturbed, for [n] steps. *)
Fixpoint advances (n : nat) (w : Worker) (st : Stage) : SM (World A P C) Stage :=
  match n with
  | O => mret st
  | S n => st' ← advance w st; advances n w st'
  end.

(** ** Undisturbed, the steps are the pass *)
Lemma advances_idle n w : advances n w Idle = mret Idle.
Proof. induction n as [|n IH]; [done|]. cbn [advances advance]. unfold mbind, SM_bind. cbn. by rewrite IH. Qed.

Lemma advances_S n w st s : advances (S n) w st s =
  match advance w st s with Some (s', st') => advances n w st' s' | None => None end.
Proof. done. Qed.

(** Collecting. *)
Lemma collect_steps w pass keys n b (s : World A P C) :
  advances (length keys + n) w (Collecting pass keys b) s =
  (b' ← in_store (ForEach keys (visit_of w pass) b); advances n w (Collecting pass [] b')) s.
Proof.
  revert b s. induction keys as [|key keys IH]; intros b s; [by destruct s|].
  change (ForEach (key :: keys) (visit_of w pass) b)
    with (acc' ← (actual ← load key; match actual with Some p => visit_of w pass b key p | None => mret b end);
          ForEach keys (visit_of w pass) acc').
  cbn [length Nat.add]. rewrite advances_S. cbn [advance].
  change (ForEach [key] (visit_of w pass) b)
    with (acc' ← (actual ← load key; match actual with Some p => visit_of w pass b key p | None => mret b end);
          mret acc').
  set (v := actual ← load key; _). clearbody v. unfold mbind, SM_bind, in_store, zoom in *.
  destruct (v (store s)) as [[s1 b1]|]; [|done]. cbn. by rewrite IH.
Qed.

(** Committing. *)
Lemma commit_steps w b n i (s : World A P C) :
  (length (vsaToCommit b) = i + n)%nat ->
  advances (S n) w (Committing b i) s =
  (for_each (fun i => in_store (commit_at b i)) (seq i n) ;; mret Idle) s.
Proof.
  revert i s. induction n as [|n IH]; intros i s Hlen; rewrite advances_S; cbn [advance].
  - rewrite bool_decide_false by lia. done.
  - rewrite bool_decide_true by lia. cbn [seq]. unfold for_each. cbn [foldM].
    unfold mbind, SM_bind. destruct (in_store (commit_at b i) s) as [[s1 []]|]; [|done].
    cbn [mret SM_ret]. rewrite (IH (S i) s1) by lia. done.
Qed.

(** A pass that has ended, or panicked, has. *)
Lemma advances_more n n' w st (s : World A P C) r :
  (n <= n')%nat -> advances n w st s = r -> match r with Some (_, st') => st' = Idle | None => True end ->
  advances n' w st s = r.
Proof.
  intros Hle. revert n' st s Hle. induction n as [|n IH]; intros n' st s Hle.
  - cbn. intros <- ->. by rewrite advances_idle.
  - destruct n' as [|n']; [lia|]. rewrite !advances_S. destruct (advance w st s) as [[s1 st1]|]; [|done].
    apply IH. lia.
Qed.

(** A visit adds at most one item, so a batch has no more than the keys visited. *)
Lemma visit_length w pass b k p s s' b' : visit_of w pass b k p s = Some (s', b') ->
  (length (vsaToCommit b') <= S (length (vsaToCommit b)))%nat.
Proof.
  unfold visit_of, commit_visit, flush_visit, when, mbind, SM_bind, mret, SM_ret.
  repeat case_match; intros [= <- <-]; cbn; rewrite ?length_app; cbn; lia.
Qed.

Lemma collected_length w pass keys b s s' b' : ForEach keys (visit_of w pass) b s = Some (s', b') ->
  (length (vsaToCommit b') <= length (vsaToCommit b) + length keys)%nat.
Proof.
  revert b s. induction keys as [|key keys IH]; intros b s; [intros [= <- <-]; lia|].
  unfold ForEach in *. cbn [foldM length]. unfold mbind at 1, SM_bind at 1. unfold load, gets.
  unfold mbind at 1, SM_bind at 1. destruct (counters s !! key) as [p|].
  - destruct (visit_of w pass b key p s) as [[s1 b1]|] eqn:Hv; [|done]. intros H%IH.
    apply visit_length in Hv. lia.
  - cbn. intros H%IH. lia.
Qed.

Lemma run_pass_eq w pass order (s : World A P C) :
  run_pass w pass order s =
  (b ← in_store (ForEach order (visit_of w pass) no_batch); persist_and_commit b) s.
Proof. by destruct pass. Qed.

Lemma persist_steps w pass b n (s : World A P C) : (length (vsaToCommit b) + 2 <= n)%nat ->
  advances n w (Collecting pass [] b) s = (persist_and_commit b ;; mret Idle) s.
Proof.
  intros Hn. destruct n as [|n]; [lia|]. rewrite advances_S. cbn [advance]. unfold persist_and_commit.
  destruct (commits b) as [|c cs]; [cbn [mret SM_ret]; by rewrite advances_idle|].
  unfold mbind, SM_bind. destruct (send b s) as [[s1 [|]]|]; cbn [mret SM_ret]; cbv iota beta; [|by rewrite advances_idle|done].
  apply (advances_more (S (length (vsaToCommit b)))); [lia|by apply commit_steps|].
  unfold mbind, SM_bind. by destruct (for_each _ _ s1) as [[]|].
Qed.
End Overlap.
