(* ===== verification/OverlapSpec.v ===== *)
(** * What survives the interleaving

    The steps of [Overlap], undisturbed, are the pass of [Worker].  Disturbed, a
    pass keeps to a ledger: what an item of a batch lacks when its instance is
    committed is what releases took from it after it was collected, so the backend
    is at most one unit ahead for each of them, and the units left to a key never
    move, so its limit is enforced wherever the steps fall. *)
From S2P Require Import Prelude Effects Vsa VsaSpec Counter Store Ledger CoreMetrics Worker WorkerSpec Doubles WorkerProps Api ApiSpec Service Overlap.
Import Spec.

Section steps.
Context {A P C : Type} {CA : Counter A} {PP : Persister P} {CC : Churn C}.

(** The steps are the pass: left undisturbed, the commit loop cut into steps does
    exactly what [runCommitCycle] or [runFinalFlush] does, panics included, and is
    back to waiting after at most two steps per key and two more. *)
Theorem undisturbed_steps_are_the_pass w pass order n (s : World A P C) :
  (2 * length order + 2 <= n)%nat ->
  advances n w (Collecting pass order no_batch) s = (run_pass w pass order ;; mret Idle) s.
Proof.
  intros Hn. replace n with (length order + (n - length order))%nat by lia. rewrite collect_steps.
  symmetry. eapply bind_eq; [apply run_pass_eq|]. unfold mbind, SM_bind.
  destruct (in_store (ForEach order (visit_of w pass) no_batch) s) as [[s1 b]|] eqn:Hc; [|done].
  unfold in_store, zoom in Hc. destruct (ForEach order _ no_batch (store s)) as [[s2 b2]|] eqn:Hc2; [|done].
  injection Hc as <- <-. rename Hc2 into Hc.
  apply collected_length in Hc. cbn in Hc. rewrite persist_steps by lia. done.
Qed.
End steps.

(** ** What an item of a batch may lack when it is committed *)
Definition pend (L : Ledger) (p : nat) : Z :=
  match objs L !! p with Some o => pending (bal o) | None => 0 end.
Definition lack (L : Ledger) (i : Item) : Z := Z.max 0 (i_vec i - pend L (i_ptr i)).
Definition shortfall (items : list Item) (L : Ledger) : Z := Zsum (lack L <$> items).

Lemma shortfall_nonneg items L : 0 <= shortfall items L.
Proof. apply Zsum_nonneg, Forall_fmap, list.Forall_forall. intros i _. cbn. unfold lack. lia. Qed.

Lemma shortfall_cons i items L : shortfall (i :: items) L = lack L i + shortfall items L.
Proof. unfold shortfall. cbn [fmap list_fmap]. by rewrite Zsum_cons. Qed.

Lemma shortfall_app is1 is2 L : shortfall (is1 ++ is2) L = shortfall is1 L + shortfall is2 L.
Proof. unfold shortfall. by rewrite fmap_app, Zsum_app. Qed.

(** Only the object an item stands for counts. *)
Lemma shortfall_mono items L L' :
  (forall q, q ∈ i_ptr <$> items -> pend L q <= pend L' q) -> shortfall items L' <= shortfall items L.
Proof.
  induction items as [|i items IH]; intros Hp; [done|]. rewrite !shortfall_cons.
  pose proof (Hp (i_ptr i) (list_elem_of_here _ _)). unfold lack at 1 2.
  enough (shortfall items L' <= shortfall items L) by lia. apply IH. intros q Hq. apply Hp. by constructor.
Qed.

Lemma shortfall_drop p d items L L' : NoDup (i_ptr <$> items) -> 0 <= d ->
  (forall q, q <> p -> pend L q <= pend L' q) -> pend L p - d <= pend L' p ->
  shortfall items L' <= shortfall items L + d.
Proof.
  intros Hnd Hd Hq Hp. induction items as [|i items IH]; [cbn; unfold shortfall; cbn; lia|].
  cbn in Hnd. apply list.NoDup_cons in Hnd as [Hi Hnd]. rewrite !shortfall_cons.
  destruct (decide (i_ptr i = p)) as [<-|Hne].
  - enough (shortfall items L' <= shortfall items L) by (unfold lack in *; lia).
    apply shortfall_mono. intros q Hin. apply Hq. by intros ->.
  - specialize (IH Hnd). pose proof (Hq _ Hne). unfold lack in *. lia.
Qed.

(** What a request does to the objects. *)
Lemma pend_upd p f L q : pend (upd p f L) q =
  if decide (p = q) then match objs L !! q with Some o => pending (bal (f o)) | None => 0 end else pend L q.
Proof. unfold pend. rewrite upd_lookup. case_decide; [by destruct (objs L !! q)|done]. Qed.

Lemma pend_get_or_create key now L q : pend (get_or_create key now L).1 q = pend L q.
Proof.
  unfold get_or_create. destruct (entries L !! key) as [p|]; cbn [fst].
  - rewrite pend_upd. unfold pend. case_decide; [by destruct (objs L !! q)|done].
  - unfold pend. cbn. destruct (objs L !! q) as [o|] eqn:Ho; [by rewrite (lookup_app_l_Some _ _ _ _ Ho)|].
    apply lookup_ge_None in Ho. rewrite lookup_app_r by done.
    destruct (q - length (objs L))%nat as [|n]; done.
Qed.

Lemma get_or_create_keeps key now L k p : entries L !! k = Some p -> entries (get_or_create key now L).1 !! k = Some p.
Proof.
  intros Hp. unfold get_or_create. destruct (entries L !! key) eqn:He; [done|]. cbn.
  rewrite lookup_insert_ne; [done|]. intros <-. congruence.
Qed.

Lemma request_spec key now (f : Obj -> Obj) d L : keyed (entries L) (length (objs L)) ->
  (forall o, bal o = found key L -> pending (bal (f o)) = pending (bal o) + d) ->
  let L' := let '(L1, p) := get_or_create key now L in upd p f L1 in
  exists p, (forall q, q <> p -> pend L' q = pend L q) /\ pend L' p = pend L p + d /\
    pending_total L' = pending_total L + d /\
    forall k q, entries L !! k = Some q -> entries L' !! k = Some q.
Proof.
  intros Hk Hf. destruct (get_or_create key now L) as [L1 p] eqn:Hg. cbn zeta. exists p.
  destruct (get_or_create_obj key now L L1 p _ Hk eq_refl Hg) as (o & Hp & He & _ & Hb).
  pose proof (pend_get_or_create key now L) as Hpend. pose proof (get_or_create_pending key now L) as Htot.
  pose proof (get_or_create_keeps key now L) as Hkeep. rewrite Hg in *. cbn [fst] in *.
  assert (Hd : pending (bal (f o)) = pending (bal o) + d) by by apply Hf.
  split_and!.
  - intros q Hq. by rewrite pend_upd, decide_False by done.
  - rewrite pend_upd, decide_True, <- Hpend by done. unfold pend. by rewrite Hp.
  - rewrite (pending_upd p f L1 o Hp), Htot. lia.
  - intros k q Hq. by apply Hkeep.
Qed.

(** The loop never changes what a key has left. *)
Definition same_units (L L' : Ledger) : Prop :=
  entries L' = entries L /\ limit L' = limit L /\ forall q, units <$> objs L' !! q = units <$> objs L !! q.

Lemma same_units_refl L : same_units L L.
Proof. done. Qed.

Lemma same_units_upd p f L : (forall o, units (f o) = units o) -> same_units L (upd p f L).
Proof.
  intros Hf. split_and!; [done..|]. intros q. rewrite upd_lookup. case_decide; [|done].
  destruct (objs L !! q); [|done]. cbn. by rewrite Hf.
Qed.

(** ** The invariant of the machine *)

(** The items a stage has to commit yet. *)
Definition stage_items (st : Stage) (keys : list string) (items : list Item) : Prop :=
  match st with
  | Idle => keys = [] /\ items = []
  | Collecting _ ks b => keys = ks /\ b = batch_of items
  | Committing b n => keys = [] /\ exists all, b = batch_of all /\ items = drop n all /\ (n <= length all)%nat
  end.
(** Those the backend has already accepted. *)
Definition in_flight (st : Stage) (items : list Item) : Z :=
  match st with Committing _ _ => Zsum (i_vec <$> items) | _ => 0 end.

Record pass_ok (L : Ledger) (keys : list string) (items : list Item) : Prop := {
  pk_ptrs : NoDup (i_ptr <$> items);
  pk_items : Forall (fun i => entries L !! i_key i = Some (i_ptr i) /\ 0 <= i_vec i < H64) items;
  pk_keys : NoDup keys;
  pk_new : Forall (fun i => i_key i ∉ keys) items
}.

Definition oevent_ok (e : OEvent) : Prop := match e with OBegin _ order => NoDup order | _ => True end.

Section machine.
Context {A P C : Type} {CA : Counter A} {CL : CounterLaws A} {PP : Persister P} {PL : PersisterLaws P}
  {CC : Worker.Churn C}.
Implicit Types (B : Books P C).

Record books_ok (over : Z) (keys : list string) (items : list Item) (B : Books P C) (m : Metrics) (st : Stage)
    (crossed : Z) : Prop := {
  bk_stage : stage_items st keys items;
  bk_pass : pass_ok (ledger B) keys items;
  bk_over : 0 <= over;
  bk_bound : over + shortfall items (ledger B) <= crossed;
  bk_units : admits m - refunds m + over ≡ₘ
    accepted_units (backend B) + (pending_total (ledger B) - in_flight st items)
}.

(** A request, whatever the loop is doing. *)
Lemma books_request over keys items B B' m m' st crossed crossed' key now f d :
  keyed (entries (ledger B)) (length (objs (ledger B))) -> books_ok over keys items B m st crossed ->
  ledger B' = (let '(L1, p) := get_or_create key now (ledger B) in upd p f L1) -> backend B' = backend B ->
  (forall o, bal o = found key (ledger B) -> pending (bal (f o)) = pending (bal o) + d) ->
  admits m' - refunds m' ≡ₘ admits m - refunds m + d ->
  (if busy st then crossed + Z.max 0 (- d) else crossed) <= crossed' ->
  books_ok over keys items B' m' st crossed'.
Proof.
  intros Hk [Hst [Hnd Hit Hks Hnew] Hov Hb Hu] HL HB Hf Hm Hc.
  destruct (request_spec key now f d (ledger B) Hk Hf) as (p & Hoth & Hp & Htot & Hent). rewrite <- HL in *.
  split; [done| |done| |].
  - split; [done| |done|done]. eapply list.Forall_impl; [exact Hit|]. intros i [Hi ?]. split; [by apply Hent|done].
  - destruct st as [|pass ks b|b n]; cbn [busy] in Hc; [destruct Hst as [_ ->]; cbn in *; unfold shortfall in *; cbn in *; lia|..].
    all: enough (shortfall items (ledger B') <= shortfall items (ledger B) + Z.max 0 (- d)) by lia.
    all: apply (shortfall_drop p); [done|lia|intros q Hq; by rewrite Hoth|lia].
  - rewrite HB, Htot. replace (admits m' - refunds m' + over) with (over + (admits m' - refunds m')) by lia.
    rewrite Hm. replace (over + (admits m - refunds m + d)) with (admits m - refunds m + over + d) by lia.
    rewrite Hu. eqm_lia.
Qed.

(** The visit of one key. *)
Lemma visit_of_spec w pass : exists sel g,
  visit_spec (A := A) (visit_of w pass) sel g /\ (forall o, bal (g o) = bal o) /\
  (forall o v, sel o = Some v -> v = pending (bal o) /\ (0 < commitThreshold w -> v <> 0)).
Proof.
  destruct pass as [now|].
  - exists (select_due w now), (scanned w now). split_and!; [apply commit_visit_spec|apply scanned_bal|].
    unfold select_due, due, by_threshold, by_age. intros o v.
    destruct (Z.leb_spec (commitThreshold w) (pending (bal o))), (Z.eqb_spec (pending (bal o)) 0);
      cbn [andb orb negb]; rewrite ?andb_false_r; cbn [andb orb]; try done; case_match; intros [= <-]; (split; [done|lia]).
  - exists select_pending, id. split_and!; [apply flush_visit_spec|done|].
    unfold select_pending. intros o v. destruct (Z.eqb_spec (pending (bal o)) 0); [done|]. by intros [= <-].
Qed.

Lemma visit_one_ok visit sel g key b L : visit_spec visit sel g ->
  triple (rep L) (ForEach [key] visit b) (fun s b' =>
    match entries L !! key with
    | None => rep L s /\ b' = b
    | Some p => exists o, objs L !! p = Some o /\ rep (upd p g L) s /\
        b' = match sel o with Some v => append b key p v | None => b end
    end).
Proof.
  intros Hv s Hs. unfold ForEach. cbn [foldM]. destruct (load_ok key L s Hs) as (s1 & ? & He & -> & Hs1).
  unfold mbind, SM_bind. rewrite He. destruct (entries L !! key) as [p|] eqn:Hp; [|by exists s1, b].
  destruct (rep_entry L s key p Hs Hp) as [o Ho].
  destruct (Hv L b key p o Ho s1 Hs1) as (s2 & b2 & He2 & Hs2 & ->). rewrite He2.
  eexists s2, _. split; [done|]. by exists o.
Qed.

Lemma pend_upd_same p g L q : (forall o, bal (g o) = bal o) -> pend (upd p g L) q = pend L q.
Proof. intros Hg. rewrite pend_upd. unfold pend. case_decide; [|done]. destruct (objs L !! q); by rewrite ?Hg. Qed.

Lemma shortfall_ext items L L' : (forall q, pend L' q = pend L q) -> shortfall items L' = shortfall items L.
Proof. intros Hp. apply Z.le_antisymm; apply shortfall_mono; intros q _; by rewrite Hp. Qed.

Lemma pass_visited w pass key keys items B (w0 : World A P C) :
  wrep B w0 -> pass_ok (ledger B) (key :: keys) items ->
  exists w1 B1 items1, in_store (ForEach [key] (visit_of w pass) (batch_of items)) w0 = Some (w1, batch_of items1) /\
    wrep B1 w1 /\ backend B1 = backend B /\ pass_ok (ledger B1) keys items1 /\
    shortfall items1 (ledger B1) = shortfall items (ledger B) /\
    pending_total (ledger B1) = pending_total (ledger B) /\ same_units (ledger B) (ledger B1).
Proof.
  intros Hw [Hnd Hit Hks Hnew]. apply list.NoDup_cons in Hks as [Hkey Hks].
  assert (Hnew' : Forall (fun i => i_key i ∉ keys) items) by (eapply list.Forall_impl; [exact Hnew|]; set_solver).
  destruct (visit_of_spec w pass) as (sel & g & Hv & Hg & Hsel).
  destruct (in_store_ok _ B _ (visit_one_ok _ sel g key (batch_of items) (ledger B) Hv) w0 Hw)
    as (w1 & b1 & He & Hr & Hb & Ht).
  destruct (entries (ledger B) !! key) as [p|] eqn:Hp.
  - destruct Hr as (o & Ho & Hr & ->). set (L1 := upd p g (ledger B)) in *.
    assert (Hpend : forall q, pend L1 q = pend (ledger B) q) by (intros q; by apply pend_upd_same).
    assert (Htot : pending_total L1 = pending_total (ledger B)) by (by apply (pending_scan g [p])).
    assert (Hun : same_units (ledger B) L1) by (apply same_units_upd; intros o'; unfold units; by rewrite Hg).
    assert (Hfresh : p ∉ i_ptr <$> items).
    { intros (i & -> & Hi)%list_elem_of_fmap. rewrite list.Forall_forall in Hit, Hnew.
      destruct (Hit i Hi) as [Hei _]. apply (Hnew i Hi). rewrite (keyed_inj _ _ (wrep_keyed _ _ Hw) _ _ _ Hei Hp). set_solver. }
    destruct (sel o) as [v|] eqn:Hs.
    + rewrite append_batch in He. eexists w1, (mkBooks L1 (backend B) (telemetry B)), _. split; [exact He|].
      apply Hsel in Hs as [-> _]. destruct (rep_in_budget _ _ p o (wrep_rep _ _ Hw) Ho).
      split_and!; [by split|done| | |done|done]; cbn [ledger].
      * split; [rewrite fmap_app; apply list.NoDup_app; split_and!; [done|set_solver|apply NoDup_singleton]| |done|].
        -- apply list.Forall_app. split; [done|]. constructor; [|done]. cbn. split; [done|lia].
        -- apply list.Forall_app. split; [done|]. by constructor.
      * rewrite shortfall_app, (shortfall_ext items _ _ Hpend), shortfall_cons. unfold lack. cbn [i_vec i_ptr].
        rewrite Hpend. unfold pend. rewrite Ho. unfold shortfall. cbn. unfold Zsum. cbn. lia.
    + eexists w1, (mkBooks L1 (backend B) (telemetry B)), items. split; [exact He|].
      split_and!; [by split|done|by split|by apply shortfall_ext|done|done].
  - destruct Hr as [Hr ->]. exists w1, B, items. split_and!; try done; by split.
Qed.

(** The steps of the loop, on the books. *)
Definition steps_to (B0 : Books P C) (over : Z) (B : Books P C) (m : Metrics) (st : Stage) (crossed : Z)
    (w : World A P C) : Prop :=
  wrep B w /\ same_units (ledger B0) (ledger B) /\ exists keys items, books_ok over keys items B m st crossed.

Lemma advance_persist w over pass items B m crossed (w0 : World A P C) :
  wrep B w0 -> books_ok over [] items B m (Collecting pass [] (batch_of items)) crossed ->
  exists w1 st B1, advance w (Collecting pass [] (batch_of items)) w0 = Some (w1, st) /\ steps_to B over B1 m st crossed w1.
Proof.
  intros Hw [_ Hp Hov Hb Hu]. cbn [advance]. destruct items as [|i0 items0] eqn:Hi.
  { exists w0, Idle, B. split; [done|]. split_and!; [done..|]. by exists [], []. }
  rewrite <- Hi in *. change (commits (batch_of items)) with (commits_of items).
  replace (commits_of items) with (mkCommit (i_key i0) (i_vec i0) :: commits_of items0) by by rewrite Hi.
  destruct (send_ok items B w0 Hw) as (w1 & acc & He & H1 & ->). erewrite bind_Some by done.
  eexists w1, _, (sent items B). split; [reflexivity|]. split; [done|]. unfold sent.
  pose proof (pk_items _ _ _ Hp) as Hit. cbn [in_flight] in Hu.
  destruct (CommitBatch (commits_of items) (backend B)) as [P' err] eqn:HP. apply accepted_units_ok in HP; cycle 1.
  { unfold commits_of. apply Forall_fmap. eapply list.Forall_impl; [exact Hit|]. by intros i [_ ?]. }
  destruct err as [msg|]; cbn [snd]; (split; [done|]).
  - rewrite bool_decide_false by done. exists [], []. pose proof (shortfall_nonneg items (ledger B)).
    split; [done|by destruct Hp; split; constructor|done|unfold shortfall; cbn; unfold Zsum; cbn; lia|].
    cbn [ledger backend in_flight]. rewrite Hu, HP. eqm_lia.
  - rewrite bool_decide_true by done. exists [], items. split; [split; [done|]; by exists items; split_and!; [..|lia]|by destruct Hp; split|done|done|].
    cbn [ledger backend in_flight]. rewrite Hu, HP.
    replace (Vector <$> commits_of items) with (i_vec <$> items) by (unfold commits_of; by rewrite <- list_fmap_compose).
    eqm_lia.
Qed.

Lemma advance_commit w over all n B m crossed (w0 : World A P C) :
  wrep B w0 -> books_ok over [] (drop n all) B m (Committing (batch_of all) n) crossed ->
  exists w1 st B1 over1, advance w (Committing (batch_of all) n) w0 = Some (w1, st) /\ steps_to B over1 B1 m st crossed w1.
Proof.
  intros Hw [_ Hp Hov Hb Hu]. cbn [advance]. cbn [vsaToCommit batch_of]. rewrite length_fmap.
  case_bool_decide as Hn; cycle 1.
  { exists w0, Idle, B, over. split; [done|]. split_and!; [done..|]. rewrite drop_ge in * by lia. by exists [], []. }
  destruct (lookup_lt_is_Some_2 all n Hn) as [i Hi].
  rewrite (drop_S all i n Hi) in Hp, Hb, Hu. cbn [in_flight] in Hu. cbn [fmap list_fmap] in Hu. rewrite Zsum_cons in Hu.
  destruct Hp as [Hnd Hit _ _]. cbn in Hnd. apply list.NoDup_cons in Hnd as [Hp Hnd].
  inversion_clear Hit as [|?? [He Hv] Hrest]. rewrite shortfall_cons in Hb.
  destruct (rep_entry _ _ _ _ (wrep_rep _ _ Hw) He) as [o Ho].
  destruct (in_store_ok _ B _ (Commit_ok (i_ptr i) (ledger B) o (i_vec i) Ho Hv) w0 Hw) as (w1 & [] & He1 & Hr1 & Hb1 & Ht1).
  unfold commit_at. cbn [vsaToCommit vectorsToCommit batch_of]. rewrite !list_lookup_fmap, Hi. cbn [fmap option_fmap option_map].
  erewrite bind_Some by done. set (L1 := upd (i_ptr i) (on_bal (settle (i_vec i))) (ledger B)) in *.
  exists w1, (Committing (batch_of all) (S n)), (mkBooks L1 (backend B) (telemetry B)), (over + lack (ledger B) i).
  split; [done|]. split; [by split|].
  split; [apply same_units_upd; intros o'; unfold units; cbn; lia|]. exists [], (drop (S n) all).
  assert (Hsame : shortfall (drop (S n) all) L1 = shortfall (drop (S n) all) (ledger B)).
  { apply Z.le_antisymm; apply shortfall_mono; intros q Hq; unfold L1; rewrite pend_upd, decide_False by (intros <-; done); done. }
  assert (Htot : pending_total L1 = pending_total (ledger B) - Z.min (i_vec i) (pending (bal o))).
  { unfold L1. rewrite (pending_upd _ _ _ _ Ho). cbn. lia. }
  assert (Hlack : lack (ledger B) i = Z.max 0 (i_vec i - pending (bal o))) by (unfold lack, pend; by rewrite Ho).
  split; cbn [ledger backend].
  - split; [done|]. exists all. split_and!; [done..|lia].
  - split; [done|done|constructor|]. apply list.Forall_forall. set_solver.
  - lia.
  - rewrite Hsame. lia.
  - cbn [in_flight]. rewrite Htot, Hlack, Z.add_assoc, Hu. eqm_lia.
Qed.

Lemma advance_ok w over keys items B m st crossed (w0 : World A P C) :
  wrep B w0 -> books_ok over keys items B m st crossed ->
  exists w1 st1 B1 over1, advance w st w0 = Some (w1, st1) /\ steps_to B over1 B1 m st1 crossed w1.
Proof.
  intros Hw Hok. pose proof (bk_stage _ _ _ _ _ _ _ Hok) as Hst. destruct st as [|pass ks b|b n].
  - exists w0, Idle, B, over. split; [done|]. split_and!; [done..|]. by exists keys, items.
  - destruct Hst as [-> ->]. destruct ks as [|key ks].
    { destruct (advance_persist w over pass items B m crossed w0 Hw Hok) as (w1 & st1 & B1 & He & Hs).
      by exists w1, st1, B1, over. }
    destruct Hok as [_ Hp Hov Hb Hu].
    destruct (pass_visited w pass key ks items B w0 Hw Hp) as (w1 & B1 & items1 & He & Hw1 & HB & Hp1 & Hsf & Htot & Hun).
    exists w1, (Collecting pass ks (batch_of items1)), B1, over. cbn [advance]. erewrite bind_Some by done.
    split; [done|]. split_and!; [done..|]. exists ks, items1. split; [done|done|done|lia|].
    cbn [in_flight] in *. by rewrite HB, Htot.
  - destruct Hst as [-> (all & -> & -> & _)]. by eapply advance_commit.
Qed.

(** What an event does to the books and to the responses. *)
Definition effect (sv : Server) (e : OEvent) (o o' : OState) B B' : Prop :=
  match e with
  | OCheck key now =>
      if decide (key = "") then B' = B /\ trace o' = trace o ++ [(key, http_Error "API key is required" 400)]
      else B' = checked key now B /\ trace o' = trace o ++ [(key, check_response sv (units_left (ledger B) key))]
  | ORelease _ _ => True
  | _ => trace o' = trace o /\ same_units (ledger B) (ledger B')
  end.

Definition machine_at (o : OState) B m (s : Process A P C) : Prop :=
  prep B m s /\ exists over keys items, books_ok over keys items B m (stage o) (crossing o).

Lemma overlap_event_ok sv w o e B m (s : Process A P C) :
  machine_at o B m s -> oevent_ok e ->
  exists s' o' B' m', overlap_event sv w o e s = Some (s', o') /\ machine_at o' B' m' s' /\ effect sv e o o' B B'.
Proof.
  intros (Hs & over & keys & items & Hok) He. pose proof (prep_keyed _ _ _ Hs) as Hk.
  destruct e as [key now|key now|pass order|]; cbn [overlap_event oevent_ok effect] in *.
  - destruct (decide (key = "")) as [->|Hkey].
    { eexists s, _, B, m. split; [done|]. split; [|done]. split; [done|]. by exists over, keys, items. }
    destruct (handleCheck_ok sv key now B m Hkey s Hs) as (s1 & r & He1 & -> & Hs1). erewrite bind_Some by done.
    eexists s1, _, _, _. split; [done|]. split; [|done]. split; [done|]. exists over, keys, items. cbn [stage crossing].
    pose proof (rep_range _ _ (wrep_rep _ _ (prep_world _ _ _ Hs))) as Hlim.
    eapply (books_request over keys items B); [done|done|done|done| |apply count_check_net|].
    + intros o'. apply consumed_pending. lia.
    + destruct (busy (stage o)), (0 <? units_left (ledger B) key); lia.
  - destruct (decide (key = "")) as [->|Hkey].
    { eexists s, _, B, m. split; [done|]. split; [|done]. split; [done|]. exists over, keys, items.
      destruct Hok as [? ? ? ? ?]. split; try done. cbn. destruct (busy (stage o)); lia. }
    destruct (handleRelease_ok key now B m Hkey s Hs) as (s1 & r & He1 & -> & Hs1). erewrite bind_Some by done.
    eexists s1, _, _, _. split; [done|]. split; [|done]. split; [done|]. exists over, keys, items. cbn [stage crossing].
    eapply (books_request over keys items B); [done|done|done|done| |apply count_release_net|].
    + intros o'. apply refunded_pending.
    + destruct (busy (stage o)), (refundable (ledger B) key); lia.
  - eexists s, _, B, m. split; [done|]. destruct (busy (stage o)) eqn:Hb.
    { split; [|done]. split; [done|]. by exists over, keys, items. }
    split; [|done]. split; [done|]. exists over, order, []. destruct Hok as [Hst _ Hov Hbd Hu].
    destruct (stage o); try done. destruct Hst as [-> ->].
    split; cbn; [done|split; first [by constructor|done]|done|done|done].
  - destruct (advance_ok w over keys items B m _ _ _ (prep_world _ _ _ Hs) Hok)
      as (w1 & st1 & B1 & over1 & He1 & Hw1 & Hun & keys1 & items1 & Hok1).
    eexists (mkProcess w1 (metrics s)), _, B1, m. unfold in_world, zoom, mbind, SM_bind. rewrite He1. split; [done|].
    split; [|done]. split; [split; [done|apply Hs]|]. by exists over1, keys1, items1.
Qed.

Lemma machine_start s0 (P0 : P) (C0 : C) : 0 <= s0 < H64 -> accepted_units P0 = 0 ->
  machine_at no_events (start_books s0 P0 C0) no_metrics (service_start s0 P0 C0).
Proof.
  intros Hs0 H0. split; [split; [by apply start_ok|done]|]. exists 0, [], [].
  split; cbn; [done|split; by constructor|done|done|]. by rewrite H0.
Qed.

(** A pass of the commit loop among requests.  Whatever checks and releases come
    between the steps of commit cycles and flushes, and whatever the backend
    answers: nothing panics, and whenever the loop waits, the units admitted and not
    refunded are those the backend accepted and those pending in memory, but for an
    overcharge that is never negative and at most the number of releases that came
    while a pass was running; without such a release not a unit is lost or charged
    twice (counts modulo [2^64]). *)
Theorem overlapped_passes_conserve sv w s0 (P0 : P) (C0 : C) es :
  0 <= s0 < H64 -> accepted_units P0 = 0 -> Forall oevent_ok es ->
  exists (s : Process A P C) o B over, overlap_events sv w es (service_start s0 P0 C0) = Some (s, o) /\
    wrep B (world s) /\ 0 <= over <= crossing o /\
    (stage o = Idle -> admits (metrics s) - refunds (metrics s) + over ≡ₘ
      accepted_units (persister (world s)) + pending_total (ledger B)).
Proof.
  intros Hs0 H0 Hes. unfold overlap_events.
  destruct (triple_foldM (overlap_event sv w) (fun _ s o => exists B m, machine_at o B m s) es no_events)
    with (s := (service_start s0 P0 C0 : Process A P C)) as (s & o & He & B & m & Hs & over & keys & items & [Hst Hp Hov Hb Hu]).
  - intros seen e rest o -> s (B & m & Hinv). apply list.Forall_app in Hes as [_ Hes]. inversion_clear Hes.
    destruct (overlap_event_ok sv w o e B m s Hinv) as (s' & o' & B' & m' & He & Hinv' & _); [done|].
    exists s', o'. split; [done|]. by exists B', m'.
  - by eexists _, _; apply machine_start.
  - exists s, o, B, over. split; [done|]. split; [apply Hs|]. pose proof (shortfall_nonneg items (ledger B)).
    split; [lia|]. intros Hi. rewrite Hi in Hu. cbn [in_flight] in Hu.
    rewrite (prep_metrics _ _ _ Hs), (wrep_backend _ _ (prep_world _ _ _ Hs)), Hu. by rewrite Z.sub_0_r.
Qed.

(** The checks among the events. *)
Definition check_event (e : OEvent) : option Event :=
  match e with OCheck key now => Some (ECheck key now) | _ => None end.
Definition no_release (e : OEvent) : Prop := match e with ORelease _ _ => False | _ => True end.

Lemma spent_same s0 B B' tr evs : same_units (ledger B) (ledger B') -> spent s0 B tr evs -> spent s0 B' tr evs.
Proof.
  intros (He & Hl & Hu) [Hlim Hsp]. split; [congruence|]. intros k Hk. destruct (Hsp k Hk) as [H1 H2].
  by rewrite (units_left_same (ledger B) (ledger B') k He Hl Hu).
Qed.

Lemma spent_effect sv s0 e o o' B B' m (s : Process A P C) seen :
  prep B m s -> effect sv e o o' B B' -> no_release e -> spent s0 B (trace o) (omap check_event seen) ->
  spent s0 B' (trace o') (omap check_event (seen ++ [e])).
Proof.
  intros Hs He Hno Hsp. rewrite omap_app.
  destruct e as [key now|key now|pass order|]; cbn [effect no_release] in *; [|done| |];
    [|destruct He as [-> Hun]; cbn; rewrite app_nil_r; by eapply spent_same..].
  destruct (decide (key = "")) as [->|Hkey]; destruct He as [-> ->]; cbn; [|by eapply spent_check].
  destruct Hsp as [Hl Hsp]. split; [done|]. intros k Hk. rewrite answers_app, checks_app.
  destruct (Hsp k Hk). repeat case_decide; cbn [check_of fst] in *; destruct_and?; subst; try done; lia.
Qed.

(** C17: the limit of a key is enforced exactly while passes of the commit loop run,
    in a history without releases: wherever their steps come between the checks, and whatever the backend answers,
    a key has received as many 200 answers as it had checks, or its limit if there
    were more. *)
Theorem overlapped_limit_enforced sv w s0 (P0 : P) (C0 : C) es :
  0 <= s0 < H64 -> accepted_units P0 = 0 -> Forall oevent_ok es -> Forall no_release es ->
  exists (s : Process A P C) o, overlap_events sv w es (service_start s0 P0 C0) = Some (s, o) /\
    forall k, k <> "" -> answers k 200 (trace o) = Z.min (checks k (omap check_event es)) s0.
Proof.
  intros Hs0 H0 Hes Hno. unfold overlap_events.
  destruct (triple_foldM (overlap_event sv w) (fun seen s o => exists B m, machine_at o B m s /\
      spent s0 B (trace o) (omap check_event seen)) es no_events)
    with (s := (service_start s0 P0 C0 : Process A P C)) as (s & o & He & B & m & _ & _ & Hfin).
  - intros seen e rest o -> s (B & m & Hinv & Hsp). apply list.Forall_app in Hes as [_ Hes], Hno as [_ Hno].
    inversion_clear Hes. inversion_clear Hno.
    destruct (overlap_event_ok sv w o e B m s Hinv) as (s' & o' & B' & m' & He & Hinv' & Hef); [done|].
    exists s', o'. split; [done|]. exists B', m'. split; [done|]. eapply spent_effect; [apply Hinv|done..].
  - eexists _, _. split; [by apply machine_start|]. split; [done|]. intros k _.
    unfold units_left, key_obj. cbn. rewrite lookup_empty. cbn. unfold answers, checks. cbn. lia.
  - exists s, o. split; [done|]. intros k Hk. by destruct (Hfin k Hk).
Qed.
End machine.

(** ** Examples *)
Definition demo_oevents : list OEvent :=
  [OCheck "a" 1; OCheck "a" 2; OCheck "a" 3; OCheck "b" 3; OBegin (PCycle 4) ["b"; "a"]; OAdvance; OCheck "b" 5;
   OAdvance; OCheck "a" 6; OAdvance; ORelease "a" 7; OCheck "c" 7; OAdvance; OAdvance; OCheck "a" 8;
   OBegin PFlush ["a"; "c"; "b"]; OAdvance; OAdvance; OCheck "b" 9; OAdvance; OAdvance; OAdvance; OAdvance; OAdvance;
   OAdvance].

#[export] Instance oevent_ok_dec e : Decision (oevent_ok e).
Proof. destruct e; cbn; apply _. Defined.
#[export] Instance no_release_dec e : Decision (no_release e).
Proof. destruct e; cbn; apply _. Defined.

(** The overcharge is real, and the bound is reached: the vector 2 of [a] is
    collected, one unit is released, and 2 are persisted. *)
Definition crossing_events : list OEvent :=
  [OCheck "a" 1; OCheck "a" 2; OBegin PFlush ["a"]; OAdvance; ORelease "a" 3; OAdvance; OAdvance; OAdvance].
Example crossing_release_is_charged :
  match overlap_events demo_server (demo_worker 0) crossing_events (service_start 3 accepting [] : Process VSA Scripted (list Call)) with
  | Some (s, o) => busy (stage o) = false /\ crossing o = 1 /\
      admits (metrics s) - refunds (metrics s) = 1 /\ accepted_units (persister (world s)) = 2
  | None => False
  end.
Proof. vm_compute. by split_and!. Qed.

Lemma undisturbed_steps_are_the_pass_witness :
  let s := start 3 refusing ([] : list Call) in
  advances 6 (demo_worker 0) (Collecting (PCycle 4) ["b"; "a"] no_batch) s =
  (run_pass (demo_worker 0) (PCycle 4) ["b"; "a"] ;; mret Idle) s.
Proof. cbn zeta. apply undisturbed_steps_are_the_pass. cbn. lia. Defined.

Lemma overlapped_passes_conserve_witness :
  exists s o B over,
    overlap_events demo_server (demo_worker 0) demo_oevents (service_start 3 accepting ([] : list Call)) = Some (s, o) /\
    wrep B (world s) /\ 0 <= over <= 1 /\
    admits (metrics s) - refunds (metrics s) + over ≡ₘ accepted_units (persister (world s)) + pending_total (ledger B).
Proof.
  destruct (overlapped_passes_conserve (A := VSA) demo_server (demo_worker 0) 3 accepting ([] : list Call) demo_oevents)
    as (s & o & B & over & He & Hw & Ho & Hc).
  - lia.
  - reflexivity.
  - apply (bool_decide_unpack _). vm_compute. exact I.
  - assert (Hend : option_map (fun so => (busy (stage so.2), crossing so.2))
      (overlap_events demo_server (demo_worker 0) demo_oevents
        (service_start 3 accepting ([] : list Call) : Process VSA Scripted (list Call))) = Some (false, 1))
      by (vm_compute; reflexivity).
    rewrite He in Hend. cbn in Hend. injection Hend as Hb Hx. exists s, o, B, over.
    split; [exact He|]. split; [exact Hw|]. split; [rewrite <- Hx; exact Ho|]. apply Hc. by destruct (stage o).
Defined.

Lemma overlapped_limit_enforced_witness :
  exists (s : Process VSA Scripted (list Call)) o,
    overlap_events demo_server (demo_worker 0) (filter no_release demo_oevents) (service_start 3 refusing []) = Some (s, o) /\
    answers "a" 200 (trace o) = 3 /\ answers "b" 200 (trace o) = 3.
Proof.
  destruct (overlapped_limit_enforced (A := VSA) demo_server (demo_worker 0) 3 refusing ([] : list Call)
    (filter no_release demo_oevents)) as (s & o & He & Hk).
  - lia.
  - reflexivity.
  - apply (bool_decide_unpack _). vm_compute. exact I.
  - apply (bool_decide_unpack _). vm_compute. exact I.
  - exists s, o. split; [exact He|]. split; [apply (Hk "a"); done|apply (Hk "b"); done].
Defined.
