(* ===== verification/Concurrent.v ===== *)
(** * The service with everything running at once

    Goroutines of [net/http] run the handlers, the worker runs the commit loop and
    the eviction loop, and nothing but the store's atomics orders them.  A handler
    is cut here into its calls on the store and on the accumulator, the eviction of
    a key into its calls, and the commit loop into the steps of [Overlap]; a
    schedule is any sequence of steps.  An accumulator call is one step: [VsaConc]
    is about what is inside.  This holds of the calls under the accumulator's mutex;
    [State] and [CheckCommit] take no lock, and a sum of the stripes torn by a
    [TryConsume] or [TryRefund] that writes two of them meanwhile is not among these
    runs ([VsaReads] bounds how far off it is, and has two such runs).  The process counters and the telemetry are written
    in the step of the call they count, for nothing reads them here.

    The machine keeps notes of what happened: an admission is [late] when the
    instance it took from is being evicted or already was. *)
From stdpp Require Import pretty.
From S2P Require Import Prelude Effects Counter Store CoreMetrics Worker Api Service Overlap.

(** ** A handler, call by call *)
Inductive Request := RqCheck | RqRelease.

Inductive Handler :=
| Arrived (rq : Request) (key : string) (now : Z)          (* [GetOrCreate]: about to [Load] *)
| Missed (rq : Request) (key : string) (now : Z)           (* about to [LoadOrStore] a new instance *)
| Found (rq : Request) (key : string) (now : Z) (p : nat)  (* about to store the access time *)
| Holds (rq : Request) (key : string) (p : nat)            (* about to consume or refund *)
| Asks (key : string) (p : nat) (ok : bool)                (* about to read what is left *)
| Answered (key : string) (r : Response).

(** ** The eviction of the keys, call by call *)
Inductive EStage :=
| EIdle
| EScanning (now : Z) (keys acc : list string)
| ERecheck (keys : list string)                                   (* about to [Load] the next key *)
| EFound (key : string) (p : nat) (keys : list string)            (* about to read its access time *)
| EStale (key : string) (p : nat) (keys : list string)            (* about to read its vector *)
| EPersist (key : string) (p : nat) (vec : Z) (keys : list string)
| ESettle (key : string) (p : nat) (vec : Z) (keys : list string) (* accepted, about to [Commit] *)
| EDelete (key : string) (p : nat) (keys : list string)
| EClose (p : nat) (keys : list string).

(** What happened, for the account of what the interleaving costs. *)
Inductive Note :=
| NAdmitted (key : string) (late : bool)
| NRefused (key : string)
| NRefunded (key : string) (collected : nat)  (* by how many loops, and not yet committed *)
| NDoubled (units : Z)                        (* committed while another loop held them too *)
| NEvicted (key : string).

Inductive CEvent :=
| CArrive (rq : Request) (key : string) (now : Z)
| CHandler (i : nat)
| CBegin (pass : Pass) (order : list string)
| CLoop
| CSweep (order : list string) (now : Z)
| CEvict (now : Z).

(** The vectors a loop has read and not yet committed, by instance. *)
Definition batch_flight (b : Batch) : list (nat * Z) := combine (vsaToCommit b) (vectorsToCommit b).
Definition loop_flight (st : Stage) : list (nat * Z) :=
  match st with
  | Idle => []
  | Collecting _ _ b => batch_flight b
  | Committing b i => drop i (batch_flight b)
  end.
Definition evict_flight (e : EStage) : list (nat * Z) :=
  match e with EPersist _ p vec _ | ESettle _ p vec _ => [(p, vec)] | _ => [] end.

Definition flight (st : Stage) (e : EStage) : list (nat * Z) := loop_flight st ++ evict_flight e.

Definition holders (p : nat) (fl : list (nat * Z)) : nat := length (filter (fun pv => pv.1 = p) fl).
Definition twice (p : nat) (v : Z) (fl : list (nat * Z)) : Z :=
  Zsum ((fun pv => Z.min v pv.2) <$> filter (fun pv => pv.1 = p) fl).

(** The instance whose vector the eviction has read for the last time. *)
Definition doomed (e : EStage) (p : nat) : bool :=
  match e with
  | EPersist _ q _ _ | ESettle _ q _ _ | EDelete _ q _ => bool_decide (p = q)
  | _ => false
  end.

Record CState := mkCState {
  threads : list Handler;
  loop : Stage;
  evict : EStage;
  notes : list Note
}.
Definition nobody : CState := mkCState [] Idle EIdle [].

Section Concurrent.
Context {A P C : Type} {CA : Counter A} {PP : Persister P} {CC : Churn C}.

Definition check_answer (sv : Server) (ok : bool) (remaining : Z) : Response :=
  if ok then
    mkResponse 200
      [("X-RateLimit-Limit", pretty (rateLimit sv));
       ("X-RateLimit-Remaining", pretty remaining);
       ("X-RateLimit-Status", "OK")] "OK"
  else
    mkResponse 429
      [("X-RateLimit-Status", "Exceeded");
       ("X-RateLimit-Limit", pretty (rateLimit sv));
       ("X-RateLimit-Remaining", pretty remaining);
       ("Retry-After", "60")] "Too Many Requests".

(** A step answers the next state of the handler and, for the call that matters,
    its result. *)
Definition handler_step (sv : Server) (h : Handler) : SM (Process A P C) (Handler * option bool) :=
  match h with
  | Arrived rq key now =>
      if decide (key = "") then mret (Answered key (http_Error "API key is required" 400), None) else
      actual ← in_world (in_store (load key));
      mret (match actual with Some p => Found rq key now p | None => Missed rq key now end, None)
  | Missed rq key now =>
      p ← in_world (in_store (allocate now));
      '(q, loaded) ← in_world (in_store (LoadOrStore key p));
      mret (if (loaded : bool) then Found rq key now q else Holds rq key p, None)
  | Found rq key now p =>
      in_world (in_store (store_lastAccessed p now)) ;;
      mret (Holds rq key p, None)
  | Holds RqCheck key p =>
      count (RecordAttempt 1) ;;
      ok ← in_world (in_store (on_instance (ctr_TryConsume 1) p));
      (if (ok : bool) then count (RecordAdmit 1) else mret tt) ;;
      in_world (observe (ObserveRequest key ok)) ;;
      mret (Asks key p ok, Some ok)
  | Holds RqRelease key p =>
      ok ← in_world (in_store (on_instance (ctr_TryRefund 1) p));
      (if (ok : bool) then count (RecordRefund 1) else mret tt) ;;
      mret (Answered key (mkResponse 204 [] ""), Some ok)
  | Asks key p ok =>
      remaining ← in_world (in_store (on_instance ctr_Available p));
      mret (Answered key (check_answer sv ok remaining), None)
  | Answered _ _ => mret (h, None)
  end.

Definition evict_step (w : Worker) (now : Z) (e : EStage) : SM (World A P C) EStage :=
  match e with
  | EIdle => mret EIdle
  | EScanning started (key :: keys) acc =>
      acc' ← in_store (ForEach [key] (stale_visit w started) acc);
      mret (EScanning started keys acc')
  | EScanning _ [] acc => mret (ERecheck acc)
  | ERecheck [] => mret EIdle
  | ERecheck (key :: keys) =>
      actual ← in_store (load key);
      mret (match actual with Some p => EFound key p keys | None => ERecheck keys end)
  | EFound key p keys =>
      last ← in_store (read_field lastAccessed p);
      mret (if time_Sub now last <=? evictionAge w then ERecheck keys else EStale key p keys)
  | EStale key p keys =>
      st ← in_store (on_instance ctr_State p);
      mret (if st.2 =? 0 then EDelete key p keys else EPersist key p st.2 keys)
  | EPersist key p vec keys =>
      err ← commit_batch [mkCommit key vec];
      mret (match err with Some _ => ERecheck keys | None => ESettle key p vec keys end)
  | ESettle key p vec keys =>
      in_store (on_instance (ctr_Commit vec) p) ;;
      mret (EDelete key p keys)
  | EDelete key p keys =>
      v ← in_store (LoadAndDelete key);
      mret (match v with Some q => EClose q keys | None => ERecheck keys end)
  | EClose p keys => in_store (on_instance ctr_Close p) ;; mret (ERecheck keys)
  end.

(** ** The notes a step leaves *)
Definition call_note (cs : gmap string nat) (st : Stage) (e : EStage) (h : Handler) (out : option bool) : list Note :=
  match h, out with
  | Holds RqCheck key p, Some true => [NAdmitted key (doomed e p || negb (bool_decide (cs !! key = Some p)))]
  | Holds RqCheck key _, Some false => [NRefused key]
  | Holds RqRelease key p, Some true => [NRefunded key (holders p (flight st e))]
  | _, _ => []
  end.
Definition loop_note (st : Stage) (e : EStage) : list Note :=
  match st, loop_flight st with
  | Committing _ _, (p, v) :: rest => [NDoubled (twice p v (rest ++ evict_flight e))]
  | _, _ => []
  end.
Definition evict_note (st : Stage) (e : EStage) : list Note :=
  match e with
  | ESettle _ p vec _ => [NDoubled (twice p vec (loop_flight st))]
  | EDelete key _ _ => [NEvicted key]
  | _ => []
  end.

Definition concurrent_event (sv : Server) (w : Worker) (c : CState) (e : CEvent) : SM (Process A P C) CState :=
  match e with
  | CArrive rq key now => mret (mkCState (threads c ++ [Arrived rq key now]) (loop c) (evict c) (notes c))
  | CHandler i =>
      match threads c !! i with
      | None => mret c
      | Some h =>
          cs ← gets (fun s => counters (store (world s)));
          '(h', out) ← handler_step sv h;
          mret (mkCState (<[i := h']> (threads c)) (loop c) (evict c) (notes c ++ call_note cs (loop c) (evict c) h out))
      end
  | CBegin pass order =>
      mret (if busy (loop c) then c
            else mkCState (threads c) (Collecting pass order no_batch) (evict c) (notes c))
  | CLoop =>
      st ← in_world (advance w (loop c));
      mret (mkCState (threads c) st (evict c) (notes c ++ loop_note (loop c) (evict c)))
  | CSweep order now =>
      mret (match evict c with
            | EIdle => mkCState (threads c) (loop c) (EScanning now order []) (notes c)
            | _ => c
            end)
  | CEvict now =>
      e' ← in_world (evict_step w now (evict c));
      mret (mkCState (threads c) (loop c) e' (notes c ++ evict_note (loop c) (evict c)))
  end.

Definition concurrent_events (sv : Server) (w : Worker) (es : list CEvent) : SM (Process A P C) CState :=
  foldM (concurrent_event sv w) nobody es.
End Concurrent.
