(* ===== verification/ConcurrentLedger.v ===== *)
(** * The accounts of a concurrent run

    What the steps of [Concurrent] do to sums over a ledger: the units pending on
    the instances some key leads to, those stranded on instances no key leads to
    any more, and what the vectors in flight exceed what is pending. *)
From S2P Require Import Prelude Effects Vsa VsaSpec Counter Store Ledger CoreMetrics Worker WorkerSpec WorkerProps Api ApiSpec Service Overlap OverlapSpec Concurrent.
Import Spec.

(** ** Vectors in flight *)
Definition lacks (L : Ledger) (pv : nat * Z) : Z := Z.max 0 (pv.2 - pend L pv.1).
Definition short (fl : list (nat * Z)) (L : Ledger) : Z := Zsum (lacks L <$> fl).

Lemma short_nonneg fl L : 0 <= short fl L.
Proof. apply Zsum_nonneg, Forall_fmap, list.Forall_forall. intros pv _. cbn. unfold lacks. lia. Qed.

Lemma short_app fl1 fl2 L : short (fl1 ++ fl2) L = short fl1 L + short fl2 L.
Proof. unfold short. by rewrite fmap_app, Zsum_app. Qed.

Lemma short_cons pv fl L : short (pv :: fl) L = lacks L pv + short fl L.
Proof. unfold short. cbn [fmap list_fmap]. by rewrite Zsum_cons. Qed.

Lemma short_ext fl L L' : (forall q, pend L' q = pend L q) -> short fl L' = short fl L.
Proof. intros Hq. unfold short. f_equal. apply list_fmap_ext. intros _ pv _. unfold lacks. by rewrite Hq. Qed.

(** An instance has [d] units less: each vector that was read from it may miss them. *)
Lemma short_drop p d fl L L' : 0 <= d -> (forall q, q <> p -> pend L' q = pend L q) -> pend L p - d <= pend L' p ->
  short fl L' <= short fl L + Z.of_nat (holders p fl) * d.
Proof.
  intros Hd Hq Hp. unfold holders. induction fl as [|[q v] fl IH]; [unfold short; cbn; rewrite ?Zsum_nil; lia|].
  rewrite !short_cons. rewrite filter_cons. unfold lacks. cbn [fst snd]. case_decide as Hpq; cbn [length].
  - subst q. lia.
  - rewrite (Hq q) by done. lia.
Qed.

(** A vector is committed: the others read from the same instance miss at most what
    they have in common with it. *)
Lemma short_settle p v fl L L' : 0 <= v -> 0 <= pend L p -> Forall (fun pv => 0 <= pv.2) fl ->
  (forall q, q <> p -> pend L' q = pend L q) -> pend L' p = pend L p - Z.min v (pend L p) ->
  short fl L' <= short fl L + twice p v fl.
Proof.
  intros Hv H0 Hfl Hq Hp. unfold twice. induction Hfl as [|[q u] fl Hu Hfl IH]; [unfold short; cbn; rewrite ?Zsum_nil; lia|].
  rewrite !short_cons. rewrite filter_cons. unfold lacks. cbn [fst snd] in *. case_decide as Hpq.
  - subst q. cbn [fmap list_fmap]. rewrite Zsum_cons. cbn [snd]. lia.
  - rewrite (Hq q) by done. lia.
Qed.

Lemma twice_nonneg p v fl : 0 <= v -> Forall (fun pv => 0 <= pv.2) fl -> 0 <= twice p v fl.
Proof.
  intros Hv Hfl. unfold twice. apply Zsum_nonneg, Forall_fmap. apply list.Forall_forall. intros pv Hpv.
  apply list_elem_of_filter in Hpv as [_ Hpv]. rewrite list.Forall_forall in Hfl. specialize (Hfl _ Hpv). cbn. lia.
Qed.

(** ** Pending on the instances in use, and stranded *)
Definition ptrs (L : Ledger) : list nat := (map_to_list (entries L)).*2.
Definition live (L : Ledger) : Z := Zsum (pend L <$> ptrs L).
Definition stranded_units (L : Ledger) : Z := pending_total L - live L.

Lemma elem_of_ptrs L p : p ∈ ptrs L <-> exists k, entries L !! k = Some p.
Proof.
  unfold ptrs. rewrite list_elem_of_fmap. split.
  - intros ([k q] & -> & Hk). apply elem_of_map_to_list in Hk. eauto.
  - intros [k Hk]. exists (k, p). split; [done|]. by apply elem_of_map_to_list.
Qed.

Lemma NoDup_ptrs L n : keyed (entries L) n -> NoDup (ptrs L).
Proof.
  intros Hk. unfold ptrs. apply NoDup_fmap_2_strong; [|apply NoDup_map_to_list].
  intros [k1 p1] [k2 p2] H1%elem_of_map_to_list H2%elem_of_map_to_list Heq. cbn in Heq. subst p2.
  by rewrite (keyed_inj _ _ Hk k1 k2 p1).
Qed.

(** A change of what is pending on one instance. *)
Record moved (p : nat) (d : Z) (L L' : Ledger) : Prop := {
  mv_entries : entries L' = entries L;
  mv_others q : q <> p -> pend L' q = pend L q;
  mv_here : pend L' p = pend L p + d;
  mv_total : pending_total L' = pending_total L + d
}.

Lemma moved_upd p f o d L : objs L !! p = Some o -> pending (bal (f o)) = pending (bal o) + d -> moved p d L (upd p f L).
Proof.
  intros Ho Hd. split; [done| | |].
  - intros q Hq. by rewrite pend_upd, decide_False.
  - rewrite pend_upd, decide_True by done. unfold pend. by rewrite Ho.
  - rewrite (pending_upd p f L o Ho). lia.
Qed.

Lemma moved_live p d L L' n : keyed (entries L) n -> moved p d L L' ->
  live L' = live L + (if decide (p ∈ ptrs L) then d else 0).
Proof.
  intros Hk [He Ho Hp Ht]. unfold live. replace (ptrs L') with (ptrs L) by (unfold ptrs; by rewrite He).
  by eapply Zsum_change; [eapply NoDup_ptrs| |].
Qed.

(** A unit taken off an instance that is in use, or no unit put on one that is not,
    strands nothing. *)
Lemma moved_stranded p d L L' n : keyed (entries L) n -> moved p d L L' ->
  stranded_units L' = stranded_units L + (if decide (p ∈ ptrs L) then 0 else d).
Proof.
  intros Hk Hm. unfold stranded_units. rewrite (moved_live p d L L' n Hk Hm), (mv_total _ _ _ _ Hm). case_decide; lia.
Qed.

(** A new instance, with or without its key. *)
Lemma pend_push now L q : pend (push (fresh L now) L) q = pend L q.
Proof.
  unfold pend. cbn. destruct (objs L !! q) as [o|] eqn:Ho; [by rewrite (lookup_app_l_Some _ _ _ _ Ho)|].
  apply lookup_ge_None in Ho. rewrite lookup_app_r by done. by destruct (q - length (objs L))%nat as [|n].
Qed.

Lemma total_push now L : pending_total (push (fresh L now) L) = pending_total L.
Proof. rewrite pending_push. cbn. lia. Qed.

Lemma stranded_push now L : stranded_units (push (fresh L now) L) = stranded_units L.
Proof.
  unfold stranded_units, live. rewrite total_push. do 2 f_equal. apply list_fmap_ext. intros. apply pend_push.
Qed.

Lemma pend_set_entries cs L q : pend (set_entries cs L) q = pend L q.
Proof. done. Qed.

Definition enter (key : string) (now : Z) (L : Ledger) : Ledger :=
  set_entries (<[key := length (objs L)]> (entries L)) (push (fresh L now) L).

Lemma stranded_enter key now L : entries L !! key = None -> stranded_units (enter key now L) = stranded_units L.
Proof.
  intros Hk. rewrite <- (stranded_push now L). unfold stranded_units. change (pending_total (enter key now L)) with (pending_total (push (fresh L now) L)).
  f_equal. unfold live, ptrs, enter. cbn [entries set_entries push].
  rewrite (Zsum_perm _ (pend (push (fresh L now) L) <$> length (objs L) :: (map_to_list (entries L)).*2)).
  - cbn [fmap list_fmap]. rewrite Zsum_cons, pend_push. unfold pend at 1.
    by rewrite lookup_ge_None_2 by lia.
  - by rewrite map_to_list_insert by done.
Qed.

(** The key of an instance is deleted: what it still has is stranded. *)
Lemma stranded_delete key p L : entries L !! key = Some p ->
  stranded_units (set_entries (delete key (entries L)) L) = stranded_units L + pend L p.
Proof.
  intros Hk. unfold stranded_units. change (pending_total (set_entries _ L)) with (pending_total L).
  enough (live L = pend L p + live (set_entries (delete key (entries L)) L)) by lia.
  unfold live, ptrs. cbn [entries set_entries]. rewrite (Zsum_perm (pend L <$> (map_to_list (entries L)).*2)
    (pend L <$> p :: (map_to_list (delete key (entries L))).*2)); [cbn [fmap list_fmap]; by rewrite Zsum_cons|].
  by rewrite <- (map_to_list_delete (entries L) key p Hk).
Qed.
