(* ===== verification/ConcurrentSteps.v ===== *)
(** * The steps of a concurrent run, on the books

    For every step of [Concurrent], which state it leads to and what it does to
    the ledger, the backend and the process counters. *)
From S2P Require Import Prelude Effects Vsa VsaSpec Counter Store Ledger CoreMetrics Worker WorkerSpec Doubles WorkerProps Api ApiSpec Service Overlap OverlapSpec Concurrent ConcurrentLedger.
Import Spec.

(** ** A handler's step on the books *)
Definition call_bal (rq : Request) : Balance -> Balance :=
  match rq with RqCheck => consume1 | RqRelease => refund1 end.
Definition call_ok (rq : Request) (b : Balance) : bool :=
  match rq with RqCheck => pending b <? budget b | RqRelease => 0 <? pending b end.
Definition call_net (rq : Request) (ok : bool) : Z :=
  if ok then match rq with RqCheck => 1 | RqRelease => -1 end else 0.

Lemma call_pending rq o : pending (bal (on_bal (call_bal rq) o)) = pending (bal o) + call_net rq (call_ok rq (bal o)).
Proof. unfold on_bal, call_net. destruct rq; cbn; unfold consume1, refund1; cbn; case_Z; lia. Qed.

Lemma call_units rq o : units (on_bal (call_bal rq) o) = units o - call_net rq (call_ok rq (bal o)).
Proof. unfold units. rewrite call_pending. destruct rq; cbn; lia. Qed.

Section steps.
Context {A P C : Type} {CA : Counter A} {CL : CounterLaws A} {PP : Persister P} {CC : Churn C}.
Implicit Types (B : Books P C).

(** Which state a step of a handler leads to; what it does to the ledger. *)
Definition handler_case (sv : Server) (h h' : Handler) (out : option bool) (L L' : Ledger) (m m' : Metrics) : Prop :=
  match h with
  | Arrived rq key now => L' = L /\ m' = m /\ out = None /\
      h' = if decide (key = "") then Answered key (http_Error "API key is required" 400)
           else match entries L !! key with Some p => Found rq key now p | None => Missed rq key now end
  | Missed rq key now => m' = m /\ out = None /\
      match entries L !! key with
      | Some q => L' = push (fresh L now) L /\ h' = Found rq key now q
      | None => L' = enter key now L /\ h' = Holds rq key (length (objs L))
      end
  | Found rq key now p => m' = m /\ out = None /\ L' = upd p (set_last now) L /\ h' = Holds rq key p
  | Holds rq key p => exists o, objs L !! p = Some o /\ L' = upd p (on_bal (call_bal rq)) L /\
      let ok := call_ok rq (bal o) in out = Some ok /\
      admits m' - refunds m' ≡ₘ admits m - refunds m + call_net rq ok /\
      h' = match rq with RqCheck => Asks key p ok | RqRelease => Answered key (mkResponse 204 [] "") end
  | Asks key p ok => L' = L /\ m' = m /\ out = None /\
      exists o, objs L !! p = Some o /\ h' = Answered key (check_answer sv ok (units o))
  | Answered _ _ => L' = L /\ m' = m /\ out = None /\ h' = h
  end.

Definition handler_ptr (h : Handler) : option nat :=
  match h with Found _ _ _ p | Holds _ _ p | Asks _ p _ => Some p | _ => None end.

Lemma LoadOrStore_ok key p L : is_Some (objs L !! p) -> (forall k, entries L !! k <> Some p) ->
  triple (rep L) (LoadOrStore key p) (fun s r =>
    r = match entries L !! key with Some q => (q, true) | None => (p, false) end /\
    rep (match entries L !! key with Some _ => L | None => set_entries (<[key := p]> (entries L)) L end) s).
Proof.
  intros Hp Hnew s H. unfold LoadOrStore. rewrite (rep_entries L s H). destruct (entries L !! key); [by eexists _, _|].
  eexists _, _. split; [done|]. split; [done|]. apply rep_set_entries; [done|].
  apply keyed_insert; [apply (rep_keyed L s H)|by apply lookup_lt_is_Some_1|done].
Qed.

Lemma missed_ok rq key now B m (sv : Server) (s : Process A P C) : prep B m s ->
  exists s' h' out B' m', handler_step sv (Missed rq key now) s = Some (s', (h', out)) /\ prep B' m' s' /\
    backend B' = backend B /\ handler_case sv (Missed rq key now) h' out (ledger B) (ledger B') m m'.
Proof.
  intros Hs. cbn [handler_step handler_case].
  pose proof (rep_keyed _ _ (wrep_rep _ _ (prep_world _ _ _ Hs))) as Hk.
  set (L1 := push (fresh (ledger B) now) (ledger B)).
  destruct (in_process_ok (allocate now) B m L1 (length (objs (ledger B)))) with (s := s)
    as (s1 & ? & He & -> & Hs1); [apply allocate_ok|done|]. erewrite bind_Some by done.
  assert (Hnew : forall k, entries L1 !! k <> Some (length (objs (ledger B)))) by (intros k Hq%(keyed_lt _ _ Hk); lia).
  destruct (in_process_ok _ (mkBooks L1 (backend B) (telemetry B)) m _ _
    (LoadOrStore_ok key (length (objs (ledger B))) L1 ltac:(cbn; rewrite lookup_app_r, Nat.sub_diag by done; by eexists) Hnew) s1 Hs1)
    as (s2 & ? & He2 & -> & Hs2). erewrite bind_Some by done. change (entries L1) with (entries (ledger B)) in *.
  destruct (entries (ledger B) !! key) as [q|]; (eexists s2, _, _, _, m; split; [reflexivity|]; split; [exact Hs2|]; done).
Qed.

Lemma holds_ok rq key p B m o (sv : Server) (s : Process A P C) : prep B m s -> objs (ledger B) !! p = Some o ->
  exists s' h' out B' m', handler_step sv (Holds rq key p) s = Some (s', (h', out)) /\ prep B' m' s' /\
    backend B' = backend B /\ handler_case sv (Holds rq key p) h' out (ledger B) (ledger B') m m'.
Proof.
  intros Hs Ho. destruct rq; cbn [handler_step handler_case].
  - destruct (count_ok (RecordAttempt 1) _ _ s Hs) as (s1 & [] & He1 & H1). erewrite bind_Some by done.
    destruct (in_process_ok _ _ _ _ _ (TryConsume_ok p (ledger B) o Ho) s1 H1) as (s2 & ok & He2 & -> & H2).
    erewrite bind_Some by done. cbn [call_ok call_bal]. set (ok := _ <? _) in *.
    assert (exists s3, (if ok then count (RecordAdmit 1) else mret tt) s2 = Some (s3, tt) /\
      prep (mkBooks (upd p (on_bal consume1) (ledger B)) (backend B) (telemetry B)) (count_check ok m) s3) as (s3 & He3 & H3).
    { destruct ok; [|by exists s2]. destruct (count_ok (RecordAdmit 1) _ _ s2 H2) as (s3 & [] & He3 & H3). by exists s3. }
    erewrite bind_Some by done. destruct (observe_process_ok (ObserveRequest key ok) _ _ s3 H3) as (s4 & [] & He4 & H4).
    erewrite bind_Some by done. eexists s4, _, _, _, _. split; [reflexivity|]. split; [exact H4|]. split; [done|].
    exists o. split_and!; try done. apply count_check_net.
  - destruct (in_process_ok _ _ _ _ _ (TryRefund_ok p (ledger B) o Ho) s Hs) as (s2 & ok & He2 & -> & H2).
    erewrite bind_Some by done. cbn [call_ok call_bal]. set (ok := 0 <? _) in *.
    assert (exists s3, (if ok then count (RecordRefund 1) else mret tt) s2 = Some (s3, tt) /\
      prep (mkBooks (upd p (on_bal refund1) (ledger B)) (backend B) (telemetry B)) (if ok then RecordRefund 1 m else m) s3) as (s3 & He3 & H3).
    { destruct ok; [|by exists s2]. destruct (count_ok (RecordRefund 1) _ _ s2 H2) as (s3 & [] & He3 & H3). by exists s3. }
    erewrite bind_Some by done. eexists s3, _, _, _, _. split; [reflexivity|]. split; [exact H3|]. split; [done|].
    exists o. split_and!; try done. apply count_release_net.
Qed.

Lemma handler_step_ok sv h B m (s : Process A P C) :
  prep B m s -> (forall p, handler_ptr h = Some p -> is_Some (objs (ledger B) !! p)) ->
  exists s' h' out B' m', handler_step sv h s = Some (s', (h', out)) /\ prep B' m' s' /\ backend B' = backend B /\
    handler_case sv h h' out (ledger B) (ledger B') m m'.
Proof.
  intros Hs Hp. destruct h as [rq key now|rq key now|rq key now p|rq key p|key p ok|key r];
    try (destruct (Hp _ eq_refl) as [o Ho]); [|by apply missed_ok| |by eapply holds_ok| |].
  - cbn [handler_step handler_case]. destruct (decide (key = "")); [by eexists s, _, _, B, m|].
    destruct (in_process_ok (load key) B m (ledger B) (entries (ledger B) !! key)) with (s := s) as (s1 & ? & He & -> & Hs1); [|done|].
    { eapply triple_conseq; [apply load_ok|done|]. by intros ? ? [-> ?]. }
    erewrite bind_Some by done. eexists s1, _, _, _, m. split; [reflexivity|]. split; [exact Hs1|done].
  - destruct (in_process_ok (store_lastAccessed p now) B m (upd p (set_last now) (ledger B)) tt) with (s := s)
      as (s1 & [] & He & _ & Hs1); [|done|].
    { eapply triple_conseq; [by eapply store_lastAccessed_ok|done|]. by intros ? []. }
    cbn [handler_step handler_case]. erewrite bind_Some by done. by eexists s1, _, _, _, m.
  - destruct (in_process_ok _ B m _ _ (Available_ok p (ledger B) o Ho) s Hs) as (s1 & ? & He & -> & Hs1).
    cbn [handler_step handler_case]. erewrite bind_Some by done. eexists s1, _, _, _, m. split; [reflexivity|].
    split; [exact Hs1|]. split_and!; try done. by exists o.
  - by eexists s, _, _, B, m.
Qed.

(** ** A step of the eviction on the books *)
Definition evict_case (w : Worker) (now : Z) (e e' : EStage) (B B' : Books P C) : Prop :=
  match e with
  | EIdle => B' = B /\ e' = EIdle
  | EScanning _ _ _ => B' = B /\ ((exists t ks acc, e' = EScanning t ks acc) \/ exists ks, e' = ERecheck ks)
  | ERecheck [] => B' = B /\ e' = EIdle
  | ERecheck (key :: keys) => B' = B /\
      e' = match entries (ledger B) !! key with Some p => EFound key p keys | None => ERecheck keys end
  | EFound key p keys => B' = B /\ (e' = ERecheck keys \/ e' = EStale key p keys)
  | EStale key p keys => B' = B /\
      e' = if pend (ledger B) p =? 0 then EDelete key p keys else EPersist key p (pend (ledger B) p) keys
  | EPersist key p vec keys =>
      let '(P', err) := CommitBatch [mkCommit key vec] (backend B) in
      B' = mkBooks (ledger B) P' (telemetry B) /\
      e' = match err with Some _ => ERecheck keys | None => ESettle key p vec keys end
  | ESettle key p vec keys => B' = on_ledger (upd p (on_bal (settle vec))) B /\ e' = EDelete key p keys
  | EDelete key p keys => B' = forget key B /\
      e' = match entries (ledger B) !! key with Some q => EClose q keys | None => ERecheck keys end
  | EClose p keys => B' = B /\ e' = ERecheck keys
  end.

Definition evict_ok (L : Ledger) (e : EStage) : Prop :=
  match e with
  | EFound key p _ | EStale key p _ | EDelete key p _ => entries L !! key = Some p
  | EPersist key p vec _ | ESettle key p vec _ => entries L !! key = Some p /\ 0 <= vec < H64
  | EClose p _ => is_Some (objs L !! p)
  | _ => True
  end.

Lemma read_state_ok p o B : objs (ledger B) !! p = Some o ->
  triple (wrep B) (in_store (on_instance ctr_State p)) (fun w st => wrep B w /\ st = (budget (bal o), pending (bal o))).
Proof.
  intros Ho. eapply triple_conseq; [apply (in_store_rep _ B id (budget (bal o), pending (bal o)))|done|].
  - eapply triple_conseq; [by apply State_ok|done|]. by intros s a [-> ?].
  - intros w st [Hw ->]. by rewrite on_ledger_id in Hw.
Qed.

Lemma quiet_ok {R} (p : SM (Store A) R) B (Q : R -> Prop) :
  triple (rep (ledger B)) p (fun s r => Q r /\ rep (ledger B) s) ->
  triple (wrep B) (in_store p) (fun w r => Q r /\ wrep B w).
Proof.
  intros Hp. eapply triple_conseq; [by apply in_store_ok|done|]. cbn. intros w r ((? & ?) & ? & ?). by split.
Qed.

Lemma stale_visit_ok w now acc key L :
  triple (rep L) (ForEach [key] (stale_visit w now) acc) (fun s _ => True /\ rep L s).
Proof.
  intros s Hs. unfold ForEach. cbn [foldM]. destruct (load_ok key L s Hs) as (s1 & ? & He & -> & Hs1).
  unfold mbind, SM_bind. rewrite He. destruct (entries L !! key) as [p|] eqn:Hp; [|by exists s1, acc].
  destruct (rep_entry L s key p Hs Hp) as [o Ho].
  destruct (read_lastAccessed_ok p L o Ho s1 Hs1) as (s2 & ? & He2 & -> & Hs2).
  unfold stale_visit, mbind, SM_bind. rewrite He2. by destruct (_ >? _); eexists s2, _.
Qed.

Lemma entry_obj B (w0 : World A P C) key p : wrep B w0 -> entries (ledger B) !! key = Some p ->
  exists o, objs (ledger B) !! p = Some o /\ pend (ledger B) p = pending (bal o).
Proof. intros Hw Hp. destruct (rep_entry _ _ key p (wrep_rep _ _ Hw) Hp) as [o Ho]. exists o. unfold pend. by rewrite Ho. Qed.

Lemma evict_step_ok w now e B (w0 : World A P C) : wrep B w0 -> evict_ok (ledger B) e ->
  exists w1 e' B', evict_step w now e w0 = Some (w1, e') /\ wrep B' w1 /\ evict_case w now e e' B B'.
Proof.
  intros Hw He. destruct e as [|t [|key keys] acc|[|key keys]|key p keys|key p keys|key p vec keys|key p vec keys|key p keys|p keys];
    cbn [evict_step evict_case evict_ok] in *; try (by eexists w0, _, B; eauto 10).
  - destruct (quiet_ok _ B _ (stale_visit_ok w t acc key (ledger B)) w0 Hw) as (w1 & acc' & He1 & _ & Hw1).
    erewrite bind_Some by done. eexists w1, _, B. split; [reflexivity|]. split; [done|]. split; [done|]. left. eauto.
  - destruct (quiet_ok _ B _ (load_ok key (ledger B)) w0 Hw) as (w1 & ? & He1 & -> & Hw1).
    erewrite bind_Some by done. by eexists w1, _, B.
  - destruct (entry_obj B w0 key p Hw He) as (o & Ho & _).
    destruct (quiet_ok _ B _ (read_lastAccessed_ok p (ledger B) o Ho) w0 Hw) as (w1 & ? & He1 & -> & Hw1).
    erewrite bind_Some by done. eexists w1, _, B. split; [reflexivity|]. split; [done|]. split; [done|]. case_match; auto.
  - destruct (entry_obj B w0 key p Hw He) as (o & Ho & ->).
    destruct (read_state_ok p o B Ho w0 Hw) as (w1 & ? & He1 & Hw1 & ->). erewrite bind_Some by done. by eexists w1, _, B.
  - destruct (commit_batch_ok [mkCommit key vec] B w0 Hw) as (w1 & err & He1 & -> & Hw1). erewrite bind_Some by done.
    destruct (CommitBatch _ _) as [P' err]. by eexists w1, _, _.
  - destruct He as [He Hv]. destruct (entry_obj B w0 key p Hw He) as (o & Ho & _).
    destruct (in_store_ok _ B _ (Commit_ok p (ledger B) o vec Ho Hv) w0 Hw) as (w1 & [] & He1 & Hr & Hb & Ht).
    erewrite bind_Some by done. eexists w1, _, _. split; [reflexivity|]. split; [|done]. by split.
  - assert (Hdel : triple (rep (ledger B)) (LoadAndDelete key) (fun s r => r = entries (ledger B) !! key /\
      rep (set_entries (delete key (entries (ledger B))) (ledger B)) s)).
    { intros s Hs. unfold LoadAndDelete. rewrite (rep_entries _ _ Hs). eexists _, _. split; [done|]. split; [done|].
      apply rep_set_entries; [done|]. apply keyed_delete, (rep_keyed _ _ Hs). }
    destruct (in_store_ok _ B _ Hdel w0 Hw) as (w1 & ? & He1 & [-> Hr] & Hb & Ht). erewrite bind_Some by done.
    eexists w1, _, _. split; [reflexivity|]. split; [|done]. by split.
  - destruct He as [o Ho]. destruct (quiet_ok (on_instance ctr_Close p) B (fun _ => True)) with (s := w0) as (w1 & ? & He1 & _ & Hw1); [|done|].
    { eapply triple_conseq; [by eapply Close_ok|done|]. done. }
    erewrite bind_Some by done. by eexists w1, _, B.
Qed.

(** ** A step of the commit loop on the books *)
Definition loop_ok (st : Stage) : Prop :=
  match st with Idle => True | Collecting _ _ b | Committing b _ => exists items, b = batch_of items end.

Definition loop_case (w : Worker) (st st' : Stage) (B B' : Books P C) : Prop :=
  match st with
  | Idle => B' = B /\ st' = Idle
  | Collecting pass (key :: keys) b => backend B' = backend B /\ loop_ok st' /\
      (ledger B' = ledger B \/ exists p g, (forall o, bal (g o) = bal o) /\ ledger B' = upd p g (ledger B)) /\
      exists added, loop_flight st' = batch_flight b ++ added /\ (exists b', st' = Collecting pass keys b') /\
        (added = [] \/ exists p, entries (ledger B) !! key = Some p /\ added = [(p, pend (ledger B) p)] /\
          (0 < commitThreshold w -> pend (ledger B) p <> 0))
  | Collecting _ [] b => ledger B' = ledger B /\
      exists items, b = batch_of items /\
        (items = [] /\ B' = B /\ st' = Idle \/
         exists err, CommitBatch (commits_of items) (backend B) = (backend B', err) /\
           st' = match err with Some _ => Idle | None => Committing b 0 end)
  | Committing b n =>
      match drop n (batch_flight b) with
      | [] => B' = B /\ st' = Idle
      | (p, v) :: _ => B' = on_ledger (upd p (on_bal (settle v))) B /\ st' = Committing b (S n)
      end
  end.

Lemma flight_of items : batch_flight (batch_of items) = (fun i => (i_ptr i, i_vec i)) <$> items.
Proof.
  unfold batch_flight, batch_of. cbn [vsaToCommit vectorsToCommit]. induction items as [|i items IH]; [done|]. cbn. by f_equal.
Qed.

Lemma advance_step_ok w st B (w0 : World A P C) : wrep B w0 -> loop_ok st ->
  Forall (fun pv => is_Some (objs (ledger B) !! pv.1) /\ 0 <= pv.2 < H64) (loop_flight st) ->
  exists w1 st' B', advance w st w0 = Some (w1, st') /\ wrep B' w1 /\ loop_case w st st' B B'.
Proof.
  intros Hw Hok Hfl. destruct st as [|pass [|key keys] b|b n]; cbn [advance loop_case loop_ok loop_flight] in *.
  - by eexists w0, _, B.
  - destruct Hok as [items ->]. destruct items as [|i items0] eqn:Hi.
    { eexists w0, _, B. split; [reflexivity|]. split; [done|]. split; [done|]. exists []. split; [done|]. by left. }
    rewrite <- Hi in *. change (commits (batch_of items)) with (commits_of items).
    replace (commits_of items) with (mkCommit (i_key i) (i_vec i) :: commits_of items0) by (by rewrite Hi).
    destruct (send_ok items B w0 Hw) as (w1 & acc & He & H1 & ->). erewrite bind_Some by done.
    eexists w1, _, (sent items B). split; [reflexivity|]. split; [done|]. unfold sent.
    destruct (CommitBatch (commits_of items) (backend B)) as [P' err] eqn:HP. split; [done|].
    exists items. split; [done|]. right. exists err. split; [done|]. by destruct err.
  - destruct Hok as [items ->]. destruct (visit_of_spec w pass) as (sel & g & Hv & Hg & Hsel).
    destruct (in_store_ok _ B _ (visit_one_ok _ sel g key (batch_of items) (ledger B) Hv) w0 Hw)
      as (w1 & b1 & He & Hr & Hb & Ht). erewrite bind_Some by done.
    destruct (entries (ledger B) !! key) as [p|] eqn:Hp.
    + destruct Hr as (o & Ho & Hr & ->). eexists w1, _, (mkBooks (upd p g (ledger B)) (backend B) (telemetry B)).
      split; [reflexivity|]. split; [by split|]. split; [done|].
      destruct (sel o) as [v|] eqn:Hs.
      * apply Hsel in Hs as [-> Hnz]. rewrite append_batch. split; [by eexists|]. split; [right; by exists p, g|].
        exists [(p, pend (ledger B) p)]. cbn [loop_flight]. rewrite !flight_of, fmap_app. cbn [fmap list_fmap i_ptr i_vec].
        unfold pend. rewrite Ho. split; [done|]. split; [by eexists|]. right. exists p. rewrite Ho. by split_and!.
      * split; [by eexists|]. split; [right; by exists p, g|]. exists []. rewrite app_nil_r. split; [done|]. split; [by eexists|by left].
    + destruct Hr as [Hr ->]. eexists w1, _, B. split; [reflexivity|]. split; [by split|]. split; [done|].
      split; [by eexists|]. split; [by left|]. exists []. rewrite app_nil_r. split; [done|]. split; [by eexists|by left].
  - destruct Hok as [items ->]. rewrite flight_of in *. cbn [vsaToCommit batch_of]. rewrite length_fmap.
    case_bool_decide as Hn; cycle 1.
    { rewrite drop_ge by (rewrite length_fmap; lia). by eexists w0, _, B. }
    destruct (lookup_lt_is_Some_2 items n Hn) as [i Hi].
    rewrite (drop_S _ (i_ptr i, i_vec i) n) in * by (by rewrite list_lookup_fmap, Hi).
    inversion_clear Hfl as [|?? [[o Ho] Hv] _]. cbn [fst snd] in *.
    destruct (in_store_ok _ B _ (Commit_ok (i_ptr i) (ledger B) o (i_vec i) Ho Hv) w0 Hw) as (w1 & [] & He1 & Hr1 & Hb1 & Ht1).
    unfold commit_at. cbn [vsaToCommit vectorsToCommit batch_of]. rewrite !list_lookup_fmap, Hi. cbn [fmap option_fmap option_map].
    erewrite bind_Some by done. eexists w1, _, _. split; [reflexivity|]. split; [|done]. by split.
Qed.
End steps.
