(* ===== verification/ConcurrentAccount.v ===== *)
(** * The account of a concurrent run

    The notes of a run counted; [balanced]: what the process counters, the backend,
    the instances and the vectors in flight have to do with each other, kept by every
    step of the commit loop and of the eviction. *)
From S2P Require Import Prelude Effects Vsa VsaSpec Counter Store Ledger CoreMetrics Worker WorkerSpec Doubles WorkerProps Api ApiSpec Service Overlap OverlapSpec Concurrent ConcurrentLedger ConcurrentSteps.
Import Spec.

(** ** Reading the notes *)
Definition tally (f : Note -> Z) (ns : list Note) : Z := Zsum (f <$> ns).

(** Refunds of a unit that a loop had read and not yet committed. *)
Definition crossed (n : Note) : Z := match n with NRefunded _ k => Z.of_nat k | _ => 0 end.
(** Units both loops had read. *)
Definition doubled (n : Note) : Z := match n with NDoubled u => u | _ => 0 end.
(** Admissions from an instance being evicted, or evicted. *)
Definition late_admit (n : Note) : Z := match n with NAdmitted _ true => 1 | _ => 0 end.
Definition granted (k : string) (n : Note) : Z :=
  match n with
  | NAdmitted key _ => if decide (key = k) then 1 else 0
  | NRefunded key _ => if decide (key = k) then -1 else 0
  | _ => 0
  end.
Definition evicted (k : string) (n : Note) : Z := match n with NEvicted key => if decide (key = k) then 1 else 0 | _ => 0 end.

Lemma tally_app f ns1 ns2 : tally f (ns1 ++ ns2) = tally f ns1 + tally f ns2.
Proof. unfold tally. by rewrite fmap_app, Zsum_app. Qed.
Lemma tally_one f n : tally f [n] = f n.
Proof. unfold tally. cbn. unfold Zsum. cbn. lia. Qed.
Lemma tally_nil f : tally f [] = 0.
Proof. done. Qed.

(** ** The accounts *)
(** Units the backend has accepted that are still to be committed in memory. *)
Definition loop_transit (st : Stage) : Z := match st with Committing _ _ => Zsum (loop_flight st).*2 | _ => 0 end.
Definition evict_transit (e : EStage) : Z := match e with ESettle _ _ vec _ => vec | _ => 0 end.
(** What the eviction will strand as things are. *)
Definition doom (e : EStage) (L : Ledger) : Z :=
  match e with
  | EPersist _ p vec _ | ESettle _ p vec _ => Z.max 0 (pend L p - vec)
  | EDelete _ p _ => pend L p
  | _ => 0
  end.

(** [a]: units accepted by the backend; [net]: admitted less refunded. *)
Record balanced (over : Z) (st : Stage) (e : EStage) (ns : list Note) (L : Ledger) (a net : Z) : Prop := {
  ba_over : 0 <= over;
  ba_bound : over + short (flight st e) L <= tally crossed ns + tally doubled ns;
  ba_units : net + over ≡ₘ a + (pending_total L - loop_transit st - evict_transit e);
  ba_late : stranded_units L + doom e L <= tally late_admit ns
}.

Lemma doom_ext e L L' : (forall q, pend L' q = pend L q) -> doom e L' = doom e L.
Proof. intros Hq. destruct e; cbn; by rewrite ?Hq. Qed.

(** Nothing pending has moved. *)
Lemma balanced_quiet over st e ns L L' a net net' :
  (forall q, pend L' q = pend L q) -> pending_total L' = pending_total L -> stranded_units L' = stranded_units L ->
  net' ≡ₘ net -> balanced over st e ns L a net -> balanced over st e ns L' a net'.
Proof.
  intros Hq Ht Hs Hn [Ho Hb Hu Hl]. split; [done| | |].
  - by rewrite (short_ext _ L L' Hq).
  - by rewrite Hn, Ht.
  - by rewrite Hs, (doom_ext _ L L' Hq).
Qed.

(** Nothing is stranded by a commit. *)
Lemma doom_settle e L p v : 0 <= v -> 0 <= pend L p -> doom e (upd p (on_bal (settle v)) L) <= doom e L.
Proof.
  intros Hv H0. assert (Hq : forall q, pend (upd p (on_bal (settle v)) L) q <= pend L q).
  { intros q. rewrite pend_upd. case_decide; [subst q|done]. unfold pend in *. destruct (objs L !! p) as [o|]; cbn in *; lia. }
  destruct e as [| | | | |k q x ks|k q x ks|k q ks|]; cbn [doom]; try done; specialize (Hq q); lia.
Qed.

(** An upper bound for what the eviction strands, after a change on one instance. *)
Lemma doom_moved p d e L L' n : keyed (entries L) n -> evict_ok L e -> moved p d L L' ->
  doom e L' <= doom e L + (if doomed e p then Z.max 0 d else 0).
Proof.
  intros Hk He Hm. pose proof (mv_here _ _ _ _ Hm) as Hp. pose proof (mv_others _ _ _ _ Hm) as Hq.
  destruct e; cbn [doom doomed]; try lia; case_bool_decide as Heq; try subst; rewrite ?Hq by done; lia.
Qed.

Lemma doomed_in_use e L p : evict_ok L e -> doomed e p = true -> p ∈ ptrs L.
Proof.
  intros He. destruct e; cbn [doomed]; try done; intros <-%bool_decide_eq_true; apply elem_of_ptrs; eexists; by apply He.
Qed.

(** A call that admits or refunds a unit. *)
Lemma balanced_call over st e ns L L' a net net' p d key n :
  keyed (entries L) n -> evict_ok L e -> moved p d L L' -> net' ≡ₘ net + d ->
  (forall k, entries L !! k = Some p -> k = key) ->
  let ns' := match d with
             | 1 => [NAdmitted key (doomed e p || negb (bool_decide (entries L !! key = Some p)))]
             | -1 => [NRefunded key (holders p (flight st e))]
             | _ => []
             end in
  d = 1 \/ d = -1 -> balanced over st e ns L a net -> balanced over st e (ns ++ ns') L' a net'.
Proof.
  intros Hk He Hm Hn Hkey ns' Hd [Ho Hb Hu Hl].
  pose proof (moved_stranded p d L L' n Hk Hm) as Hs. pose proof (doom_moved p d e L L' n Hk He Hm) as Hdm.
  pose proof (short_drop p (Z.max 0 (- d)) (flight st e) L L' ltac:(lia) (mv_others _ _ _ _ Hm)
    ltac:(rewrite (mv_here _ _ _ _ Hm); lia)) as Hsh.
  assert (Hin : p ∈ ptrs L <-> entries L !! key = Some p).
  { rewrite elem_of_ptrs. split; [|by exists key]. intros [k Hp]. by rewrite <- (Hkey k Hp). }
  subst ns'. split; [done| | |].
  - rewrite !tally_app. destruct Hd as [-> | ->]; rewrite !tally_one; cbn [crossed doubled]; lia.
  - rewrite Hn, (mv_total _ _ _ _ Hm). replace (net + d + over) with (net + over + d) by lia. rewrite Hu. eqm_lia.
  - rewrite Hs, tally_app. destruct Hd as [-> | ->]; rewrite !tally_one; cbn [late_admit].
    + pose proof (doomed_in_use e L p He) as Hdo. destruct (doomed e p); cbn [orb].
      * rewrite decide_True by (by apply Hdo). lia.
      * destruct (decide (p ∈ ptrs L)) as [Hp|Hp].
        -- rewrite bool_decide_true by (by apply Hin). cbn [negb]. lia.
        -- rewrite bool_decide_false by (intros H; by apply Hp, Hin). cbn [negb]. lia.
    + destruct (doomed e p); case_decide; lia.
Qed.

(** ** The commit loop *)
Definition sound_flight (L : Ledger) (fl : list (nat * Z)) : Prop :=
  Forall (fun pv => is_Some (objs L !! pv.1) /\ 0 <= pv.2 < H64) fl.

Lemma sound_nonneg L fl : sound_flight L fl -> Forall (fun pv => 0 <= pv.2) fl.
Proof. intros H. eapply list.Forall_impl; [exact H|]. intros pv [_ ?]. cbn. lia. Qed.

Lemma moved_settle p v o L : objs L !! p = Some o -> moved p (- Z.min v (pend L p)) L (upd p (on_bal (settle v)) L).
Proof. intros Ho. apply (moved_upd p _ o); [done|]. unfold pend. rewrite Ho. cbn. lia. Qed.

(** A vector is committed: the rest of what is in flight loses at most what it has
    in common with it. *)
Lemma balanced_settle over st e ns L a net p v st' e' fl n :
  keyed (entries L) n -> sound_flight L ((p, v) :: fl) -> 0 <= pend L p ->
  flight st e ≡ₚ (p, v) :: fl -> flight st' e' ≡ₚ fl ->
  loop_transit st + evict_transit e = loop_transit st' + evict_transit e' + v ->
  doom e' (upd p (on_bal (settle v)) L) <= doom e L ->
  balanced over st e ns L a net ->
  balanced (over + lacks L (p, v)) st' e' (ns ++ [NDoubled (twice p v fl)]) (upd p (on_bal (settle v)) L) a net.
Proof.
  intros Hk Hfl H0 Hf Hf' Ht Hd [Ho Hb Hu Hl]. inversion_clear Hfl as [|?? [[o Hobj] Hv] Hrest]. cbn [fst snd] in *.
  pose proof (moved_settle p v o L Hobj) as Hm. pose proof (moved_stranded _ _ _ _ n Hk Hm) as Hs.
  pose proof (short_settle p v fl L _ ltac:(lia) H0 (sound_nonneg _ _ Hrest) (mv_others _ _ _ _ Hm)
    ltac:(rewrite (mv_here _ _ _ _ Hm); lia)) as Hsh.
  assert (Hsf : short (flight st e) L = lacks L (p, v) + short fl L)
    by (rewrite <- short_cons; unfold short; apply Zsum_perm; by rewrite Hf).
  assert (Hsf' : short (flight st' e') (upd p (on_bal (settle v)) L) = short fl (upd p (on_bal (settle v)) L))
    by (unfold short; apply Zsum_perm; by rewrite Hf').
  assert (Hlack : lacks L (p, v) = v - Z.min v (pend L p)) by (unfold lacks; cbn; lia).
  split; [lia| | |].
  - rewrite Hsf', !tally_app, !tally_one. cbn [crossed doubled]. lia.
  - rewrite (mv_total _ _ _ _ Hm), Hlack, Z.add_assoc, Hu. eqm_lia.
  - rewrite Hs, tally_app, tally_one. cbn [late_admit]. case_decide; lia.
Qed.

Lemma pend_nonneg L : (forall p o, objs L !! p = Some o -> 0 <= pending (bal o)) -> forall p, 0 <= pend L p.
Proof. intros H p. unfold pend. destruct (objs L !! p) as [o|] eqn:Ho; [by apply (H p)|done]. Qed.

(** Vectors leave the flight, or enter it as they are pending. *)
Lemma balanced_flight over st e st' e' ns L a a' net :
  short (flight st' e') L <= short (flight st e) L ->
  a' - loop_transit st' - evict_transit e' ≡ₘ a - loop_transit st - evict_transit e ->
  doom e' L <= doom e L ->
  balanced over st e ns L a net -> balanced over st' e' ns L a' net.
Proof.
  intros Hs Ht Hd [Ho Hb Hu Hl]. split; [done|lia| |lia].
  rewrite Hu. transitivity (pending_total L + (a - loop_transit st - evict_transit e)); [eqm_lia|].
  rewrite <- Ht. eqm_lia.
Qed.

Section loops.
Context {P C : Type} {PP : Persister P} {PL : PersisterLaws P} {CC : Churn C}.
Implicit Types (B : Books P C).

Lemma batch_accepted items L fl P0 P1 err :
  sound_flight L fl -> batch_flight (batch_of items) = fl -> CommitBatch (commits_of items) P0 = (P1, err) ->
  accepted_units P1 ≡ₘ accepted_units P0 + match err with None => Zsum fl.*2 | Some _ => 0 end.
Proof.
  intros Hfl Hit HP. rewrite flight_of in Hit. subst fl. apply accepted_units_ok in HP.
  - rewrite HP. destruct err; [done|]. unfold commits_of. by rewrite <- !list_fmap_compose.
  - unfold sound_flight in Hfl. rewrite Forall_fmap in Hfl. unfold commits_of. apply Forall_fmap.
    eapply list.Forall_impl; [exact Hfl|]. intros i [_ ?]. done.
Qed.

Lemma loop_balanced w st st' e ns B B' net over n :
  keyed (entries (ledger B)) n -> sound_flight (ledger B) (flight st e) -> (forall p, 0 <= pend (ledger B) p) ->
  loop_case w st st' B B' -> balanced over st e ns (ledger B) (accepted_units (backend B)) net ->
  exists over', balanced over' st' e (ns ++ loop_note st e) (ledger B') (accepted_units (backend B')) net.
Proof.
  intros Hk Hfl H0 Hc Hb. destruct st as [|pass [|key keys] b|b i]; cbn [loop_case loop_note] in *.
  - destruct Hc as [-> ->]. exists over. by rewrite app_nil_r.
  - exists over. rewrite app_nil_r. destruct Hc as (HL & items & -> & [(-> & -> & ->)|(err & HP & ->)]).
    { revert Hb. by apply balanced_flight. }
    rewrite HL. apply list.Forall_app in Hfl as [Hfl _].
    pose proof (batch_accepted items (ledger B) _ _ _ _ Hfl eq_refl HP) as Ha. cbn [loop_flight] in Ha.
    pose proof (short_nonneg (batch_flight (batch_of items)) (ledger B)).
    revert Hb. apply balanced_flight; [|rewrite Ha|done].
    + unfold flight. destruct err; cbn [loop_flight]; [rewrite !short_app; change (short [] (ledger B)) with 0; lia|].
      by rewrite drop_0.
    + destruct err; cbn [loop_transit loop_flight]; rewrite ?drop_0; eqm_lia.
  - exists over. rewrite app_nil_r. destruct Hc as (HB & _ & HL & added & Hf & [b' ->] & Hadd). rewrite HB.
    assert (Hb' : balanced over (Collecting pass keys b') e ns (ledger B) (accepted_units (backend B)) net).
    { revert Hb. apply balanced_flight; [|done..]. unfold flight. rewrite Hf. cbn [loop_flight]. rewrite !short_app.
      enough (short added (ledger B) = 0) by lia. destruct Hadd as [->|(p & _ & -> & _)]; [done|].
      unfold short, lacks, Zsum. cbn. lia. }
    destruct HL as [->|(p & g & Hg & ->)]; [done|].
    revert Hb'. apply balanced_quiet; [by intros q; apply pend_upd_same|by apply (pending_scan g [p])| |done].
    unfold stranded_units, live. f_equal; [by apply (pending_scan g [p])|]. f_equal. apply list_fmap_ext. intros. by apply pend_upd_same.
  - destruct (drop i (batch_flight b)) as [|[p v] fl] eqn:Hd.
    + destruct Hc as [-> ->]. exists over. cbn [loop_flight]. rewrite Hd, app_nil_r.
      revert Hb. apply balanced_flight; [by unfold flight; cbn [loop_flight]; rewrite Hd| |done].
      cbn [loop_transit loop_flight]. by rewrite Hd.
    + destruct Hc as [-> ->]. cbn [loop_flight]. rewrite Hd. eexists.
      assert (Hd' : drop (S i) (batch_flight b) = fl) by (rewrite <- Nat.add_1_r, <- drop_drop, Hd; done).
      assert (Hfl' : sound_flight (ledger B) ((p, v) :: fl ++ evict_flight e)) by (unfold flight in Hfl; cbn [loop_flight] in Hfl; by rewrite Hd in Hfl).
      revert Hb. apply (balanced_settle _ _ _ _ _ _ _ p v _ _ (fl ++ evict_flight e) n); try done.
      * unfold flight. cbn [loop_flight]. by rewrite Hd.
      * unfold flight. cbn [loop_flight]. by rewrite Hd'.
      * cbn [loop_transit loop_flight]. rewrite Hd, Hd'. cbn [fmap list_fmap snd]. rewrite Zsum_cons. lia.
      * apply doom_settle; [|apply H0]. inversion_clear Hfl' as [|?? [? ?] _]. cbn in *. lia.
Qed.

(** ** The eviction *)
Lemma evict_balanced w now e e' st ns B B' net over n :
  keyed (entries (ledger B)) n -> sound_flight (ledger B) (flight st e) -> (forall p, 0 <= pend (ledger B) p) ->
  evict_ok (ledger B) e -> evict_case w now e e' B B' ->
  balanced over st e ns (ledger B) (accepted_units (backend B)) net ->
  exists over', balanced over' st e' (ns ++ evict_note st e) (ledger B') (accepted_units (backend B')) net.
Proof.
  intros Hk Hfl H0 He Hc Hb.
  destruct e as [|t [|key keys] acc|[|key keys]|key p keys|key p keys|key p vec keys|key p vec keys|key p keys|p keys];
    cbn [evict_case evict_note] in *; try (exists over; rewrite app_nil_r).
  - by destruct Hc as [-> ->].
  - destruct Hc as [-> [(? & ? & ? & ->)|[ks ->]]]; revert Hb; by apply balanced_flight.
  - destruct Hc as [-> [(? & ? & ? & ->)|[ks ->]]]; revert Hb; by apply balanced_flight.
  - destruct Hc as [-> ->]. revert Hb; by apply balanced_flight.
  - destruct Hc as [-> ->]. revert Hb. by destruct (entries _ !! key); apply balanced_flight.
  - destruct Hc as [-> [->| ->]]; revert Hb; by apply balanced_flight.
  - destruct Hc as [-> ->]. revert Hb. destruct (Z.eqb_spec (pend (ledger B) p) 0) as [Hz|Hz]; apply balanced_flight; try done.
    + cbn. by rewrite Hz.
    + unfold flight. rewrite !short_app. cbn [evict_flight]. rewrite short_cons. unfold lacks. cbn [fst snd]. change (short [] (ledger B)) with 0. lia.
    + cbn. lia.
  - destruct (CommitBatch [mkCommit key vec] (backend B)) as [P' err] eqn:HP. destruct Hc as [-> ->]. cbn [ledger backend].
    destruct He as [_ Hv]. apply accepted_units_ok in HP; [|by repeat constructor; cbn; lia].
    revert Hb. destruct err; apply balanced_flight; rewrite ?HP; try done.
    + unfold flight. rewrite !short_app. pose proof (short_nonneg [(p, vec)] (ledger B)). change (short [] (ledger B)) with 0. cbn [evict_flight]. change (short [] (ledger B)) with 0. lia.
    + cbn. eqm_lia.
    + cbn. lia.
    + cbn [evict_transit fmap list_fmap Vector]. rewrite Zsum_cons. change (Zsum []) with 0. eqm_lia.
  - destruct Hc as [-> ->]. destruct He as [He Hv]. cbn [on_ledger ledger backend]. eexists.
    assert (Hfl' : sound_flight (ledger B) ((p, vec) :: loop_flight st)).
    { unfold sound_flight in *. unfold flight in Hfl. cbn [evict_flight] in Hfl. apply list.Forall_app in Hfl as [? Hv']. inversion_clear Hv'. by constructor. }
    revert Hb. apply (balanced_settle _ _ _ _ _ _ _ p vec _ _ (loop_flight st) n); try done.
    + unfold flight. cbn [evict_flight]. by rewrite Permutation_app_comm.
    + unfold flight. cbn [evict_flight]. by rewrite app_nil_r.
    + cbn [evict_transit]. lia.
    + cbn [doom]. inversion_clear Hfl' as [|?? [[o Ho] _] _]. cbn [fst] in Ho.
      rewrite (mv_here _ _ _ _ (moved_settle p vec o (ledger B) Ho)). specialize (H0 p). lia.
  - destruct Hc as [-> ->]. rewrite He. exists over. destruct Hb as [Ho Hb Hu Hl]. cbn [forget on_ledger ledger backend].
    cbn [doom evict_transit] in *. split; [done| | |].
    + rewrite !tally_app, !tally_one. cbn [crossed doubled]. unfold flight in *. cbn [evict_flight] in *.
      rewrite (short_ext _ (ledger B)) by done. lia.
    + done.
    + rewrite (stranded_delete key p (ledger B) He), tally_app, tally_one. cbn [late_admit doom]. lia.
  - destruct Hc as [-> ->]. revert Hb; by apply balanced_flight.
Qed.
End loops.
