(* ===== verification/ConcurrentPlaces.v ===== *)
(** * Where the pointers of a concurrent run lead

    Handlers, loops and the vectors in flight hold pointers to instances, some of them
    evicted.  [placed]: every instance was made for one key, and whoever holds a
    pointer holds it for that key; kept by every step. *)
From S2P Require Import Prelude Effects Vsa VsaSpec Counter Store Ledger CoreMetrics Worker WorkerSpec Doubles WorkerProps Api ApiSpec Service Overlap OverlapSpec Concurrent ConcurrentLedger ConcurrentSteps ConcurrentAccount.
Import Spec.

(** ** Where the pointers lead

    [inst k]: the instances the key [k] has had. *)
Definition handler_ok (inst : string -> list nat) (h : Handler) : Prop :=
  match h with Found _ key _ p | Holds _ key p | Asks key p _ => p ∈ inst key | _ => True end.

Record mapped (inst : string -> list nat) (L : Ledger) : Prop := {
  mp_valid k p : p ∈ inst k -> is_Some (objs L !! p);
  mp_nodup k : NoDup (inst k);
  mp_apart k k' p : p ∈ inst k -> p ∈ inst k' -> k = k';
  mp_entries k p : entries L !! k = Some p -> p ∈ inst k
}.

Record placed (inst : string -> list nat) (c : CState) (L : Ledger) : Prop := {
  pl_mapped : mapped inst L;
  pl_threads : Forall (handler_ok inst) (threads c);
  pl_evict : evict_ok L (evict c);
  pl_loop : loop_ok (loop c);
  pl_flight : sound_flight L (flight (loop c) (evict c))
}.

(** The objects stay, and with them the pointers. *)
Definition grows (L L' : Ledger) : Prop := forall q, is_Some (objs L !! q) -> is_Some (objs L' !! q).

Lemma grows_refl L : grows L L.
Proof. by intros q. Qed.
#[local] Hint Resolve grows_refl : core.
Lemma grows_upd p f L : grows L (upd p f L).
Proof. intros q. by rewrite upd_objs_is_Some. Qed.
Lemma grows_push o L : grows L (push o L).
Proof. intros q [o' Ho]. cbn. rewrite (lookup_app_l_Some _ _ _ _ Ho). by eexists. Qed.

Lemma sound_grows L L' fl : grows L L' -> sound_flight L fl -> sound_flight L' fl.
Proof. intros Hg Hfl. eapply list.Forall_impl; [exact Hfl|]. intros pv [? ?]. split; [by apply Hg|done]. Qed.

Lemma evict_ok_grows L L' e : grows L L' -> (forall k p, entries L !! k = Some p -> entries L' !! k = Some p) ->
  evict_ok L e -> evict_ok L' e.
Proof. intros Hg He. destruct e; cbn; intuition eauto. Qed.

(** A new instance for a key. *)
Definition with_instance (key : string) (p : nat) (inst : string -> list nat) : string -> list nat :=
  fun k => if decide (k = key) then p :: inst k else inst k.

Lemma elem_of_with_instance key p inst k q :
  q ∈ with_instance key p inst k <-> q ∈ inst k \/ k = key /\ q = p.
Proof. unfold with_instance. case_decide; [rewrite elem_of_cons|]; intuition congruence. Qed.

Lemma handler_ok_mono inst inst' h : (forall k q, q ∈ inst k -> q ∈ inst' k) -> handler_ok inst h -> handler_ok inst' h.
Proof. intros Hi. destruct h; cbn; eauto. Qed.

Lemma mapped_grows inst L L' : grows L L' -> (forall k p, entries L' !! k = Some p -> entries L !! k = Some p) ->
  mapped inst L -> mapped inst L'.
Proof. intros Hg He [Hv Hnd Hap Hen]. split; eauto. Qed.

Lemma mapped_enter inst key now L : mapped inst L -> entries L !! key = None ->
  mapped (with_instance key (length (objs L)) inst) (enter key now L).
Proof.
  intros [Hv Hnd Hap Hen] Hk.
  assert (Hfresh : forall k, length (objs L) ∉ inst k) by (intros k [o Ho%lookup_lt_Some]%Hv; lia).
  split.
  - intros k p [Hp|[_ ->]]%elem_of_with_instance; [by apply (grows_push (fresh L now) L), (Hv k)|].
    cbn. rewrite lookup_app_r, Nat.sub_diag by done. by eexists.
  - intros k. unfold with_instance. case_decide; [|done]. by constructor.
  - intros k k' p [H1|[-> ->]]%elem_of_with_instance [H2|[-> Hp]]%elem_of_with_instance; [by eapply Hap| | |done].
    + subst p. by destruct (Hfresh k).
    + by destruct (Hfresh k').
  - intros k p. cbn. intros [[<- <-]|[_ Hp]]%lookup_insert_Some; apply elem_of_with_instance; [by right|left; by apply Hen].
Qed.

(** The instances after a handler's step. *)
Definition instances_after (h : Handler) (L : Ledger) (inst : string -> list nat) : string -> list nat :=
  match h with
  | Missed _ key _ => match entries L !! key with None => with_instance key (length (objs L)) inst | Some _ => inst end
  | _ => inst
  end.

Lemma instances_keep h L inst k q : q ∈ inst k -> q ∈ instances_after h L inst k.
Proof. intros Hq. destruct h; cbn; try done. destruct (entries L !! key); [done|]. apply elem_of_with_instance. by left. Qed.

Lemma handler_case_keeps sv h h' out L L' m m' : handler_case sv h h' out L L' m m' ->
  grows L L' /\ forall k p, entries L !! k = Some p -> entries L' !! k = Some p.
Proof.
  destruct h as [rq key now|rq key now|rq key now p|rq key p|key p ok|key r]; cbn [handler_case].
  - intros (-> & _). by split.
  - intros (_ & _ & Hc). destruct (entries L !! key) as [q|] eqn:Hk; destruct Hc as [-> _]; (split; [apply grows_push|]).
    + done.
    + intros k p Hp. cbn. rewrite lookup_insert_ne; [done|]. intros <-. congruence.
  - intros (_ & _ & -> & _). split; [apply grows_upd|done].
  - intros (o & _ & -> & _). split; [apply grows_upd|done].
  - intros (-> & _). by split.
  - intros (-> & _). by split.
Qed.

Lemma mapped_handler sv inst h h' out L L' m m' : mapped inst L -> handler_ok inst h ->
  handler_case sv h h' out L L' m m' ->
  mapped (instances_after h L inst) L' /\ handler_ok (instances_after h L inst) h'.
Proof.
  intros Hm Hh. destruct h as [rq key now|rq key now|rq key now p|[] key p|key p ok|key r];
    cbn [handler_case handler_ok instances_after] in *.
  - intros (-> & _ & _ & ->). split; [done|]. case_decide; [done|]. destruct (entries L !! key) eqn:Hk; [|done].
    by apply (mp_entries _ _ Hm).
  - intros (_ & _ & Hc). destruct (entries L !! key) as [q|] eqn:Hk; destruct Hc as [-> ->].
    + split; [apply (mapped_grows inst L); [apply grows_push|done|done]|by apply (mp_entries _ _ Hm)].
    + split; [by apply mapped_enter|]. apply elem_of_with_instance. by right.
  - intros (_ & _ & -> & ->). split; [|done]. apply (mapped_grows inst L); [apply grows_upd|done|done].
  - intros (o & _ & -> & _ & _ & ->). split; [|done]. apply (mapped_grows inst L); [apply grows_upd|done|done].
  - intros (o & _ & -> & _ & _ & ->). split; [|done]. apply (mapped_grows inst L); [apply grows_upd|done|done].
  - intros (-> & _ & _ & o & _ & ->). done.
  - intros (-> & _ & _ & ->). done.
Qed.

Lemma placed_handler sv inst c L L' m m' i h h' out ns :
  placed inst c L -> threads c !! i = Some h -> handler_case sv h h' out L L' m m' ->
  placed (instances_after h L inst) (mkCState (<[i := h']> (threads c)) (loop c) (evict c) ns) L'.
Proof.
  intros [Hm Hth He Hl Hf] Hi Hc. destruct (handler_case_keeps _ _ _ _ _ _ _ _ Hc) as [Hg Hkeep].
  assert (Hh : handler_ok inst h) by (rewrite list.Forall_forall in Hth; apply Hth; by eapply list_elem_of_lookup_2).
  destruct (mapped_handler sv inst h h' out L L' m m' Hm Hh Hc) as [Hm' Hh']. split; cbn [threads loop evict]; try done.
  - apply Forall_insert; [|done]. eapply list.Forall_impl; [exact Hth|]. intros x. apply handler_ok_mono, instances_keep.
  - by eapply evict_ok_grows.
  - by eapply sound_grows.
Qed.

(** The loops never make an instance. *)
Lemma placed_loop inst c L L' st' e' ns : grows L L' -> (forall k p, entries L' !! k = Some p -> entries L !! k = Some p) ->
  evict_ok L' e' -> loop_ok st' -> sound_flight L' (flight st' e') -> placed inst c L ->
  placed inst (mkCState (threads c) st' e' ns) L'.
Proof. intros Hg He Hev Hl Hf [Hm Hth _ _ _]. split; cbn [threads loop evict]; try done. by eapply mapped_grows. Qed.

Section placed_loops.
Context {P C : Type} {PP : Persister P} {CC : Churn C}.
Implicit Types (B : Books P C).

Lemma placed_advance w inst c B B' st' ns :
  (forall p, 0 <= pend (ledger B) p < H64) -> loop_case w (loop c) st' B B' -> placed inst c (ledger B) ->
  placed inst (mkCState (threads c) st' (evict c) ns) (ledger B').
Proof.
  intros Hpend Hc Hpl. pose proof Hpl as [Hm _ He Hl Hf].
  pose proof Hf as [Hfl Hfe]%list.Forall_app. destruct (loop c) as [|pass [|key keys] b|b i]; cbn [loop_case loop_ok loop_flight] in *.
  - destruct Hc as [-> ->]. by apply (placed_loop inst c (ledger B)).
  - destruct Hc as (HL & items & -> & [(-> & -> & ->)|(err & _ & ->)]); [by apply (placed_loop inst c (ledger B))|].
    rewrite HL. apply (placed_loop inst c (ledger B)); try done.
    + destruct err; [done|]. by exists items.
    + destruct err; apply list.Forall_app; (split; [|done]); cbn [loop_flight]; [constructor|by rewrite drop_0].
  - destruct Hc as (_ & Hl' & HL & added & Hfl' & [b' ->] & Hadd).
    assert (Hg : grows (ledger B) (ledger B') /\ entries (ledger B') = entries (ledger B))
      by (destruct HL as [->|(p & g & _ & ->)]; (split; [|done]); [by intros q|apply grows_upd]).
    destruct Hg as [Hg Hent]. apply (placed_loop inst c (ledger B)); try done; [by rewrite Hent|..].
    + eapply evict_ok_grows; [exact Hg|by rewrite Hent|done].
    + apply (sound_grows (ledger B)); [done|]. unfold flight. rewrite Hfl'. apply list.Forall_app. split; [|done].
      apply list.Forall_app. split; [done|]. destruct Hadd as [->|(p & Hp & -> & _)]; repeat constructor; cbn [fst snd]; [|apply Hpend..].
      by apply (mp_valid _ _ Hm key), (mp_entries _ _ Hm).
  - destruct (drop i (batch_flight b)) as [|[p v] fl] eqn:Hd; destruct Hc as [-> ->].
    + by apply (placed_loop inst c (ledger B)).
    + assert (Hd' : drop (S i) (batch_flight b) = fl) by (rewrite <- Nat.add_1_r, <- drop_drop, Hd; done).
      apply (placed_loop inst c (ledger B)); try done; [apply grows_upd|..].
      * by eapply evict_ok_grows; [apply grows_upd|..].
      * apply (sound_grows (ledger B)); [apply grows_upd|]. unfold flight. cbn [loop_flight]. rewrite Hd'.
        apply list.Forall_app. split; [|done]. by inversion_clear Hfl.
Qed.

Lemma placed_evict w now inst c B B' e' ns :
  (forall p, 0 <= pend (ledger B) p < H64) -> evict_case w now (evict c) e' B B' -> placed inst c (ledger B) ->
  placed inst (mkCState (threads c) (loop c) e' ns) (ledger B').
Proof.
  intros Hpend Hc Hpl. pose proof Hpl as [Hm _ He Hl Hf]. pose proof Hf as [Hfl Hfe]%list.Forall_app.
  assert (Hquiet : B' = B -> evict_ok (ledger B) e' -> sound_flight (ledger B) (evict_flight e') ->
    placed inst (mkCState (threads c) (loop c) e' ns) (ledger B')).
  { intros -> He' Hf'. apply (placed_loop inst c (ledger B)); try done. by apply list.Forall_app. }
  destruct (evict c) as [|t [|key keys] acc|[|key keys]|key p keys|key p keys|key p vec keys|key p vec keys|key p keys|p keys];
    cbn [evict_case evict_ok] in *.
  - destruct Hc as [-> ->]. by apply Hquiet.
  - destruct Hc as [-> [(? & ? & ? & ->)|[ks ->]]]; (apply Hquiet; [done|done|constructor]).
  - destruct Hc as [-> [(? & ? & ? & ->)|[ks ->]]]; (apply Hquiet; [done|done|constructor]).
  - destruct Hc as [-> ->]. by apply Hquiet.
  - destruct Hc as [-> ->]. by destruct (entries _ !! key) eqn:Hk; apply Hquiet; try constructor.
  - destruct Hc as [-> [->| ->]]; (apply Hquiet; [done|done|constructor]).
  - destruct Hc as [-> ->]. destruct (_ =? _); [apply Hquiet; [done|done|constructor]|].
    apply Hquiet; [done|split; [done|apply Hpend]|]. constructor; [|constructor]. cbn [fst snd].
    split; [|apply Hpend]. by apply (mp_valid _ _ Hm key), (mp_entries _ _ Hm).
  - destruct (CommitBatch _ _) as [P' err]. destruct Hc as [-> ->]. cbn [ledger] in *.
    destruct err; (apply (placed_loop inst c (ledger B)); try done; apply list.Forall_app; by split; try constructor).
  - destruct Hc as [-> ->]. cbn [on_ledger ledger]. apply (placed_loop inst c (ledger B)); try done; [apply grows_upd|apply He|].
    apply (sound_grows (ledger B)); [apply grows_upd|]. apply list.Forall_app. by split; try constructor.
  - destruct Hc as [-> ->]. rewrite He. cbn [forget on_ledger ledger]. apply (placed_loop inst c (ledger B)); [by intros q|..|done| |done].
    + intros k q. cbn. by intros [_ ?]%lookup_delete_Some.
    + by apply (mp_valid _ _ Hm key), (mp_entries _ _ Hm).
    + apply list.Forall_app. by split; try constructor.
  - destruct Hc as [-> ->]. (apply Hquiet; [done|done|constructor]).
Qed.
End placed_loops.
