(* ===== verification/ConcurrentSpec.v ===== *)
(** * What survives when everything runs at once

    The invariant [machine_inv] of the machine of [Concurrent]: the account
    ([ConcurrentAccount]), the pointers ([ConcurrentPlaces]) and what every key was
    granted ([counted], here); every event keeps it ([concurrent_event_ok]), hence the
    two theorems: the account of the units, and the limit of a key, in any
    interleaving of the calls of handlers, commit loop and eviction loop. *)
From S2P Require Import Prelude Effects Vsa VsaSpec Counter Store Ledger CoreMetrics Worker WorkerSpec Doubles WorkerProps Api ApiSpec Service Overlap OverlapSpec Concurrent ConcurrentLedger ConcurrentSteps ConcurrentAccount ConcurrentPlaces.
Import Spec.

(** ** What each key was granted *)
Definition units_at (L : Ledger) (q : nat) : Z := match objs L !! q with Some o => units o | None => limit L end.
Definition spent_at (L : Ledger) (q : nat) : Z := limit L - units_at L q.
Definition admitted (k : string) (n : Note) : Z := match n with NAdmitted key _ => if decide (key = k) then 1 else 0 | _ => 0 end.
Definition refunded (k : string) (n : Note) : Z := match n with NRefunded key _ => if decide (key = k) then 1 else 0 | _ => 0 end.
(** A request of [k] that was answered 200 or is about to be. *)
Definition admitting (k : string) (h : Handler) : Z :=
  match h with
  | Asks key _ true => if decide (key = k) then 1 else 0
  | Answered key r => if decide (key = k) then (if status r =? 200 then 1 else 0) else 0
  | _ => 0
  end.

Record counted (inst : string -> list nat) (c : CState) (L : Ledger) : Prop := {
  ct_instances k : Z.of_nat (length (inst k)) =
    tally (evicted k) (notes c) + (match entries L !! k with Some _ => 1 | None => 0 end);
  ct_granted k : tally (granted k) (notes c) = Zsum (spent_at L <$> inst k);
  ct_answers k : Zsum (admitting k <$> threads c) = tally (admitted k) (notes c)
}.

Lemma spent_upd p f o L : objs L !! p = Some o -> forall q, spent_at (upd p f L) q =
  if decide (q = p) then spent_at L p + (units o - units (f o)) else spent_at L q.
Proof.
  intros Ho q. unfold spent_at, units_at. cbn [limit upd]. rewrite (upd_lookup p f L q).
  destruct (decide (p = q)) as [<-|Hne]; [rewrite Ho, decide_True by done; cbn; lia|by rewrite decide_False by done].
Qed.

Lemma spent_push now L q : spent_at (push (fresh L now) L) q = spent_at L q.
Proof.
  unfold spent_at, units_at. cbn. destruct (objs L !! q) as [o|] eqn:Ho; [by rewrite (lookup_app_l_Some _ _ _ _ Ho)|].
  apply lookup_ge_None in Ho. rewrite lookup_app_r by done.
  destruct (q - length (objs L))%nat as [|n]; [|done]. cbn. unfold units. cbn. lia.
Qed.

Lemma spent_same_upd p f L q : (forall o, units (f o) = units o) -> spent_at (upd p f L) q = spent_at L q.
Proof.
  intros Hf. destruct (objs L !! p) as [o|] eqn:Ho.
  - rewrite (spent_upd p f o L Ho). case_decide; [subst; rewrite Hf; lia|done].
  - unfold spent_at, units_at. cbn [limit upd]. rewrite upd_lookup. case_decide; [subst; by rewrite Ho|done].
Qed.

Lemma call_note_tallies cs st e key p rq ok k :
  let ns := call_note cs st e (Holds rq key p) (Some ok) in
  tally (evicted k) ns = 0 /\ tally (granted k) ns = (if decide (key = k) then call_net rq ok else 0) /\
  tally (admitted k) ns = (if decide (key = k) then match rq with RqCheck => if ok then 1 else 0 | _ => 0 end else 0).
Proof. destruct rq, ok; cbn [call_note call_net]; rewrite ?tally_one, ?tally_nil; cbn [evicted granted admitted]; split_and!; by repeat case_decide. Qed.

Lemma call_note_quiet cs st e h : call_note cs st e h None = [].
Proof. by destruct h as [| | |[]| |]. Qed.

Lemma answers_insert k hs i h h' : hs !! i = Some h ->
  Zsum (admitting k <$> <[i := h']> hs) = Zsum (admitting k <$> hs) - admitting k h + admitting k h'.
Proof. intros Hi. rewrite list_fmap_insert. apply Zsum_insert. by rewrite list_lookup_fmap, Hi. Qed.

(** A step that grants nothing. *)
Lemma counted_quiet inst c L L' i h h' : threads c !! i = Some h -> entries L' = entries L ->
  (forall q, spent_at L' q = spent_at L q) -> (forall k, admitting k h' = admitting k h) ->
  counted inst c L -> counted inst (mkCState (<[i := h']> (threads c)) (loop c) (evict c) (notes c ++ [])) L'.
Proof.
  intros Hi He Hs Ha [Hin Hgr Han]. rewrite app_nil_r. split; intros k; cbn [notes threads].
  - by rewrite He.
  - rewrite Hgr. f_equal. apply list_fmap_ext. intros. by rewrite Hs.
  - rewrite (answers_insert k _ _ _ _ Hi), Ha, <- Han. lia.
Qed.

Lemma counted_handler sv inst c L L' m m' i h h' out cs :
  mapped inst L -> counted inst c L -> threads c !! i = Some h -> handler_ok inst h ->
  handler_case sv h h' out L L' m m' ->
  counted (instances_after h L inst)
    (mkCState (<[i := h']> (threads c)) (loop c) (evict c) (notes c ++ call_note cs (loop c) (evict c) h out)) L'.
Proof.
  intros Hm Hct Hi Hh. destruct h as [rq key now|rq key now|rq key now p|rq key p|key p ok|key r];
    cbn [handler_case handler_ok instances_after] in *.
  - intros (-> & _ & -> & ->). rewrite call_note_quiet. eapply (counted_quiet inst c L); [done..| |done].
    intros k. destruct (decide (key = "")); [cbn [admitting]; by case_decide|]. by destruct (entries L !! key).
  - intros (_ & -> & Hc). rewrite call_note_quiet. destruct (entries L !! key) as [q|] eqn:Hk; destruct Hc as [-> ->].
    { eapply (counted_quiet inst c L); [done|done|apply spent_push|done|done]. }
    destruct Hct as [Hin Hgr Han]. rewrite app_nil_r. split; intros k; cbn [notes threads].
    + unfold with_instance. cbn [entries enter set_entries]. destruct (decide (k = key)) as [->|Hne].
      * rewrite lookup_insert_eq. cbn [length]. specialize (Hin key). rewrite Hk in Hin. lia.
      * by rewrite lookup_insert_ne by done.
    + rewrite Hgr. unfold with_instance.
      assert (Hsp : spent_at (enter key now L) <$> inst k = spent_at L <$> inst k) by (apply list_fmap_ext; intros; apply spent_push).
      case_decide; [|by rewrite Hsp]. cbn [fmap list_fmap]. rewrite Zsum_cons, Hsp.
      change (spent_at (enter key now L) (length (objs L))) with (spent_at (push (fresh L now) L) (length (objs L))).
      rewrite spent_push. unfold spent_at, units_at. rewrite lookup_ge_None_2 by lia. lia.
    + rewrite (answers_insert k _ _ _ _ Hi), <- Han. cbn. lia.
  - intros (_ & -> & -> & ->). rewrite call_note_quiet. eapply (counted_quiet inst c L); [done|done| |done|done].
    intros q. by apply spent_same_upd.
  - intros (o & Ho & -> & -> & _ & ->). set (ok := call_ok rq (bal o)). destruct Hct as [Hin Hgr Han].
    split; intros k; cbn [notes threads]; destruct (call_note_tallies cs (loop c) (evict c) key p rq ok k) as (H1 & H2 & H3).
    + rewrite tally_app, H1, Z.add_0_r. apply Hin.
    + rewrite tally_app, H2, Hgr.
      rewrite (Zsum_change (spent_at L) (spent_at (upd p (on_bal (call_bal rq)) L)) (inst k) p (call_net rq ok)).
      * f_equal. destruct (decide (key = k)) as [<-|Hne]; [by rewrite decide_True|].
        rewrite decide_False; [done|]. intros Hp. by apply Hne, (mp_apart _ _ Hm key k p).
      * apply (mp_nodup _ _ Hm).
      * intros q Hq. by rewrite (spent_upd p _ o L Ho), decide_False.
      * rewrite (spent_upd p _ o L Ho), decide_True, call_units by done. unfold ok. lia.
    + rewrite tally_app, H3, <- Han, (answers_insert k _ _ _ _ Hi). destruct rq; cbn [admitting].
      * destruct ok; case_decide; lia.
      * change (status (mkResponse 204 [] "") =? 200) with false. repeat case_decide; lia.
  - intros (-> & _ & -> & o & _ & ->). rewrite call_note_quiet. eapply (counted_quiet inst c L); [done..| |done].
    intros k. by destruct ok; cbn [admitting]; case_decide.
  - intros (-> & _ & -> & ->). rewrite call_note_quiet. by eapply (counted_quiet inst c L).
Qed.

(** The loops grant nothing; a deletion ends the time of an instance. *)
Lemma counted_loop inst c L L' st' e' ns' : 
  (forall q, spent_at L' q = spent_at L q) ->
  (forall k, tally (evicted k) ns' + (match entries L' !! k with Some _ => 1 | None => 0 end) =
             match entries L !! k with Some _ => 1 | None => 0 end) ->
  (forall k, tally (granted k) ns' = 0 /\ tally (admitted k) ns' = 0) ->
  counted inst c L -> counted inst (mkCState (threads c) st' e' (notes c ++ ns')) L'.
Proof.
  intros Hs He Hn [Hin Hgr Han]. split; intros k; cbn [notes threads]; destruct (Hn k) as [Hg Ha]; rewrite tally_app.
  - specialize (Hin k). specialize (He k). lia.
  - rewrite Hg, Hgr, Z.add_0_r. f_equal. apply list_fmap_ext. intros. by rewrite Hs.
  - rewrite Ha, <- Han. lia.
Qed.

Lemma settle_spent p v L q : spent_at (upd p (on_bal (settle v)) L) q = spent_at L q.
Proof. apply spent_same_upd. intros o. unfold units. cbn. lia. Qed.

(** A step of a handler, on the accounts. *)
Lemma balanced_handler sv inst over st e ns L L' a m m' h h' out n :
  keyed (entries L) n -> evict_ok L e -> mapped inst L -> handler_ok inst h -> handler_case sv h h' out L L' m m' ->
  balanced over st e ns L a (admits m - refunds m) ->
  balanced over st e (ns ++ call_note (entries L) st e h out) L' a (admits m' - refunds m').
Proof.
  intros Hk He Hm Hh Hc Hb. destruct h as [rq key now|rq key now|rq key now p|rq key p|key p ok|key r]; cbn [handler_case handler_ok] in *.
  - destruct Hc as (-> & -> & -> & _). by rewrite call_note_quiet, app_nil_r.
  - destruct Hc as (-> & -> & Hc). rewrite call_note_quiet, app_nil_r.
    destruct (entries L !! key) as [q|] eqn:Hkey; destruct Hc as [-> _]; revert Hb.
    + apply balanced_quiet; [apply pend_push|apply total_push|apply stranded_push|done].
    + apply balanced_quiet; [apply pend_push|apply total_push|by apply stranded_enter|done].
  - destruct Hc as (-> & -> & -> & _). rewrite call_note_quiet, app_nil_r. revert Hb.
    assert (Hq : forall q, pend (upd p (set_last now) L) q = pend L q) by (intros q; by apply pend_upd_same).
    apply balanced_quiet; [done|by apply (pending_scan (set_last now) [p])| |done].
    unfold stranded_units, live. f_equal; [by apply (pending_scan (set_last now) [p])|]. f_equal. by apply list_fmap_ext.
  - destruct Hc as (o & Ho & -> & -> & Hn & _). pose proof (moved_upd p _ o _ L Ho (call_pending rq o)) as Hmv.
    destruct (call_ok rq (bal o)) eqn:Hok.
    + replace (call_note (entries L) st e (Holds rq key p) (Some true)) with
        (match call_net rq true with
         | 1 => [NAdmitted key (doomed e p || negb (bool_decide (entries L !! key = Some p)))]
         | -1 => [NRefunded key (holders p (flight st e))]
         | _ => [] end) by by destruct rq.
      revert Hb. eapply balanced_call; [done|done|done|done| |by destruct rq; [left|right]].
      intros k Hkp. apply (mp_apart _ _ Hm k key p); [by apply (mp_entries _ _ Hm)|done].
    + replace (call_note (entries L) st e (Holds rq key p) (Some false)) with
        (match rq with RqCheck => [NRefused key] | RqRelease => [] end) by by destruct rq.
      cbn [call_net] in *. assert (Hb' : balanced over st e (ns ++ match rq with RqCheck => [NRefused key] | RqRelease => [] end) L a (admits m - refunds m)).
      { destruct Hb as [Hov Hbd Hu Hl]. split; [done| |done|]; destruct rq; rewrite ?app_nil_r, ?tally_app, ?tally_one; cbn [crossed doubled late_admit]; lia. }
      revert Hb'. apply balanced_quiet; [|rewrite (mv_total _ _ _ _ Hmv); lia| |by rewrite Hn, Z.add_0_r].
      * intros q. destruct (decide (q = p)) as [->|]; [rewrite (mv_here _ _ _ _ Hmv); lia|by apply (mv_others _ _ _ _ Hmv)].
      * rewrite (moved_stranded _ _ _ _ n Hk Hmv). case_decide; lia.
  - destruct Hc as (-> & -> & -> & _). by rewrite call_note_quiet, app_nil_r.
  - destruct Hc as (-> & -> & -> & _). by rewrite call_note_quiet, app_nil_r.
Qed.

(** Units the backend has accepted and a loop has still to commit in memory. *)
Definition uncommitted (c : CState) : Z := loop_transit (loop c) + evict_transit (evict c).

Section machine.
Context {A P C : Type} {CA : Counter A} {CL : CounterLaws A} {PP : Persister P} {PL : PersisterLaws P} {CC : Churn C}.
Implicit Types (B : Books P C).

Lemma loop_spent w st st' e B B' : loop_case w st st' B B' ->
  (forall q, spent_at (ledger B') q = spent_at (ledger B) q) /\ entries (ledger B') = entries (ledger B) /\
  forall k, tally (evicted k) (loop_note st e) = 0 /\ tally (granted k) (loop_note st e) = 0 /\ tally (admitted k) (loop_note st e) = 0.
Proof.
  destruct st as [|pass [|key keys] b|b i]; cbn [loop_case loop_note].
  - by intros [-> _].
  - intros (-> & _). done.
  - intros (_ & _ & [->|(p & g & Hg & ->)] & _); [done|]. split; [|done]. intros q. apply spent_same_upd.
    intros o. unfold units. by rewrite Hg.
  - cbn [loop_flight]. destruct (drop i (batch_flight b)) as [|[p v] fl]; intros [-> _]; [done|]. split; [apply settle_spent|done].
Qed.

Lemma evict_spent w now e e' st B B' : evict_ok (ledger B) e -> evict_case w now e e' B B' ->
  (forall q, spent_at (ledger B') q = spent_at (ledger B) q) /\
  (forall k, tally (evicted k) (evict_note st e) + (match entries (ledger B') !! k with Some _ => 1 | None => 0 end) =
             match entries (ledger B) !! k with Some _ => 1 | None => 0 end) /\
  forall k, tally (granted k) (evict_note st e) = 0 /\ tally (admitted k) (evict_note st e) = 0.
Proof.
  intros He. destruct e as [|t [|key keys] acc|[|key keys]|key p keys|key p keys|key p vec keys|key p vec keys|key p keys|p keys];
    cbn [evict_case evict_note evict_ok] in *; try by intros [-> _].
  - destruct (CommitBatch _ _) as [P' err]. by intros [-> _].
  - intros [-> _]. split; [apply settle_spent|]. split; [|done]. intros k. by rewrite tally_one.
  - intros [-> _]. split; [done|]. split; [|by intros k; rewrite !tally_one].
    intros k. rewrite tally_one. cbn [evicted forget on_ledger ledger set_entries entries].
    destruct (decide (key = k)) as [<-|Hne]; [by rewrite lookup_delete_eq, He|by rewrite lookup_delete_ne].
Qed.

Lemma handler_case_limit sv h h' out L L' m m' : handler_case sv h h' out L L' m m' -> limit L' = limit L.
Proof.
  destruct h; cbn [handler_case]; try (by intros (-> & _)); [|by intros (_ & _ & -> & _)|by intros (o & _ & -> & _)].
  intros (_ & _ & Hc). by destruct (entries L !! key); destruct Hc as [-> _].
Qed.

Lemma loop_case_limit w st st' B B' : loop_case w st st' B B' -> limit (ledger B') = limit (ledger B).
Proof.
  destruct st as [|pass [|key keys] b|b i]; cbn [loop_case].
  - by intros [-> _].
  - by intros [-> _].
  - by intros (_ & _ & [->|(p & g & _ & ->)] & _).
  - destruct (drop i (batch_flight b)) as [|[p v] fl]; by intros [-> _].
Qed.

Lemma evict_case_limit w now e e' B B' : evict_case w now e e' B B' -> limit (ledger B') = limit (ledger B).
Proof.
  destruct e as [| |[|key keys]| | |key p vec keys| | |]; cbn [evict_case]; try (by intros [-> _]).
  destruct (CommitBatch _ _) as [P' err]. by intros [-> _].
Qed.

Definition machine_inv (s0 : Z) (c : CState) B (m : Metrics) (s : Process A P C) : Prop :=
  prep B m s /\ limit (ledger B) = s0 /\ exists inst over, placed inst c (ledger B) /\
    balanced over (loop c) (evict c) (notes c) (ledger B) (accepted_units (backend B)) (admits m - refunds m) /\
    counted inst c (ledger B).

Lemma prep_pend B m (s : Process A P C) p : prep B m s -> 0 <= pend (ledger B) p < H64.
Proof.
  intros Hs. unfold pend. destruct (objs (ledger B) !! p) as [o|] eqn:Ho; [|lia].
  destruct (rep_in_budget _ _ p o (wrep_rep _ _ (prep_world _ _ _ Hs)) Ho). lia.
Qed.

(** The vectors read and not yet sent. *)
Definition collected (st : Stage) : list (nat * Z) := match st with Collecting _ _ b => batch_flight b | _ => [] end.
Definition persisting (e : EStage) : list (nat * Z) := match e with EPersist _ p vec _ => [(p, vec)] | _ => [] end.
Definition waiting (c : CState) : list Z := (collected (loop c) ++ persisting (evict c)).*2.

(** What an event is to the books. *)
Definition event_case (sv : Server) (w : Worker) (e : CEvent) (c c' : CState) B B' (m m' : Metrics) : Prop :=
  match e with
  | CHandler _ => loop c' = loop c /\ evict c' = evict c /\ backend B' = backend B /\
      (B' = B \/ exists h h' out, handler_case sv h h' out (ledger B) (ledger B') m m')
  | CLoop => evict c' = evict c /\ loop_case w (loop c) (loop c') B B'
  | CEvict now => loop c' = loop c /\ evict_case w now (evict c) (evict c') B B'
  | _ => B' = B /\ waiting c' = waiting c
  end.

Lemma handler_event_ok s0 sv w c i B m (s : Process A P C) : machine_inv s0 c B m s ->
  exists s' c' B' m', concurrent_event sv w c (CHandler i) s = Some (s', c') /\ machine_inv s0 c' B' m' s' /\
    event_case sv w (CHandler i) c c' B B' m m'.
Proof.
  intros Hinv. pose proof Hinv as (Hs & Hlim & inst & over & Hpl & Hba & Hct). cbn [concurrent_event event_case].
  destruct (threads c !! i) as [h|] eqn:Hi; [|exists s, c, B, m; by eauto 10].
  pose proof (pl_mapped _ _ _ Hpl) as Hm.
  assert (Hh : handler_ok inst h).
  { pose proof (pl_threads _ _ _ Hpl) as Hth. rewrite list.Forall_forall in Hth. apply Hth. by eapply list_elem_of_lookup_2. }
  assert (Hptr : forall p, handler_ptr h = Some p -> is_Some (objs (ledger B) !! p)).
  { intros p Hp. destruct h; cbn in *; try done; injection Hp as <-; by eapply (mp_valid _ _ Hm). }
  destruct (handler_step_ok sv h B m s Hs Hptr) as (s1 & h' & out & B1 & m1 & He & Hs1 & HB & Hc).
  unfold gets. erewrite bind_Some by done. erewrite bind_Some by done.
  replace (counters (store (world s))) with (entries (ledger B)) by (symmetry; apply (rep_entries _ _ (wrep_rep _ _ (prep_world _ _ _ Hs)))).
  eexists s1, _, B1, m1. split; [reflexivity|]. split; [|by eauto 10].
  split; [done|]. split; [by rewrite (handler_case_limit _ _ _ _ _ _ _ _ Hc)|]. eexists _, over. split_and!.
  - by eapply placed_handler.
  - cbn [loop evict notes]. rewrite HB. eapply balanced_handler; try done.
    + apply (rep_keyed _ _ (wrep_rep _ _ (prep_world _ _ _ Hs))).
    + apply (pl_evict _ _ _ Hpl).
  - by eapply counted_handler.
Qed.

Lemma loop_event_ok s0 sv w c B m (s : Process A P C) : machine_inv s0 c B m s ->
  exists s' c' B' m', concurrent_event sv w c CLoop s = Some (s', c') /\ machine_inv s0 c' B' m' s' /\
    event_case sv w CLoop c c' B B' m m'.
Proof.
  intros (Hs & Hlim & inst & over & Hpl & Hba & Hct). cbn [concurrent_event].
  pose proof (pl_flight _ _ _ Hpl) as [Hfl _]%list.Forall_app.
  destruct (advance_step_ok w (loop c) B _ (prep_world _ _ _ Hs) (pl_loop _ _ _ Hpl) Hfl) as (w1 & st' & B1 & He & Hw1 & Hc).
  unfold in_world, zoom, mbind, SM_bind. rewrite He. eexists _, _, B1, m. split; [reflexivity|]. split; [|done].
  split; [split; [done|apply Hs]|]. split; [by rewrite (loop_case_limit _ _ _ _ _ Hc)|]. exists inst.
  destruct (loop_balanced w _ _ (evict c) (notes c) B B1 (admits m - refunds m) over _
    (rep_keyed _ _ (wrep_rep _ _ (prep_world _ _ _ Hs))) (pl_flight _ _ _ Hpl) (fun p => proj1 (prep_pend B m s p Hs)) Hc Hba) as [over' Hba'].
  exists over'. destruct (loop_spent w _ _ (evict c) B B1 Hc) as (Hsp & Hen & Hno). split_and!.
  - eapply placed_advance; [intros p; by eapply prep_pend|done|done].
  - done.
  - apply (counted_loop inst c (ledger B)); [done| |intros k; by destruct (Hno k) as (_ & ? & ?)|done].
    intros k. destruct (Hno k) as (-> & _ & _). by rewrite Hen.
Qed.

Lemma evict_event_ok s0 sv w c now B m (s : Process A P C) : machine_inv s0 c B m s ->
  exists s' c' B' m', concurrent_event sv w c (CEvict now) s = Some (s', c') /\ machine_inv s0 c' B' m' s' /\
    event_case sv w (CEvict now) c c' B B' m m'.
Proof.
  intros (Hs & Hlim & inst & over & Hpl & Hba & Hct). cbn [concurrent_event].
  destruct (evict_step_ok w now (evict c) B _ (prep_world _ _ _ Hs) (pl_evict _ _ _ Hpl)) as (w1 & e' & B1 & He & Hw1 & Hc).
  unfold in_world, zoom, mbind, SM_bind. rewrite He. eexists _, _, B1, m. split; [reflexivity|]. split; [|done].
  split; [split; [done|apply Hs]|]. split; [by rewrite (evict_case_limit _ _ _ _ _ _ Hc)|]. exists inst.
  destruct (evict_balanced w now _ _ (loop c) (notes c) B B1 (admits m - refunds m) over _
    (rep_keyed _ _ (wrep_rep _ _ (prep_world _ _ _ Hs))) (pl_flight _ _ _ Hpl) (fun p => proj1 (prep_pend B m s p Hs))
    (pl_evict _ _ _ Hpl) Hc Hba) as [over' Hba'].
  exists over'. destruct (evict_spent w now _ _ (loop c) B B1 (pl_evict _ _ _ Hpl) Hc) as (Hsp & Hen & Hno). split_and!.
  - eapply placed_evict; [intros p; by eapply prep_pend|done|done].
  - done.
  - by apply (counted_loop inst c (ledger B)).
Qed.

Lemma concurrent_event_ok s0 sv w c e B m (s : Process A P C) : machine_inv s0 c B m s ->
  exists s' c' B' m', concurrent_event sv w c e s = Some (s', c') /\ machine_inv s0 c' B' m' s' /\ event_case sv w e c c' B B' m m'.
Proof.
  intros Hinv. destruct e as [rq key now|i|pass order| |order now|now];
    [|by eapply handler_event_ok| |by eapply loop_event_ok| |by eapply evict_event_ok];
    destruct Hinv as (Hs & Hlim & inst & over & Hpl & Hba & Hct); pose proof Hpl as [Hm Hth Hev Hlp Hfl]; cbn [concurrent_event event_case].
  - eexists s, _, B, m. split; [done|]. split; [|done]. split; [done|]. split; [done|]. exists inst, over. split_and!; [|done|].
    + split; cbn [threads loop evict]; try done. apply list.Forall_app. by repeat constructor.
    + destruct Hct as [Hin Hgr Han]. split; intros k; cbn [threads notes]; [done|done|].
      rewrite fmap_app, Zsum_app, <- Han. cbn. unfold Zsum. cbn. lia.
  - eexists s, _, B, m. split; [done|]. destruct (loop c) eqn:Hl; cbn [busy];
      [|rewrite <- Hl in *; (split; [|done]); (split; [done|]); (split; [done|]); exists inst, over; by split_and!..].
    split; [|by unfold waiting; rewrite Hl]. split; [done|]. split; [done|]. exists inst, over.
    split_and!; [split; cbn [threads loop evict]; try done; by exists []| |by destruct Hct; split].
    revert Hba. by apply balanced_flight.
  - eexists s, _, B, m. split; [done|].
    destruct (evict c) eqn:Hl; try (rewrite <- Hl in *; (split; [|done]); (split; [done|]); (split; [done|]); exists inst, over; by split_and!).
    split; [|by unfold waiting; rewrite Hl]. split; [done|]. split; [done|]. exists inst, over.
    split_and!; [by split| |by destruct Hct; split].
    revert Hba. by apply balanced_flight.
Qed.

Lemma concurrent_start s0 (P0 : P) (C0 : C) : 0 <= s0 < H64 -> accepted_units P0 = 0 ->
  machine_inv s0 nobody (start_books s0 P0 C0) no_metrics (service_start s0 P0 C0).
Proof.
  intros Hs0 H0. split; [split; [by apply start_ok|done]|]. split; [done|]. exists (fun _ => []), 0. split_and!.
  - split; [|constructor|done|done|constructor]. split; [by intros k p ?%not_elem_of_nil|constructor|by intros k k' p ?%not_elem_of_nil|done].
  - split; cbn; try done. by rewrite H0.
  - by split.
Qed.

Lemma concurrent_run sv w s0 (P0 : P) (C0 : C) es : 0 <= s0 < H64 -> accepted_units P0 = 0 ->
  exists (s : Process A P C) c B m, concurrent_events sv w es (service_start s0 P0 C0) = Some (s, c) /\ machine_inv s0 c B m s.
Proof.
  intros Hs0 H0. unfold concurrent_events.
  destruct (triple_foldM (concurrent_event sv w) (fun _ s c => exists B m, machine_inv s0 c B m s) es nobody)
    with (s := (service_start s0 P0 C0 : Process A P C)) as (s & c & He & B & m & Hinv).
  - intros seen e rest c -> s (B & m & Hinv).
    destruct (concurrent_event_ok s0 sv w c e B m s Hinv) as (s' & c' & B' & m' & He & Hinv' & _). exists s', c'. split; [done|]. by exists B', m'.
  - by eexists _, _; apply concurrent_start.
  - by exists s, c, B, m.
Qed.

(** ** The theorems *)
Lemma stranded_nonneg B m (s : Process A P C) : prep B m s -> 0 <= stranded_units (ledger B).
Proof.
  intros Hs. pose proof (fun p => proj1 (prep_pend B m s p Hs)) as H0.
  pose proof (rep_keyed _ _ (wrep_rep _ _ (prep_world _ _ _ Hs))) as Hk. set (L := ledger B) in *.
  assert (Ht : pending_total L = Zsum (pend L <$> seq 0 (length (objs L)))).
  { unfold pending_total. f_equal. apply list_eq. intros i. rewrite !list_lookup_fmap. unfold pend.
    destruct (objs L !! i) as [o|] eqn:Ho.
    - rewrite lookup_seq_lt by (by eapply lookup_lt_Some). cbn. by rewrite Ho.
    - rewrite lookup_seq_ge; [done|by apply lookup_ge_None]. }
  assert (Hsub : ptrs L ⊆+ seq 0 (length (objs L))).
  { apply NoDup_submseteq; [by eapply NoDup_ptrs|]. intros p [k Hp]%elem_of_ptrs. apply elem_of_seq.
    apply (keyed_lt _ _ Hk) in Hp. lia. }
  apply submseteq_Permutation in Hsub as [rest Hperm]. unfold stranded_units, live.
  rewrite Ht, (Zsum_perm _ (pend L <$> ptrs L ++ rest)) by by rewrite Hperm. rewrite fmap_app, Zsum_app.
  enough (0 <= Zsum (pend L <$> rest)) by lia. apply Zsum_nonneg, Forall_fmap, list.Forall_forall. intros p _. apply H0.
Qed.

Lemma account_of s0 c B m (s : Process A P C) : machine_inv s0 c B m s ->
  exists over, 0 <= over <= tally crossed (notes c) + tally doubled (notes c) /\
    0 <= stranded_units (ledger B) <= tally late_admit (notes c) /\
    admits (metrics s) - refunds (metrics s) + over ≡ₘ
      accepted_units (persister (world s)) - uncommitted c +
      live (ledger B) + stranded_units (ledger B).
Proof.
  intros (Hs & _ & inst & over & Hpl & Hba & _). exists over. destruct Hba as [Ho Hb Hu Hl].
  pose proof (short_nonneg (flight (loop c) (evict c)) (ledger B)). pose proof (stranded_nonneg B m s Hs).
  pose proof (fun p => proj1 (prep_pend B m s p Hs)) as Hp.
  assert (0 <= doom (evict c) (ledger B)) by (destruct (evict c); cbn; try lia; apply Hp).
  split_and!; try lia. rewrite (prep_metrics _ _ _ Hs), (wrep_backend _ _ (prep_world _ _ _ Hs)), Hu.
  unfold stranded_units, uncommitted. eqm_lia.
Qed.

(** C7: the account of a concurrent run.  Let handlers, commit cycles, flushes and
    evictions run call by call in any interleaving, with a backend that may refuse.
    Nothing panics, and at every moment the units admitted and not refunded are those
    the backend accepted (less those accepted and still to be committed in memory),
    those pending on the instances in use, and those stranded on evicted instances,
    but for an overcharge.  What is stranded is at most the admissions taken from an
    instance whose eviction had begun; the overcharge is at most the refunds of units
    a loop had read and not yet committed, plus the units both loops had read
    (counts modulo [2^64]). *)
Theorem concurrent_account sv w s0 (P0 : P) (C0 : C) es :
  0 <= s0 < H64 -> accepted_units P0 = 0 ->
  exists (s : Process A P C) c B over, concurrent_events sv w es (service_start s0 P0 C0) = Some (s, c) /\
    wrep B (world s) /\
    0 <= over <= tally crossed (notes c) + tally doubled (notes c) /\
    0 <= stranded_units (ledger B) <= tally late_admit (notes c) /\
    admits (metrics s) - refunds (metrics s) + over ≡ₘ
      accepted_units (persister (world s)) - uncommitted c +
      live (ledger B) + stranded_units (ledger B).
Proof.
  intros Hs0 H0. destruct (concurrent_run sv w s0 P0 C0 es Hs0 H0) as (s & c & B & m & He & Hinv).
  destruct (account_of s0 c B m s Hinv) as (over & Hacc). exists s, c, B, over. split; [done|]. split; [apply Hinv|done].
Qed.

Lemma granted_split k ns : tally (granted k) ns = tally (admitted k) ns - tally (refunded k) ns.
Proof.
  unfold tally. induction ns as [|n ns IH]; [done|]. cbn [fmap list_fmap]. rewrite !Zsum_cons, IH.
  destruct n; cbn [granted admitted refunded]; repeat case_decide; lia.
Qed.

(** C8: a limit per instance.  In any interleaving, the requests of a key that were
    answered 200, or are about to be, are at most its limit for each instance it has
    had (the first, and one more after each eviction of it), plus the units it gave
    back: no race of handlers with each other or with the two loops admits more. *)
Theorem concurrent_limit sv w s0 (P0 : P) (C0 : C) es k :
  0 <= s0 < H64 -> accepted_units P0 = 0 ->
  exists (s : Process A P C) c, concurrent_events sv w es (service_start s0 P0 C0) = Some (s, c) /\
    Zsum (admitting k <$> threads c) <= s0 * (1 + tally (evicted k) (notes c)) + tally (refunded k) (notes c).
Proof.
  intros Hs0 H0. destruct (concurrent_run sv w s0 P0 C0 es Hs0 H0) as (s & c & B & m & He & Hs & Hlim & inst & over & Hpl & _ & Hct).
  exists s, c. split; [done|]. rewrite (ct_answers _ _ _ Hct k).
  pose proof (ct_granted _ _ _ Hct k) as Hg. rewrite granted_split in Hg. pose proof (ct_instances _ _ _ Hct k) as Hi.
  assert (Hb : Zsum (spent_at (ledger B) <$> inst k) <= s0 * Z.of_nat (length (inst k))).
  { apply Zsum_bound, list.Forall_forall. intros p Hp. destruct (mp_valid _ _ (pl_mapped _ _ _ Hpl) k p Hp) as [o Ho].
    unfold spent_at, units_at, units. rewrite Ho.
    destruct (rep_in_budget _ _ p o (wrep_rep _ _ (prep_world _ _ _ Hs)) Ho). lia. }
  destruct (entries (ledger B) !! k); nia.
Qed.
End machine.

(** ** A run with everything in it

    The commit loop has collected [a] when the eviction reads it too (both persist
    its three units); a fourth request takes its unit from the instance being
    evicted; a release gives one back in between.  Then [a] has a new instance. *)
Definition demo_schedule : list CEvent :=
  let request i rq now := [CArrive rq "a" now; CHandler i; CHandler i; CHandler i; CHandler i] in
  request 0%nat RqCheck 1 ++ request 1%nat RqCheck 2 ++ request 2%nat RqCheck 3 ++
  [CBegin (PCycle 4) ["a"]; CLoop; CArrive RqCheck "a" 4; CHandler 3; CSweep ["a"] 9000; CEvict 9000; CEvict 9000;
   CEvict 9000; CEvict 9000; CEvict 9000; CHandler 3; CHandler 3; CArrive RqRelease "a" 5; CHandler 4; CHandler 4; CHandler 4;
   CEvict 9000; CEvict 9000; CLoop; CHandler 3; CLoop; CLoop; CEvict 9000; CEvict 9000; CEvict 9000] ++
  request 5%nat RqCheck 9001.
Definition demo_run : option (Process VSA Scripted (list Call) * CState) :=
  concurrent_events (mkServer 10) (mkWorker 3 0 100 0 5000 1000) demo_schedule (service_start 10 accepting []).


(** Five admitted, one refunded, six accepted by the backend, one pending on the new
    instance: three units overcharged, of at most five. *)
Example demo_run_notes :
  match demo_run with
  | Some (s, c) => (admits (metrics s), refunds (metrics s), accepted_units (persister (world s))) = (5, 1, 6) /\
      notes c = [NAdmitted "a" false; NAdmitted "a" false; NAdmitted "a" false; NAdmitted "a" true; NRefunded "a" 2;
                 NDoubled 3; NDoubled 0; NEvicted "a"; NAdmitted "a" false]
  | None => False
  end.
Proof. vm_compute. done. Qed.

Lemma concurrent_account_witness :
  exists s c B over, demo_run = Some (s, c) /\ wrep B (world s) /\
    0 <= over <= tally crossed (notes c) + tally doubled (notes c) /\
    0 <= stranded_units (ledger B) <= tally late_admit (notes c) /\
    admits (metrics s) - refunds (metrics s) + over ≡ₘ
      accepted_units (persister (world s)) - uncommitted c +
      live (ledger B) + stranded_units (ledger B).
Proof.
  exact (concurrent_account (mkServer 10) (mkWorker 3 0 100 0 5000 1000) 10 accepting [] demo_schedule ltac:(lia) eq_refl).
Defined.

Lemma concurrent_limit_witness :
  exists s c, demo_run = Some (s, c) /\
    Zsum (admitting "a" <$> threads c) <= 10 * (1 + tally (evicted "a") (notes c)) + tally (refunded "a") (notes c).
Proof.
  exact (concurrent_limit (mkServer 10) (mkWorker 3 0 100 0 5000 1000) 10 accepting [] demo_schedule "a" ltac:(lia) eq_refl).
Defined.
