(* ===== verification/ConcurrentCode.v ===== *)
(** * The calls of [Concurrent] are the code's, and requests do not wait

    A handler, or the eviction loop, left undisturbed does call by call what the
    functions of [Api] and [Worker] do; and a request is answered after at most five
    of its own steps, whatever the other goroutines do in between. *)
From S2P Require Import Prelude Effects Vsa VsaSpec Counter Store Ledger CoreMetrics Worker WorkerSpec Doubles WorkerProps Api ApiSpec Service Overlap Concurrent ConcurrentLedger ConcurrentSteps ConcurrentSpec.

Section code.
Context {A P C : Type} {CA : Counter A} {PP : Persister P} {CC : Churn C}.

Fixpoint handler_run (n : nat) (sv : Server) (h : Handler) : SM (Process A P C) Handler :=
  match n with
  | O => mret h
  | S n => '(h', _) ← handler_step sv h; handler_run n sv h'
  end.

Definition handle (sv : Server) (rq : Request) (key : string) (now : Z) : SM (Process A P C) Response :=
  match rq with RqCheck => handleCheckRateLimit sv key now | RqRelease => handleRelease key now end.

(** The clock of the eviction, read when it comes to a key. *)
Definition clock_at (later : string -> Z) (e : EStage) : Z := match e with EFound key _ _ => later key | _ => 0 end.
Fixpoint evict_run (n : nat) (w : Worker) (later : string -> Z) (e : EStage) : SM (World A P C) EStage :=
  match n with
  | O => mret e
  | S n => e' ← evict_step w (clock_at later e) e; evict_run n w later e'
  end.

Lemma handler_run_done n sv key r (s : Process A P C) : handler_run n sv (Answered key r) s = Some (s, Answered key r).
Proof. induction n as [|n IH]; [done|]. cbn [handler_run handler_step]. unfold mbind, SM_bind. cbn. apply IH. Qed.

Lemma in_store_bind {X Y} (p : SM (Store A) X) (g : X -> SM (Store A) Y) (s : World A P C) :
  in_store (p ≫= g) s = (x ← in_store p; in_store (g x)) s.
Proof. unfold in_store, zoom, mbind, SM_bind. by destruct (p (store s)) as [[s1 x]|]. Qed.

Lemma in_world_bind {X Y} (p : SM (World A P C) X) (g : X -> SM (World A P C) Y) (s : Process A P C) :
  in_world (p ≫= g) s = (x ← in_world p; in_world (g x)) s.
Proof. unfold in_world, zoom, mbind, SM_bind. by destruct (p (world s)) as [[s1 x]|]. Qed.

(** The lookup of an instance takes a handler to its call, by either branch. *)
Lemma undisturbed_lookup n sv rq key now (s : Process A P C) : key <> "" ->
  handler_run (S (S n)) sv (Arrived rq key now) s =
  (p ← in_world (in_store (GetOrCreate key now)); handler_run n sv (Holds rq key p)) s.
Proof.
  intros Hkey. cbn [handler_run handler_step]. rewrite decide_False by done.
  destruct s as [[[cs os init] pe ch] ms]. unfold GetOrCreate, publish.
  destruct (cs !! key) as [p|] eqn:Hc.
  - unfold load, gets, in_world, in_store, zoom, mbind, SM_bind. cbn. rewrite Hc. reflexivity.
  - unfold load, gets, LoadOrStore, in_world, in_store, zoom, mbind, SM_bind.
    repeat (cbn; rewrite ?Hc; unfold mbind, SM_bind, set_objects, in_world, in_store, zoom, LoadOrStore). reflexivity.
Qed.

Lemma undisturbed_call n sv rq key now (s : Process A P C) : (4 <= n)%nat ->
  handler_run n sv (Arrived rq key now) s = (r ← handle sv rq key now; mret (Answered key r)) s.
Proof.
  intros Hn. destruct n as [|[|[|[|n]]]]; try lia. clear Hn. unfold handle, handleCheckRateLimit, handleRelease.
  destruct (decide (key = "")) as [->|Hkey].
  { unfold mbind, SM_bind. destruct rq; cbn; apply (handler_run_done n). }
  rewrite undisturbed_lookup by done. unfold mbind, SM_bind.
  destruct rq; destruct (in_world (in_store (GetOrCreate key now)) s) as [[s1 p]|]; try done.
  - cbn [handler_run handler_step]. unfold mbind, SM_bind, count, modify.
    set (s2 := mkProcess (world s1) _).
    destruct (in_world (in_store (on_instance (ctr_TryConsume 1) p)) s2) as [[s3 []]|]; [..|reflexivity]; cbn; unfold mbind, SM_bind.
    all: destruct (in_world (in_store (on_instance ctr_Available p)) _) as [[s4 r]|]; [|reflexivity]; apply handler_run_done.
  - cbn [handler_run handler_step]. unfold mbind, SM_bind.
    destruct (in_world (in_store (on_instance (ctr_TryRefund 1) p)) s1) as [[s3 []]|]; [..|reflexivity]; cbn; apply (handler_run_done (S n)).
Qed.

(** ** The eviction *)
Lemma evict_run_idle n w later (s : World A P C) : evict_run n w later EIdle s = Some (s, EIdle).
Proof. induction n as [|n IH]; [done|]. cbn. apply IH. Qed.

Lemma evict_run_S n w later e (s : World A P C) :
  evict_run (S n) w later e s = (e' ← evict_step w (clock_at later e) e; evict_run n w later e') s.
Proof. done. Qed.

(** A key, backwards from its end: [rest] is what the loop does after it, whatever
    fuel is left above [n]. *)
Section one_key.
Context (n : nat) (w : Worker) (later : string -> Z) (keys : list string) (rest : SM (World A P C) EStage).
Context (Hrest : forall k s, (n <= k)%nat -> evict_run k w later (ERecheck keys) s = rest s).

Lemma undisturbed_delete k key p s : (n <= k)%nat ->
  evict_run (S (S k)) w later (EDelete key p keys) s = (in_store (Delete key) ;; rest) s.
Proof.
  intros Hn. cbn [evict_run evict_step]. unfold Delete. symmetry. eapply bind_eq; [apply in_store_bind|].
  unfold mbind, SM_bind. destruct (in_store (LoadAndDelete key) s) as [[s1 [q|]]|]; [..|reflexivity].
  - cbn. unfold mbind, SM_bind. destruct (in_store (on_instance ctr_Close q) s1) as [[s2 []]|]; [|reflexivity].
    symmetry. by apply Hrest.
  - destruct s1. symmetry. apply (Hrest (S k)). lia.
Qed.

Lemma undisturbed_commit k key p s : (n <= k)%nat ->
  evict_run (S (S (S (S (S k))))) w later (EStale key p keys) s =
  ((gone ← evict_commit key p; if (gone : bool) then in_store (Delete key) else mret tt) ;; rest) s.
Proof.
  intros Hn. rewrite evict_run_S. cbn [evict_step]. unfold evict_commit, mbind, SM_bind.
  destruct (in_store (on_instance ctr_State p) s) as [[s1 st]|]; [|reflexivity]. cbn -[evict_run].
  destruct (st.2 =? 0); cbn [negb].
  { apply (undisturbed_delete (S (S k)) key p). lia. }
  rewrite evict_run_S. cbn [evict_step]. unfold mbind, SM_bind.
  destruct (commit_batch [mkCommit key st.2] s1) as [[s2 [err|]]|]; [..|reflexivity]; cbn -[evict_run].
  { apply (Hrest (S (S (S k)))). lia. }
  rewrite evict_run_S. cbn [evict_step]. unfold mbind, SM_bind.
  destruct (in_store (on_instance (ctr_Commit st.2) p) s2) as [[s3 []]|]; [|reflexivity].
  apply (undisturbed_delete k key p s3 Hn).
Qed.

Lemma undisturbed_key k key s : (n <= k)%nat ->
  evict_run (7 + k) w later (ERecheck (key :: keys)) s = (evict_key w (later key) key ;; rest) s.
Proof.
  intros Hn. change (7 + k)%nat with (S (6 + k)). rewrite evict_run_S. cbn [evict_step]. unfold evict_key, mbind, SM_bind.
  destruct (in_store (load key) s) as [[s1 [p|]]|]; [..|reflexivity]; cbn -[evict_run evict_commit Delete].
  2: { apply (Hrest (6 + k)). lia. }
  change (6 + k)%nat with (S (5 + k)). rewrite evict_run_S. cbn [evict_step clock_at]. unfold mbind, SM_bind.
  destruct (in_store (read_field lastAccessed p) s1) as [[s2 last]|]; [|reflexivity]. cbn -[evict_run evict_commit Delete].
  destruct (time_Sub (later key) last <=? evictionAge w).
  { apply (Hrest (5 + k)). lia. }
  apply (undisturbed_commit k key p s2 Hn).
Qed.
End one_key.

Lemma undisturbed_keys keys n w later (s : World A P C) : (7 * length keys + 1 <= n)%nat ->
  evict_run n w later (ERecheck keys) s = (for_each (fun key => evict_key w (later key) key) keys ;; mret EIdle) s.
Proof.
  revert n s. induction keys as [|key keys IH]; intros n s Hn; cbn [length] in Hn.
  - destruct n as [|n]; [lia|]. rewrite evict_run_S. apply evict_run_idle.
  - replace n with (7 + (n - 7))%nat by lia.
    rewrite (undisturbed_key (7 * length keys + 1) w later keys _ (fun k s => IH k s)) by lia.
    unfold for_each. cbn [foldM]. unfold mbind, SM_bind. by destruct (evict_key w (later key) key s) as [[s1 []]|].
Qed.

(** The scan, key by key. *)
Lemma ForEach_split {R} (f : R -> string -> nat -> SM (Store A) R) key order acc (s : World A P C) :
  in_store (ForEach (key :: order) f acc) s = (acc' ← in_store (ForEach [key] f acc); in_store (ForEach order f acc')) s.
Proof.
  change (key :: order) with ([key] ++ order). unfold ForEach, mbind, SM_bind, in_store, zoom. rewrite foldM_app.
  unfold mbind, SM_bind. by destruct (foldM _ acc [key] (store s)) as [[s1 acc1]|].
Qed.

Lemma undisturbed_scan order n w later now acc (s : World A P C) :
  evict_run (length order + n) w later (EScanning now order acc) s =
  (keys ← in_store (ForEach order (stale_visit w now) acc); evict_run n w later (EScanning now [] keys)) s.
Proof.
  revert acc s. induction order as [|key order IH]; intros acc s; [by destruct s|]. cbn [length Nat.add].
  rewrite evict_run_S. cbn [evict_step]. symmetry. eapply bind_eq; [apply ForEach_split|].
  unfold mbind, SM_bind. destruct (in_store (ForEach [key] (stale_visit w now) acc) s) as [[s1 acc1]|]; [|reflexivity].
  symmetry. apply IH.
Qed.

Lemma stale_kept order w now acc s s' keys :
  in_store (ForEach order (stale_visit w now) acc) s = Some (s' : World A P C, keys) ->
  (length keys <= length acc + length order)%nat.
Proof.
  revert acc s. induction order as [|key order IH]; intros acc s.
  - destruct s. cbn. intros [= <- <-]. lia.
  - rewrite ForEach_split. unfold mbind, SM_bind. destruct (in_store (ForEach [key] _ acc) s) as [[s1 acc1]|] eqn:H1; [|done].
    intros Hk. apply IH in Hk. enough (length acc1 <= S (length acc))%nat by (cbn; lia). revert H1.
    unfold ForEach, in_store, zoom, load, gets, stale_visit, read_field. cbn. unfold mbind, SM_bind. cbn.
    destruct (counters (store s) !! key) as [p|]; cbn; [|by intros [= _ <-]; lia].
    destruct (objects (store s) !! p) as [o|]; [|done].
    destruct (_ >? _); cbn; intros [= _ <-]; rewrite ?length_app; cbn; lia.
Qed.

(** C10: the calls are the code: a handler left undisturbed from its arrival to its answer
    does exactly what [handleCheckRateLimit] or [handleRelease] does, panics and the
    response included, and so does the eviction loop with [runEvictionCycle], and both
    are done within the given number of steps, four for a handler and eight per key for the loop. *)
Theorem undisturbed_calls_are_the_code n sv (w : Worker) rq key now (later : string -> Z) (order : list string) :
  (8 * length order + 4 <= n)%nat ->
  (forall s : Process A P C,
     handler_run n sv (Arrived rq key now) s = (r ← handle sv rq key now; mret (Answered key r)) s) /\
  (forall s : World A P C,
     evict_run n w later (EScanning now order []) s = (runEvictionCycle w order now later ;; mret EIdle) s).
Proof.
  intros Hn. split; intros s; [apply undisturbed_call; lia|].
  replace n with (length order + S (n - length order - 1))%nat by lia. rewrite undisturbed_scan.
  unfold runEvictionCycle, mbind, SM_bind.
  destruct (in_store (ForEach order (stale_visit w now) []) s) as [[s1 keys]|] eqn:Hs; [|reflexivity].
  apply stale_kept in Hs. cbn in Hs. rewrite evict_run_S. apply undisturbed_keys. lia.
Qed.

(** ** Requests do not wait *)

(** The handler of a request, and what it may answer. *)
Definition status_of (rq : Request) (key : string) (code : Z) : Prop :=
  if decide (key = "") then code = 400
  else match rq with RqCheck => code = 200 \/ code = 429 | RqRelease => code = 204 end.
Definition serves (rq : Request) (key : string) (h : Handler) : Prop :=
  match h with
  | Arrived rq' key' _ => rq' = rq /\ key' = key
  | Missed rq' key' _ | Found rq' key' _ _ | Holds rq' key' _ => rq' = rq /\ key' = key /\ key <> ""
  | Asks key' _ _ => rq = RqCheck /\ key' = key /\ key <> ""
  | Answered key' r => key' = key /\ status_of rq key (status r)
  end.
Definition todo (h : Handler) : nat :=
  match h with
  | Arrived _ _ _ => 5 | Missed _ _ _ => 4 | Found _ _ _ _ => 3 | Holds _ _ _ => 2 | Asks _ _ _ => 1 | Answered _ _ => 0
  end.

Lemma SM_inv {St X Y} (p : SM St X) (g : X -> SM St Y) s s' y :
  (p ≫= g) s = Some (s', y) -> exists s1 x, p s = Some (s1, x) /\ g x s1 = Some (s', y).
Proof. unfold mbind, SM_bind. destruct (p s) as [[s1 x]|]; [|done]. intros H. by exists s1, x. Qed.

Lemma handler_serves sv rq key h h' out (s s' : Process A P C) :
  handler_step sv h s = Some (s', (h', out)) -> serves rq key h -> serves rq key h' /\ (todo h' <= todo h - 1)%nat.
Proof.
  intros He Hs. destruct h as [rq1 k now|rq1 k now|rq1 k now p|[] k p|k p ok|k r]; cbn [handler_step serves] in *.
  - destruct Hs as [-> ->]. case_decide as Hk.
    + injection He as <- <- <-. cbn. unfold status_of. rewrite decide_True by done. by split_and!; [..|lia].
    + apply SM_inv in He as (s1 & [p|] & _ & [= <- <- <-]); cbn; (split_and!; [done..|lia]).
  - apply SM_inv in He as (s1 & p & _ & He). apply SM_inv in He as (s2 & [q []] & _ & [= <- <- <-]); cbn; (split; [done|lia]).
  - apply SM_inv in He as (s1 & [] & _ & [= <- <- <-]). cbn. split; [done|lia].
  - destruct Hs as (<- & -> & Hk). do 4 (apply SM_inv in He as (? & ? & _ & He)). injection He as <- <- <-. cbn. by split; [|lia].
  - destruct Hs as (<- & -> & Hk). do 2 (apply SM_inv in He as (? & ? & _ & He)). injection He as <- <- <-. cbn.
    unfold status_of. rewrite decide_False by done. split; [done|lia].
  - destruct Hs as (-> & -> & Hk). apply SM_inv in He as (s1 & r & _ & [= <- <- <-]). cbn. unfold status_of.
    rewrite decide_False by done. destruct ok; cbn; (split; [auto|lia]).
  - injection He as <- <- <-. cbn. split; [done|lia].
Qed.

Definition arrives (e : CEvent) : Prop := match e with CArrive _ _ _ => True | _ => False end.
#[export] Instance arrives_dec e : Decision (arrives e).
Proof. destruct e; cbn; apply _. Defined.
Definition runs (i : nat) (e : CEvent) : Prop := match e with CHandler j => i = j | _ => False end.
#[export] Instance runs_dec i e : Decision (runs i e).
Proof. destruct e; cbn; apply _. Defined.

(** What an event does to the handlers. *)
Lemma event_threads sv w c c' e (s s' : Process A P C) : concurrent_event sv w c e s = Some (s', c') ->
  length (threads c') = (length (threads c) + (if decide (arrives e) then 1 else 0))%nat /\
  forall i h, threads c !! i = Some h ->
    if decide (runs i e) then exists (s1 s2 : Process A P C) h' out, handler_step sv h s1 = Some (s2, (h', out)) /\ threads c' !! i = Some h'
    else threads c' !! i = Some h.
Proof.
  intros He. destruct e as [rq key now|j|pass order| |order now|now]; cbn [concurrent_event arrives runs] in *.
  - injection He as <- <-. cbn. rewrite length_app. split; [done|]. intros i h Hi. case_decide; [done|]. by apply lookup_app_l_Some.
  - destruct (threads c !! j) as [hj|] eqn:Hj.
    + apply SM_inv in He as (s1 & cs & _ & He). apply SM_inv in He as (s2 & [h' out] & Hh & [= <- <-]). cbn.
      rewrite length_insert. split; [by rewrite decide_False; [lia|tauto]|]. intros i h Hi. case_decide as Hij.
      * subst j. rewrite Hi in Hj. injection Hj as <-. eexists _, _, _, _. split; [exact Hh|].
        apply list_lookup_insert_eq. by eapply lookup_lt_Some.
      * by rewrite list_lookup_insert_ne.
    + injection He as <- <-. split; [by rewrite decide_False; [lia|tauto]|]. intros i h Hi. case_decide; [congruence|done].
  - injection He as <- <-. destruct (busy (loop c)); cbn; rewrite !decide_False by tauto; by (split; [lia|]).
  - apply SM_inv in He as (s1 & st & _ & [= <- <-]). cbn. rewrite !decide_False by tauto. by split; [lia|].
  - injection He as <- <-. destruct (evict c); cbn; rewrite !decide_False by tauto; by (split; [lia|]).
  - apply SM_inv in He as (s1 & st & _ & [= <- <-]). cbn. rewrite !decide_False by tauto. by split; [lia|].
Qed.

Lemma events_arrivals sv w es c c' (s s' : Process A P C) : foldM (concurrent_event sv w) c es s = Some (s', c') ->
  length (threads c') = (length (threads c) + length (filter arrives es))%nat.
Proof.
  revert c s. induction es as [|e es IH]; intros c s; cbn [foldM].
  - intros [= <- <-]. cbn. lia.
  - intros (s1 & c1 & He & Hes)%SM_inv. rewrite (IH _ _ Hes). apply event_threads in He as [-> _].
    rewrite filter_cons. case_decide; cbn; lia.
Qed.

Lemma events_serve sv w i rq key es c c' h (s s' : Process A P C) : foldM (concurrent_event sv w) c es s = Some (s', c') ->
  threads c !! i = Some h -> serves rq key h ->
  exists h', threads c' !! i = Some h' /\ serves rq key h' /\ (todo h' <= todo h - length (filter (runs i) es))%nat.
Proof.
  revert c s h. induction es as [|e es IH]; intros c s h; cbn [foldM].
  - intros [= <- <-] Hi Hh. exists h. split_and!; [done..|cbn; lia].
  - intros (s1 & c1 & He & Hes)%SM_inv Hi Hh. apply event_threads in He as [_ He]. specialize (He i h Hi).
    rewrite filter_cons. case_decide as Hr.
    + destruct He as (s2 & s3 & h1 & out & Hstep & Hi1). destruct (handler_serves _ _ _ _ _ _ _ _ Hstep Hh) as [Hh1 Ht].
      destruct (IH _ _ _ Hes Hi1 Hh1) as (h' & ? & ? & ?). exists h'. split_and!; [done..|]. cbn [length]. lia.
    + destruct (IH _ _ _ Hes He Hh) as (h' & ? & ? & ?). exists h'. by split_and!.
Qed.
End code.

Section served.
Context {A P C : Type} {CA : Counter A} {CL : CounterLaws A} {PP : Persister P} {PL : PersisterLaws P} {CC : Churn C}.

(** C11: no request waits for another.  In any interleaving, with any backend, a request is
    answered once its goroutine has made five steps, whatever steps the other handlers,
    the commit loop and the eviction loop take in between, and however often they race
    with it for the key: 400 without a key, 204 to a release, 200 or 429 to a check. *)
Theorem requests_answered sv w s0 (P0 : P) (C0 : C) es1 rq key now es2 :
  0 <= s0 < H64 -> accepted_units P0 = 0 ->
  let i := length (filter arrives es1) in
  (5 <= length (filter (runs i) es2))%nat ->
  exists (s : Process A P C) c r,
    concurrent_events sv w (es1 ++ CArrive rq key now :: es2) (service_start s0 P0 C0) = Some (s, c) /\
    threads c !! i = Some (Answered key r) /\ status_of rq key (status r).
Proof.
  intros Hs0 H0 i Hn.
  destruct (concurrent_run (A := A) sv w s0 P0 C0 (es1 ++ CArrive rq key now :: es2) Hs0 H0) as (s & c & _ & _ & He & _).
  pose proof He as He'. unfold concurrent_events in He. rewrite foldM_app in He.
  apply SM_inv in He as (s1 & c1 & He1 & He). cbn [foldM] in He. apply SM_inv in He as (s2 & c2 & Harr & He).
  apply events_arrivals in He1. cbn in He1, Harr. injection Harr as <- <-.
  destruct (events_serve sv w i rq key es2 _ c (Arrived rq key now) _ s He) as (h & Hi & Hh & Ht); [|done|].
  { cbn. apply lookup_app_Some. right. rewrite He1. by rewrite Nat.sub_diag. }
  exists s, c. cbn [todo] in Ht. destruct h as [?|?|?|?|?|k r]; cbn [todo] in Ht; try lia. destruct Hh as [-> Hst].
  by exists r.
Qed.
End served.

(** ** Examples *)
Lemma undisturbed_calls_are_the_code_witness :
  let sv := mkServer 10 in let w := mkWorker 3 0 100 0 5000 1000 in
  (forall s : Process VSA Scripted (list Call),
     handler_run 20 sv (Arrived RqCheck "a" 9000) s = (r ← handle sv RqCheck "a" 9000; mret (Answered "a" r)) s) /\
  (forall s : World VSA Scripted (list Call),
     evict_run 20 w (fun _ => 9000) (EScanning 9000 ["a"; "b"] []) s =
     (runEvictionCycle w ["a"; "b"] 9000 (fun _ => 9000) ;; mret EIdle) s).
Proof. cbn zeta. apply undisturbed_calls_are_the_code. cbn. lia. Defined.

(** In [demo_schedule] the fourth request ([a], thread 3) arrives while the commit loop
    has collected its key and races with the eviction of its instance. *)
Lemma requests_answered_witness :
  let es1 := take 17 demo_schedule in let es2 := drop 18 demo_schedule ++ [CHandler 3] in
  exists (s : Process VSA Scripted (list Call)) c r,
    concurrent_events (mkServer 10) (mkWorker 3 0 100 0 5000 1000) (es1 ++ CArrive RqCheck "a" 4 :: es2)
      (service_start 10 accepting []) = Some (s, c) /\
    threads c !! 3%nat = Some (Answered "a" r) /\ (status r = 200 \/ status r = 429).
Proof.
  exact (requests_answered (mkServer 10) (mkWorker 3 0 100 0 5000 1000) 10 accepting [] (take 17 demo_schedule)
    RqCheck "a" 4 (drop 18 demo_schedule ++ [CHandler 3]) ltac:(lia) eq_refl ltac:(vm_compute; lia)).
Defined.
