(* ===== verification/EndToEnd.v ===== *)
(** * The service in front of a durable ledger

    The machine of [Concurrent] with the backend the command can be built with: the
    shim of [internal/ratelimiter/persistence/shim.go] and an adapter that
    keeps the contract of [Durable] (Redis, Kafka).  A history of the calls and their
    answers is kept beside the shim; it is never read by the code.

    [within_limit]: what every vector sent or about to be sent satisfies in any
    interleaving, which is what the adapter's contract asks of a batch. *)
From S2P Require Import Prelude Effects Vsa VsaSpec Counter Store Ledger CoreMetrics Worker WorkerSpec Doubles WorkerProps Api ApiSpec Service Durable Redis Retries Overlap OverlapSpec Concurrent ConcurrentLedger ConcurrentSteps ConcurrentAccount ConcurrentPlaces ConcurrentSpec.
Import Spec.

(** ** The calls of a persister and their answers *)
Record Traced (P : Type) := mkTraced { traced : P; history : list (list Commit * option string) }.
#[global] Arguments mkTraced {P}.
#[global] Arguments traced {P}.
#[global] Arguments history {P}.

Definition untouched {P} (p : P) : Traced P := mkTraced p [].

#[export] Instance traced_CommitBatch {P} `{Persister P} : Persister (Traced P) := fun cs t =>
  let '(p, err) := CommitBatch cs (traced t) in (mkTraced p (history t ++ [(cs, err)]), err).

(** The vectors of the commits sent, and those of the batches accepted. *)
Definition sent_commits {P} (t : Traced P) : list Commit := concat (history t).*1.
Definition accepted_of (calls : list (list Commit * option string)) : Z :=
  Zsum ((fun call => match call.2 with None => Zsum (Vector <$> call.1) | Some _ => 0 end) <$> calls).

Lemma traced_call {P} `{Persister P} cs (t t' : Traced P) err : CommitBatch cs t = (t', err) ->
  CommitBatch cs (traced t) = (traced t', err) /\ history t' = history t ++ [(cs, err)].
Proof.
  unfold CommitBatch at 1, traced_CommitBatch. destruct (CommitBatch cs (traced t)) as [p e]. by intros [= <- <-].
Qed.

#[export] Instance traced_laws {P} `{Persister P} : PersisterLaws (Traced P).
Proof.
  refine {| accepted_units t := accepted_of (history t) |}. intros cs t t' err _ [_ ->]%traced_call.
  unfold accepted_of. rewrite fmap_app, Zsum_app. cbn [fmap list_fmap fst snd]. by rewrite Zsum_cons, Zsum_nil, Z.add_0_r.
Defined.

(** ** The vectors on their way to the backend *)
Lemma commits_vectors items : Vector <$> commits_of items = (batch_flight (batch_of items)).*2.
Proof. rewrite flight_of. unfold commits_of. by rewrite <- !list_fmap_compose. Qed.

Section within_limit.
Context {A P C : Type} {CA : Counter A} {CL : CounterLaws A} {PP : Persister P} {CC : Churn C}.
Implicit Types (B : Books (Traced P) C) (m : Metrics).

(** After [n] events: no budget exceeds the limit, every vector sent or about to be
    is positive and within the limit, and there are at most [n] of them. *)
Record within_limit (s0 : Z) (n : nat) (c : CState) B : Prop := {
  bd_budget p o : objs (ledger B) !! p = Some o -> budget (bal o) <= s0;
  bd_sent : Forall (fun v => 0 < v <= s0) ((Vector <$> sent_commits (backend B)) ++ waiting c);
  bd_count : (length (sent_commits (backend B)) + length (waiting c) <= n)%nat
}.

(** Nothing that was sent is lost from the account, one vector at most is read. *)
Lemma within_limit_step s0 n c c' B B' :
  (forall p o, objs (ledger B') !! p = Some o -> budget (bal o) <= s0) ->
  (exists new, ((Vector <$> sent_commits (backend B')) ++ waiting c' ⊆+ ((Vector <$> sent_commits (backend B)) ++ waiting c) ++ new) /\
    Forall (fun v => 0 < v <= s0) new /\ (length new <= 1)%nat) ->
  within_limit s0 n c B -> within_limit s0 (S n) c' B'.
Proof.
  intros Hb (new & Hsub & Hnew & Hone) [_ Hs Hc]. split; [done| |].
  - rewrite list.Forall_forall in *. intros v Hv. apply (elem_of_submseteq _ _ _ Hv), elem_of_app in Hsub as [?|?]; auto.
  - apply submseteq_length in Hsub. rewrite !length_app, !length_fmap in Hsub. lia.
Qed.

Lemma upd_budget s0 p g L : (forall o, objs L !! p = Some o -> budget (bal (g o)) <= s0) ->
  (forall q o, objs L !! q = Some o -> budget (bal o) <= s0) ->
  forall q o, objs (upd p g L) !! q = Some o -> budget (bal o) <= s0.
Proof.
  intros Hg HL q o. unfold upd. cbn [objs]. rewrite list_lookup_alter. case_decide as Hq; [|apply HL].
  subst q. intros (o' & Ho & ->)%fmap_Some. by apply Hg.
Qed.

Lemma push_budget s0 now L : limit L = s0 -> (forall q o, objs L !! q = Some o -> budget (bal o) <= s0) ->
  forall q o, objs (push (fresh L now) L) !! q = Some o -> budget (bal o) <= s0.
Proof.
  intros Hl HL q o. cbn [push objs]. intros [Ho|[_ Ho]]%lookup_app_Some; [by eapply HL|].
  apply list_elem_of_lookup_2, list_elem_of_singleton in Ho as ->. cbn. by rewrite Hl.
Qed.

Lemma handler_budget s0 sv h h' out L L' m m' : limit L = s0 -> handler_case sv h h' out L L' m m' ->
  (forall q o, objs L !! q = Some o -> budget (bal o) <= s0) ->
  forall q o, objs L' !! q = Some o -> budget (bal o) <= s0.
Proof.
  intros Hl Hc HL. destruct h as [rq key now|rq key now|rq key now p|rq key p|key p ok|key r]; cbn [handler_case] in Hc.
  - by destruct Hc as (-> & _).
  - destruct Hc as (_ & _ & Hc). destruct (entries L !! key); destruct Hc as [-> _]; by apply push_budget.
  - destruct Hc as (_ & _ & -> & _). apply upd_budget; [|done]. intros o. apply HL.
  - destruct Hc as (o & Ho & -> & _). apply upd_budget; [|done]. intros o' ?%HL. by destruct rq.
  - by destruct Hc as (-> & _).
  - by destruct Hc as (-> & _).
Qed.

Lemma settle_budget s0 p v L : 0 <= v -> (forall q, 0 <= pend L q) ->
  (forall q o, objs L !! q = Some o -> budget (bal o) <= s0) ->
  forall q o, objs (upd p (on_bal (settle v)) L) !! q = Some o -> budget (bal o) <= s0.
Proof.
  intros Hv Hp HL. apply upd_budget; [|done]. intros o Ho. specialize (HL p o Ho). specialize (Hp p).
  unfold pend in Hp. rewrite Ho in Hp. cbn. lia.
Qed.

Lemma read_vector s0 p B m (s : Process A (Traced P) C) :
  prep B m s -> (forall q o, objs (ledger B) !! q = Some o -> budget (bal o) <= s0) -> is_Some (objs (ledger B) !! p) ->
  pend (ledger B) p <> 0 -> 0 < pend (ledger B) p <= s0.
Proof.
  intros Hs HL [o Ho]. unfold pend. rewrite Ho. specialize (HL p o Ho).
  destruct (rep_in_budget _ _ p o (wrep_rep _ _ (prep_world _ _ _ Hs)) Ho). lia.
Qed.

Lemma sent_after cs (t t' : Traced P) err : CommitBatch cs t = (t', err) -> sent_commits t' = sent_commits t ++ cs.
Proof. intros [_ Hh]%traced_call. unfold sent_commits. by rewrite Hh, fmap_app, concat_app; cbn; rewrite app_nil_r. Qed.

Lemma within_limit_quiet s0 n c c' B B' : backend B' = backend B -> waiting c' = waiting c ->
  (forall p o, objs (ledger B') !! p = Some o -> budget (bal o) <= s0) -> within_limit s0 n c B -> within_limit s0 (S n) c' B'.
Proof.
  intros Hb Hw Hl. apply within_limit_step; [done|]. exists []. rewrite Hb, Hw, app_nil_r. split_and!; [done|constructor|cbn; lia].
Qed.

Lemma within_limit_loop s0 n sv w c c' B B' m m' (s : Process A (Traced P) C) : 0 < commitThreshold w ->
  machine_inv s0 c B m s -> event_case sv w CLoop c c' B B' m m' -> within_limit s0 n c B -> within_limit s0 (S n) c' B'.
Proof.
  intros Ht (Hs & Hlim & inst & over & Hpl & _) [Hev Hc] Hbd. pose proof (pl_flight _ _ _ Hpl) as Hfl. pose proof (bd_budget _ _ _ _ Hbd) as HL.
  destruct (loop c) as [|pass [|key keys] b|b i] eqn:Hl; cbn [loop_case] in Hc.
  - destruct Hc as [-> Hl']. apply (within_limit_quiet s0 n c c' B); [done| |done|done]. unfold waiting. by rewrite Hev, Hl, Hl'.
  - destruct Hc as (HL' & items & -> & [(-> & -> & Hl')|(err & HP & Hl')]).
    + apply (within_limit_quiet s0 n c c' B); [done| |done|done]. unfold waiting. by rewrite Hev, Hl, Hl'.
    + revert Hbd. apply within_limit_step; [by rewrite HL'|]. exists []. split_and!; [|constructor|cbn; lia].
      rewrite (sent_after _ _ _ _ HP). unfold waiting. rewrite Hev, Hl.
      replace (collected (loop c')) with (@nil (nat * Z)) by by rewrite Hl'; destruct err.
      cbn [collected]. rewrite !fmap_app, commits_vectors. cbn [fmap list_fmap app]. by rewrite app_nil_r, <- app_assoc.
  - destruct Hc as (HB & _ & HL' & added & Hfl' & [b' Hl'] & Hadd). rewrite Hl' in Hfl'. cbn [loop_flight] in Hfl'.
    revert Hbd. apply within_limit_step.
    { destruct HL' as [->|(p & g & Hg & ->)]; [done|]. apply upd_budget; [|done]. intros o. rewrite Hg. apply HL. }
    exists (added.*2). split_and!.
    + rewrite HB. unfold waiting. rewrite Hev, Hl, Hl'. cbn [collected]. rewrite Hfl', !fmap_app. solve_submseteq.
    + destruct Hadd as [->|(p & Hp & -> & Hnz)]; [constructor|]. repeat constructor; cbn [snd];
        apply (read_vector s0 p B m s Hs HL); auto; by eapply rep_entry, Hp; apply (wrep_rep _ _ (prep_world _ _ _ Hs)).
    + destruct Hadd as [->|(p & Hp & -> & Hnz)]; cbn; lia.
  - destruct (drop i (batch_flight b)) as [|[p v] rest] eqn:Hd; destruct Hc as [-> Hl'].
    + apply (within_limit_quiet s0 n c c' B); [done| |done|done]. unfold waiting. by rewrite Hev, Hl, Hl'.
    + apply (within_limit_quiet s0 n c c' B); [done| | |done]. { unfold waiting. by rewrite Hev, Hl, Hl'. }
      apply settle_budget; [|intros q; by apply (prep_pend _ _ _ q Hs)|done].
      unfold flight, sound_flight in Hfl. cbn [loop_flight] in Hfl. rewrite Hd in Hfl. inversion_clear Hfl. cbn in *. lia.
Qed.

Lemma within_limit_evict s0 n sv w now c c' B B' m m' (s : Process A (Traced P) C) :
  machine_inv s0 c B m s -> event_case sv w (CEvict now) c c' B B' m m' -> within_limit s0 n c B -> within_limit s0 (S n) c' B'.
Proof.
  intros (Hs & Hlim & inst & over & Hpl & _) [Hev Hc] Hbd. pose proof (pl_evict _ _ _ Hpl) as He. pose proof (bd_budget _ _ _ _ Hbd) as HL.
  assert (Hq : backend B' = backend B -> persisting (evict c') = persisting (evict c) -> ledger B' = ledger B -> within_limit s0 (S n) c' B').
  { intros HB Hp HL'. apply (within_limit_quiet s0 n c c' B); [done| |by rewrite HL'|done]. unfold waiting. by rewrite Hev, Hp. }
  destruct (evict c) as [|t ks acc|[|key keys]|key p keys|key p keys|key p vec keys|key p vec keys|key p keys|p keys] eqn:Hl;
    cbn [evict_case evict_ok] in *.
  - destruct Hc as [-> Hl']. by apply Hq; rewrite ?Hl'.
  - destruct Hc as [-> Hl']. apply Hq; [done| |done]. by destruct Hl' as [(? & ? & ? & ->)|[? ->]].
  - destruct Hc as [-> Hl']. by apply Hq; rewrite ?Hl'.
  - destruct Hc as [-> Hl']. apply Hq; [done| |done]. rewrite Hl'. by destruct (entries _ !! key).
  - destruct Hc as [-> Hl']. apply Hq; [done| |done]. by destruct Hl' as [->| ->].
  - destruct Hc as [-> Hl']. destruct (Z.eqb_spec (pend (ledger B) p) 0) as [|Hnz]; [by apply Hq; rewrite ?Hl'|].
    revert Hbd. apply within_limit_step; [done|]. exists [pend (ledger B) p]. split_and!; [| |done].
    + unfold waiting. rewrite Hev, Hl, Hl'. cbn [persisting]. rewrite app_nil_r, fmap_app, app_assoc. done.
    + repeat constructor; apply (read_vector s0 p B m s Hs HL); auto; by eapply rep_entry, He; apply (wrep_rep _ _ (prep_world _ _ _ Hs)).
  - destruct (CommitBatch _ _) as [P' err] eqn:HP. destruct Hc as [-> Hl'].
    revert Hbd. apply within_limit_step; [done|]. exists []. split_and!; [|constructor|cbn; lia].
    cbn [backend]. rewrite (sent_after _ _ _ _ HP). unfold waiting. rewrite Hev, Hl.
    replace (persisting (evict c')) with (@nil (nat * Z)) by by rewrite Hl'; destruct err.
    rewrite !fmap_app. cbn. rewrite !app_nil_r. solve_submseteq.
  - destruct Hc as [-> Hl']. apply (within_limit_quiet s0 n c c' B); [done| | |done]. { unfold waiting. by rewrite Hev, Hl, Hl'. }
    apply settle_budget; [lia|intros q; by apply (prep_pend _ _ _ q Hs)|done].
  - destruct Hc as [-> Hl']. apply (within_limit_quiet s0 n c c' B); [done| |done|done]. unfold waiting. rewrite Hev, Hl, Hl'. by destruct (entries _ !! key).
  - destruct Hc as [-> Hl']. by apply Hq; rewrite ?Hl'.
Qed.

Lemma within_limit_event s0 n sv w e c c' B B' m m' (s : Process A (Traced P) C) : 0 < commitThreshold w ->
  machine_inv s0 c B m s -> event_case sv w e c c' B B' m m' -> within_limit s0 n c B -> within_limit s0 (S n) c' B'.
Proof.
  intros Ht Hinv Hc Hbd. pose proof (bd_budget _ _ _ _ Hbd) as HL.
  assert (Hq : loop c' = loop c -> evict c' = evict c -> waiting c' = waiting c) by (unfold waiting; by intros -> ->).
  destruct e as [rq key now|i|pass order| |order now|now]; [| | |by eapply within_limit_loop| |by eapply within_limit_evict]; cbn [event_case] in Hc;
    try (destruct Hc as [-> Hw]; by apply (within_limit_quiet s0 n c c' B)).
  { destruct Hc as (Hl & He & HB & Hc). apply (within_limit_quiet s0 n c c' B); [done|by apply Hq| |done].
    destruct Hc as [->|(h & h' & out & Hc)]; [done|]. eapply handler_budget; [apply Hinv|done..]. }
Qed.
End within_limit.

(** ** The run, over the shim *)
Section run.
Context {A P C : Type} {CA : Counter A} {CL : CounterLaws A} {IP : IdempotentPersister P} {IL : IdempotentLaws P} {CC : Churn C}.
Implicit Types (B : Books (Traced (IdemShim P)) C).

(** The history is that of calls made one after the other on the first shim. *)
Definition follows (shim : IdemShim P) (t : Traced (IdemShim P)) : Prop :=
  shim_calls (history t).*1 shim = (traced t, (history t).*2).

Lemma shim_calls_snoc batches cs (s : IdemShim P) : shim_calls (batches ++ [cs]) s =
  let '(s1, errs) := shim_calls batches s in let '(s2, err) := CommitBatch cs s1 in (s2, errs ++ [err]).
Proof.
  revert s. induction batches as [|b batches IH]; intros s; cbn [app shim_calls].
  - by destruct (CommitBatch cs s) as [s2 err].
  - destruct (CommitBatch b s) as [s1 err]. rewrite IH. destruct (shim_calls batches s1) as [s2 errs].
    by destruct (CommitBatch cs s2).
Qed.

Lemma follows_call shim cs (t t' : Traced (IdemShim P)) err :
  CommitBatch cs t = (t', err) -> follows shim t -> follows shim t'.
Proof.
  intros [Hc Hh]%traced_call Hf. unfold follows in *. rewrite Hh, !fmap_app. cbn [fmap list_fmap fst snd].
  by rewrite shim_calls_snoc, Hf, Hc.
Qed.

(** An event calls the backend at most once. *)
Lemma event_calls sv w e c c' B B' m m' : event_case sv w e c c' B B' m m' ->
  backend B' = backend B \/ exists cs err, CommitBatch cs (backend B) = (backend B', err).
Proof.
  destruct e as [rq key now|i|pass order| |order now|now]; cbn [event_case]; try (intros [-> _]; by left).
  - intros (_ & _ & -> & _). by left.
  - intros [_ Hc]. destruct (loop c) as [|pass [|key keys] b|b i]; cbn [loop_case] in Hc.
    + destruct Hc as [-> _]. by left.
    + destruct Hc as (_ & items & _ & [(_ & -> & _)|(err & HP & _)]); [by left|right; eauto].
    + destruct Hc as [-> _]. by left.
    + destruct (drop _ _) as [|[p v] rest]; destruct Hc as [-> _]; by left.
  - intros [_ Hc]. destruct (evict c) as [|t ks acc|[|key keys]|key p keys|key p keys|key p vec keys|key p vec keys|key p keys|p keys];
      cbn [evict_case] in Hc; try (destruct Hc as [-> _]; by left).
    destruct (CommitBatch _ _) as [P' err] eqn:HP. destruct Hc as [-> _]. right. eauto.
Qed.

Lemma durable_run sv w s0 (shim : IdemShim P) (C0 : C) es : 0 <= s0 < H64 -> 0 < commitThreshold w ->
  exists (s : Process A (Traced (IdemShim P)) C) c B m, concurrent_events sv w es (service_start s0 (untouched shim) C0) = Some (s, c) /\
    machine_inv s0 c B m s /\ within_limit s0 (length es) c B /\ follows shim (backend B).
Proof.
  intros Hs0 Ht. unfold concurrent_events.
  destruct (triple_foldM (concurrent_event sv w)
    (fun seen s c => exists B m, machine_inv s0 c B m s /\ within_limit s0 (length seen) c B /\ follows shim (backend B)) es nobody)
    with (s := (service_start s0 (untouched shim) C0 : Process A (Traced (IdemShim P)) C)) as (s & c & He & B & m & Hinv).
  - intros seen e rest c -> s (B & m & Hinv & Hbd & Hf).
    destruct (concurrent_event_ok s0 sv w c e B m s Hinv) as (s' & c' & B' & m' & He & Hinv' & Hc). exists s', c'. split; [done|].
    exists B', m'. split; [done|]. split.
    + rewrite length_app, Nat.add_1_r. by apply (within_limit_event s0 _ sv w e c c' B B' m m' s).
    + destruct (event_calls _ _ _ _ _ _ _ _ _ Hc) as [->|(cs & err & HP)]; [done|by eapply follows_call].
  - eexists _, _. split; [apply (concurrent_start s0 (untouched shim) C0); [done|reflexivity]|]. split; [|done]. split; [|constructor|cbn; lia]. intros p o [=].
  - by exists s, c, B, m.
Qed.

(** What the batches of a history were charged, when a refused one was charged a part. *)
Definition charged_parts (calls : list (list Commit * option string)) (sent : list (list Commit)) : Prop :=
  Forall2 (fun call part => part `prefix_of` call.1 /\ (call.2 = None -> part = call.1)) calls sent.

Lemma charged_parts_sum calls sent : charged_parts calls sent -> Forall (fun c => 0 <= Vector c) (concat calls.*1) ->
  exists torn, Zsum (Vector <$> concat sent) = accepted_of calls + torn /\ 0 <= torn /\
    (Forall (fun call => call.2 = None) calls -> torn = 0).
Proof.
  induction 1 as [|[cs err] part calls sent [[rest Hpre] Hp] _ IH]; cbn [fst snd concat fmap list_fmap] in *.
  { intros _. exists 0. split_and!; done. }
  subst cs.
  intros [Hcs (torn & Hsum & H0 & Hall)%IH]%list.Forall_app. unfold accepted_of in *. cbn [fmap list_fmap fst snd].
  rewrite Zsum_cons, fmap_app, Zsum_app, Hsum. apply list.Forall_app in Hcs as [Hpart _].
  destruct err as [msg|]; [|specialize (Hp eq_refl)].
  - exists (Zsum (Vector <$> part) + torn). split; [lia|]. split; [|intros Hf; inversion_clear Hf; done].
    enough (0 <= Zsum (Vector <$> part)) by lia. by apply Zsum_nonneg, Forall_fmap.
  - exists torn. rewrite <- Hp. split; [lia|]. split; [done|]. intros Hf. inversion_clear Hf. auto.
Qed.

Lemma charged_history calls sent :
  Forall3 (fun cs err part => part `prefix_of` cs /\ (err = None -> part = cs)) calls.*1 calls.*2 sent -> charged_parts calls sent.
Proof.
  revert sent. induction calls as [|[cs err] calls IH]; intros sent H; inversion_clear H; constructor; [done|by apply IH].
Qed.

Lemma within_limit_commits s0 n c B : 0 < s0 <= 2 ^ 53 -> within_limit s0 n c B ->
  Forall (Forall commit_ok) (history (backend B)).*1 /\ Forall (fun cm => 0 <= Vector cm) (sent_commits (backend B)) /\
  magnitude (sent_commits (backend B)) <= s0 * Z.of_nat n /\ (length (sent_commits (backend B)) <= n)%nat.
Proof.
  intros Hs0 [_ [Hs _]%list.Forall_app Hn]. rewrite Forall_fmap in Hs. split_and!; [| | |lia].
  - unfold sent_commits in Hs. apply Forall_concat in Hs. eapply list.Forall_impl; [exact Hs|]. intros cs Hcs.
    eapply list.Forall_impl; [exact Hcs|]. intros cm Hcm. unfold commit_ok. cbn in Hcm. lia.
  - eapply list.Forall_impl; [exact Hs|]. cbn. lia.
  - enough (magnitude (sent_commits (backend B)) <= s0 * Z.of_nat (length (sent_commits (backend B)))) by nia.
    unfold magnitude. rewrite <- list_fmap_compose. apply Zsum_bound. eapply list.Forall_impl; [exact Hs|]. cbn. lia.
Qed.

(** C6: from the handlers to the durable counters, call by call.  Let handlers, commit
    cycles, flushes and evictions be interleaved at their calls on the store, the
    accumulators and the backend, on the shim and an adapter that keeps its contract.
    Each call on an accumulator is one step, the lock-free sums of [State] and
    [CheckCommit] included: a read torn by a concurrent update (at most as far off as
    [torn_reads_bounded] says) is not among these runs.  Let the limit be at most
    [2^53], the commit threshold positive, a commit id be new for each event of the run,
    and the durable counters have room for the limit times the number of events.  Then,
    whatever batches the adapter refuses or leaves half done, nothing panics; every
    durable counter has lost exactly the vectors of the accepted batches, each once, and
    of a part of each refused one; and those vectors are, at every moment, the units
    admitted and not refunded, with the vectors a loop has still to commit in memory,
    less what is pending or stranded: but for what a refused batch was charged and the
    overcharge that overlapping loops and refunds can cause, bounded by the races that
    happened (counts modulo [2^64]). *)
Theorem durable_service sv w s0 N (shim : IdemShim P) (C0 : C) D es :
  0 < s0 <= 2 ^ 53 -> 0 < commitThreshold w ->
  shim_rep N shim D -> (drawn shim + length es <= N)%nat -> room D (s0 * Z.of_nat (length es)) ->
  exists (s : Process A (Traced (IdemShim P)) C) c B over torn sent D',
    concurrent_events sv w es (service_start s0 (untouched shim) C0) = Some (s, c) /\ wrep B (world s) /\
    durable (impl (traced (persister (world s)))) D' /\
    charged_parts (history (persister (world s))) sent /\
    (forall k, balance D' k = balance D k - commit_charge k (concat sent)) /\
    0 <= over <= tally crossed (notes c) + tally doubled (notes c) /\
    0 <= stranded_units (ledger B) <= tally late_admit (notes c) /\
    0 <= torn /\ (Forall (fun call => call.2 = None) (history (persister (world s))) -> torn = 0) /\
    admits (metrics s) - refunds (metrics s) + over + torn ≡ₘ
      Zsum (Vector <$> concat sent) - uncommitted c +
      live (ledger B) + stranded_units (ledger B).
Proof.
  intros Hs0 Ht Hsh HN Hroom. destruct (durable_run sv w s0 shim C0 es ltac:(lia) Ht) as (s & c & B & m & He & Hinv & Hbd & Hf).
  pose proof (wrep_backend _ _ (prep_world _ _ _ (proj1 Hinv))) as HB. rewrite <- HB in Hf.
  destruct (within_limit_commits s0 _ c B Hs0 Hbd) as (Hok & Hpos & Hmag & Hlen). unfold sent_commits in *. rewrite <- HB in *.
  destruct (shim_ledger N _ shim (traced (persister (world s))) (history (persister (world s))).*2 D Hok Hsh) as (sent & D' & Hd & Hparts & Hbal); [|lia|exact Hf|].
  { intros k. specialize (Hroom k). lia. }
  apply charged_history in Hparts. destruct (charged_parts_sum _ _ Hparts Hpos) as (torn & Hsum & Ht0 & Htz).
  destruct (account_of s0 c B m s Hinv) as (over & Ho & Hst & Hacc).
  exists s, c, B, over, torn, sent, D'. do 9 (split; [first [done|apply Hinv]|]). rewrite Hsum.
  change (accepted_units (persister (world s))) with (accepted_of (history (persister (world s)))) in Hacc.
  destruct Hacc as [q Hq]. exists q. lia.
Qed.
End run.

(** ** A run on Redis

    Three requests for [a]; a cycle collects them and its reply is lost after Redis
    applied the commit; the next cycle sends them again, under a new id. *)
Definition demo_durable_schedule : list CEvent :=
  let request i now := [CArrive RqCheck "a" now; CHandler i; CHandler i; CHandler i; CHandler i] in
  request 0%nat 1 ++ request 1%nat 2 ++ request 2%nat 3 ++
  [CBegin (PCycle 4) ["a"]; CLoop; CLoop; CBegin (PCycle 5) ["a"]; CLoop; CLoop; CLoop; CLoop].
Definition demo_durable_shim : IdemShim (RedisPersister Remote) :=
  NewIdemShim (demo_redis [ReplyLost; Delivered]) counting_rand (fun n => Z.of_nat n).
Definition demo_durable : option (Process VSA (Traced (IdemShim (RedisPersister Remote))) (list Call) * CState) :=
  concurrent_events (mkServer 10) (mkWorker 3 0 100 0 5000 1000) demo_durable_schedule
    (service_start 10 (untouched demo_durable_shim) []).

(** The counter lost the three units twice. *)
Example demo_durable_counter :
  match demo_durable with
  | Some (s, c) => mem_scalar (server (client (impl (traced (persister (world s)))))) "counter:a" = -6 /\
      admits (metrics s) = 3 /\ map (fun call => bool_decide (call.2 = None)) (history (persister (world s))) = [false; true]
  | None => False
  end.
Proof. vm_compute. done. Qed.

Lemma durable_service_witness :
  exists s c B over torn sent D',
    demo_durable = Some (s, c) /\ wrep B (world s) /\
    durable (impl (traced (persister (world s)))) D' /\
    charged_parts (history (persister (world s))) sent /\
    (forall k, balance D' k = balance empty_ledger k - commit_charge k (concat sent)) /\
    0 <= over <= tally crossed (notes c) + tally doubled (notes c) /\
    0 <= stranded_units (ledger B) <= tally late_admit (notes c) /\
    0 <= torn /\ (Forall (fun call => call.2 = None) (history (persister (world s))) -> torn = 0) /\
    admits (metrics s) - refunds (metrics s) + over + torn ≡ₘ
      Zsum (Vector <$> concat sent) - uncommitted c +
      live (ledger B) + stranded_units (ledger B).
Proof.
  apply (durable_service (mkServer 10) (mkWorker 3 0 100 0 5000 1000) 10 256 demo_durable_shim [] empty_ledger demo_durable_schedule).
  - lia.
  - cbn. lia.
  - split; [apply empty_shows| |apply counting_rand_good]. intros k m _. apply not_elem_of_empty.
  - cbn. lia.
  - intros k. vm_compute. reflexivity.
Defined.
