(* ===== verification/Harness.v ===== *)
(** * The benchmark harness ([benchmarks/harness/main.go]): producers and figures

    The harness drives six producers with the same operations and counts what each
    writes to a simulated datastore.  Here are the datastore, the five baselines, the
    numbers the run is cut into and the figures it prints; [HarnessVsa] has the sixth
    producer.  A write only sleeps besides counting.  The batching producer is also
    cut at its mutex, for it writes after it has let go of it. *)
From Stdlib Require Import Floats.SpecFloat Ascii.
From stdpp Require Import sorting pretty.
From S2P Require Import Prelude Effects.

(** ** The datastore *)
Record persister := mkPersister { logicalWrites : Z; dbCalls : Z }.
Definition newPersister : persister := mkPersister 0 0.
Definition p_write (n : Z) (p : persister) : persister :=
  mkPersister (if n >? 0 then logicalWrites p +! n else logicalWrites p) (dbCalls p +! 1).

(** A producer and the datastore it was given. *)
Record Run (T : Type) := mkRun { prod : T; datastore : persister }.
Arguments mkRun {T}. Arguments prod {T}. Arguments datastore {T}.
Definition db_write {T} (n : Z) : SM (Run T) unit := modify (fun r => mkRun (prod r) (p_write n (datastore r))).
Definition on_prod {T R} (f : SM T R) : SM (Run T) R := zoom prod (fun t r => mkRun t (datastore r)) f.

(** What the runner does with a producer ([producer]); [M] is what a call reads
    besides its arguments, the clock for instance. *)
Class Producer (M T : Type) := {
  update : M -> string -> Z -> SM (Run T) unit;
  stopBG : SM (Run T) unit
}.

(** ** Atomic: a write for each operation *)
Record atomicCounter := mkAtomic {}.
#[export] Instance atomic_producer : Producer unit atomicCounter := {
  update _ _ _ := db_write 1;
  stopBG := mret tt
}.

(** ** Batching *)
Record batcher := mkBatcher { batchSize : Z; buf : Z }.
Definition newBatcher (size : Z) : batcher := mkBatcher size 0.

(** The critical sections; the result is how many operations to write after it. *)
Definition update_locked (b : batcher) : batcher * option Z :=
  let n := buf b +! 1 in
  if n >=? batchSize b then (mkBatcher (batchSize b) 0, Some n) else (mkBatcher (batchSize b) n, None).
Definition take_locked (b : batcher) : batcher * option Z :=
  let n := buf b in
  (mkBatcher (batchSize b) 0, if n >? 0 then Some n else None).

Definition then_write {T} (section : T -> T * option Z) : SM (Run T) unit :=
  n ← on_prod (fun b => Some (section b));
  match n with Some n => db_write n | None => mret tt end.
Definition batcher_tick : SM (Run batcher) unit := then_write take_locked.
#[export] Instance batcher_producer : Producer unit batcher := {
  update _ _ _ := then_write update_locked;
  stopBG := then_write take_locked
}.

(** The same with the writes on their own: [writing] are the batches taken by the
    goroutines that have not written them yet. *)
Record Batching := mkBatching { b_run : Run batcher; writing : list Z }.
Inductive BatchEvent := BUpdate | BTick | BWrite (i : nat).
Definition take_batch (section : batcher -> batcher * option Z) (s : Batching) : Batching :=
  let '(b, n) := section (prod (b_run s)) in
  mkBatching (mkRun b (datastore (b_run s))) (writing s ++ match n with Some n => [n] | None => [] end).
Definition batch_event (s : Batching) (e : BatchEvent) : Batching :=
  match e with
  | BUpdate => take_batch update_locked s
  | BTick => take_batch take_locked s
  | BWrite i =>
      match writing s !! i with
      | None => s
      | Some n => mkBatching (mkRun (prod (b_run s)) (p_write n (datastore (b_run s)))) (delete i (writing s))
      end
  end.
Definition batch_events (size : Z) (es : list BatchEvent) : Batching :=
  foldl batch_event (mkBatching (mkRun (newBatcher size) newPersister) []) es.

(** ** CRDT: a PN-counter, by key and replica *)
Definition fnv32 (s : string) : Z :=
  foldl (fun h c => (Z.lxor h (Z.of_N (N_of_ascii c)) * 16777619) mod 2 ^ 32) 2166136261 (String.list_ascii_of_string s).

Record pnCounter := mkPN { replicas : Z; pos : gmap string (list Z); neg : gmap string (list Z) }.
(** [make] panics on a negative length. *)
Definition newPN (keys : list string) (n : Z) : option pnCounter :=
  let m := list_to_map ((fun k => (k, replicate (Z.to_nat n) 0)) <$> keys) in
  match keys with
  | [] => Some (mkPN n ∅ ∅)
  | _ => if n <? 0 then None else Some (mkPN n m m)
  end.
(** [int(fnv32(key)) % c.replicas] *)
Definition replica_of (n : Z) (key : string) : option Z := if n =? 0 then None else Some (rem64 (fnv32 key) n).
(** [m[key][r] += d]: the slice of an absent key is nil. *)
Definition add_at_replica (key : string) (r d : Z) (m : gmap string (list Z)) : option (gmap string (list Z)) :=
  match m !! key with
  | Some l =>
      match (if r <? 0 then None else l !! Z.to_nat r) with
      | Some x => Some (<[key := <[Z.to_nat r := x +! d]> l]> m)
      | None => None
      end
  | None => None
  end.
Definition pn_add (key : string) (delta : Z) : SM pnCounter unit := fun c =>
  match replica_of (replicas c) key with
  | None => None
  | Some r =>
      if delta >=? 0 then
        match add_at_replica key r delta (pos c) with
        | Some m => Some (mkPN (replicas c) m (neg c), tt)
        | None => None
        end
      else
        match add_at_replica key r (neg64 delta) (neg c) with
        | Some m => Some (mkPN (replicas c) (pos c) m, tt)
        | None => None
        end
  end.
(** A merge is one call per replica. *)
Definition pn_merge : SM (Run pnCounter) unit :=
  n ← gets (fun r => replicas (prod r));
  for_each (fun _ => db_write 0) (seq 0 (Z.to_nat n)).
#[export] Instance pn_producer : Producer unit pnCounter := {
  update _ key delta := on_prod (pn_add key delta) ;; db_write 1;
  stopBG := mret tt
}.

(** ** The token and the leaky bucket, in [float64] *)
Definition fl (z : Z) : spec_float := binary_normalize 53 1024 z 0 false.
Definition fadd := SFadd 53 1024.
Definition fsub := SFsub 53 1024.
Definition fmul := SFmul 53 1024.
Definition fdiv := SFdiv 53 1024.
(** [Duration.Seconds] *)
Definition Seconds (d : Z) : spec_float :=
  fadd (fl (Z.quot d 1000000000)) (fdiv (fl (Z.rem d 1000000000)) (fl 1000000000)).

Record bucket := mkBucket { cap : spec_float; rate : spec_float; level : gmap string spec_float; last : gmap string Z }.
Definition new_bucket (keys : list string) (capacity : Z) (rate : spec_float) (initial : spec_float) (now : Z) : bucket :=
  mkBucket (fl capacity) rate (list_to_map ((fun k => (k, initial)) <$> keys)) (list_to_map ((fun k => (k, now)) <$> keys)).
Definition newTokenBucket (keys : list string) (capacity : Z) (rate : spec_float) (now : Z) : bucket :=
  new_bucket keys capacity rate (fl capacity) now.
Definition newLeakyBucket (keys : list string) (capacity : Z) (rate : spec_float) (now : Z) : bucket :=
  new_bucket keys capacity rate (fl 0) now.

(** A map of floats reads zero at an absent key. *)
Definition level_at (key : string) (b : bucket) : spec_float := default (fl 0) (level b !! key).
Definition set_level (key : string) (x : spec_float) (now : Z) (b : bucket) : bucket :=
  mkBucket (cap b) (rate b) (<[key := x]> (level b)) (<[key := now]> (last b)).
Definition at_most (c x : spec_float) : spec_float := if SFltb c x then c else x.
Definition not_negative (x : spec_float) : spec_float := if SFltb x (fl 0) then fl 0 else x.

Definition token_level (now : Z) (key : string) (delta : Z) (t : bucket) : spec_float :=
  let tokens :=
    match last t !! key with
    | Some prev =>
        let refill := fmul (Seconds (time_Sub now prev)) (rate t) in
        if SFltb (fl 0) refill then at_most (cap t) (fadd (level_at key t) refill) else level_at key t
    | None => cap t
    end in
  if delta >=? 0 then if SFleb (fl 1) tokens then fsub tokens (fl 1) else tokens
  else at_most (cap t) (fadd tokens (fl 1)).

(** The zero [time.Time] of an absent key is before any clock reading by more than
    a [Duration] holds, so the difference saturates. *)
Definition leaky_level (now : Z) (key : string) (delta : Z) (l : bucket) : spec_float :=
  let elapsed := match last l !! key with Some prev => time_Sub now prev | None => MaxInt64 end in
  let leaked := fmul (Seconds elapsed) (rate l) in
  let lv := if SFltb (fl 0) leaked then not_negative (fsub (level_at key l) leaked) else level_at key l in
  if delta >=? 0 then if SFltb lv (cap l) then fadd lv (fl 1) else lv
  else not_negative (fsub lv (fl 1)).

(** Both read and write the store for each operation. *)
Definition bucket_update (next : Z -> string -> Z -> bucket -> spec_float) (now : Z) (key : string) (delta : Z) :
  SM (Run bucket) unit :=
  on_prod (modify (fun t => set_level key (next now key delta t) now t)) ;;
  db_write 0 ;;
  db_write 1.
Definition token_producer : Producer Z bucket := {| update := bucket_update token_level; stopBG := mret tt |}.
Definition leaky_producer : Producer Z bucket := {| update := bucket_update leaky_level; stopBG := mret tt |}.

(** ** The runner *)
Definition produce {M T} {PT : Producer M T} (ops : list (M * string * Z)) : SM (Run T) unit :=
  for_each (fun op => update op.1.1 op.1.2 op.2) ops.

(** How [main] splits the operations; a division by zero panics. *)
Definition opsPerWorker (opCount workers duration : Z) : option Z :=
  if workers =? 0 then None
  else Some (if duration >? 0 then 8192 else quot64 opCount workers).

(** Reservoir sampling of the latencies: [j] is what the generator draws. *)
Definition reservoir (capPerWorker : Z) (loc : list Z) (totalSeen : Z) (d j : Z) : list Z * Z :=
  let totalSeen := totalSeen +! 1 in
  if totalSeen <=? capPerWorker then (loc ++ [d], totalSeen)
  else (if j <? capPerWorker then <[Z.to_nat j := d]> loc else loc, totalSeen).
Fixpoint sample_all (capPerWorker : Z) (loc : list Z) (totalSeen : Z) (seen : list (Z * Z)) : list Z :=
  match seen with
  | [] => loc
  | (d, j) :: seen => let '(loc, totalSeen) := reservoir capPerWorker loc totalSeen d j in sample_all capPerWorker loc totalSeen seen
  end.

(** ** The figures *)
Record histBucket := mkHist { label : string; lo : Z; hi : Z; count : Z }.
Definition hist_buckets : list histBucket := [
  mkHist "<100ns" 0 100 0;
  mkHist "100–200ns" 100 200 0;
  mkHist "200–500ns" 200 500 0;
  mkHist "0.5–1µs" 500 1000 0;
  mkHist "1–2µs" 1000 2000 0;
  mkHist "2–5µs" 2000 5000 0;
  mkHist "5–10µs" 5000 10000 0;
  mkHist "10–20µs" 10000 20000 0;
  mkHist "20–50µs" 20000 50000 0;
  mkHist "50–100µs" 50000 100000 0;
  mkHist "0.1–0.2ms" 100000 200000 0;
  mkHist "0.2–0.5ms" 200000 500000 0;
  mkHist "0.5–1ms" 500000 1000000 0;
  mkHist "1–2ms" 1000000 2000000 0;
  mkHist "2–5ms" 2000000 5000000 0;
  mkHist "5–10ms" 5000000 10000000 0;
  mkHist ">=10ms" 10000000 MaxInt64 0].
Definition hist_inc (b : histBucket) : histBucket := mkHist (label b) (lo b) (hi b) (count b +! 1).
Fixpoint hist_add (d : Z) (bs : list histBucket) : list histBucket :=
  match bs with
  | [] => []
  | b :: bs => if (d >=? lo b) && (d <? hi b) then hist_inc b :: bs else b :: hist_add d bs
  end.
Definition buildLatencyHistogram (durations : list Z) : list histBucket :=
  filter (fun b => (count b >? 0) = true) (foldl (fun bs d => hist_add d bs) hist_buckets durations).

(** [sort.Slice] on durations. *)
Definition sorted_durations (ds : list Z) : list Z := merge_sort Z.le ds.
Definition percentile_index (n p : Z) : Z := quot64 ((n - 1) *! p) 100.
Definition percentiles (ds : list Z) (p : Z) : option Z :=
  match ds with
  | [] => Some 0
  | _ =>
      let idx := percentile_index (Z.of_nat (length ds)) p in
      if idx <? 0 then None else sorted_durations ds !! Z.to_nat idx
  end.
(** Operations slower than five times the median. *)
Definition longOps (ds : list Z) (med : Z) : Z :=
  let thr := 5 *! med in Z.of_nat (length (filter (fun d => (d >? thr) = true) ds)).

(** [humanInt]: a comma before each group of three. *)
Definition comma : ascii := ","%char.
Fixpoint group_digits (s : list ascii) (first : bool) : list ascii :=
  match s with
  | [] => []
  | c :: s' => (if negb first && (Z.of_nat (length s) mod 3 =? 0) then [comma; c] else [c]) ++ group_digits s' false
  end.
Definition humanInt (n : Z) : list ascii :=
  let s := String.list_ascii_of_string (pretty n) in
  match s with
  | "-"%char :: s' => "-"%char :: group_digits s' true
  | _ => group_digits s true
  end.
