(* ===== verification/HarnessVsa.v ===== *)
(** * The benchmark harness: the VSA producer ([vsaHarness])

    Operations go to an accumulator per key; a loop persists the vectors that are due
    and commits them; a second loop samples; stopping flushes the rest.  The
    goroutines share the accumulators and three [sync.Map]s, so the commit loop is cut
    into steps, one per key visited and one per vector committed, and updates come
    between them.  No key is ever removed, so a pointer kept by the loop is its key. *)
From S2P Require Import Prelude Machine Vsa VsaInv Effects Harness.

(** What the sampler has seen, and what the commits were like. *)
Record Samples := mkSamples { maxAbsVec : Z; sumAbsVec : Z; samples : Z }.
Record Intervals := mkIntervals {
  lastCommitTS : Z; minCommitNS : Z; maxCommitNS : Z; sumCommitNS : Z; commitCount : Z
}.

Record vsaHarness := mkHarness {
  threshold : Z; lowThreshold : Z; maxAge : Z;
  accs : gmap string VSA;               (* [store] *)
  lastTouch : gmap string Z;
  hysteresisArm : gmap string bool;
  sampled : Samples;
  intervals : Intervals;
  finalAbsVec : Z;
  totalCommits : Z
}.

Definition newVSAHarness (gomaxprocs : Z) (keys : list string) (initialScalar threshold maxAge low now : Z) : vsaHarness :=
  mkHarness threshold (if low >? 0 then low else Vsa.Helpers.max 1 (quot64 threshold 2)) maxAge
    (list_to_map ((fun k => (k, New gomaxprocs initialScalar)) <$> keys))
    (list_to_map ((fun k => (k, now)) <$> keys)) (list_to_map ((fun k => (k, true)) <$> keys))
    (mkSamples 0 0 0) (mkIntervals 0 0 0 0 0) 0 0.

Definition set_accs x h := mkHarness (threshold h) (lowThreshold h) (maxAge h) x (lastTouch h) (hysteresisArm h)
  (sampled h) (intervals h) (finalAbsVec h) (totalCommits h).
Definition set_touch x h := mkHarness (threshold h) (lowThreshold h) (maxAge h) (accs h) x (hysteresisArm h)
  (sampled h) (intervals h) (finalAbsVec h) (totalCommits h).
Definition set_arm x h := mkHarness (threshold h) (lowThreshold h) (maxAge h) (accs h) (lastTouch h) x
  (sampled h) (intervals h) (finalAbsVec h) (totalCommits h).
Definition set_sampled x h := mkHarness (threshold h) (lowThreshold h) (maxAge h) (accs h) (lastTouch h) (hysteresisArm h)
  x (intervals h) (finalAbsVec h) (totalCommits h).
Definition set_intervals x h := mkHarness (threshold h) (lowThreshold h) (maxAge h) (accs h) (lastTouch h) (hysteresisArm h)
  (sampled h) x (finalAbsVec h) (totalCommits h).
Definition set_final x h := mkHarness (threshold h) (lowThreshold h) (maxAge h) (accs h) (lastTouch h) (hysteresisArm h)
  (sampled h) (intervals h) x (totalCommits h).
Definition set_total x h := mkHarness (threshold h) (lowThreshold h) (maxAge h) (accs h) (lastTouch h) (hysteresisArm h)
  (sampled h) (intervals h) (finalAbsVec h) x.

(** A call on the accumulator of a key, which is in the store. *)
Definition on_acc {R} (method : Config -> M Mem R) (key : string) : SM vsaHarness R := fun h =>
  match accs h !! key with
  | None => None
  | Some v =>
      match exec (method (conf v)) (mem v) with
      | Some (m, r) => Some (set_accs (<[key := mkVSA (conf v) m]> (accs h)) h, r)
      | None => None
      end
  end.
Definition vector_of (key : string) : SM vsaHarness Z := st ← on_acc State key; mret st.2.

(** [update]; what it reads is the chooser's environment and the clock. *)
Definition vsa_update (e : ChooserEnv * Z) (key : string) (delta : Z) : SM vsaHarness unit :=
  present ← gets (fun h => accs h !! key);
  match present with
  | None => mret tt
  | Some _ =>
      on_acc (fun c => Update c e.1 delta) key ;;
      modify (fun h => set_touch (<[key := e.2]> (lastTouch h)) h)
  end.

(** ** The commit loop *)

(** The visit of a key: what it appends to [commits]. *)
Definition check_visit (now : Z) (commits : list (string * Z)) (key : string) : SM vsaHarness (list (string * Z)) :=
  h ← gets id;
  '(ok, vec) ← on_acc (fun c => CheckCommit c (threshold h)) key;
  let armed := default true (hysteresisArm h !! key) in
  commits ←
    (if (ok : bool) && armed then mret (commits ++ [(key, vec)])
     else
       absVec ← (if vec =? 0 then vector_of key else mret vec);
       when (Vsa.Helpers.abs absVec <=? lowThreshold h) (modify (fun h => set_arm (<[key := true]> (hysteresisArm h)) h)) ;;
       mret commits);
  if negb ok && (maxAge h >? 0) then
    match lastTouch h !! key with
    | None => mret commits
    | Some lt =>
        vec ← (if vec =? 0 then vector_of key else mret vec);
        mret (if negb (vec =? 0) && (time_Sub now lt >=? maxAge h) then commits ++ [(key, vec)] else commits)
    end
  else mret commits.

(** The time between two commits, at most one goroutine writing. *)
Definition record_interval (ns : Z) (i : Intervals) : Intervals :=
  if lastCommitTS i =? 0 then
    mkIntervals ns (minCommitNS i) (maxCommitNS i) (sumCommitNS i) (commitCount i)
  else
    let interval := ns -! lastCommitTS i in
    mkIntervals ns
      (if (minCommitNS i =? 0) || (interval <? minCommitNS i) then interval else minCommitNS i)
      (if interval >? maxCommitNS i then interval else maxCommitNS i)
      (sumCommitNS i +! interval) (commitCount i +! 1).

Definition commit_one (key : string) (vec : Z) : SM vsaHarness unit :=
  on_acc (fun c => Commit c vec) key ;;
  modify (fun h => match hysteresisArm h !! key with
                   | Some _ => set_arm (<[key := false]> (hysteresisArm h)) h
                   | None => h
                   end).

Inductive LoopStage :=
| LWaiting
| LScanning (now : Z) (keys : list string) (commits : list (string * Z))
| LCommitting (n : nat) (commits : list (string * Z)).   (* [n] of them in all *)

(** The next step of the commit loop; [ns] is the clock. *)
Definition loop_step (ns : Z) (st : LoopStage) : SM (Run vsaHarness) LoopStage :=
  match st with
  | LWaiting => mret LWaiting
  | LScanning now (key :: keys) commits =>
      commits' ← on_prod (check_visit now commits key);
      mret (LScanning now keys commits')
  | LScanning _ [] [] => mret LWaiting
  | LScanning _ [] commits =>
      on_prod (modify (fun h => set_intervals (record_interval ns (intervals h)) h)) ;;
      for_each (fun _ => db_write 1) commits ;;
      mret (LCommitting (length commits) commits)
  | LCommitting n ((key, vec) :: commits) =>
      on_prod (commit_one key vec) ;;
      mret (LCommitting n commits)
  | LCommitting n [] =>
      on_prod (modify (fun h => set_total (totalCommits h +! Z.of_nat n) h)) ;;
      mret LWaiting
  end.

(** ** The sampler and the end *)
Definition sum_abs (order : list string) : SM vsaHarness Z :=
  foldM (fun total key => vec ← vector_of key; mret (total +! Vsa.Helpers.abs vec)) 0 order.
Definition sample (order : list string) : SM vsaHarness unit :=
  total ← sum_abs order;
  modify (fun h =>
    let s := sampled h in
    set_sampled (mkSamples (if total >? maxAbsVec s then total else maxAbsVec s) (sumAbsVec s +! total) (samples s +! 1)) h).

Definition flush_key (total : Z) (key : string) : SM (Run vsaHarness) Z :=
  vec ← on_prod (vector_of key);
  when (negb (vec =? 0)) (db_write 1 ;; on_prod (on_acc (fun c => Commit c vec) key)) ;;
  mret (total +! Vsa.Helpers.abs vec).
Definition final_flush (order : list string) : SM (Run vsaHarness) unit :=
  total ← foldM flush_key 0 order;
  on_prod (modify (set_final total)).

(** [order] is how [Range] lists the store in the flush. *)
Definition vsa_producer (order : list string) : Producer (ChooserEnv * Z) vsaHarness := {|
  update e key delta := on_prod (vsa_update e key delta);
  stopBG := final_flush order
|}.

(** ** The producer with its two loops *)
Inductive HarnessEvent :=
| HUpdate (e : ChooserEnv) (now : Z) (key : string) (delta : Z)
| HTick (now : Z) (order : list string)
| HLoop (ns : Z)
| HSample (order : list string).

Definition harness_event (st : LoopStage) (e : HarnessEvent) : SM (Run vsaHarness) LoopStage :=
  match e with
  | HUpdate e now key delta => on_prod (vsa_update (e, now) key delta) ;; mret st
  | HTick now order => mret (match st with LWaiting => LScanning now order [] | _ => st end)
  | HLoop ns => loop_step ns st
  | HSample order => on_prod (sample order) ;; mret st
  end.
Definition harness_run (es : list HarnessEvent) : SM (Run vsaHarness) LoopStage := foldM harness_event LWaiting es.

(** The commit figures of the summary, printed before [stopBG] (it is deferred). *)
Definition printed_avg (h : vsaHarness) : Z :=
  if samples (sampled h) >? 0 then quot64 (sumAbsVec (sampled h)) (samples (sampled h)) else 0.
Definition printed_vectors (h : vsaHarness) : Z * Z * Z := (maxAbsVec (sampled h), printed_avg h, finalAbsVec h).
