(* ===== verification/HarnessVsaSpec.v ===== *)
(** * The VSA producer of the harness: what a run has written and committed

    Whatever updates come between the steps of the commit loop and the samples, no
    call panics and every operation is on its key's accumulator; stopping commits the
    rest.  The figure printed for it is zero, though, and a key that stays above the
    threshold is committed only once. *)
From S2P Require Import Prelude Machine Vsa VsaInv Effects Harness HarnessVsa.

(** ** The accumulators *)
Definition ops_sum (v : VSA) : Z := Zsum (stripes (mem v)).

Lemma net_sum m : net m ≡ₘ Zsum (stripes m) - committedOffset m.
Proof. unfold net. by rewrite wrap64_eqm. Qed.

Section acc.
Context (h : vsaHarness) (key : string) (v : VSA).
Context (Hv : accs h !! key = Some v) (Hwf : wf (conf v) (mem v)).

Lemma on_acc_Some {R} (method : Config -> M Mem R) m r :
  exec (method (conf v)) (mem v) = Some (m, r) ->
  on_acc method key h = Some (set_accs (<[key := mkVSA (conf v) m]> (accs h)) h, r).
Proof. intros He. unfold on_acc. by rewrite Hv, He. Qed.

Lemma same_accs : set_accs (<[key := v]> (accs h)) h = h.
Proof using Hv. destruct h. unfold set_accs. cbn in *. by rewrite insert_id. Qed.

(** Reading changes nothing. *)
Lemma vector_of_ok : vector_of key h = Some (h, net (mem v)).
Proof using Hv Hwf.
  unfold vector_of. erewrite bind_Some; [|apply on_acc_Some, exec_State, Hwf]. cbn.
  replace (mkVSA (conf v) (mem v)) with v by by destruct v. by rewrite same_accs.
Qed.

Lemma check_ok t : on_acc (fun c => CheckCommit c t) key h =
  Some (h, if Helpers.abs (net (mem v)) >=? t then (true, net (mem v)) else (false, 0)).
Proof using Hv Hwf.
  erewrite on_acc_Some; [|unfold CheckCommit; rewrite exec_bind, exec_currentVector by done; reflexivity].
  replace (mkVSA (conf v) (mem v)) with v by by destruct v. by rewrite same_accs.
Qed.

Lemma commit_ok vec : in64 vec -> exists m, exec (Commit (conf v) vec) (mem v) = Some (m, tt) /\ wf (conf v) m /\
  Zsum (stripes m) = ops_sum v /\
  net m = (if (vec =? 0) || (net (mem v) =? 0) then net (mem v) else net (mem v) -! commit_delta (net (mem v)) vec).
Proof using Hwf.
  intros Hvec. destruct (exec_Commit (conf v) (mem v) vec Hwf Hvec) as (m & He & Hm & _ & _ & Hn).
  exists m. split_and!; [done..| |done]. unfold ops_sum. f_equal. clear Hn Hm. revert He.
  unfold Commit. case_Z; [by intros [= <-]|]. rewrite exec_with_lock. unfold Commit_locked.
  rewrite exec_bind, exec_currentVector by done. case_Z; [by intros [= <-]|]. by intros [= <-].
Qed.

Lemma update_ok e d : exists m, exec (Update (conf v) e d) (mem v) = Some (m, tt) /\ wf (conf v) m /\
  Zsum (stripes m) ≡ₘ ops_sum v + d /\ net m = net (mem v) +! d /\ committedOffset m = committedOffset (mem v).
Proof using Hwf.
  destruct (exec_Update (conf v) e (mem v) d Hwf) as (m & He & Hm & Hn & Hf). exists m.
  split_and!; [done..| |done|apply Hf]. unfold ops_sum.
  pose proof (net_sum m) as H1. pose proof (net_sum (mem v)) as H2. rewrite Hn, (fr_off _ _ Hf), add64_eqm, H2 in H1.
  destruct H1 as [k Hk]. exists (- k). lia.
Qed.
End acc.

Lemma commit_delta_self x : in64 x -> commit_delta x x = x.
Proof.
  intros Hx. unfold commit_delta, Helpers.abs. rewrite !Z.gtb_ltb. destruct (decide (x = MinInt64)) as [->|Hne]; [done|].
  unfold in64, MinInt64 in *. repeat case_Z; unwrap; lia.
Qed.

(** ** The invariant *)
Definition pending_of (h : vsaHarness) (k : string) : Z := match accs h !! k with Some v => net (mem v) | None => 0 end.

(** [given k]: what the operations on [k] so far sum to. *)
Record harness_inv (keys : list string) (given : string -> Z) (h : vsaHarness) : Prop := {
  hi_keys k : is_Some (accs h !! k) <-> k ∈ keys;
  hi_accs k v : accs h !! k = Some v -> wf (conf v) (mem v) /\ ops_sum v ≡ₘ given k
}.

Definition with_op (key : string) (d : Z) (given : string -> Z) : string -> Z :=
  fun k => given k + (if decide (k = key) then d else 0).

Section harness.
Context (keys : list string).

Lemma inv_acc given h key : harness_inv keys given h -> key ∈ keys ->
  exists v, accs h !! key = Some v /\ wf (conf v) (mem v) /\ ops_sum v ≡ₘ given key.
Proof. intros [Hk Ha] Hin. apply Hk in Hin as [v Hv]. exists v. split; [done|]. by apply Ha. Qed.

(** Only the accumulators matter. *)
Lemma inv_ext given h h' : accs h' = accs h -> harness_inv keys given h -> harness_inv keys given h'.
Proof. intros He [Hk Ha]. split; by rewrite He. Qed.

Lemma inv_call given h key v m d : harness_inv keys given h -> accs h !! key = Some v ->
  wf (conf v) m -> Zsum (stripes m) ≡ₘ ops_sum v + d ->
  harness_inv keys (with_op key d given) (set_accs (<[key := mkVSA (conf v) m]> (accs h)) h).
Proof.
  intros [Hk Ha] Hv Hm Hs. split; cbn [accs set_accs].
  - intros k. rewrite <- Hk. destruct (decide (k = key)) as [->|Hne].
    + rewrite lookup_insert_eq, Hv. by split.
    + by rewrite lookup_insert_ne.
  - intros k v'. unfold with_op. destruct (decide (k = key)) as [->|Hne].
    + rewrite lookup_insert_eq. intros [= <-]. split; [done|]. cbn. unfold ops_sum at 1. cbn. rewrite Hs.
      by rewrite (proj2 (Ha _ _ Hv)).
    + rewrite lookup_insert_ne by done. intros Hv'. rewrite Z.add_0_r. by apply Ha.
Qed.

Lemma inv_same given given' h : (forall k, given' k = given k) -> harness_inv keys given h -> harness_inv keys given' h.
Proof. intros He [Hk Ha]. split; [done|]. intros k v Hv. rewrite He. by apply Ha. Qed.

Lemma vector_of_inv given h key : harness_inv keys given h -> key ∈ keys -> vector_of key h = Some (h, pending_of h key).
Proof.
  intros Hi Hin. destruct (inv_acc _ _ _ Hi Hin) as (v & Hv & Hwf & _). unfold pending_of. rewrite Hv. by apply vector_of_ok.
Qed.

Lemma pending_in given h key : harness_inv keys given h -> in64 (pending_of h key).
Proof. intros Hi. unfold pending_of. destruct (accs h !! key); [apply net_in|done]. Qed.

(** *** An operation *)
Lemma vsa_update_ok given h e key d : harness_inv keys given h ->
  exists h', vsa_update e key d h = Some (h', tt) /\
    harness_inv keys (if decide (key ∈ keys) then with_op key d given else given) h' /\
    finalAbsVec h' = finalAbsVec h /\ totalCommits h' = totalCommits h.
Proof.
  intros Hi. unfold vsa_update, gets, mbind, SM_bind. destruct (accs h !! key) as [v|] eqn:Hv.
  - assert (Hin : key ∈ keys) by (apply (hi_keys _ _ _ Hi); by eexists).
    destruct (inv_acc _ _ _ Hi Hin) as (v' & Hv' & Hwf & _). assert (v' = v) as -> by congruence.
    destruct (update_ok v Hwf e.1 d) as (m & He & Hm & Hs & _).
    rewrite (on_acc_Some h key v Hv (fun c => Update c e.1 d) m tt He), decide_True by done. eexists. split; [reflexivity|].
    split_and!; [|done..]. eapply inv_ext; [|by apply inv_call]. done.
  - exists h. rewrite decide_False; [done|]. intros [v Hin]%(hi_keys _ _ _ Hi). congruence.
Qed.

(** *** The visit of a key *)
Definition commits_ok (commits : list (string * Z)) : Prop := Forall (fun kv => kv.1 ∈ keys /\ in64 kv.2) commits.

Lemma commits_ok_snoc commits key v : commits_ok commits -> key ∈ keys -> in64 v -> commits_ok (commits ++ [(key, v)]).
Proof. intros Hc Hk Hv. apply Forall_app. split; [done|]. by constructor. Qed.

(** The visit as one function: whether it re-arms, and what it appends. *)
Definition visit_arms (h : vsaHarness) (key : string) : bool :=
  let p := pending_of h key in
  let ok := Helpers.abs p >=? threshold h in
  negb (ok && default true (hysteresisArm h !! key)) && (Helpers.abs p <=? lowThreshold h).
Definition visit_takes (now : Z) (h : vsaHarness) (key : string) : bool :=
  let p := pending_of h key in
  let ok := Helpers.abs p >=? threshold h in
  if ok then default true (hysteresisArm h !! key)
  else (maxAge h >? 0) && negb (p =? 0) &&
       match lastTouch h !! key with Some lt => time_Sub now lt >=? maxAge h | None => false end.

Lemma check_visit_eq given h now commits key : harness_inv keys given h -> key ∈ keys ->
  check_visit now commits key h =
  Some (if visit_arms h key then set_arm (<[key := true]> (hysteresisArm h)) h else h,
        if visit_takes now h key then commits ++ [(key, pending_of h key)] else commits).
Proof.
  intros Hi Hin. destruct (inv_acc _ _ _ Hi Hin) as (v & Hv & Hwf & _).
  pose proof (vector_of_inv given h key Hi Hin) as Hvec.
  pose proof (check_ok h key v Hv Hwf (threshold h)) as Hch.
  set (h1 := set_arm (<[key := true]> (hysteresisArm h)) h).
  assert (Hp : net (mem v) = pending_of h key) by (unfold pending_of; by rewrite Hv). rewrite Hp in Hch.
  assert (Hvec1 : vector_of key h1 = Some (h1, pending_of h key)) by (rewrite <- Hp; by apply (vector_of_ok h1 key v)).
  unfold check_visit, gets. cbn [id]. unfold mbind, SM_bind. rewrite Hch. unfold visit_arms, visit_takes.
  destruct (Helpers.abs (pending_of h key) >=? threshold h) eqn:Hok; cbn [andb negb].
  - destruct (default true (hysteresisArm h !! key)); cbn [andb negb]; [done|].
    destruct (pending_of h key =? 0); rewrite ?Hvec; cbn; destruct (_ <=? lowThreshold h); done.
  - change (0 =? 0) with true. cbn. rewrite Hvec.
    destruct (Helpers.abs (pending_of h key) <=? lowThreshold h), (maxAge h >? 0); cbn; try done.
    all: destruct (lastTouch h !! key) as [lt|]; cbn; [|by rewrite andb_false_r].
    all: rewrite ?Hvec; fold h1; rewrite ?Hvec1; reflexivity.
Qed.

Lemma check_visit_ok given h now commits key : harness_inv keys given h -> commits_ok commits -> key ∈ keys ->
  exists h' commits', check_visit now commits key h = Some (h', commits') /\ harness_inv keys given h' /\
    commits_ok commits' /\ finalAbsVec h' = finalAbsVec h /\ totalCommits h' = totalCommits h.
Proof.
  intros Hi Hc Hin. rewrite (check_visit_eq given) by done. eexists _, _. split; [reflexivity|].
  split_and!.
  - destruct (visit_arms h key); [|done]. by eapply inv_ext; [|exact Hi].
  - destruct (visit_takes now h key); [|done]. apply commits_ok_snoc; [done..|]. by eapply pending_in.
  - by destruct (visit_arms h key).
  - by destruct (visit_arms h key).
Qed.

(** *** A commit *)
Lemma on_commit given h key vec : harness_inv keys given h -> key ∈ keys -> in64 vec ->
  exists h', on_acc (fun c => Commit c vec) key h = Some (h', tt) /\ harness_inv keys given h' /\
    pending_of h' key = (if (vec =? 0) || (pending_of h key =? 0) then pending_of h key
                         else pending_of h key -! commit_delta (pending_of h key) vec) /\
    (forall k, k <> key -> accs h' !! k = accs h !! k) /\
    hysteresisArm h' = hysteresisArm h /\ finalAbsVec h' = finalAbsVec h /\ totalCommits h' = totalCommits h.
Proof.
  intros Hi Hin Hvec. destruct (inv_acc _ _ _ Hi Hin) as (v & Hv & Hwf & _).
  destruct (commit_ok v Hwf vec Hvec) as (m & He & Hm & Hs & Hn).
  rewrite (on_acc_Some h key v Hv (fun c => Commit c vec) m tt He). eexists. split; [reflexivity|].
  split_and!; [| | |done..].
  - eapply inv_same; [|apply (inv_call given h key v m 0)]; [|done..|by rewrite Hs, Z.add_0_r].
    intros k. unfold with_op. case_decide; lia.
  - unfold pending_of. cbn [accs set_accs]. rewrite lookup_insert_eq, Hv. exact Hn.
  - intros k Hk. cbn. by rewrite lookup_insert_ne.
Qed.
(** ** The run *)
Definition in_progress (st : LoopStage) : Z := match st with LCommitting n _ => Z.of_nat n | _ => 0 end.
Definition stage_ok (st : LoopStage) : Prop :=
  match st with
  | LWaiting => True
  | LScanning _ ks commits => Forall (.∈ keys) ks /\ commits_ok commits
  | LCommitting _ commits => commits_ok commits
  end.

Record run_inv (given : string -> Z) (st : LoopStage) (r : Run vsaHarness) : Prop := {
  ri_inv : harness_inv keys given (prod r);
  ri_stage : stage_ok st;
  ri_final : finalAbsVec (prod r) = 0;
  ri_db : dbCalls (datastore r) = logicalWrites (datastore r);
  ri_writes : logicalWrites (datastore r) ≡ₘ totalCommits (prod r) + in_progress st
}.

Lemma on_prod_Some {T R} (f : SM T R) (r : Run T) t x :
  f (prod r) = Some (t, x) -> on_prod f r = Some (mkRun t (datastore r), x).
Proof. intros He. unfold on_prod, zoom. by rewrite He. Qed.

(** [n] writes of one. *)
Lemma writes_ok {A} (l : list A) (r : Run vsaHarness) : exists p,
  for_each (fun _ => db_write 1) l r = Some (mkRun (prod r) p, tt) /\
  logicalWrites p ≡ₘ logicalWrites (datastore r) + Z.of_nat (length l) /\
  (dbCalls (datastore r) = logicalWrites (datastore r) -> dbCalls p = logicalWrites p).
Proof.
  unfold for_each. revert r. induction l as [|a l IH]; intros r; cbn [foldM].
  - exists (datastore r). destruct r. split; [done|]. split; [|done]. cbn. by rewrite Z.add_0_r.
  - unfold mbind, SM_bind. cbn. destruct (IH (mkRun (prod r) (p_write 1 (datastore r)))) as (p & He & Hl & Hd).
    rewrite He. exists p. split; [done|]. split.
    + rewrite Hl. cbn [datastore p_write logicalWrites]. change (1 >? 0) with true. cbn -[Z.add]. rewrite add64_eqm. eqm_lia.
    + intros Heq. apply Hd. cbn. by rewrite Heq.
Qed.

Lemma commit_one_ok given h key vec : harness_inv keys given h -> key ∈ keys -> in64 vec ->
  exists h', commit_one key vec h = Some (h', tt) /\ harness_inv keys given h' /\
    finalAbsVec h' = finalAbsVec h /\ totalCommits h' = totalCommits h.
Proof.
  intros Hi Hk Hv. destruct (on_commit given h key vec Hi Hk Hv) as (h1 & He & Hi1 & _ & _ & _ & Hf & Ht).
  unfold commit_one. erewrite bind_Some by done. eexists. split; [reflexivity|].
  destruct (hysteresisArm h1 !! key); [|done]. split_and!; [by eapply inv_ext; [|exact Hi1]|done..].
Qed.

Lemma loop_step_ok given ns st r : run_inv given st r ->
  exists r' st', loop_step ns st r = Some (r', st') /\ run_inv given st' r'.
Proof.
  intros [Hi Hst Hf Hd Hw]. destruct st as [|now [|key ks] commits|n [|[key vec] commits]]; cbn [loop_step stage_ok in_progress] in *.
  - exists r, LWaiting. split; [done|]. by split.
  - destruct commits as [|c commits]; [exists r, LWaiting; split; [done|by split]|].
    set (cs := c :: commits) in *. unfold on_prod, zoom, modify, mbind, SM_bind. cbn -[for_each].
    edestruct (writes_ok cs) as (p & He & Hl & Hd'). rewrite He. eexists _, _. split; [reflexivity|].
    split; cbn -[Z.of_nat length] in *; [by eapply inv_ext; [|exact Hi]|apply Hst|done|by apply Hd'|].
    rewrite Hl, Hw. change (length cs) with (S (length commits)). eqm_lia.
  - destruct Hst as [Hks Hc]. inversion_clear Hks as [|?? Hk Hks'].
    destruct (check_visit_ok given (prod r) now commits key Hi Hc Hk) as (h' & cs & He & Hi' & Hc' & Hf' & Ht').
    erewrite bind_Some by by apply on_prod_Some. eexists _, _. split; [reflexivity|].
    split; cbn; [done|by split|congruence|done|by rewrite Ht'].
  - eexists _, _. split; [reflexivity|]. split; cbn; [by eapply inv_ext; [|exact Hi]|done..|].
    rewrite Hw, add64_eqm. eqm_lia.
  - inversion_clear Hst as [|?? [Hk Hv] Hc]. cbn in Hk, Hv.
    destruct (commit_one_ok given (prod r) key vec Hi Hk Hv) as (h' & He & Hi' & Hf' & Ht').
    erewrite bind_Some by by apply on_prod_Some. eexists _, _. split; [reflexivity|].
    split; cbn; [done|done|congruence|done|by rewrite Ht'].
Qed.

(** Summing reads the accumulators and nothing else. *)
Lemma sum_abs_ok given h order total : harness_inv keys given h -> Forall (.∈ keys) order ->
  exists x, foldM (fun total key => vec ← vector_of key; mret (total +! Helpers.abs vec)) total order h = Some (h, x).
Proof.
  intros Hi Ho. revert total. induction Ho as [|key order Hk Ho IH]; intros total; cbn [foldM]; [by exists total|].
  unfold mbind, SM_bind. rewrite (vector_of_inv given) by done. apply IH.
Qed.

Definition event_ok (e : HarnessEvent) : Prop :=
  match e with HTick _ order | HSample order => Forall (.∈ keys) order | _ => True end.
Definition op_on (k : string) (e : HarnessEvent) : Z :=
  match e with HUpdate _ _ key d => if decide (key = k) then if decide (k ∈ keys) then d else 0 else 0 | _ => 0 end.
Definition given (es : list HarnessEvent) (k : string) : Z := Zsum (op_on k <$> es).

Lemma given_snoc es e k : given (es ++ [e]) k = given es k + op_on k e.
Proof. unfold given. rewrite fmap_app, Zsum_app. cbn. rewrite Zsum_cons, Zsum_nil. lia. Qed.

Lemma run_inv_same g g' st r : (forall k, g' k = g k) -> run_inv g st r -> run_inv g' st r.
Proof. intros He []. split; try done. by eapply inv_same. Qed.

(** An operation, whatever the commit loop is doing, and the other events. *)
Lemma update_run_ok g st r e key d : run_inv g st r ->
  exists h', on_prod (vsa_update e key d) r = Some (mkRun h' (datastore r), tt) /\
    run_inv (if decide (key ∈ keys) then with_op key d g else g) st (mkRun h' (datastore r)).
Proof.
  intros [Hi Hst Hf Hd Hw]. destruct (vsa_update_ok _ _ e key d Hi) as (h' & Hu & Hi' & Hf' & Ht').
  exists h'. split; [by apply on_prod_Some|]. split; cbn; [done|done|congruence|done|by rewrite Ht'].
Qed.

Definition not_update (e : HarnessEvent) : Prop := match e with HUpdate _ _ _ _ => False | _ => True end.
Lemma background_run_ok g e st r : run_inv g st r -> event_ok e -> not_update e ->
  exists r' st', harness_event st e r = Some (r', st') /\ run_inv g st' r'.
Proof.
  intros Hr He Hn. destruct e as [env now key d|now order|ns|order]; cbn [harness_event event_ok] in *; [done|..].
  - eexists _, _. split; [reflexivity|]. destruct Hr as [Hi Hst Hf Hd Hw]. destruct st; split; try done. split; [done|constructor].
  - by apply loop_step_ok.
  - destruct (sum_abs_ok _ _ order 0 (ri_inv _ _ _ Hr) He) as [x Hx].
    erewrite bind_Some; [|apply on_prod_Some; unfold sample; by erewrite bind_Some by exact Hx].
    eexists _, _. split; [reflexivity|].
    destruct Hr as [Hi Hst Hf Hd Hw]. split; try done. cbn. by eapply inv_ext; [|exact Hi].
Qed.

Lemma harness_event_ok es e st r : run_inv (given es) st r -> event_ok e ->
  exists r' st', harness_event st e r = Some (r', st') /\ run_inv (given (es ++ [e])) st' r'.
Proof.
  intros Hr He. destruct e as [env now key d|now order|ns|order].
  2-4: destruct (background_run_ok _ _ _ _ Hr He I) as (r' & st' & Hs & Hr'); exists r', st'; split; [done|];
    apply (run_inv_same (given es)); [intros k; rewrite given_snoc; cbn; lia|done].
  cbn [harness_event]. destruct (update_run_ok _ _ _ (env, now) key d Hr) as (h' & Hu & Hr').
  erewrite bind_Some by done. eexists _, _. split; [reflexivity|]. eapply run_inv_same; [|exact Hr'].
  intros k. rewrite given_snoc. cbn [op_on]. unfold with_op. repeat case_decide; subst; try done; lia.
Qed.

(** *** The start *)
Lemma lookup_keys {V} (v : V) ks k :
  (list_to_map ((fun k => (k, v)) <$> ks) : gmap string V) !! k = if decide (k ∈ ks) then Some v else None.
Proof.
  induction ks as [|k0 ks IH].
  - rewrite decide_False by apply not_elem_of_nil. apply (lookup_empty (M := gmap string)).
  - rewrite fmap_cons, list_to_map_cons. destruct (decide (k = k0)) as [->|Hne].
    + rewrite lookup_insert_eq, decide_True; [done|]. constructor.
    + rewrite lookup_insert_ne, IH by done. repeat case_decide; set_solver.
Qed.

Lemma new_acc gomaxprocs s0 : in64 s0 ->
  wf (conf (New gomaxprocs s0)) (mem (New gomaxprocs s0)) /\ ops_sum (New gomaxprocs s0) ≡ₘ 0.
Proof.
  intros Hs. destruct (NewWithOptions_wf gomaxprocs s0 zero_options Hs) as (Hwf & Hn & _).
  split; [done|]. pose proof (net_sum (mem (New gomaxprocs s0))) as Hsum.
  change (net (mem (New gomaxprocs s0)) = 0) in Hn. rewrite Hn in Hsum.
  change (committedOffset (mem (New gomaxprocs s0))) with 0 in Hsum. unfold ops_sum. rewrite Hsum. eqm_lia.
Qed.

Definition harness_start (gomaxprocs s0 t age low now : Z) : Run vsaHarness :=
  mkRun (newVSAHarness gomaxprocs keys s0 t age low now) newPersister.

Lemma start_inv gomaxprocs s0 t age low now : in64 s0 ->
  run_inv (given []) LWaiting (harness_start gomaxprocs s0 t age low now).
Proof.
  intros Hs. split; try done. split; cbn.
  - intros k. rewrite lookup_keys. case_decide; [by split; eauto|]. split; [by intros []|done].
  - intros k v. rewrite lookup_keys. case_decide; [|done]. intros [= <-]. by apply new_acc.
Qed.

Lemma harness_run_ok es gomaxprocs s0 t age low now : in64 s0 -> Forall event_ok es ->
  exists r st, harness_run es (harness_start gomaxprocs s0 t age low now) = Some (r, st) /\ run_inv (given es) st r.
Proof.
  intros Hs Hes. unfold harness_run.
  apply (triple_foldM harness_event (fun seen r st => run_inv (given seen) st r) es LWaiting); [|by apply start_inv].
  intros seen e rest st -> r Hr. apply Forall_app in Hes as [_ Hes]. inversion_clear Hes. by apply harness_event_ok.
Qed.

(** *** The flush *)
Definition unsaved (h : vsaHarness) (k : string) : Z := if decide (pending_of h k = 0) then 0 else 1.

Lemma flush_key_ok g r total key : harness_inv keys g (prod r) -> key ∈ keys ->
  exists r', flush_key total key r = Some (r', total +! Helpers.abs (pending_of (prod r) key)) /\
    harness_inv keys g (prod r') /\ pending_of (prod r') key = 0 /\
    (forall k, k <> key -> accs (prod r') !! k = accs (prod r) !! k) /\ totalCommits (prod r') = totalCommits (prod r) /\
    logicalWrites (datastore r') ≡ₘ logicalWrites (datastore r) + unsaved (prod r) key /\
    (dbCalls (datastore r) = logicalWrites (datastore r) -> dbCalls (datastore r') = logicalWrites (datastore r')).
Proof.
  intros Hi Hk. unfold flush_key, unsaved. erewrite bind_Some by by apply on_prod_Some, (vector_of_inv g).
  set (p := pending_of (prod r) key) in *. replace (mkRun (prod r) (datastore r)) with r by by destruct r.
  pose proof (pending_in _ (prod r) key Hi) as Hp. fold p in Hp.
  destruct (Z.eqb_spec p 0) as [Hz|Hz]; cbn [negb when].
  - exists r. rewrite decide_True by done. split_and!; try done. by rewrite Z.add_0_r.
  - rewrite decide_False by done.
    destruct (on_commit g (prod r) key p Hi Hk Hp) as (h' & He & Hi' & Hp' & Ho & _ & _ & Ht).
    unfold mbind, SM_bind. cbn -[on_acc Z.add]. unfold on_prod, zoom. cbn -[on_acc Z.add]. rewrite He.
    eexists. split; [reflexivity|]. cbn [prod datastore]. split_and!; [done| |done|done| |].
    + rewrite Hp'. fold p. rewrite (proj2 (Z.eqb_neq p 0)) by done. cbn [orb]. rewrite commit_delta_self by done. unwrap. lia.
    + cbn -[Z.add]. apply add64_eqm.
    + intros Heq. cbn. by rewrite Heq.
Qed.

Lemma final_flush_run g order r total : harness_inv keys g (prod r) -> Forall (.∈ keys) order -> NoDup order ->
  exists r' total', foldM flush_key total order r = Some (r', total') /\
    harness_inv keys g (prod r') /\ (forall k, k ∈ order -> pending_of (prod r') k = 0) /\
    (forall k, k ∉ order -> accs (prod r') !! k = accs (prod r) !! k) /\
    total' ≡ₘ total + Zsum ((fun k => Z.abs (pending_of (prod r) k)) <$> order) /\
    totalCommits (prod r') = totalCommits (prod r) /\
    logicalWrites (datastore r') ≡ₘ logicalWrites (datastore r) + Zsum (unsaved (prod r) <$> order) /\
    (dbCalls (datastore r) = logicalWrites (datastore r) -> dbCalls (datastore r') = logicalWrites (datastore r')).
Proof.
  intros Hi Ho Hnd. revert r total Hi. induction Ho as [|key order Hk Ho IH]; intros r total Hi; cbn [foldM].
  { exists r, total. split_and!; try done; [set_solver|..]; cbn; by rewrite Z.add_0_r. }
  apply list.NoDup_cons in Hnd as [Hin Hnd].
  destruct (flush_key_ok g r total key Hi Hk) as (r1 & He & Hi1 & Hp1 & Ho1 & Ht1 & Hl1 & Hd1).
  erewrite bind_Some by done.
  destruct (IH Hnd r1 (total +! Helpers.abs (pending_of (prod r) key)) Hi1) as (r2 & t2 & He2 & Hi2 & Hp2 & Ho2 & Hs2 & Ht2 & Hl2 & Hd2).
  assert (Hsame : forall k, k ∈ order -> pending_of (prod r1) k = pending_of (prod r) k).
  { intros k Hko. unfold pending_of. rewrite Ho1; [done|]. by intros ->. }
  exists r2, t2. split_and!; [done|done|..].
  - intros k [->|Hko]%elem_of_cons; [|by apply Hp2]. unfold pending_of in *. by rewrite Ho2.
  - intros k Hko. rewrite Ho2, Ho1; [done|set_solver..].
  - rewrite Hs2, add64_eqm. cbn [fmap list_fmap]. rewrite Zsum_cons.
    rewrite (list_fmap_ext _ (fun k => Z.abs (pending_of (prod r) k)) order) by (intros i k Hko; by rewrite Hsame by by eapply list_elem_of_lookup_2).
    assert (Helpers.abs (pending_of (prod r) key) ≡ₘ Z.abs (pending_of (prod r) key)) as ->; [|eqm_lia].
    destruct (decide (pending_of (prod r) key = MinInt64)) as [->|Hne]; [rewrite abs_MinInt64; by exists (-1)|].
    rewrite abs_eq; [done|by eapply pending_in|done].
  - congruence.
  - rewrite Hl2, Hl1. cbn [fmap list_fmap]. rewrite Zsum_cons.
    rewrite (list_fmap_ext _ (unsaved (prod r)) order); [eqm_lia|].
    intros i k Hko. unfold unsaved. by rewrite Hsame by by eapply list_elem_of_lookup_2.
  - auto.
Qed.
Lemma final_flush_ok g order r : run_inv g LWaiting r -> NoDup order -> (forall k, k ∈ order <-> k ∈ keys) ->
  exists r', final_flush order r = Some (r', tt) /\
    (forall k, k ∈ keys -> exists v, accs (prod r') !! k = Some v /\ net (mem v) = 0 /\ committedOffset (mem v) ≡ₘ g k) /\
    logicalWrites (datastore r') ≡ₘ totalCommits (prod r') + Zsum (unsaved (prod r) <$> order) /\
    finalAbsVec (prod r') ≡ₘ Zsum ((fun k => Z.abs (pending_of (prod r) k)) <$> order).
Proof.
  intros [Hi _ Hf Hd Hw] Hnd Hord.
  destruct (final_flush_run g order r 0 Hi) as (r' & x & He' & Hi' & Hp & _ & Hx & Ht & Hl & _);
    [apply list.Forall_forall; intros; by apply Hord|done|].
  unfold final_flush. erewrite bind_Some by done. unfold on_prod, zoom, modify. eexists. split; [reflexivity|].
  cbn [prod datastore accs set_final finalAbsVec totalCommits]. split_and!.
  - intros k Hk. destruct (inv_acc _ _ _ Hi' Hk) as (v & Hv & Hwf & Hsum). exists v. split; [done|].
    specialize (Hp k (proj2 (Hord k) Hk)). unfold pending_of in Hp. rewrite Hv in Hp. split; [done|].
    pose proof (net_sum (mem v)) as Hn. rewrite Hp in Hn. fold (ops_sum v) in Hn. rewrite <- Hsum.
    destruct Hn as [q Hq]. exists q. lia.
  - rewrite Hl, Hw, Ht. cbn [in_progress]. eqm_lia.
  - rewrite Hx. eqm_lia.
Qed.
End harness.

(** C29: stopping the VSA producer commits everything.  Whatever updates and samples come
    between the steps of the commit loop, no call panics, and at every moment there were
    as many calls as logical writes, one for each commit; the figure printed as the
    final vector is zero, for it is set by [stopBG], which [main] defers past the
    printing.  When the loop waits, the final flush leaves no key a vector: what was
    committed for it is the sum of its operations (modulo [2^64]), with one more write
    for each key that had something pending, and only then is the final vector set. *)
Theorem stop_commits_everything gomaxprocs keys s0 t age low now es order :
  in64 s0 -> Forall (event_ok keys) es -> NoDup order -> (forall k, k ∈ order <-> k ∈ keys) ->
  exists r st, harness_run es (harness_start keys gomaxprocs s0 t age low now) = Some (r, st) /\
    (printed_vectors (prod r)).2 = 0 /\ dbCalls (datastore r) = logicalWrites (datastore r) /\
    logicalWrites (datastore r) ≡ₘ totalCommits (prod r) + in_progress st /\
    (st = LWaiting -> exists r', final_flush order r = Some (r', tt) /\
      (forall k, k ∈ keys -> exists v, accs (prod r') !! k = Some v /\ net (mem v) = 0 /\
        committedOffset (mem v) ≡ₘ given keys es k) /\
      logicalWrites (datastore r') ≡ₘ totalCommits (prod r') + Zsum (unsaved (prod r) <$> order) /\
      finalAbsVec (prod r') ≡ₘ Zsum ((fun k => Z.abs (pending_of (prod r) k)) <$> order)).
Proof.
  intros Hs Hes Hnd Hord.
  destruct (harness_run_ok keys es gomaxprocs s0 t age low now Hs Hes) as (r & st & He & Hr).
  exists r, st. split_and!; [done|apply Hr..|]. intros ->. by apply final_flush_ok.
Qed.

(** ** A busy key is committed once

    A commit disarms its key; the loop arms it again when it sees its vector at or
    below the low mark, and the flush by age leaves out a key above the threshold. *)
Record starved (key : string) (t low off p : Z) (h : vsaHarness) : Prop := {
  sv_config : threshold h = t /\ lowThreshold h = low;
  sv_arm : hysteresisArm h !! key = Some false;
  sv_acc : exists v, accs h !! key = Some v /\ committedOffset (mem v) = off /\ net (mem v) = p
}.

(** A step that leaves the key alone. *)
Definition leaves (key : string) (h h' : vsaHarness) : Prop :=
  threshold h' = threshold h /\ lowThreshold h' = lowThreshold h /\
  hysteresisArm h' !! key = hysteresisArm h !! key /\ accs h' !! key = accs h !! key.

Lemma starved_leaves key t low off p h h' : leaves key h h' -> starved key t low off p h -> starved key t low off p h'.
Proof. intros (H1 & H2 & H3 & H4) [[Ht Hl] Ha Hv]. split; [split; congruence|congruence|by rewrite H4]. Qed.

Definition no_commit_of (key : string) (st : LoopStage) : Prop :=
  match st with
  | LWaiting => True
  | LScanning _ _ commits | LCommitting _ commits => key ∉ commits.*1
  end.

Section starving.
Context (keys : list string) (key : string) (t low off : Z).

Lemma starved_visit g now commits k h p : harness_inv keys g h -> k ∈ keys -> starved key t low off p h ->
  0 <= p < H64 -> t <= p -> low < p -> key ∉ commits.*1 ->
  exists h' commits', check_visit now commits k h = Some (h', commits') /\ leaves key h h' /\ key ∉ commits'.*1.
Proof.
  intros Hi Hk [[Ht Hl] Ha (v & Hv & _ & Hn)] Hp Htp Hlp Hc. rewrite (check_visit_eq keys g) by done.
  eexists _, _. split; [reflexivity|]. destruct (decide (k = key)) as [->|Hne].
  - assert (Habs : Helpers.abs (pending_of h key) = p).
    { unfold pending_of. rewrite Hv, Hn. unfold Helpers.abs. by rewrite (proj2 (Z.ltb_ge p 0)) by lia. }
    unfold visit_arms, visit_takes. rewrite Habs, Ha, Ht, Hl, (proj2 (Z.geb_le p t)), (proj2 (Z.leb_gt p low)) by done.
    cbn. by split.
  - split; [destruct (visit_arms h k); [|done]; split_and!; try done; cbn; by rewrite lookup_insert_ne by done|].
    destruct (visit_takes now h k); [|done]. rewrite fmap_app, elem_of_app. cbn. set_solver.
Qed.

Lemma starved_commit g k vec h : harness_inv keys g h -> k ∈ keys -> in64 vec -> k <> key ->
  exists h', commit_one k vec h = Some (h', tt) /\ leaves key h h'.
Proof.
  intros Hi Hk Hvec Hne. destruct (inv_acc _ _ _ _ Hi Hk) as (v & Hv & Hwf & _).
  destruct (commit_ok v Hwf vec Hvec) as (m & He & _). unfold commit_one.
  erewrite bind_Some by apply (on_acc_Some h k v Hv (fun c => Commit c vec) m tt He). eexists. split; [reflexivity|].
  cbn [hysteresisArm set_accs]. destruct (hysteresisArm h !! k); split_and!; cbn; by rewrite ?lookup_insert_ne by done.
Qed.

Lemma starved_loop g ns st r p : run_inv keys g st r -> starved key t low off p (prod r) -> 0 <= p < H64 -> t <= p -> low < p ->
  no_commit_of key st ->
  exists r' st', loop_step ns st r = Some (r', st') /\ leaves key (prod r) (prod r') /\ no_commit_of key st'.
Proof.
  intros Hr Hst Hp Htp Hlp Hno. pose proof (ri_inv _ _ _ _ Hr) as Hi. pose proof (ri_stage _ _ _ _ Hr) as Hok.
  destruct st as [|now [|k ks] commits|n [|[k vec] commits]]; cbn [loop_step stage_ok no_commit_of] in *.
  - by eexists _, _.
  - destruct commits as [|c commits]; [by eexists _, _|]. set (cs := c :: commits) in *.
    unfold on_prod, zoom, modify, mbind, SM_bind. cbn -[for_each].
    edestruct (writes_ok cs) as (q & He & _). rewrite He. by eexists _, _.
  - destruct Hok as [Hks _]. inversion_clear Hks as [|?? Hk _].
    destruct (starved_visit g now commits k (prod r) p) as (h' & cs & He & Hl & Hc); [done..|].
    erewrite bind_Some by by apply on_prod_Some. by eexists _, _.
  - by eexists _, _.
  - inversion_clear Hok as [|?? [Hk Hv] _]. cbn in Hk, Hv. apply not_elem_of_cons in Hno as [Hne Hno].
    destruct (starved_commit g k vec (prod r)) as (h' & He & Hl); [done..|by intros ->|].
    erewrite bind_Some by by apply on_prod_Some. by eexists _, _.
Qed.

Lemma starved_update e now k d h g p : harness_inv keys g h -> starved key t low off p h ->
  0 <= p < H64 -> (k = key -> 0 <= d /\ p + d < H64) ->
  exists h', vsa_update (e, now) k d h = Some (h', tt) /\ starved key t low off (if decide (k = key) then p + d else p) h'.
Proof.
  intros Hi Hst Hp Hd. unfold vsa_update, gets, mbind, SM_bind. cbn [fst snd]. destruct (accs h !! k) as [v|] eqn:Hv.
  - assert (Hk : k ∈ keys) by (apply (hi_keys _ _ _ Hi); by eexists).
    pose proof (proj1 (hi_accs _ _ _ Hi _ _ Hv)) as Hwf.
    destruct (update_ok v Hwf e d) as (m & He & Hm & _ & Hn & Hoff).
    rewrite (on_acc_Some h k v Hv (fun c => Update c e d) m tt He). eexists. split; [reflexivity|].
    destruct (decide (k = key)) as [->|Hne].
    + destruct Hst as [Hc Ha (v' & Hv' & Ho & Hn')]. assert (v' = v) as -> by congruence.
      split; [done|done|]. eexists. cbn. rewrite lookup_insert_eq. split; [done|]. cbn. rewrite Hoff, Hn, Hn'.
      split; [done|]. specialize (Hd eq_refl). unwrap. lia.
    + eapply starved_leaves; [|done]. split_and!; [done..|]. cbn. by rewrite lookup_insert_ne by done.
  - exists h. split; [done|]. case_decide as Hk; [|done]. subst. destruct Hst as [_ _ (v & Hv' & _)]. congruence.
Qed.
Definition only_adds (e : HarnessEvent) : Prop := match e with HUpdate _ _ k d => k = key -> 0 <= d | _ => True end.

Lemma starved_event es e st r p : run_inv keys (given keys es) st r -> event_ok keys e -> key ∈ keys -> only_adds e ->
  starved key t low off p (prod r) -> no_commit_of key st ->
  0 <= p -> p + op_on keys key e < H64 -> t <= p -> low < p ->
  exists r' st', harness_event st e r = Some (r', st') /\ starved key t low off (p + op_on keys key e) (prod r') /\
    no_commit_of key st'.
Proof.
  intros Hr He Hkey Hadd Hst Hno Hp Hb Htp Hlp. pose proof (ri_inv _ _ _ _ Hr) as Hi.
  destruct e as [env now k d|now order|ns|order]; cbn [harness_event event_ok only_adds op_on] in *.
  - destruct (starved_update env now k d (prod r) (given keys es) p) as (h' & Hu & Hs'); [done|done| |..].
    + repeat case_decide; try done; [specialize (Hadd ltac:(done)); lia|lia].
    + intros ->. rewrite !decide_True in Hb by done. by split; [apply Hadd|].
    + erewrite bind_Some by by apply on_prod_Some. eexists _, _. split; [reflexivity|]. split; [|done].
      repeat case_decide; subst; try done. by rewrite Z.add_0_r.
  - rewrite Z.add_0_r. eexists _, _. split; [reflexivity|]. split; [done|]. destruct st; [|done..]. cbn. apply not_elem_of_nil.
  - rewrite Z.add_0_r. destruct (starved_loop _ ns st r p Hr Hst) as (r' & st' & Hs & Hl & Hno'); [lia|done..|].
    exists r', st'. split; [done|]. split; [|done]. by eapply starved_leaves.
  - rewrite Z.add_0_r. destruct (sum_abs_ok _ _ _ order 0 Hi He) as [x Hx].
    erewrite bind_Some; [|apply on_prod_Some; unfold sample; by erewrite bind_Some by exact Hx].
    eexists _, _. split; [reflexivity|]. split; [|done]. cbn. by eapply starved_leaves; [|exact Hst].
Qed.

Lemma op_on_nonneg e : only_adds e -> 0 <= op_on keys key e.
Proof. destruct e; cbn; repeat case_decide; auto with lia. Qed.

Lemma given_nonneg es : Forall only_adds es -> 0 <= given keys es key.
Proof. intros H. apply Zsum_nonneg, Forall_fmap. eapply list.Forall_impl; [exact H|]. intros e. apply op_on_nonneg. Qed.

Lemma starved_run es : key ∈ keys -> Forall (event_ok keys) es -> Forall only_adds es ->
  forall seen r st p, run_inv keys (given keys seen) st r -> starved key t low off p (prod r) -> no_commit_of key st ->
  0 <= p -> t <= p -> low < p -> p + given keys es key < H64 ->
  exists r2 st2, foldM harness_event st es r = Some (r2, st2) /\ no_commit_of key st2 /\
    starved key t low off (p + given keys es key) (prod r2).
Proof.
  intros Hkey. induction es as [|e es IH]; intros Hok Hadd seen r st p Hr Hst Hno Hp Ht Hl Hb; cbn [foldM].
  - exists r, st. unfold given. cbn. rewrite Zsum_nil, Z.add_0_r. by split_and!.
  - inversion_clear Hok as [|?? He Hes]. inversion_clear Hadd as [|?? Ha Has].
    change (given keys (e :: es) key) with (op_on keys key e + given keys es key) in *.
    pose proof (op_on_nonneg e Ha). pose proof (given_nonneg es Has).
    destruct (starved_event seen e st r p) as (r' & st' & Hs & Hst' & Hno'); [done..|lia|done|done|].
    erewrite bind_Some by done. destruct (harness_event_ok keys seen e st r Hr He) as (r2 & st2 & Hs2 & Hr2).
    rewrite Hs in Hs2. injection Hs2 as <- <-. rewrite Z.add_assoc. apply (IH Hes Has (seen ++ [e])); try done; lia.
Qed.
End starving.

(** C40: a key that stays busy is not committed again.  When the loop waits, let the
    key be disarmed and its vector at or above the threshold and above the low mark:
    then, as long as operations only add to it (and the sum stays in [int64]), no step
    of the loop takes it before the stop, whatever its age and [commit_max_age], so what
    was committed for it stays the same while its vector grows by every operation.  (The
    worker of the service persists such a key by age; here the comment says the flush by
    age is independent of arming.) *)
Theorem busy_key_is_committed_once gomaxprocs keys s0 t age low now es1 es2 key r1 v1 :
  in64 s0 -> Forall (event_ok keys) (es1 ++ es2) -> key ∈ keys -> Forall (only_adds key) es2 ->
  harness_run es1 (harness_start keys gomaxprocs s0 t age low now) = Some (r1, LWaiting) ->
  accs (prod r1) !! key = Some v1 -> hysteresisArm (prod r1) !! key = Some false ->
  0 <= net (mem v1) -> threshold (prod r1) <= net (mem v1) -> lowThreshold (prod r1) < net (mem v1) ->
  net (mem v1) + given keys es2 key < H64 ->
  exists r2 st2 v2, harness_run (es1 ++ es2) (harness_start keys gomaxprocs s0 t age low now) = Some (r2, st2) /\
    no_commit_of key st2 /\ hysteresisArm (prod r2) !! key = Some false /\
    accs (prod r2) !! key = Some v2 /\ committedOffset (mem v2) = committedOffset (mem v1) /\
    net (mem v2) = net (mem v1) + given keys es2 key.
Proof.
  intros Hs Hok Hkey Hadd He1 Hv1 Ha1 Hp Ht Hl Hb.
  pose proof Hok as Hall. apply Forall_app in Hall as [Hok1 Hok2].
  destruct (harness_run_ok keys es1 gomaxprocs s0 t age low now Hs Hok1) as (r & st & He & Hr).
  rewrite He1 in He. injection He as <- <-. set (off := committedOffset (mem v1)).
  destruct (starved_run keys key (threshold (prod r1)) (lowThreshold (prod r1)) off es2 Hkey Hok2 Hadd es1 r1 LWaiting (net (mem v1)))
    as (r2 & st2 & He2 & Hno & [_ Harm (v2 & Hv2 & Ho2 & Hn2)]); try done.
  { split; [done|done|]. by exists v1. }
  exists r2, st2, v2. split_and!; try done. unfold harness_run in *. rewrite foldM_app. by erewrite bind_Some by done.
Qed.

(** ** Examples *)
Definition demo_env : ChooserEnv := mkChooserEnv None 0 0 0.
Definition demo_adds (n : nat) (key : string) : list HarnessEvent := replicate n (HUpdate demo_env 1 key 1).
Definition demo_tick (order : list string) : list HarnessEvent := HTick 100 order :: replicate 6 (HLoop 100).
(** Threshold 4, low mark 2, 10 ns of age. *)
Definition demo_harness : Run vsaHarness := harness_start ["a"; "b"] 8 1000 4 10 0 0.
Definition demo_before : list HarnessEvent :=
  demo_adds 5 "a" ++ [HUpdate demo_env 2 "b" (-3)] ++ demo_tick ["a"; "b"] ++ demo_adds 4 "a".
Definition demo_after : list HarnessEvent := demo_tick ["b"; "a"] ++ demo_adds 7 "a" ++ [HSample ["a"; "b"]] ++ demo_tick ["a"; "b"].

#[export] Instance event_ok_dec keys e : Decision (event_ok keys e).
Proof. destruct e; cbn; apply _. Defined.
#[export] Instance only_adds_dec key e : Decision (only_adds key e).
Proof. destruct e; cbn; apply _. Defined.
#[export] Instance stage_eq_dec : EqDecision LoopStage.
Proof. solve_decision. Defined.

Lemma stop_commits_everything_witness :
  exists r st, harness_run (demo_before ++ demo_after) demo_harness = Some (r, st) /\
    (printed_vectors (prod r)).2 = 0 /\
    exists r', final_flush ["b"; "a"] r = Some (r', tt) /\
      (forall k, k ∈ ["a"; "b"] -> exists v, accs (prod r') !! k = Some v /\ net (mem v) = 0 /\
        committedOffset (mem v) ≡ₘ given ["a"; "b"] (demo_before ++ demo_after) k).
Proof.
  destruct (stop_commits_everything 8 ["a"; "b"] 1000 4 10 0 0 (demo_before ++ demo_after) ["b"; "a"])
    as (r & st & He & Hp & _ & _ & Hstop).
  - by apply (bool_decide_unpack _).
  - apply (bool_decide_unpack _). vm_compute. exact I.
  - apply (bool_decide_unpack _). vm_compute. exact I.
  - intros k. rewrite !elem_of_cons. tauto.
  - exists r, st. split; [exact He|]. split; [exact Hp|].
    assert (Hst : option_map snd (harness_run (demo_before ++ demo_after) demo_harness) = Some LWaiting)
      by (vm_compute; reflexivity).
    change (harness_start ["a"; "b"] 8 1000 4 10 0 0) with demo_harness in He. rewrite He in Hst. injection Hst as Hst.
    destruct (Hstop Hst) as (r' & Hf & Hk & _). exists r'. split; [exact Hf|exact Hk].
Defined.

(** What the demo leaves: [a] is disarmed with its vector at 4 when the second tick
    comes, and at 11 after the third; five units of it were committed. *)
Example demo_before_state : option_map (fun rs => (rs.2, hysteresisArm (prod rs.1) !! "a", pending_of (prod rs.1) "a",
    committedOffset <$> (mem <$> accs (prod rs.1) !! "a"))) (harness_run demo_before demo_harness) =
  Some (LWaiting, Some false, 4, Some 5).
Proof. vm_compute. reflexivity. Qed.

Lemma busy_key_is_committed_once_witness :
  exists r2 st2 v2, harness_run (demo_before ++ demo_after) demo_harness = Some (r2, st2) /\
    no_commit_of "a" st2 /\ hysteresisArm (prod r2) !! "a" = Some false /\
    accs (prod r2) !! "a" = Some v2 /\ committedOffset (mem v2) = 5 /\ net (mem v2) = 11.
Proof.
  destruct (harness_run demo_before demo_harness) as [[r1 st1]|] eqn:He1; [|vm_compute in He1; discriminate He1].
  assert (Hst : st1 = LWaiting) by (vm_compute in He1; congruence). subst st1.
  destruct (accs (prod r1) !! "a") as [v1|] eqn:Hv1; [|vm_compute in He1; injection He1 as <-; vm_compute in Hv1; discriminate Hv1].
  assert (Hnet : net (mem v1) = 4 /\ committedOffset (mem v1) = 5 /\ hysteresisArm (prod r1) !! "a" = Some false /\
    threshold (prod r1) = 4 /\ lowThreshold (prod r1) = 2).
  { vm_compute in He1. injection He1 as <-. vm_compute in Hv1. injection Hv1 as <-. vm_compute. by split_and!. }
  destruct Hnet as (Hn & Ho & Ha & Ht & Hl).
  destruct (busy_key_is_committed_once 8 ["a"; "b"] 1000 4 10 0 0 demo_before demo_after "a" r1 v1)
    as (r2 & st2 & v2 & He2 & Hno & Ha2 & Hv2 & Ho2 & Hn2); try assumption; try (rewrite ?Hn, ?Ht, ?Hl; lia).
  - by apply (bool_decide_unpack _).
  - apply (bool_decide_unpack _). vm_compute. exact I.
  - apply list_elem_of_here.
  - apply (bool_decide_unpack _). vm_compute. exact I.
  - rewrite Hn. vm_compute. reflexivity.
  - exists r2, st2, v2. rewrite Ho in Ho2. rewrite Hn in Hn2. split_and!; try assumption.
Defined.
