(* ===== verification/HarnessSpec.v ===== *)
(** * The harness: what the baselines write, and its figures

    The batching producer writes every operation once, in every interleaving of its
    goroutines; the PN-counter's value is the sum of its operations; and the figures
    are those of the latencies. *)
From Stdlib Require Import Floats.SpecFloat Ascii.
From stdpp Require Import sorting pretty.
From S2P Require Import Prelude Effects Harness.

(** ** Batching *)
Definition updates (es : list BatchEvent) : Z := Zsum ((fun e => match e with BUpdate => 1 | _ => 0 end) <$> es).
Definition ticks (es : list BatchEvent) : Z := Zsum ((fun e => match e with BTick => 1 | _ => 0 end) <$> es).

Lemma updates_snoc es e : updates (es ++ [e]) = updates es + match e with BUpdate => 1 | _ => 0 end.
Proof. unfold updates. rewrite fmap_app, Zsum_app. cbn. rewrite Zsum_cons, Zsum_nil. lia. Qed.
Lemma ticks_snoc es e : ticks (es ++ [e]) = ticks es + match e with BTick => 1 | _ => 0 end.
Proof. unfold ticks. rewrite fmap_app, Zsum_app. cbn. rewrite Zsum_cons, Zsum_nil. lia. Qed.
Lemma updates_nonneg es : 0 <= updates es.
Proof. apply Zsum_nonneg, Forall_fmap, list.Forall_forall. by intros []. Qed.
Lemma ticks_nonneg es : 0 <= ticks es.
Proof. apply Zsum_nonneg, Forall_fmap, list.Forall_forall. by intros []. Qed.

(** A batch size below one writes every operation at once, as one. *)
Definition size_of (size : Z) : Z := Z.max 1 size.

(** [n] calls were made or are about to be, [t] of them at most for a tick. *)
Record batching_inv (size u t : Z) (s : Batching) : Prop := {
  bi_size : batchSize (prod (b_run s)) = size;
  bi_buf : 0 <= buf (prod (b_run s)) < size_of size;
  bi_writing : Forall (fun n => 0 < n) (writing s);
  bi_all : logicalWrites (datastore (b_run s)) + buf (prod (b_run s)) + Zsum (writing s) = u;
  bi_logical : 0 <= logicalWrites (datastore (b_run s));
  bi_calls : 0 <= dbCalls (datastore (b_run s)) <= logicalWrites (datastore (b_run s));
  bi_cost : size_of size * (dbCalls (datastore (b_run s)) + Z.of_nat (length (writing s)) - t) + buf (prod (b_run s)) <= u
}.

Lemma batch_event_ok size u t s e : batching_inv size u t s ->
  u + match e with BUpdate => 1 | _ => 0 end < H64 ->
  batching_inv size (u + match e with BUpdate => 1 | _ => 0 end) (t + match e with BTick => 1 | _ => 0 end) (batch_event s e).
Proof.
  intros [Hsz Hb Hw Ha Hl Hd Hc] Hu. unfold size_of in *.
  assert (Hws : 0 <= Zsum (writing s)) by (apply Zsum_nonneg; eapply list.Forall_impl; [exact Hw|]; cbn; lia).
  destruct s as [[[sz b] [lw db]] ws]. cbn in *. destruct e as [| |i]; cbn [batch_event].
  - unfold take_batch, update_locked. cbn [prod b_run datastore buf batchSize writing]. replace (b +! 1) with (b + 1) by (unwrap; lia). rewrite Z.geb_leb. subst sz.
    destruct (Z.leb_spec size (b + 1)); split; cbn [prod b_run datastore buf batchSize writing logicalWrites dbCalls]; unfold size_of; try done; try lia.
    + apply Forall_app. split; [done|]. repeat constructor. lia.
    + rewrite Zsum_app, Zsum_cons, Zsum_nil. lia.
    + rewrite length_app. cbn. nia.
    + by rewrite app_nil_r.
    + rewrite app_nil_r. lia.
    + rewrite app_nil_r. lia.
  - unfold take_batch, take_locked. cbn [prod b_run datastore buf batchSize writing]. rewrite Z.gtb_ltb.
    split; cbn [prod b_run datastore buf batchSize writing logicalWrites dbCalls]; unfold size_of; try done; try lia; destruct (Z.ltb_spec 0 b).
    + apply Forall_app. split; [done|]. by repeat constructor.
    + by rewrite app_nil_r.
    + rewrite Zsum_app, Zsum_cons, Zsum_nil. lia.
    + rewrite app_nil_r. lia.
    + rewrite length_app. cbn. nia.
    + rewrite app_nil_r. nia.
  - cbn [writing]. destruct (ws !! i) as [n|] eqn:Hi; cbn [writing b_run prod datastore].
    2: { rewrite !Z.add_0_r. by split. }
    pose proof (delete_Permutation ws i n Hi) as Hperm. rewrite Hperm in Hw. inversion_clear Hw as [|?? Hn Hw'].
    pose proof (Zsum_perm _ _ Hperm) as Hsum. rewrite Zsum_cons in Hsum.
    pose proof (Permutation_length Hperm) as Hlen. cbn [length] in Hlen.
    assert (0 <= Zsum (delete i ws)) by (apply Zsum_nonneg; eapply list.Forall_impl; [exact Hw'|]; cbn; lia).
    unfold p_write. cbn [logicalWrites dbCalls]. rewrite Z.gtb_ltb, (proj2 (Z.ltb_lt 0 n)) by done.
    split; cbn [prod b_run datastore buf batchSize writing logicalWrites dbCalls]; unfold size_of; try done; unwrap; try lia.
Qed.

Lemma batch_events_ok size es : updates es < H64 -> batching_inv size (updates es) (ticks es) (batch_events size es).
Proof.
  unfold batch_events. induction es as [|e es IH] using rev_ind; intros Hu.
  - change (updates []) with 0. change (ticks []) with 0. split; cbn; rewrite ?Zsum_nil; unfold size_of; try done; lia.
  - rewrite updates_snoc in Hu. rewrite foldl_snoc, updates_snoc, ticks_snoc. apply batch_event_ok; [apply IH|].
    + destruct e; lia.
    + destruct e; lia.
Qed.

(** Batching loses no operation and saves calls.  Let updates, ticks and the writes
    they leave after the mutex come in any order ([int] not overflowing).  The writes
    made, the writes taken and the buffer always add up to the operations; the buffer
    stays below the batch size; and there is at most one call per full batch and one
    per tick.  When the writes are done and [stopBG] has returned, every operation has
    been written exactly once, by one more call if the buffer was not empty. *)
Theorem batching_writes_each_once size es :
  updates es < H64 ->
  let s := batch_events size es in
  logicalWrites (datastore (b_run s)) + Zsum (writing s) + buf (prod (b_run s)) = updates es /\
  0 <= buf (prod (b_run s)) < size_of size /\
  size_of size * (dbCalls (datastore (b_run s)) + Z.of_nat (length (writing s)) - ticks es) <= updates es /\
  (writing s = [] -> exists r, (stopBG (Producer := batcher_producer)) (b_run s) = Some (r, tt) /\
    logicalWrites (datastore r) = updates es /\ buf (prod r) = 0 /\
    dbCalls (datastore r) = dbCalls (datastore (b_run s)) + (if 0 <? buf (prod (b_run s)) then 1 else 0)).
Proof.
  intros Hu s. destruct (batch_events_ok size es Hu) as [Hsz Hb Hw Ha Hl Hd Hc]. fold s in Hsz, Hb, Hw, Ha, Hl, Hd, Hc.
  split_and!; try lia. intros Hws. rewrite Hws, Zsum_nil in Ha. destruct (b_run s) as [[sz b] [lw db]]. cbn in *.
  unfold then_write, on_prod, zoom, take_locked, mbind, SM_bind. cbn. rewrite Z.gtb_ltb. destruct (Z.ltb_spec 0 b).
  - eexists. split; [reflexivity|]. cbn. rewrite Z.gtb_ltb, (proj2 (Z.ltb_lt 0 b)) by done. unwrap. lia.
  - eexists. split; [reflexivity|]. cbn. lia.
Qed.

Definition demo_batch : list BatchEvent :=
  [BUpdate; BUpdate; BUpdate; BUpdate; BTick; BUpdate; BWrite 1; BUpdate; BUpdate; BWrite 0; BUpdate; BWrite 0].
Lemma batching_writes_each_once_witness :
  let s := batch_events 3 demo_batch in writing s = [] /\
  exists r, (stopBG (Producer := batcher_producer)) (b_run s) = Some (r, tt) /\
    logicalWrites (datastore r) = 8 /\ dbCalls (datastore r) = 4.
Proof.
  cbn zeta. split; [vm_compute; reflexivity|].
  destruct (batching_writes_each_once 3 demo_batch) as (_ & _ & _ & Hstop); [vm_compute; reflexivity|].
  destruct Hstop as (r & He & Hl & _ & Hd); [vm_compute; reflexivity|]. exists r. split; [exact He|].
  split; [rewrite Hl; vm_compute; reflexivity|rewrite Hd; vm_compute; reflexivity].
Defined.

(** ** The PN-counter *)
Inductive PnEvent := PUpdate (key : string) (delta : Z) | PMerge.
Definition pn_event (e : PnEvent) : SM (Run pnCounter) unit :=
  match e with PUpdate key delta => update (Producer := pn_producer) tt key delta | PMerge => pn_merge end.

Definition pn_value (c : pnCounter) (k : string) : Z :=
  Zsum (default [] (pos c !! k)) - Zsum (default [] (neg c !! k)).
Definition delta_of (k : string) (e : PnEvent) : Z := match e with PUpdate key d => if decide (key = k) then d else 0 | PMerge => 0 end.
Definition is_update (e : PnEvent) : Z := match e with PUpdate _ _ => 1 | PMerge => 0 end.
Definition total_of (f : PnEvent -> Z) (es : list PnEvent) : Z := Zsum (f <$> es).

Lemma total_snoc f es e : total_of f (es ++ [e]) = total_of f es + f e.
Proof. unfold total_of. rewrite fmap_app, Zsum_app. cbn. rewrite Zsum_cons, Zsum_nil. lia. Qed.

Lemma fnv32_nonneg s : 0 <= fnv32 s.
Proof.
  unfold fnv32. induction (String.list_ascii_of_string s) as [|c l IH] using rev_ind; [done|].
  rewrite foldl_snoc. apply Z.mod_pos_bound. lia.
Qed.

Lemma add_at_replica_ok key r d m l : m !! key = Some l -> 0 <= r < Z.of_nat (length l) ->
  exists l', add_at_replica key r d m = Some (<[key := l']> m) /\ length l' = length l /\ Zsum l' ≡ₘ Zsum l + d.
Proof.
  intros Hm Hr. unfold add_at_replica. rewrite Hm, (proj2 (Z.ltb_ge r 0)) by lia.
  destruct (lookup_lt_is_Some_2 l (Z.to_nat r)) as [x Hx]; [lia|]. rewrite Hx. eexists. split; [reflexivity|].
  rewrite length_insert. split; [done|]. rewrite (Zsum_insert _ _ _ _ Hx), add64_eqm. eqm_lia.
Qed.

Section pn.
Context (n : Z) (keys : list string).

Record pn_ok (given : string -> Z) (c : pnCounter) : Prop := {
  pn_replicas : replicas c = n;
  pn_slices k : k ∈ keys -> exists lp ln, pos c !! k = Some lp /\ neg c !! k = Some ln /\
    Z.of_nat (length lp) = n /\ Z.of_nat (length ln) = n;
  pn_values k : k ∈ keys -> pn_value c k ≡ₘ given k
}.

Lemma pn_add_ok given c key d : 0 < n -> pn_ok given c -> key ∈ keys -> in64 d ->
  exists c', pn_add key d c = Some (c', tt) /\ pn_ok (fun k => given k + delta_of k (PUpdate key d)) c'.
Proof.
  intros Hn [Hr Hs Hv] Hk Hd. destruct (Hs key Hk) as (lp & ln & Hp & Hq & Hlp & Hln).
  unfold pn_add, replica_of. rewrite Hr, (proj2 (Z.eqb_neq n 0)) by lia. unfold rem64.
  pose proof (Z.rem_bound_pos (fnv32 key) n (fnv32_nonneg key) Hn) as Hb.
  pose proof (Hv key Hk) as Hvk. unfold pn_value in Hvk. rewrite Hp, Hq in Hvk. cbn in Hvk.
  rewrite Z.geb_leb. destruct (Z.leb_spec 0 d).
  - destruct (add_at_replica_ok key (Z.rem (fnv32 key) n) d (pos c) lp Hp) as (l' & He & Hl & Hsum); [lia|]. rewrite He.
    eexists. split; [reflexivity|]. split; cbn [replicas pos neg].
    + done.
    + intros k Hkk. destruct (decide (k = key)) as [->|Hne]; [|rewrite lookup_insert_ne by done; by apply Hs].
      rewrite lookup_insert_eq. exists l', ln. by rewrite Hl.
    + intros k Hkk. unfold pn_value. cbn [pos neg delta_of]. destruct (decide (k = key)) as [->|Hne].
      * rewrite lookup_insert_eq, Hq, decide_True by done. cbn. rewrite Hsum.
        replace (Zsum lp + d - Zsum ln) with (Zsum lp - Zsum ln + d) by lia. by rewrite Hvk.
      * rewrite lookup_insert_ne, decide_False, Z.add_0_r by done. by apply Hv.
  - destruct (add_at_replica_ok key (Z.rem (fnv32 key) n) (neg64 d) (neg c) ln Hq) as (l' & He & Hl & Hsum); [lia|]. rewrite He.
    eexists. split; [reflexivity|]. split; cbn [replicas pos neg].
    + done.
    + intros k Hkk. destruct (decide (k = key)) as [->|Hne]; [|rewrite lookup_insert_ne by done; by apply Hs].
      rewrite lookup_insert_eq. exists lp, l'. by rewrite Hl.
    + intros k Hkk. unfold pn_value. cbn [pos neg delta_of]. destruct (decide (k = key)) as [->|Hne].
      * rewrite lookup_insert_eq, Hp, decide_True by done. cbn. rewrite Hsum, neg64_eqm.
        replace (Zsum lp - (Zsum ln + - d)) with (Zsum lp - Zsum ln + d) by lia. by rewrite Hvk.
      * rewrite lookup_insert_ne, decide_False, Z.add_0_r by done. by apply Hv.
Qed.

(** Merges only call. *)
Lemma calls_ok {A} (l : list A) (r : Run pnCounter) : exists p,
  for_each (fun _ => db_write 0) l r = Some (mkRun (prod r) p, tt) /\ logicalWrites p = logicalWrites (datastore r) /\
  dbCalls p ≡ₘ dbCalls (datastore r) + Z.of_nat (length l).
Proof.
  unfold for_each. revert r. induction l as [|a l IH]; intros r; cbn [foldM].
  - exists (datastore r). destruct r. split_and!; [done..|]. cbn. by rewrite Z.add_0_r.
  - unfold mbind, SM_bind. cbn. destruct (IH (mkRun (prod r) (p_write 0 (datastore r)))) as (p & He & Hl & Hd).
    rewrite He. exists p. split; [done|]. split; [by rewrite Hl|].
    rewrite Hd. cbn [datastore p_write dbCalls]. rewrite add64_eqm. eqm_lia.
Qed.

Definition pn_event_ok (e : PnEvent) : Prop := match e with PUpdate key d => key ∈ keys /\ in64 d | PMerge => True end.

Record pn_run_ok (es : list PnEvent) (r : Run pnCounter) : Prop := {
  pr_counter : pn_ok (fun k => total_of (delta_of k) es) (prod r);
  pr_writes : logicalWrites (datastore r) ≡ₘ total_of is_update es;
  pr_calls : dbCalls (datastore r) ≡ₘ total_of (fun e => match e with PUpdate _ _ => 1 | PMerge => n end) es
}.

Lemma pn_ext g g' c : (forall k, g' k = g k) -> pn_ok g c -> pn_ok g' c.
Proof. intros He [Hr Hs Hv]. split; [done|done|]. intros k Hk. rewrite He. by apply Hv. Qed.

Lemma pn_event_run es e r : 0 < n -> pn_run_ok es r -> pn_event_ok e ->
  exists r', pn_event e r = Some (r', tt) /\ pn_run_ok (es ++ [e]) r'.
Proof.
  intros Hn [Hc Hw Hd] He. destruct e as [key d|]; cbn [pn_event update pn_producer].
  - destruct He as [Hk Hi]. destruct (pn_add_ok _ _ key d Hn Hc Hk Hi) as (c' & Ha & Hc').
    unfold on_prod, zoom, mbind, SM_bind. rewrite Ha. eexists. split; [reflexivity|]. split; cbn -[Z.add].
    + eapply pn_ext; [|exact Hc']. intros k. apply total_snoc.
    + rewrite total_snoc, add64_eqm, Hw. done.
    + rewrite total_snoc, add64_eqm, Hd. done.
  - unfold pn_merge, gets, mbind, SM_bind.
    destruct (calls_ok (seq 0 (Z.to_nat (replicas (prod r)))) r) as (p & Hp & Hl & Hdb). rewrite Hp.
    eexists. split; [reflexivity|]. split; cbn [prod datastore].
    + eapply pn_ext; [|exact Hc]. intros k. rewrite total_snoc. cbn. lia.
    + rewrite total_snoc, Hl, Hw. cbn. eqm_lia.
    + rewrite total_snoc, Hdb, Hd, length_seq, (pn_replicas _ _ Hc). eqm_lia.
Qed.
End pn.

Lemma newPN_ok keys n : 0 <= n -> exists c, newPN keys n = Some c /\ pn_ok n keys (fun _ => 0) c.
Proof.
  intros Hn. unfold newPN.
  assert (Hm : forall k, k ∈ keys -> (list_to_map ((fun k => (k, replicate (Z.to_nat n) 0)) <$> keys) : gmap string (list Z)) !! k
     = Some (replicate (Z.to_nat n) 0)).
  { induction keys as [|k0 ks IH]; intros k Hk; [by apply not_elem_of_nil in Hk|]. rewrite fmap_cons, list_to_map_cons.
    destruct (decide (k = k0)) as [->|Hne]; [by rewrite lookup_insert_eq|]. rewrite lookup_insert_ne by done.
    apply IH. by apply elem_of_cons in Hk as [?|]. }
  destruct keys as [|k0 ks].
  - eexists. split; [reflexivity|]. split; [done|..]; intros k Hk; by apply not_elem_of_nil in Hk.
  - rewrite (proj2 (Z.ltb_ge n 0)) by done. eexists. split; [reflexivity|]. split; cbn [replicas pos neg]; [done|..]; intros k Hk.
    + eexists _, _. rewrite (Hm k Hk). split_and!; [reflexivity..| |]; rewrite length_replicate; lia.
    + unfold pn_value. cbn [pos neg]. rewrite (Hm k Hk). cbn. rewrite Z.sub_diag. done.
Qed.

(** The PN-counter counts.  With a positive number of replicas, no sequence of
    operations on its keys and of merges panics; the value of each key, the sum over
    replicas of what was added less what was taken, is the sum of its operations
    (modulo [2^64], [MinInt64] included); each operation is one logical write and one
    call, each merge a call per replica. *)
Theorem pn_counter_counts keys n es :
  0 < n -> Forall (pn_event_ok keys) es ->
  exists c r, newPN keys n = Some c /\ for_each pn_event es (mkRun c newPersister) = Some (r, tt) /\
    (forall k, k ∈ keys -> pn_value (prod r) k ≡ₘ total_of (delta_of k) es) /\
    logicalWrites (datastore r) ≡ₘ total_of is_update es /\
    dbCalls (datastore r) ≡ₘ total_of (fun e => match e with PUpdate _ _ => 1 | PMerge => n end) es.
Proof.
  intros Hn Hes. destruct (newPN_ok keys n) as (c & Hc & Hok); [lia|]. exists c.
  destruct (triple_for_each pn_event (fun seen r => pn_run_ok n keys seen r) es) with (s := mkRun c newPersister)
    as (r & [] & He & Hr).
  - intros seen e rest -> r Hr. apply Forall_app in Hes as [_ Hes]. inversion_clear Hes as [|?? He _].
    destruct (pn_event_run n keys seen e r Hn Hr He) as (r' & Hrun & Hr'). by exists r', tt.
  - split; cbn; [|done..]. eapply pn_ext; [|exact Hok]. done.
  - exists r. destruct Hr as [Hk Hw Hd]. split_and!; [done|done|apply Hk|done|done].
Qed.

Lemma unknown_key_panics keys n c key d : newPN keys n = Some c -> 0 < n -> key ∉ keys -> pn_add key d c = None.
Proof.
  intros Hc Hn Hk. unfold pn_add.
  assert (Hnone : forall m r d, m = pos c \/ m = neg c -> add_at_replica key r d m = None).
  { intros m r d' Hm. unfold add_at_replica. replace (m !! key) with (@None (list Z)); [done|]. symmetry. unfold newPN in Hc.
    assert (Hl : (list_to_map ((fun k => (k, replicate (Z.to_nat n) 0)) <$> keys) : gmap string (list Z)) !! key = None).
    { apply not_elem_of_list_to_map_1. rewrite <- list_fmap_compose. cbn. by rewrite list_fmap_id. }
    destruct keys as [|k0 ks]; [injection Hc as <-; by destruct Hm as [-> | ->]|].
    destruct (n <? 0); [done|]. injection Hc as <-. by destruct Hm as [-> | ->]. }
  unfold replica_of. destruct (replicas c =? 0); [done|]. destruct (d >=? 0); rewrite Hnone by auto; done.
Qed.

Lemma pn_counter_counts_witness :
  exists c r, newPN ["a"; "b"] 4 = Some c /\
    for_each pn_event [PUpdate "a" 5; PUpdate "b" 1; PMerge; PUpdate "a" (-7)] (mkRun c newPersister) = Some (r, tt) /\
    (forall k, k ∈ ["a"; "b"] -> pn_value (prod r) k ≡ₘ
      total_of (delta_of k) [PUpdate "a" 5; PUpdate "b" 1; PMerge; PUpdate "a" (-7)]) /\
    logicalWrites (datastore r) ≡ₘ 3 /\ dbCalls (datastore r) ≡ₘ 7.
Proof.
  apply (pn_counter_counts ["a"; "b"] 4 [PUpdate "a" 5; PUpdate "b" 1; PMerge; PUpdate "a" (-7)]); [lia|].
  repeat constructor; unfold in64; try lia.
Defined.

(** ** The histogram *)
Definition in_bucket (b : histBucket) (d : Z) : Prop := lo b <= d < hi b.
#[export] Instance in_bucket_dec b d : Decision (in_bucket b d).
Proof. unfold in_bucket. apply _. Defined.
Definition count_in (b : histBucket) (ds : list Z) : Z := Z.of_nat (length (filter (in_bucket b) ds)).
Definition counted (ds : list Z) (b : histBucket) : histBucket := mkHist (label b) (lo b) (hi b) (count b +! count_in b ds).

(** The buckets follow each other, so the first match is the only one. *)
Definition apart (bs : list histBucket) : Prop := StronglySorted (fun b b' => hi b <= lo b') bs.

Lemma hist_add_map d bs : apart bs -> hist_add d bs = (fun b => if decide (in_bucket b d) then hist_inc b else b) <$> bs.
Proof.
  induction 1 as [|b bs Hs IH Hb]; [done|]. cbn [hist_add fmap list_fmap]. rewrite Z.geb_leb.
  case_decide as Hin; unfold in_bucket in Hin; destruct (Z.leb_spec (lo b) d), (Z.ltb_spec d (hi b)); cbn [andb]; try lia;
    [|f_equal; exact IH..].
  f_equal. rewrite <- (list_fmap_id bs) at 1. apply list_fmap_ext. intros i b' Hi. cbn.
  rewrite list.Forall_lookup in Hb. specialize (Hb i b' Hi). cbn in Hb. rewrite decide_False by (unfold in_bucket; lia). done.
Qed.

Lemma apart_same (f : histBucket -> histBucket) bs : (forall b, lo (f b) = lo b /\ hi (f b) = hi b) -> apart bs -> apart (f <$> bs).
Proof.
  intros Hf. induction 1 as [|b bs Hs IH Hb]; [constructor|]. cbn. constructor; [done|].
  apply Forall_fmap. eapply list.Forall_impl; [exact Hb|]. intros b' Hlt. cbn in Hlt |- *. destruct (Hf b), (Hf b'). lia.
Qed.

Lemma hist_fold ds bs : apart bs -> Forall (fun b => count b = 0) bs -> Z.of_nat (length ds) < H64 ->
  foldl (fun bs d => hist_add d bs) bs ds = counted ds <$> bs.
Proof.
  intros Hs H0. induction ds as [|d ds IH] using rev_ind; intros Hlen.
  - cbn. rewrite <- (list_fmap_id bs) at 1. apply list_fmap_ext. intros i b Hi. rewrite list.Forall_lookup in H0.
    destruct b as [l a z c]. specialize (H0 i _ Hi). cbn in *. by subst.
  - rewrite length_app in Hlen. cbn in Hlen. rewrite foldl_snoc, IH by lia.
    rewrite hist_add_map by by apply apart_same. rewrite <- list_fmap_compose. apply list_fmap_ext. intros i b Hi.
    rewrite list.Forall_lookup in H0. specialize (H0 i b Hi). cbn in H0 |- *. unfold counted, count_in. rewrite list.filter_app, length_app, filter_cons.
    pose proof (length_filter (in_bucket b) ds). rewrite H0.
    change (in_bucket (mkHist (label b) (lo b) (hi b) (0 +! Z.of_nat (length (filter (in_bucket b) ds)))) d) with (in_bucket b d).
    repeat case_decide; try done; unfold hist_inc; cbn; f_equal; unwrap; lia.
Qed.

(** Buckets from [a] to [z] without a gap: a latency between them is in one. *)
Fixpoint chain (a : Z) (bs : list histBucket) (z : Z) : Prop :=
  match bs with [] => a = z | b :: bs => lo b = a /\ a <= hi b /\ chain (hi b) bs z end.
Lemma chain_sum d bs a z : chain a bs z -> a <= z /\
  Zsum ((fun b => if decide (in_bucket b d) then 1 else 0) <$> bs) = if decide (a <= d < z) then 1 else 0.
Proof.
  revert a. induction bs as [|b bs IH]; intros a; cbn [chain fmap list_fmap].
  - intros ->. rewrite decide_False by lia. split; [lia|done].
  - intros (<- & Hab & Hc). destruct (IH _ Hc) as [Hle Hs]. rewrite Zsum_cons, Hs. split; [lia|].
    unfold in_bucket. repeat case_decide; lia.
Qed.

Lemma count_in_sum ds bs a z : chain a bs z ->
  Zsum ((fun b => count_in b ds) <$> bs) = Z.of_nat (length (filter (fun d => a <= d < z) ds)).
Proof.
  intros Hc. induction ds as [|d ds IH].
  - unfold count_in. cbn. clear Hc. induction bs as [|b bs IH]; [done|]. cbn. by rewrite Zsum_cons, IH.
  - assert (Hone : Zsum ((fun b => count_in b (d :: ds)) <$> bs) =
      Zsum ((fun b => if decide (in_bucket b d) then 1 else 0) <$> bs) + Zsum ((fun b => count_in b ds) <$> bs)).
    { clear. induction bs as [|b bs IH]; [done|]. cbn [fmap list_fmap]. rewrite !Zsum_cons, IH. unfold count_in at 1 3.
      rewrite filter_cons. case_decide; cbn [length]; lia. }
    rewrite Hone, IH, (proj2 (chain_sum d bs a z Hc)), filter_cons. case_decide; cbn [length]; lia.
Qed.

(** The histogram counts every latency once.  It lists, in order and without the
    empty ones, the buckets with the number of latencies each holds; together they hold
    every latency that is not negative (nor the largest [Duration]), each in one
    bucket. *)
Theorem histogram_counts_each_once ds :
  Z.of_nat (length ds) < H64 ->
  buildLatencyHistogram ds = filter (fun b => (count b >? 0) = true)
    ((fun b => mkHist (label b) (lo b) (hi b) (count_in b ds)) <$> hist_buckets) /\
  Zsum (count <$> buildLatencyHistogram ds) = Z.of_nat (length (filter (fun d => 0 <= d < MaxInt64) ds)).
Proof.
  intros Hlen.
  assert (Hs : apart hist_buckets) by (repeat constructor; cbn; unfold MaxInt64; lia).
  assert (He : buildLatencyHistogram ds = filter (fun b => (count b >? 0) = true)
    ((fun b => mkHist (label b) (lo b) (hi b) (count_in b ds)) <$> hist_buckets)).
  { unfold buildLatencyHistogram. rewrite hist_fold by (first [done|repeat constructor|cbn; lia]). f_equal. apply list_fmap_ext.
    intros i b Hi. unfold counted. f_equal.
    assert (count b = 0) as -> by (revert i b Hi; apply list.Forall_lookup; repeat constructor).
    pose proof (length_filter (in_bucket b) ds).
    unfold count_in. unwrap. lia. }
  split; [done|]. rewrite He. clear He Hs.
  assert (Hpos : forall bs, Forall (fun b => 0 <= count b) bs ->
    Zsum (count <$> filter (fun b => (count b >? 0) = true) bs) = Zsum (count <$> bs)).
  { induction 1 as [|b bs Hb Hbs IH]; [done|]. rewrite filter_cons. cbn [fmap list_fmap]. rewrite Zsum_cons, Z.gtb_ltb.
    case_decide as H; cbn [fmap list_fmap]; rewrite ?Zsum_cons, IH; [done|]. destruct (Z.ltb_spec 0 (count b)); [done|lia]. }
  rewrite Hpos by (apply Forall_fmap, list.Forall_forall; intros; cbn; unfold count_in; lia). clear Hpos.
  rewrite <- list_fmap_compose. apply (count_in_sum ds hist_buckets 0 MaxInt64). by repeat split.
Qed.

Lemma histogram_counts_each_once_witness :
  let ds := [50; 99; 100; 1500; -1; 12000000; 1999] in
  ((fun b => (lo b, count b)) <$> buildLatencyHistogram ds = [(0, 2); (100, 1); (1000, 2); (10000000, 1)]) /\
  Zsum (count <$> buildLatencyHistogram ds) = 6.
Proof.
  cbn zeta. destruct (histogram_counts_each_once [50; 99; 100; 1500; -1; 12000000; 1999]) as [He Hs]; [vm_compute; reflexivity|].
  split; [rewrite He; vm_compute; reflexivity|rewrite Hs; vm_compute; reflexivity].
Defined.

(** ** Latency samples and percentiles *)
Lemma reservoir_kept capPerWorker seen loc n :
  1 <= capPerWorker < H64 -> Forall (fun dj => 0 <= dj.2) seen ->
  Z.of_nat (length loc) = Z.min n capPerWorker -> 0 <= n -> n + Z.of_nat (length seen) < H64 ->
  let kept := sample_all capPerWorker loc n seen in
  Z.of_nat (length kept) = Z.min (n + Z.of_nat (length seen)) capPerWorker /\
  (forall d, d ∈ kept -> d ∈ loc \/ d ∈ seen.*1).
Proof.
  intros Hcap Hj. revert loc n. induction Hj as [|[d j] seen Hj0 Hj IH]; intros loc n Hl Hn Hb; cbn [sample_all length].
  - split; [cbn; lia|auto].
  - cbn in Hj0. unfold reservoir. replace (n +! 1) with (n + 1) by (cbn [length] in Hb; unwrap; lia). cbn [length] in Hb.
    set (loc' := if n + 1 <=? capPerWorker then loc ++ [d] else if j <? capPerWorker then <[Z.to_nat j := d]> loc else loc).
    assert (Hl' : Z.of_nat (length loc') = Z.min (n + 1) capPerWorker).
    { subst loc'. repeat case_Z; rewrite ?length_app, ?length_insert; cbn; lia. }
    assert (Hin : forall x, x ∈ loc' -> x ∈ loc \/ x = d).
    { subst loc'. intros x. destruct (_ <=? _); [rewrite elem_of_app; set_solver|]. destruct (_ <? _); [|auto].
      intros [i Hi]%list_elem_of_lookup_1. apply list_lookup_insert_Some in Hi as [(_ & -> & _)|[_ Hi]]; [auto|].
      left. by eapply list_elem_of_lookup_2. }
    destruct (IH loc' (n + 1) Hl' ltac:(lia) ltac:(lia)) as [Hlen Hmem].
    replace (if n + 1 <=? capPerWorker then (loc ++ [d], n + 1) else _) with (loc', n + 1) by (subst loc'; by destruct (_ <=? _)).
    split; [rewrite Hlen; lia|]. intros x Hx. destruct (Hmem x Hx) as [[?| ->]%Hin|?]; cbn; set_solver.
Qed.

(** The reservoir of a worker holds as many samples as it has room for, each one of
    the latencies it saw. *)
Theorem reservoir_bounded capPerWorker seen :
  1 <= capPerWorker < H64 -> Forall (fun dj => 0 <= dj.2) seen -> Z.of_nat (length seen) < H64 ->
  let kept := sample_all capPerWorker [] 0 seen in
  Z.of_nat (length kept) = Z.min (Z.of_nat (length seen)) capPerWorker /\ (forall d, d ∈ kept -> d ∈ seen.*1).
Proof.
  intros Hc Hj Hl. destruct (reservoir_kept capPerWorker seen [] 0 Hc Hj) as [H1 H2]; [cbn; lia|lia|lia|].
  split; [done|]. intros d Hd. destruct (H2 d Hd) as [Hn|]; [by apply not_elem_of_nil in Hn|done].
Qed.

Lemma reservoir_bounded_witness :
  let kept := sample_all 2 [] 0 [(10, 0); (20, 0); (30, 1); (40, 3)] in kept = [10; 30] /\ Z.of_nat (length kept) = 2.
Proof.
  cbn zeta. split; [reflexivity|].
  apply (reservoir_bounded 2 [(10, 0); (20, 0); (30, 1); (40, 3)]); [lia|repeat constructor; cbn; lia|reflexivity].
Defined.

(** ** A number with commas *)
Lemma group_digits_strip s first : comma ∉ s -> filter (.≠ comma) (group_digits s first) = s.
Proof.
  revert first. induction s as [|c s IH]; intros first Hs; [done|]. apply not_elem_of_cons in Hs as [Hc Hs].
  cbn [group_digits]. rewrite list.filter_app, IH by done. destruct (negb first && _).
  - rewrite !filter_cons. rewrite decide_False by auto. by rewrite decide_True by auto.
  - rewrite !filter_cons. by rewrite decide_True by auto.
Qed.

Lemma pretty_go_digits x s : comma ∉ String.list_ascii_of_string s -> comma ∉ String.list_ascii_of_string (pretty_N_go x s).
Proof.
  revert s. induction (N.lt_wf_0 x) as [x _ IH]; intros s Hs.
  destruct (decide (0 < x)%N) as [Hx|Hx]; [|by replace x with 0%N by lia].
  rewrite pretty_N_go_step by done. apply IH; [by apply N.div_lt|]. cbn [String.list_ascii_of_string].
  apply not_elem_of_cons. split; [|done]. unfold pretty_N_char. by repeat case_match.
Qed.

Lemma pretty_pos_digits (p : positive) : comma ∉ String.list_ascii_of_string (pretty p).
Proof. apply (pretty_go_digits (N.pos p)). apply not_elem_of_nil. Qed.

(** The commas of [humanInt] are its only addition: without them it reads as the
    number, so no two numbers print alike. *)
Theorem humanInt_reads_back n : filter (.≠ comma) (humanInt n) = String.list_ascii_of_string (pretty n).
Proof.
  assert (Hpos : forall s, comma ∉ s -> (forall s', s <> "-"%char :: s') ->
    filter (.≠ comma) (match s with "-"%char :: s' => "-"%char :: group_digits s' true | _ => group_digits s true end) = s).
  { intros s Hs Hd. rewrite <- (group_digits_strip s true Hs) at 2. f_equal.
    destruct s as [|[[] [] [] [] [] [] [] []] s]; try done. by destruct (Hd s). }
  unfold humanInt. destruct n as [|p|p].
  - reflexivity.
  - apply Hpos; [apply pretty_pos_digits|]. intros s' Hs.
    apply (pretty_N_go_ne_dash (N.pos p) "" (String.string_of_list_ascii s')); [done|].
    change (pretty_N_go (N.pos p) "") with (pretty (Z.pos p)).
    by rewrite <- (String.string_of_list_ascii_of_string (pretty (Z.pos p))), Hs.
  - change (String.list_ascii_of_string (pretty (Z.neg p))) with ("-"%char :: String.list_ascii_of_string (pretty p)).
    change (filter (.≠ comma) ("-"%char :: group_digits (String.list_ascii_of_string (pretty p)) true) = "-"%char :: String.list_ascii_of_string (pretty p)).
    rewrite filter_cons, decide_True by done. f_equal. apply group_digits_strip, pretty_pos_digits.
Qed.

(** ** Percentiles *)
Lemma filter_keeps (P : Z -> Prop) `{forall x, Decision (P x)} l : Forall P l -> filter P l = l.
Proof. induction 1 as [|x l Hx Hl IH]; [done|]. by rewrite filter_cons, decide_True, IH by done. Qed.
Lemma filter_drops (P : Z -> Prop) `{forall x, Decision (P x)} l : Forall (fun x => ~ P x) l -> filter P l = [].
Proof. induction 1 as [|x l Hx Hl IH]; [done|]. by rewrite filter_cons, decide_False, IH by done. Qed.

Lemma sorted_rank (l : list Z) (i : nat) (x : Z) : StronglySorted Z.le l -> l !! i = Some x ->
  (i < length (filter (fun d : Z => (d <= x)%Z) l))%nat /\ (length (filter (fun d : Z => (d < x)%Z) l) <= i)%nat.
Proof.
  intros Hs Hi. rewrite <- (take_drop_middle l i x Hi) in Hs |- *.
  pose proof (lookup_lt_Some _ _ _ Hi) as Hlt. apply StronglySorted_app in Hs as (Hle & _ & Hr).
  inversion_clear Hr as [|?? _ Hge]. rewrite !list.filter_app, !length_app, !filter_cons.
  rewrite decide_True, decide_False by lia. cbn [length].
  assert (Hlow : filter (fun d => d <= x) (take i l) = take i l).
  { apply filter_keeps, list.Forall_forall. intros y Hy. apply Hle; [done|]. apply list_elem_of_here. }
  assert (Hnone : filter (fun d => d < x) (drop (S i) l) = []).
  { apply filter_drops. eapply list.Forall_impl; [exact Hge|]. cbn. lia. }
  rewrite Hlow, Hnone, length_take. cbn. pose proof (length_filter (fun d => d < x) (take i l)) as Hf. rewrite length_take in Hf. lia.
Qed.

(** The percentile is an order statistic: of [n] latencies more than [(n-1)p/100] are at
    most the value given, and no more than that are below it. *)
Theorem percentile_rank ds p :
  ds <> [] -> 0 <= p <= 100 -> Z.of_nat (length ds) * 100 < H64 ->
  exists x, percentiles ds p = Some x /\ x ∈ ds /\
    let i := (Z.of_nat (length ds) - 1) * p / 100 in
    i < Z.of_nat (length (filter (fun d => d <= x) ds)) /\ Z.of_nat (length (filter (fun d => d < x) ds)) <= i.
Proof.
  intros Hne Hp Hlen. set (n := Z.of_nat (length ds)) in *.
  assert (0 < n) by (subst n; destruct ds; [done|cbn; lia]).
  assert (Hi : percentile_index n p = (n - 1) * p / 100).
  { unfold percentile_index, quot64. assert (Hm : 0 <= (n - 1) * p < H64) by nia.
    unfold mul64. rewrite (wrap64_id ((n - 1) * p)) by (unfold in64; lia).
    rewrite Z.quot_div_nonneg by nia. apply wrap64_id. pose proof (Z.div_pos ((n - 1) * p) 100 ltac:(nia) ltac:(lia)).
    assert ((n - 1) * p / 100 <= (n - 1) * p) by (apply Z.div_le_upper_bound; nia). unfold in64. nia. }
  assert (Hb : 0 <= (n - 1) * p / 100 < n).
  { split; [apply Z.div_pos; nia|]. apply Z.div_lt_upper_bound; nia. }
  unfold percentiles. fold n. rewrite Hi. set (i := (n - 1) * p / 100) in *. rewrite (proj2 (Z.ltb_ge i 0)) by lia.
  pose proof (merge_sort_Permutation Z.le ds) as Hperm. fold (sorted_durations ds) in Hperm.
  destruct (lookup_lt_is_Some_2 (sorted_durations ds) (Z.to_nat i)) as [x Hx].
  { rewrite (Permutation_length Hperm). subst n. lia. }
  exists x. split; [by destruct ds|]. split; [rewrite <- Hperm; by eapply list_elem_of_lookup_2|].
  destruct (sorted_rank _ _ _ (StronglySorted_merge_sort Z.le ds) Hx) as [H1 H2].
  rewrite Hperm in H1, H2. cbn zeta. lia.
Qed.

Lemma percentile_rank_witness :
  exists x, percentiles [5; 1; 9; 3; 7] 50 = Some x /\ x ∈ [5; 1; 9; 3; 7] /\
    2 < Z.of_nat (length (filter (fun d => d <= x) [5; 1; 9; 3; 7])) /\ Z.of_nat (length (filter (fun d => d < x) [5; 1; 9; 3; 7])) <= 2.
Proof. apply (percentile_rank [5; 1; 9; 3; 7] 50); [discriminate|lia|reflexivity]. Defined.

(** The runner gives every worker the same number of operations, so the rest of the
    division is never run. *)
Lemma split_drops_rest opCount workers : 0 < workers -> 0 <= opCount < H64 ->
  exists k, opsPerWorker opCount workers 0 = Some k /\ workers * k <= opCount < workers * k + workers.
Proof.
  intros Hw Ho. unfold opsPerWorker. rewrite (proj2 (Z.eqb_neq workers 0)) by lia. cbn. eexists. split; [reflexivity|].
  unfold quot64. rewrite Z.quot_div_nonneg by lia. pose proof (Z.div_mod opCount workers ltac:(lia)).
  pose proof (Z.mod_pos_bound opCount workers Hw). pose proof (Z.div_pos opCount workers ltac:(lia) Hw).
  assert (opCount / workers <= opCount) by (apply Z.div_le_upper_bound; nia).
  rewrite wrap64_id by (unfold in64; lia). lia.
Qed.
