(* ===== verification/Json.v ===== *)
(** * JSON text ([encoding/json])

    The file sinks write records with [json.Encoder] and read them back with
    [json.Unmarshal].  Here is the part of that library they rely on: trees with
    integers, the compact rendering of the encoder, and a parser with white space
    and members in any order.  Fractions, exponents and escaped strings are
    refused: no field of the records can hold one; -0 is read as 0.  What is proved: parsing undoes
    rendering, and a proper prefix of a rendered object does not parse. *)
From Stdlib Require Import Ascii Decimal DecimalZ DecimalN DecimalPos DecimalFacts.
From S2P Require Import Prelude.

Abbreviation text := (list ascii).
Definition txt (s : string) : text := String.list_ascii_of_string s.

Inductive json :=
| JNull
| JBool (b : bool)
| JNum (z : Z)
| JStr (s : text)
| JArr (l : list json)
| JObj (ms : list (text * json)).

(** Induction that reaches into arrays and objects. *)
Section induction.
Context (P : json -> Prop) (Hnull : P JNull) (Hbool : forall b, P (JBool b)) (Hnum : forall z, P (JNum z))
  (Hstr : forall s, P (JStr s)) (Harr : forall l, Forall P l -> P (JArr l))
  (Hobj : forall ms, Forall (fun m => P m.2) ms -> P (JObj ms)).

Fixpoint json_induction (j : json) : P j :=
  match j with
  | JNull => Hnull
  | JBool b => Hbool b
  | JNum z => Hnum z
  | JStr s => Hstr s
  | JArr l => Harr l ((fix go l := match l return Forall P l with
                       | [] => Forall_nil_2 _
                       | x :: l => Forall_cons_2 _ _ _ (json_induction x) (go l)
                       end) l)
  | JObj ms => Hobj ms ((fix go ms := match ms return Forall (fun m => P m.2) ms with
                         | [] => Forall_nil_2 _
                         | m :: ms => Forall_cons_2 _ _ _ (json_induction m.2) (go ms)
                         end) ms)
  end.
End induction.

(** ** Rendering *)
Definition quote_char : ascii := "034"%char.

Fixpoint uint_text (u : Decimal.uint) : text :=
  match u with
  | Decimal.Nil => []
  | Decimal.D0 u => "0"%char :: uint_text u
  | Decimal.D1 u => "1"%char :: uint_text u
  | Decimal.D2 u => "2"%char :: uint_text u
  | Decimal.D3 u => "3"%char :: uint_text u
  | Decimal.D4 u => "4"%char :: uint_text u
  | Decimal.D5 u => "5"%char :: uint_text u
  | Decimal.D6 u => "6"%char :: uint_text u
  | Decimal.D7 u => "7"%char :: uint_text u
  | Decimal.D8 u => "8"%char :: uint_text u
  | Decimal.D9 u => "9"%char :: uint_text u
  end.

Definition num_text (z : Z) : text :=
  match Z.to_int z with
  | Decimal.Pos u => uint_text u
  | Decimal.Neg u => "-"%char :: uint_text u
  end.

Fixpoint join (l : list text) : text :=
  match l with
  | [] => []
  | [x] => x
  | x :: l => x ++ ","%char :: join l
  end.

Definition quoted (s : text) : text := quote_char :: s ++ [quote_char].

Fixpoint render (j : json) : text :=
  match j with
  | JNull => txt "null"
  | JBool b => txt (if b then "true" else "false")
  | JNum z => num_text z
  | JStr s => quoted s
  | JArr l => "["%char :: join (map render l) ++ ["]"%char]
  | JObj ms => "{"%char :: join (map (fun m => quoted m.1 ++ ":"%char :: render m.2) ms) ++ ["}"%char]
  end.

(** ** Parsing *)
Definition is_ws (a : ascii) : bool :=
  bool_decide (a = " "%char) || bool_decide (a = "009"%char) || bool_decide (a = "010"%char) ||
  bool_decide (a = "013"%char).
Fixpoint skip_ws (s : text) : text :=
  match s with
  | a :: s' => if is_ws a then skip_ws s' else s
  | [] => []
  end.

Definition digit_of (a : ascii) : option (Decimal.uint -> Decimal.uint) :=
  match a with
  | "0"%char => Some Decimal.D0 | "1"%char => Some Decimal.D1 | "2"%char => Some Decimal.D2
  | "3"%char => Some Decimal.D3 | "4"%char => Some Decimal.D4 | "5"%char => Some Decimal.D5
  | "6"%char => Some Decimal.D6 | "7"%char => Some Decimal.D7 | "8"%char => Some Decimal.D8
  | "9"%char => Some Decimal.D9
  | _ => None
  end.

Fixpoint read_uint (s : text) : Decimal.uint * text :=
  match s with
  | [] => (Decimal.Nil, [])
  | a :: s' =>
      match digit_of a with
      | Some D => let '(u, r) := read_uint s' in (D u, r)
      | None => (Decimal.Nil, s)
      end
  end.

(** A number of the grammar with nothing after its digits; "01" is none. *)
Definition integer (u : Decimal.uint) : bool :=
  match u with
  | Decimal.Nil => false
  | Decimal.D0 Decimal.Nil => true
  | Decimal.D0 _ => false
  | _ => true
  end.
Definition ends_number (r : text) : bool :=
  match r with
  | a :: _ => negb (bool_decide (a = "."%char) || bool_decide (a = "e"%char) || bool_decide (a = "E"%char))
  | [] => true
  end.
Definition parse_number (neg : bool) (s : text) : option (json * text) :=
  let '(u, r) := read_uint s in
  if integer u && ends_number r
  then Some (JNum (Z.of_int (if neg then Decimal.Neg u else Decimal.Pos u)), r)
  else None.

Definition plain_char (a : ascii) : bool :=
  negb (bool_decide (a = quote_char)) && negb (bool_decide (a = "\"%char)) &&
  (32 <=? Z.of_N (N_of_ascii a)).
Fixpoint read_string (s : text) : option (text * text) :=
  match s with
  | [] => None
  | a :: s =>
      if bool_decide (a = quote_char) then Some ([], s)
      else if plain_char a then '(k, r) ← read_string s; Some (a :: k, r)
      else None
  end.

Fixpoint strip (p s : text) : option text :=
  match p, s with
  | [], _ => Some s
  | a :: p, b :: s => if bool_decide (a = b) then strip p s else None
  | _ :: _, [] => None
  end.

Definition parse_keyword (s : text) : option (json * text) :=
  match strip (txt "null") s with
  | Some r => Some (JNull, r)
  | None =>
      match strip (txt "true") s with
      | Some r => Some (JBool true, r)
      | None => r ← strip (txt "false") s; Some (JBool false, r)
      end
  end.

(** [n] bounds the nesting and the lengths; twice the length of the text is enough. *)
Fixpoint parse_value (n : nat) (s : text) {struct n} : option (json * text) :=
  match n with
  | O => None
  | S n =>
      match skip_ws s with
      | [] => None
      | a :: s' =>
          if bool_decide (a = "{"%char) then
            match skip_ws s' with
            | b :: s'' =>
                if bool_decide (b = "}"%char) then Some (JObj [], s'')
                else '(ms, r) ← parse_members n s'; Some (JObj ms, r)
            | [] => None
            end
          else if bool_decide (a = "["%char) then
            match skip_ws s' with
            | b :: s'' =>
                if bool_decide (b = "]"%char) then Some (JArr [], s'')
                else '(l, r) ← parse_elems n s'; Some (JArr l, r)
            | [] => None
            end
          else if bool_decide (a = quote_char) then '(k, r) ← read_string s'; Some (JStr k, r)
          else if bool_decide (a = "-"%char) then parse_number true s'
          else match digit_of a with
               | Some _ => parse_number false (a :: s')
               | None => parse_keyword (a :: s')
               end
      end
  end
with parse_elems (n : nat) (s : text) {struct n} : option (list json * text) :=
  match n with
  | O => None
  | S n =>
      '(v, r) ← parse_value n s;
      match skip_ws r with
      | a :: r' =>
          if bool_decide (a = ","%char) then '(l, r) ← parse_elems n r'; Some (v :: l, r)
          else if bool_decide (a = "]"%char) then Some ([v], r')
          else None
      | [] => None
      end
  end
with parse_members (n : nat) (s : text) {struct n} : option (list (text * json) * text) :=
  match n with
  | O => None
  | S n =>
      match skip_ws s with
      | a :: s' =>
          if bool_decide (a = quote_char) then
            '(k, r) ← read_string s';
            match skip_ws r with
            | b :: r' =>
                if bool_decide (b = ":"%char) then
                  '(v, r) ← parse_value n r';
                  match skip_ws r with
                  | c :: r' =>
                      if bool_decide (c = ","%char) then '(ms, r) ← parse_members n r'; Some ((k, v) :: ms, r)
                      else if bool_decide (c = "}"%char) then Some ([(k, v)], r')
                      else None
                  | [] => None
                  end
                else None
            | [] => None
            end
          else None
      | [] => None
      end
  end.

(** A whole text: one value, and white space around it. *)
Definition parse (s : text) : option json :=
  '(v, r) ← parse_value (2 * length s + 2) s;
  match skip_ws r with [] => Some v | _ => None end.

(** ** More fuel gives the same result *)
Lemma parse_more n :
  (forall s x, parse_value n s = Some x -> parse_value (S n) s = Some x) /\
  (forall s x, parse_elems n s = Some x -> parse_elems (S n) s = Some x) /\
  (forall s x, parse_members n s = Some x -> parse_members (S n) s = Some x).
Proof.
  induction n as [|n (IHv & IHe & IHm)]; [done|]. split_and!; intros s x.
  - intros H. cbn [parse_value] in H. cbn -[parse_members parse_elems]. destruct (skip_ws s) as [|a s']; [done|].
    destruct (bool_decide (a = "{"%char)).
    { destruct (skip_ws s') as [|b s'']; [done|]. destruct (bool_decide (b = "}"%char)); [done|].
      destruct (parse_members n s') as [[ms r]|] eqn:E; [|done]. by rewrite (IHm _ _ E). }
    destruct (bool_decide (a = "["%char)); [|done].
    destruct (skip_ws s') as [|b s'']; [done|]. destruct (bool_decide (b = "]"%char)); [done|].
    destruct (parse_elems n s') as [[ms r]|] eqn:E; [|done]. by rewrite (IHe _ _ E).
  - intros H. cbn [parse_elems] in H. change (parse_elems (S (S n)) s) with
      ('(v, r) ← parse_value (S n) s;
       match skip_ws r with
       | a :: r' =>
           if bool_decide (a = ","%char) then '(l, r) ← parse_elems (S n) r'; Some (v :: l, r)
           else if bool_decide (a = "]"%char) then Some ([v], r') else None
       | [] => None
       end).
    destruct (parse_value n s) as [[v r]|] eqn:E; [|done]. rewrite (IHv _ _ E). cbn [mbind option_bind] in *.
    destruct (skip_ws r) as [|a r']; [done|]. destruct (bool_decide (a = ","%char)); [|done].
    destruct (parse_elems n r') as [[l q]|] eqn:E2; [|done]. by rewrite (IHe _ _ E2).
  - intros H. cbn [parse_members] in H. remember (S n) as n1 eqn:Hn1. cbn [parse_members].
    destruct (skip_ws s) as [|a s']; [done|]. destruct (bool_decide (a = quote_char)); [|done].
    destruct (read_string s') as [[k r]|]; [|done]. cbn [mbind option_bind] in *.
    destruct (skip_ws r) as [|b r']; [done|]. destruct (bool_decide (b = ":"%char)); [|done].
    destruct (parse_value n r') as [[v q]|] eqn:E; [|done]. rewrite (IHv _ _ E). cbn [mbind option_bind] in *.
    destruct (skip_ws q) as [|c q']; [done|]. destruct (bool_decide (c = ","%char)); [|done].
    destruct (parse_members n q') as [[l t]|] eqn:E2; [|done]. by rewrite (IHm _ _ E2).
Qed.

Lemma parse_value_le n m s x : (n <= m)%nat -> parse_value n s = Some x -> parse_value m s = Some x.
Proof. intros Hle H. induction Hle; [done|]. by apply parse_more. Qed.

(** ** Text after a value does not change how it parses *)
Lemma skip_ws_app s a s' u : skip_ws s = a :: s' -> skip_ws (s ++ u) = a :: s' ++ u.
Proof.
  induction s as [|b s IH]; [done|]. cbn. destruct (is_ws b); [apply IH|]. by intros [= -> ->].
Qed.

Lemma read_string_app s k r u : read_string s = Some (k, r) -> read_string (s ++ u) = Some (k, r ++ u).
Proof.
  revert k. induction s as [|a s IH]; intros k; [done|]. cbn.
  destruct (bool_decide (a = quote_char)); [by intros [= <- <-]|]. destruct (plain_char a); [|done].
  destruct (read_string s) as [[k' r']|]; [|done]. cbn. intros [= <- <-]. by rewrite (IH _ eq_refl).
Qed.

Lemma strip_app p s r u : strip p s = Some r -> strip p (s ++ u) = Some (r ++ u).
Proof.
  revert s. induction p as [|a p IH]; intros [|b s]; cbn; try done; [by intros [= <-]..|].
  destruct (bool_decide (a = b)); [apply IH|done].
Qed.

Lemma strip_none p s u : strip p s = None -> (length p <= length s)%nat -> strip p (s ++ u) = None.
Proof.
  revert s. induction p as [|a p IH]; intros [|b s]; cbn; try done; [lia|].
  destruct (bool_decide (a = b)); [|done]. intros. apply IH; [done|lia].
Qed.

Lemma read_uint_app s w r u : read_uint s = (w, r) -> r <> [] -> read_uint (s ++ u) = (w, r ++ u).
Proof.
  revert w. induction s as [|a s IH]; intros w; cbn; [by intros [= <- <-]|].
  destruct (digit_of a) as [D|]; [|by intros [= <- <-]].
  destruct (read_uint s) as [w' r']. intros [= <- <-] Hr. by rewrite (IH _ eq_refl Hr).
Qed.

Lemma parse_number_app neg s v r u : parse_number neg s = Some (v, r) -> r <> [] ->
  parse_number neg (s ++ u) = Some (v, r ++ u).
Proof.
  unfold parse_number. destruct (read_uint s) as [w q] eqn:E. intros H Hr.
  assert (q = r) as -> by (destruct (integer w && ends_number q); [by injection H|done]).
  rewrite (read_uint_app _ _ _ u E Hr). destruct r as [|a r]; [done|]. cbn [app].
  change (ends_number (a :: r ++ u)) with (ends_number (a :: r)).
  destruct (integer w && ends_number (a :: r)); [|done]. injection H as <-. done.
Qed.

Lemma parse_keyword_app s v r u : parse_keyword s = Some (v, r) -> parse_keyword (s ++ u) = Some (v, r ++ u).
Proof.
  unfold parse_keyword. destruct s as [|a s]; [done|].
  destruct (strip (txt "null") (a :: s)) as [r1|] eqn:E1.
  { intros [= <- <-]. by rewrite (strip_app _ _ _ u E1). }
  destruct (strip (txt "true") (a :: s)) as [r2|] eqn:E2.
  { intros [= <- <-]. rewrite (strip_app _ _ _ u E2). cbn in E2 |- *.
    destruct (bool_decide_reflect ("t"%char = a)) as [<-|]; done. }
  destruct (strip (txt "false") (a :: s)) as [r3|] eqn:E3; [|done]. cbn [mbind option_bind]. intros [= <- <-].
  rewrite (strip_app _ _ _ u E3). cbn in E3 |- *.
  destruct (bool_decide_reflect ("f"%char = a)) as [<-|]; done.
Qed.

Definition is_num (v : json) : bool := match v with JNum _ => true | _ => false end.

Lemma parse_number_num neg s v r : parse_number neg s = Some (v, r) -> is_num v = true.
Proof. unfold parse_number. destruct (read_uint s). destruct (_ && _); [|done]. by intros [= <- <-]. Qed.

Lemma parse_local n :
  (forall s v r u, parse_value n s = Some (v, r) -> (is_num v = true -> r <> []) ->
     parse_value n (s ++ u) = Some (v, r ++ u)) /\
  (forall s v r u, parse_elems n s = Some (v, r) -> parse_elems n (s ++ u) = Some (v, r ++ u)) /\
  (forall s v r u, parse_members n s = Some (v, r) -> parse_members n (s ++ u) = Some (v, r ++ u)).
Proof.
  induction n as [|n (IHv & IHe & IHm)]; [done|]. split_and!; intros s v r u.
  - cbn [parse_value]. destruct (skip_ws s) as [|a s'] eqn:Hs; [done|]. rewrite (skip_ws_app _ _ _ u Hs).
    destruct (bool_decide (a = "{"%char)).
    { destruct (skip_ws s') as [|b s''] eqn:Hs'; [done|]. rewrite (skip_ws_app _ _ _ u Hs').
      destruct (bool_decide (b = "}"%char)); [by intros [= <- <-]|].
      destruct (parse_members n s') as [[ms q]|] eqn:E; [|done]. rewrite (IHm _ _ _ u E). by intros [= <- <-]. }
    destruct (bool_decide (a = "["%char)).
    { destruct (skip_ws s') as [|b s''] eqn:Hs'; [done|]. rewrite (skip_ws_app _ _ _ u Hs').
      destruct (bool_decide (b = "]"%char)); [by intros [= <- <-]|].
      destruct (parse_elems n s') as [[ms q]|] eqn:E; [|done]. rewrite (IHe _ _ _ u E). by intros [= <- <-]. }
    destruct (bool_decide (a = quote_char)).
    { destruct (read_string s') as [[k q]|] eqn:E; [|done]. rewrite (read_string_app _ _ _ u E). by intros [= <- <-]. }
    destruct (bool_decide (a = "-"%char)).
    { intros H Hr. apply parse_number_app; [done|]. apply Hr. by eapply parse_number_num. }
    destruct (digit_of a).
    { intros H Hr. apply (parse_number_app false (a :: s')); [done|]. apply Hr. by eapply parse_number_num. }
    intros H _. by apply (parse_keyword_app (a :: s')).
  - cbn [parse_elems]. destruct (parse_value n s) as [[w q]|] eqn:E; [|done]. cbn [mbind option_bind].
    destruct (skip_ws q) as [|a q'] eqn:Hq; [done|].
    rewrite (IHv _ _ _ u E) by (intros _ ->; done). cbn [mbind option_bind]. rewrite (skip_ws_app _ _ _ u Hq).
    destruct (bool_decide (a = ","%char)).
    + destruct (parse_elems n q') as [[l t]|] eqn:E2; [|done]. rewrite (IHe _ _ _ u E2). by intros [= <- <-].
    + destruct (bool_decide (a = "]"%char)); [|done]. by intros [= <- <-].
  - cbn [parse_members]. destruct (skip_ws s) as [|a s'] eqn:Hs; [done|]. rewrite (skip_ws_app _ _ _ u Hs).
    destruct (bool_decide (a = quote_char)); [|done].
    destruct (read_string s') as [[k q]|] eqn:E; [|done]. rewrite (read_string_app _ _ _ u E). cbn [mbind option_bind].
    destruct (skip_ws q) as [|b q'] eqn:Hq; [done|]. rewrite (skip_ws_app _ _ _ u Hq).
    destruct (bool_decide (b = ":"%char)); [|done].
    destruct (parse_value n q') as [[w t]|] eqn:E2; [|done]. cbn [mbind option_bind].
    destruct (skip_ws t) as [|c t'] eqn:Ht; [done|].
    rewrite (IHv _ _ _ u E2) by (intros _ ->; done). cbn [mbind option_bind]. rewrite (skip_ws_app _ _ _ u Ht).
    destruct (bool_decide (c = ","%char)).
    + destruct (parse_members n t') as [[l x]|] eqn:E3; [|done]. rewrite (IHm _ _ _ u E3). by intros [= <- <-].
    + destruct (bool_decide (c = "}"%char)); [|done]. by intros [= <- <-].
Qed.

(** ** Parsing undoes rendering *)
Definition plain (s : text) : bool := forallb plain_char s.
Fixpoint wf_json (j : json) : bool :=
  match j with
  | JStr s => plain s
  | JArr l => forallb wf_json l
  | JObj ms => forallb (fun m => plain m.1 && wf_json m.2) ms
  | _ => true
  end.

(** What may follow a number. *)
Definition stops (r : text) : Prop :=
  match r with [] => True | a :: _ => digit_of a = None /\ ends_number r = true end.

(** The fuel a value takes. *)
Definition deepest (ns : list nat) : nat := foldr (fun x acc => S (Nat.max x acc)) O ns.
Fixpoint depth (j : json) : nat :=
  match j with
  | JArr l => S (deepest (map depth l))
  | JObj ms => S (deepest (map (fun m => depth m.2) ms))
  | _ => 1
  end.

Lemma read_uint_text u r : stops r -> read_uint (uint_text u ++ r) = (u, r).
Proof.
  intros Hr. induction u as [|u IH|u IH|u IH|u IH|u IH|u IH|u IH|u IH|u IH|u IH]; cbn; rewrite ?IH; try done.
  destruct r as [|a r]; [done|]. cbn. by rewrite (proj1 Hr).
Qed.

Lemma nzhead_not_D0 u v : nzhead u <> Decimal.D0 v.
Proof. induction u; cbn; congruence. Qed.

Lemma to_uint_integer p : integer (Pos.to_uint p) = true.
Proof.
  assert (H : unorm (Pos.to_uint p) = Pos.to_uint p).
  { rewrite <- DecimalPos.Unsigned.to_of, DecimalPos.Unsigned.of_to. done. }
  revert H. generalize (Pos.to_uint p) as u. intros u. unfold unorm. destruct u as [|u|u|u|u|u|u|u|u|u|u]; try done.
  cbn [nzhead]. destruct (nzhead u) eqn:E; try done; [by intros [= <-]|]. by destruct (nzhead_not_D0 u u0).
Qed.

Lemma parse_number_text neg u r : stops r -> integer u = true ->
  parse_number neg (uint_text u ++ r) = Some (JNum (Z.of_int (if neg then Decimal.Neg u else Decimal.Pos u)), r).
Proof.
  intros Hr Hu. unfold parse_number. rewrite (read_uint_text u r Hr), Hu.
  assert (ends_number r = true) as -> by (destruct r; [done|apply Hr]). done.
Qed.

Lemma read_string_text s r : plain s = true -> read_string (s ++ quote_char :: r) = Some (s, r).
Proof.
  induction s as [|a s IH]; cbn; [by rewrite bool_decide_true|].
  intros [Ha Hs]%andb_true_iff. rewrite (IH Hs), Ha. unfold plain_char in Ha.
  destruct (bool_decide (a = quote_char)); done.
Qed.

(** The first character of a rendered value. *)
Definition starts (t : text) : Prop := exists a t', t = a :: t' /\ is_ws a = false /\ a <> "]"%char.

Lemma render_starts j : starts (render j).
Proof.
  destruct j as [|[]|z|s|l|ms]; try (eexists _, _; split; [reflexivity|by split; [|discriminate]]).
  unfold starts. cbn [render]. unfold num_text. destruct z as [|p|p]; cbn [Z.to_int].
  - eexists _, _. split; [reflexivity|by split; [|discriminate]].
  - pose proof (to_uint_integer p) as H. destruct (Pos.to_uint p); try discriminate;
      (eexists _, _; split; [reflexivity|by split; [|discriminate]]).
  - eexists _, _. split; [reflexivity|by split; [|discriminate]].
Qed.

Lemma starts_app t r : starts t -> exists a t', t ++ r = a :: t' /\ skip_ws (t ++ r) = t ++ r /\ a <> "]"%char.
Proof.
  intros (a & t' & -> & Hw & Ha). eexists _, _. split; [reflexivity|]. cbn. by rewrite Hw.
Qed.

Lemma skip_ws_cons a s : is_ws a = false -> skip_ws (a :: s) = a :: s.
Proof. intros H. cbn. by rewrite H. Qed.

Lemma join_cons x l : join (x :: l) = match l with [] => x | _ => x ++ ","%char :: join l end.
Proof. by destruct l. Qed.

Lemma deepest_cons x l : deepest (x :: l) = S (Nat.max x (deepest l)).
Proof. done. Qed.

Definition parses (j : json) : Prop := forall n r, (depth j <= n)%nat -> stops r -> wf_json j = true ->
  parse_value n (render j ++ r) = Some (j, r).

Lemma parse_elems_text l : l <> [] -> Forall parses l -> forall n r,
  (deepest (map depth l) <= n)%nat -> forallb wf_json l = true ->
  parse_elems n (join (map render l) ++ "]"%char :: r) = Some (l, r).
Proof.
  induction l as [|x l IH]; [done|]. intros _ [Hx Hl]%list.Forall_cons n r Hn [Hwx Hwl]%andb_true_iff.
  cbn [map] in *. rewrite deepest_cons in Hn. destruct n as [|n]; [lia|].
  rewrite join_cons. cbn [parse_elems]. destruct l as [|y l].
  - cbn [map]. rewrite Hx; [done|lia|done|done].
  - cbn [map] in *. rewrite <- app_assoc. cbn [app]. rewrite Hx; [|lia|done|done].
    cbn [mbind option_bind]. rewrite skip_ws_cons, bool_decide_true by done.
    rewrite IH; [done..|lia|done].
Qed.

Lemma parse_members_text ms : ms <> [] -> Forall (fun m => parses m.2) ms -> forall n r,
  (deepest (map (fun m => depth m.2) ms) <= n)%nat -> forallb (fun m => plain m.1 && wf_json m.2) ms = true ->
  parse_members n (join (map (fun m => quoted m.1 ++ ":"%char :: render m.2) ms) ++ "}"%char :: r) = Some (ms, r).
Proof.
  induction ms as [|[k x] ms IH]; [done|]. intros _ [Hx Hl]%list.Forall_cons n r Hn Hw.
  cbn [forallb fst snd] in Hw. apply andb_true_iff in Hw as [[Hk Hwx]%andb_true_iff Hwl].
  cbn [map fst snd] in *. rewrite deepest_cons in Hn. destruct n as [|n]; [lia|].
  rewrite join_cons. unfold quoted. cbn [parse_members].
  assert (Hgo : forall t, skip_ws (((quote_char :: k ++ [quote_char]) ++ ":"%char :: render x) ++ t) =
            quote_char :: k ++ quote_char :: ":"%char :: render x ++ t).
  { intros t. cbn [app]. rewrite <- !app_assoc. done. }
  destruct ms as [|m ms].
  - cbn [map]. rewrite Hgo, (bool_decide_true (quote_char = quote_char)) by done.
    rewrite read_string_text by done. cbn [mbind option_bind].
    rewrite skip_ws_cons, (bool_decide_true (":"%char = ":"%char)) by done. rewrite Hx; [done|lia|done|done].
  - cbn [map] in *. rewrite <- app_assoc, Hgo. cbn [app]. rewrite (bool_decide_true (quote_char = quote_char)) by done.
    rewrite read_string_text by done. cbn [mbind option_bind].
    rewrite skip_ws_cons, (bool_decide_true (":"%char = ":"%char)) by done. rewrite Hx; [|lia|done|done].
    cbn [mbind option_bind]. rewrite skip_ws_cons, (bool_decide_true (","%char = ","%char)) by done.
    rewrite IH; [done..|lia|done].
Qed.

Lemma render_parses j : parses j.
Proof.
  induction j as [|b|z|s|l Hl|ms Hms] using json_induction; intros n r Hn Hr Hw; (destruct n as [|n]; [cbn in Hn; lia|]).
  - done.
  - by destruct b.
  - cbn [parse_value render]. unfold num_text. destruct z as [|p|p]; cbn [Z.to_int].
    + change (parse_number false (uint_text (Decimal.D0 Decimal.Nil) ++ r) = Some (JNum 0, r)).
      by apply (parse_number_text false).
    + pose proof (parse_number_text false (Pos.to_uint p) r Hr (to_uint_integer p)) as H.
      cbn iota in H. rewrite (DecimalZ.of_to (Z.pos p) : Z.of_int (Decimal.Pos (Pos.to_uint p)) = Z.pos p) in H.
      pose proof (to_uint_integer p) as Hi.
      destruct (Pos.to_uint p) eqn:Hp; try discriminate; exact H.
    + pose proof (parse_number_text true (Pos.to_uint p) r Hr (to_uint_integer p)) as H.
      cbn iota in H. rewrite (DecimalZ.of_to (Z.neg p) : Z.of_int (Decimal.Neg (Pos.to_uint p)) = Z.neg p) in H.
      exact H.
  - cbn [render wf_json] in *. unfold quoted. cbn [app]. rewrite <- app_assoc. cbn [parse_value].
    rewrite skip_ws_cons by done. change (skip_ws (quote_char :: ?x)) with (quote_char :: x).
    cbn -[read_string]. by rewrite read_string_text.
  - cbn [render]. cbn [app]. rewrite <- app_assoc. cbn [parse_value app]. rewrite skip_ws_cons by done.
    destruct l as [|x l]; [done|].
    destruct (starts_app (render x) (match map render l with [] => [] | _ => ","%char :: join (map render l) end ++ "]"%char :: r)
      (render_starts x)) as (a & t & Ha & Hsk & Hne).
    assert (Hj : join (map render (x :: l)) ++ "]"%char :: r =
      render x ++ match map render l with [] => [] | _ => ","%char :: join (map render l) end ++ "]"%char :: r).
    { cbn [map]. rewrite join_cons. destruct (map render l); cbn [app]; by rewrite <- ?app_assoc. }
    rewrite Hj, Hsk, Ha, (bool_decide_false (a = "]"%char)) by done. rewrite <- Ha, <- Hj. cbn [depth wf_json] in *.
    rewrite parse_elems_text; [done..|lia|done].
  - cbn [render]. cbn [app]. rewrite <- app_assoc. cbn [parse_value app]. rewrite skip_ws_cons by done.
    destruct ms as [|m ms]; [done|]. cbn [depth wf_json] in *.
    set (body := join (map _ (m :: ms)) ++ "}"%char :: r).
    assert (Hb : exists t, body = quote_char :: t).
    { unfold body. cbn [map]. rewrite join_cons. unfold quoted. destruct (map _ ms); cbn [app]; eauto. }
    destruct Hb as [t Hb]. rewrite Hb at 1. rewrite skip_ws_cons by done.
    change (bool_decide (quote_char = "}"%char)) with false. cbn iota. unfold body.
    rewrite parse_members_text; [done..|lia|done].
Qed.

Lemma deepest_bound {A} (d : A -> nat) (f : A -> text) l :
  Forall (fun x => (d x <= 2 * length (f x))%nat) l ->
  (deepest (map d l) <= 2 * length (join (map f l)) + 1)%nat.
Proof.
  induction 1 as [|x l Hx Hl IH]; [cbn; lia|]. cbn [map]. rewrite deepest_cons, join_cons.
  destruct l as [|y l]; [cbn in *; lia|]. cbn [map] in *. rewrite length_app. cbn [length]. lia.
Qed.

Lemma depth_bound j : (depth j <= 2 * length (render j))%nat.
Proof.
  induction j as [|b|z|s|l Hl|ms Hms] using json_induction.
  - cbn. lia.
  - destruct b; cbn; lia.
  - destruct (render_starts (JNum z)) as (a & t & -> & _). cbn. lia.
  - cbn. lia.
  - cbn [depth render length]. rewrite length_app. pose proof (deepest_bound depth render l Hl). cbn [length]. lia.
  - cbn [depth render length]. rewrite length_app.
    pose proof (deepest_bound (fun m => depth m.2) (fun m => quoted m.1 ++ ":"%char :: render m.2) ms) as H.
    enough (deepest (map (fun m => depth m.2) ms) <=
            2 * length (join (map (fun m => quoted m.1 ++ ":"%char :: render m.2) ms)) + 1)%nat by (cbn [length]; lia).
    apply H. clear H. induction Hms as [|m ms Hm Hms IH]; constructor; [|done].
    rewrite length_app. cbn [length]. lia.
Qed.

(** Round trip on whole texts. *)
Lemma parse_render j : wf_json j = true -> parse (render j) = Some j.
Proof.
  intros Hw. unfold parse. pose proof (depth_bound j).
  pose proof (render_parses j (2 * length (render j) + 2)%nat [] ltac:(lia) I Hw) as Hp.
  rewrite app_nil_r in Hp. by rewrite Hp.
Qed.

(** What starts with a brace parses to an object. *)
Lemma parse_brace n s v r : parse_value n ("{"%char :: s) = Some (v, r) -> is_num v = false.
Proof.
  destruct n as [|n]; [done|]. cbn [parse_value]. rewrite skip_ws_cons, bool_decide_true by done.
  destruct (skip_ws s) as [|b s']; [done|]. destruct (bool_decide (b = "}"%char)); [by intros [= <- _]|].
  destruct (parse_members n s) as [[ms q]|]; [|done]. by intros [= <- _].
Qed.

(** A proper prefix of an object is no value: a torn line is recognised. *)
Lemma parse_torn ms t u : wf_json (JObj ms) = true -> render (JObj ms) = t ++ u -> u <> [] -> parse t = None.
Proof.
  intros Hw Ht Hu. unfold parse. destruct (parse_value _ t) as [[v r]|] eqn:E; [|done]. cbn [mbind option_bind].
  destruct (skip_ws r) eqn:Hr; [|done]. exfalso.
  assert (Hnum : is_num v = false).
  { destruct t as [|a t]; [done|]. cbn [render app] in Ht. injection Ht as <- _. by eapply parse_brace. }
  apply (proj1 (parse_local _)) with (u := u) in E; [|by rewrite Hnum].
  apply (parse_value_le _ (2 * length (t ++ u) + 2)%nat) in E; [|rewrite length_app; lia].
  pose proof (render_parses (JObj ms) (2 * length (t ++ u) + 2)%nat []) as Hp.
  pose proof (depth_bound (JObj ms)) as Hd. rewrite Ht in Hd.
  rewrite app_nil_r, Ht, E in Hp. specialize (Hp ltac:(lia) I Hw). injection Hp as _ Hnil.
  by apply app_eq_nil in Hnil as [_ ->].
Qed.

(** Numbers are short. *)
Lemma double_digits u : (Decimal.nb_digits (Decimal.Little.double u) <= Decimal.nb_digits u + 1)%nat /\
  (Decimal.nb_digits (Decimal.Little.succ_double u) <= Decimal.nb_digits u + 1)%nat.
Proof. induction u as [|u [IH1 IH2]|u [IH1 IH2]|u [IH1 IH2]|u [IH1 IH2]|u [IH1 IH2]|u [IH1 IH2]|u [IH1 IH2]|u [IH1 IH2]|u [IH1 IH2]|u [IH1 IH2]]; cbn in *; lia. Qed.

Lemma little_digits p k : Z.pos p < 2 ^ Z.of_nat k -> (Decimal.nb_digits (Pos.to_little_uint p) <= k + 1)%nat.
Proof.
  revert k. induction p as [p IH|p IH|]; intros k Hk; [| |cbn; lia];
    (destruct k as [|k]; [cbn in Hk; lia|]; rewrite Nat2Z.inj_succ, Z.pow_succ_r in Hk by lia;
     specialize (IH k ltac:(lia)); cbn [Pos.to_little_uint];
     pose proof (double_digits (Pos.to_little_uint p)); lia).
Qed.

Lemma uint_text_length u : length (uint_text u) = Decimal.nb_digits u.
Proof. induction u; cbn; congruence. Qed.

Lemma num_text_short z : - 2 ^ 64 < z < 2 ^ 64 -> (length (num_text z) <= 66)%nat.
Proof.
  intros Hz. assert (Hp : forall p, Z.pos p < 2 ^ 64 -> (length (uint_text (Pos.to_uint p)) <= 65)%nat).
  { intros p Hp. rewrite uint_text_length. unfold Pos.to_uint. rewrite nb_digits_rev.
    by apply (little_digits p 64). }
  unfold num_text, Z.to_int. destruct z as [|p|p]; cbn [length]; [cbn; lia| |];
    (assert (Z.pos p < 2 ^ 64) as Hlt by lia; specialize (Hp p Hlt); lia).
Qed.

(** ** A rendered value is on one line *)
Definition one_line (s : text) : Prop := Forall (fun a => a <> "010"%char /\ a <> "013"%char) s.

Lemma one_line_app s t : one_line s -> one_line t -> one_line (s ++ t).
Proof. apply list.Forall_app_2. Qed.

Lemma plain_one_line s : plain s = true -> one_line s.
Proof.
  induction s as [|a s IH]; [constructor|]. unfold plain. cbn. intros [Ha Hs]%andb_prop.
  constructor; [|by apply IH]. split; intros ->; done.
Qed.

Lemma quoted_one_line s : plain s = true -> one_line (quoted s).
Proof.
  intros Hs. constructor; [done|]. apply one_line_app; [by apply plain_one_line|]. repeat constructor; done.
Qed.

Lemma uint_one_line u : one_line (uint_text u).
Proof. induction u; cbn; repeat constructor; done. Qed.

Lemma join_one_line l : Forall one_line l -> one_line (join l).
Proof.
  induction 1 as [|x l Hx Hl IH]; [constructor|]. rewrite join_cons. destruct l; [done|].
  apply one_line_app; [done|]. by constructor.
Qed.

Lemma bracketed_one_line (a b : ascii) (s : text) : one_line [a; b] -> one_line s -> one_line (a :: s ++ [b]).
Proof.
  intros Hab Hs. apply list.Forall_cons in Hab as [Ha Hb]. constructor; [done|]. by apply one_line_app.
Qed.

Lemma render_one_line j : wf_json j = true -> one_line (render j).
Proof.
  induction j as [|b|z|s|l Hl|ms Hms] using json_induction; intros Hw.
  - repeat constructor; done.
  - destruct b; repeat constructor; done.
  - cbn. unfold num_text. destruct (Z.to_int z) as [u|u]; [apply uint_one_line|].
    constructor; [done|apply uint_one_line].
  - by apply quoted_one_line.
  - cbn. apply bracketed_one_line; [repeat constructor; done|]. apply join_one_line. cbn in Hw.
    induction Hl as [|x l Hx Hl IH]; cbn in *; [constructor|]. apply andb_prop in Hw as [H1 H2].
    constructor; [by apply Hx|by apply IH].
  - cbn. apply bracketed_one_line; [repeat constructor; done|]. apply join_one_line. cbn in Hw.
    induction Hms as [|x l Hx Hl IH]; cbn in *; [constructor|]. apply andb_prop in Hw as [[H1 H2]%andb_prop H3].
    constructor; [|by apply IH]. change (one_line (quoted x.1 ++ ":"%char :: render x.2)).
    apply one_line_app; [by apply quoted_one_line|].
    constructor; [done|by apply Hx].
Qed.
