(* ===== verification/Sinks.v ===== *)
(** * JSON-lines file sinks ([internal/sinks])

    [SBatchFileSink] and [VEnvFileSink] append records to a file, a line each,
    through a [bufio.Writer]; [ReadAllSLog] and [ReadAllVLog] read a log back.
    A record type says how it is written and read ([Logged]).  What the
    operating system answers to the successive writes is part of the state: the
    bytes written before an error, or none for success. *)
From Stdlib Require Import Ascii.
From S2P Require Import Prelude TfdTypes Json.

(** ** Records as JSON *)
Class Logged (A : Type) := {
  to_json : A -> json;
  from_json : json -> option A   (* [json.Unmarshal] into a zero record *)
}.

Definition newline : ascii := "010"%char.
Definition row {A} `{Logged A} (a : A) : text := render (to_json a) ++ [newline].
Definition rows {A} `{Logged A} (l : list A) : text := concat (map row l).

Definition upper (a : ascii) : ascii :=
  let n := N_of_ascii a in
  if ((97 <=? n) && (n <=? 122))%N then ascii_of_N (n - 32) else a.
(** Field names match whatever the case of their letters. *)
Definition named (s : string) (k : text) : bool := bool_decide (map upper (txt s) = map upper k).

(** A number into a field of a bounded type; [null] leaves the field alone. *)
Definition json_int (lo hi old : Z) (j : json) : option Z :=
  match j with
  | JNull => Some old
  | JNum z => if (lo <=? z) && (z <=? hi) then Some z else None
  | _ => None
  end.
Definition json_uint64 : Z -> json -> option Z := json_int 0 (2 ^ 64 - 1).
Definition json_int64 : Z -> json -> option Z := json_int (- 2 ^ 63) (2 ^ 63 - 1).
Definition json_bool (old : bool) (j : json) : option bool :=
  match j with JNull => Some old | JBool b => Some b | _ => None end.

(** Members in their order, each into the record the previous ones left. *)
Fixpoint set_members {A} (set : text -> json -> A -> option A) (ms : list (text * json)) (a : A) : option A :=
  match ms with
  | [] => Some a
  | m :: ms => a' ← set m.1 m.2 a; set_members set ms a'
  end.
Definition json_struct {A} (set : text -> json -> A -> option A) (old : A) (j : json) : option A :=
  match j with JNull => Some old | JObj ms => set_members set ms old | _ => None end.

(** An array of bytes: what is missing is 0, what is too much is dropped. *)
Fixpoint set_bytes (old : list Z) (l : list json) : option (list Z) :=
  match old, l with
  | [], _ => Some []
  | _ :: old, [] => bs ← set_bytes old []; Some (0 :: bs)
  | o :: old, j :: l => b ← json_int 0 255 o j; bs ← set_bytes old l; Some (b :: bs)
  end.
Definition json_bytes (old : list Z) (j : json) : option (list Z) :=
  match j with JNull => Some old | JArr l => set_bytes old l | _ => None end.

(** [SBatch] *)
Definition SBatch_json (b : SBatch) : json :=
  JObj [(txt "KeyID", JNum (b_KeyID b)); (txt "BucketID", JNum (b_BucketID b));
        (txt "NetDelta", JNum (b_NetDelta b)); (txt "SeqEnd", JNum (b_SeqEnd b))].
Definition SBatch_set (k : text) (j : json) (b : SBatch) : option SBatch :=
  if named "KeyID" k then v ← json_uint64 (b_KeyID b) j; Some (mkSBatch v (b_BucketID b) (b_NetDelta b) (b_SeqEnd b))
  else if named "BucketID" k then v ← json_uint64 (b_BucketID b) j; Some (mkSBatch (b_KeyID b) v (b_NetDelta b) (b_SeqEnd b))
  else if named "NetDelta" k then v ← json_int64 (b_NetDelta b) j; Some (mkSBatch (b_KeyID b) (b_BucketID b) v (b_SeqEnd b))
  else if named "SeqEnd" k then v ← json_uint64 (b_SeqEnd b) j; Some (mkSBatch (b_KeyID b) (b_BucketID b) (b_NetDelta b) v)
  else Some b.
Definition zero_SBatch : SBatch := mkSBatch 0 0 0 0.
#[export] Instance SBatch_logged : Logged SBatch :=
  { to_json := SBatch_json; from_json := json_struct SBatch_set zero_SBatch }.

(** [Envelope]; a channel is written as 0 or 1, and nothing else is read. *)
Definition channel_num (c : Channel) : Z := match c with ChannelScalar => 0 | ChannelVector => 1 end.
Definition json_channel (old : Channel) (j : json) : option Channel :=
  v ← json_int 0 1 (channel_num old) j; Some (if v =? 0 then ChannelScalar else ChannelVector).

Definition Time_json (t : TimeFootprint) : json :=
  JObj [(txt "BucketID", JNum (t_BucketID t)); (txt "All", JBool (t_All t))].
Definition Footprint_json (f : Footprint) : json :=
  JObj [(txt "KeyID", JNum (f_KeyID f)); (txt "Time", Time_json (f_Time f)); (txt "Scope", JNum (channel_num (f_Scope f)))].
Definition Envelope_json (e : Envelope) : json :=
  JObj [(txt "Channel", JNum (channel_num (e_Channel e))); (txt "Footprint", Footprint_json (e_Footprint e));
        (txt "Delta", JNum (e_Delta e)); (txt "SeqEnd", JNum (e_SeqEnd e));
        (txt "HashPrev", JArr (map JNum (e_HashPrev e)))].

Definition Time_set (k : text) (j : json) (t : TimeFootprint) : option TimeFootprint :=
  if named "BucketID" k then v ← json_uint64 (t_BucketID t) j; Some (mkTime v (t_All t))
  else if named "All" k then v ← json_bool (t_All t) j; Some (mkTime (t_BucketID t) v)
  else Some t.
Definition Footprint_set (k : text) (j : json) (f : Footprint) : option Footprint :=
  if named "KeyID" k then v ← json_uint64 (f_KeyID f) j; Some (mkFootprint v (f_Time f) (f_Scope f))
  else if named "Time" k then v ← json_struct Time_set (f_Time f) j; Some (mkFootprint (f_KeyID f) v (f_Scope f))
  else if named "Scope" k then v ← json_channel (f_Scope f) j; Some (mkFootprint (f_KeyID f) (f_Time f) v)
  else Some f.
Definition Envelope_set (k : text) (j : json) (e : Envelope) : option Envelope :=
  if named "Channel" k then v ← json_channel (e_Channel e) j;
    Some (mkEnvelope v (e_Footprint e) (e_Delta e) (e_SeqEnd e) (e_HashPrev e))
  else if named "Footprint" k then v ← json_struct Footprint_set (e_Footprint e) j;
    Some (mkEnvelope (e_Channel e) v (e_Delta e) (e_SeqEnd e) (e_HashPrev e))
  else if named "Delta" k then v ← json_int64 (e_Delta e) j;
    Some (mkEnvelope (e_Channel e) (e_Footprint e) v (e_SeqEnd e) (e_HashPrev e))
  else if named "SeqEnd" k then v ← json_uint64 (e_SeqEnd e) j;
    Some (mkEnvelope (e_Channel e) (e_Footprint e) (e_Delta e) v (e_HashPrev e))
  else if named "HashPrev" k then v ← json_bytes (e_HashPrev e) j;
    Some (mkEnvelope (e_Channel e) (e_Footprint e) (e_Delta e) (e_SeqEnd e) v)
  else Some e.
Definition zero_Envelope : Envelope :=
  mkEnvelope ChannelScalar (mkFootprint 0 (mkTime 0 false) ChannelScalar) 0 0 no_hash.
#[export] Instance Envelope_logged : Logged Envelope :=
  { to_json := Envelope_json; from_json := json_struct Envelope_set zero_Envelope }.

(** ** The file and its buffered writer *)
Record Sink := mkSink {
  disk : text;                     (* the file's content *)
  outcomes : list (option nat);    (* of the writes to come; success when none is left *)
  closed : bool;
  wsize : Z;                       (* [bufio.Writer] *)
  buf : text;
  err : bool;
  lastFlush : Z
}.

Definition file_write (p : text) (s : Sink) : Sink * bool :=
  if closed s then (s, true)
  else
    let '(n, failed, os) :=
      match outcomes s with
      | Some n :: os => (n, true, os)
      | None :: os => (length p, false, os)
      | [] => (length p, false, [])
      end in
    (mkSink (disk s ++ take n p) os (closed s) (wsize s) (buf s) (err s) (lastFlush s), failed).

Definition set_buf (b : text) (e : bool) (s : Sink) : Sink :=
  mkSink (disk s) (outcomes s) (closed s) (wsize s) b e (lastFlush s).

(** After a failure the writer keeps its error: nothing is written any more. *)
Definition bufio_flush (s : Sink) : Sink :=
  if err s then s
  else match buf s with
       | [] => s
       | _ =>
           let '(s', failed) := file_write (buf s) s in
           if failed then set_buf (drop (length (disk s') - length (disk s)) (buf s)) true s'
           else set_buf [] false s'
       end.

Definition available (s : Sink) : Z := wsize s - Z.of_nat (length (buf s)).
(** A turn of the loop of [Write]: into the buffer what fits, or past it. *)
Definition bufio_turn (p : text) (s : Sink) : text * Sink :=
  match buf s with
  | [] => let '(s', failed) := file_write p s in
          (drop (length (disk s') - length (disk s)) p, set_buf [] failed s')
  | _ =>
      let n := Z.to_nat (available s) in
      (drop n p, bufio_flush (set_buf (buf s ++ take n p) (err s) s))
  end.
Fixpoint bufio_loop (n : nat) (p : text) (s : Sink) : text * Sink :=
  match n with
  | O => (p, s)
  | S n =>
      if (Z.of_nat (length p) >? available s) && negb (err s)
      then let '(p', s') := bufio_turn p s in bufio_loop n p' s'
      else (p, s)
  end.
Definition bufio_Write (p : text) (s : Sink) : Sink * bool :=
  let '(p', s') := bufio_loop 2 p s in
  if err s' then (s', true) else (set_buf (buf s' ++ p') false s', false).

(** [json.Encoder.Encode]; the encoder too keeps its error. *)
Definition Encode {A} `{Logged A} (a : A) (es : bool * Sink) : (bool * Sink) * bool :=
  let '(enc_err, s) := es in
  if enc_err then ((true, s), true)
  else let '(s', failed) := bufio_Write (row a) s in ((failed, s'), failed).

(** ** [SBatchFileSink] and [VEnvFileSink] *)
Definition bufio_size : Z := Z.shiftl 1 20.
Definition flush_interval : Z := 100000000.

(** [opened] is what the file holds when it can be opened. *)
Definition New_sink (opened : option text) (os : list (option nat)) (now : Z) : option Sink :=
  content ← opened; Some (mkSink content os false bufio_size [] false now).
Definition NewSBatchFileSink := New_sink.
Definition NewVEnvFileSink := New_sink.

Definition set_lastFlush (now : Z) (s : Sink) : Sink :=
  mkSink (disk s) (outcomes s) (closed s) (wsize s) (buf s) (err s) now.

(** [time.Since(s.lastFlush) > 100*time.Millisecond] *)
Definition flush_if_due (now : Z) (s : Sink) : Sink :=
  if time_Sub now (lastFlush s) >? flush_interval then set_lastFlush now (bufio_flush s) else s.

Definition OnSBatches (now : Z) (b : list SBatch) (s : Sink) : Sink :=
  match b with
  | [] => s
  | _ =>
      let '(_, s') := foldl (fun es sb =>
        let '(es', failed) := Encode sb es in
        if failed then (Encode sb (es'.1, bufio_flush es'.2)).1 else es') (false, s) b in
      flush_if_due now s'
  end.

Definition Append (now : Z) (env : Envelope) (s : Sink) : Sink :=
  flush_if_due now (Encode env (false, s)).1.2.

Definition AppendAll (now : Z) (envs : list Envelope) (s : Sink) : Sink :=
  match envs with
  | [] => s
  | _ => flush_if_due now (foldl (fun es env => (Encode env es).1) (false, s) envs).2
  end.

Definition sink_Flush (now : Z) (s : Sink) : Sink * bool :=
  let s' := bufio_flush (set_lastFlush now s) in (s', err s').
Definition sink_Close (s : Sink) : Sink :=
  let s' := bufio_flush s in
  mkSink (disk s') (outcomes s') true (wsize s') (buf s') (err s') (lastFlush s').

(** ** Reading a log *)
Definition max_token : Z := Z.shiftl 1 26.

Fixpoint split_lines (s : text) : list text :=
  match s with
  | [] => []
  | a :: s =>
      if bool_decide (a = newline) then [] :: split_lines s
      else match split_lines s with
           | [] => [[a]]
           | l :: ls => (a :: l) :: ls
           end
  end.

(** [bufio.ScanLines] drops a carriage return at the end of a line. *)
Fixpoint drop_cr (l : text) : text :=
  match l with
  | [] => []
  | [a] => if bool_decide (a = "013"%char) then [] else [a]
  | a :: l => a :: drop_cr l
  end.

(** The lines, and whether the scan ended with an error: a line that fills the
    buffer ends it. *)
Fixpoint scan (ls : list text) : list text * bool :=
  match ls with
  | [] => ([], false)
  | l :: ls =>
      if Z.of_nat (length l) <? max_token
      then let '(out, e) := scan ls in (drop_cr l :: out, e)
      else ([], true)
  end.

Definition unmarshal {A} `{Logged A} (l : text) : option A := j ← parse l; from_json j.

(** A line that does not parse is skipped. *)
Definition ReadAll {A} `{Logged A} (opened : option text) : list A * bool :=
  match opened with
  | None => ([], true)
  | Some content => let '(ls, e) := scan (split_lines content) in (omap unmarshal ls, e)
  end.
Definition ReadAllSLog : option text -> list SBatch * bool := ReadAll.
Definition ReadAllVLog : option text -> list Envelope * bool := ReadAll.
