(* ===== verification/SinksRead.v ===== *)
(** * Reading a log back

    Reading what was written gives the records again, and reading the start of a
    log, cut anywhere, gives its first records.  The two record types of the
    sinks satisfy what that takes. *)
From Stdlib Require Import Ascii.
From S2P Require Import Prelude TfdTypes Json Sinks.

(** What the sinks need of a record type, for the records in [ok]. *)
Class LoggedLaws (A : Type) `{Logged A} (ok : A -> Prop) := {
  logged_object a : exists ms, to_json a = JObj ms;
  logged_wf a : wf_json (to_json a) = true;
  logged_back a : ok a -> from_json (to_json a) = Some a;
  logged_short a : ok a -> Z.of_nat (length (render (to_json a))) < max_token
}.

(** ** Reading *)
Section reading.
Context {A : Type} `{HA : LoggedLaws A ok}.

Lemma row_one_line a : one_line (render (to_json a)).
Proof. apply render_one_line, logged_wf. Qed.

Lemma split_lines_line t s : one_line t -> split_lines (t ++ newline :: s) = t :: split_lines s.
Proof.
  induction 1 as [|a t [Ha _] Ht IH]; [done|]. cbn [app split_lines].
  rewrite bool_decide_false by done. by rewrite IH.
Qed.

Lemma split_lines_last t : one_line t -> t <> [] -> split_lines t = [t].
Proof.
  induction 1 as [|a t [Ha _] Ht IH]; [done|]. intros _. cbn [split_lines]. rewrite bool_decide_false by done.
  destruct t as [|b t]; [done|]. by rewrite IH.
Qed.

Lemma drop_cr_one_line t : one_line t -> drop_cr t = t.
Proof.
  induction 1 as [|a t [_ Ha] Ht IH]; [done|]. destruct t as [|b t]; cbn [drop_cr]; [by rewrite bool_decide_false|].
  f_equal. exact IH.
Qed.

Lemma unmarshal_row a : ok a -> unmarshal (render (to_json a)) = Some a.
Proof.
  intros Ha. unfold unmarshal. rewrite parse_render by apply logged_wf. by apply logged_back.
Qed.

Lemma read_row a w : ok a ->
  ReadAll (Some (row a ++ w)) = (a :: (ReadAll (Some w)).1, (ReadAll (A:=A) (Some w)).2).
Proof.
  intros Ha. unfold ReadAll, row. rewrite <- app_assoc. cbn [app].
  rewrite split_lines_line by apply row_one_line. cbn [scan].
  pose proof (logged_short a Ha) as Hs. apply Z.ltb_lt in Hs. rewrite Hs.
  destruct (scan (split_lines w)) as [ls e]. rewrite drop_cr_one_line by apply row_one_line.
  cbn [omap list_omap fst snd]. by rewrite unmarshal_row.
Qed.

(** A line that was cut: nothing is read, unless only its end is missing. *)
Lemma read_cut a t u : ok a -> render (to_json a) = t ++ u ->
  ReadAll (Some t) = (if decide (u = []) then [a] else [], false).
Proof.
  intros Ha Ht. destruct t as [|x t].
  { cbn in Ht. subst u. destruct (logged_object a) as [ms ->]. by case_decide. }
  assert (one_line (x :: t)) as Hl.
  { pose proof (row_one_line a) as Hr. unfold one_line in Hr. rewrite Ht in Hr. by apply list.Forall_app in Hr as [? _]. }
  unfold ReadAll. rewrite split_lines_last by done. cbn [scan]. rewrite drop_cr_one_line by done.
  pose proof (logged_short a Ha) as Hs. rewrite Ht, length_app in Hs.
  destruct (Z.ltb_spec (Z.of_nat (length (x :: t))) max_token) as [_|]; [|lia]. cbn [omap list_omap].
  case_decide as Hu.
  - subst u. rewrite app_nil_r in Ht. by rewrite <- Ht, unmarshal_row.
  - unfold unmarshal. destruct (logged_object a) as [ms Hms]. pose proof (logged_wf a) as Hw. rewrite Hms in *.
    by rewrite (parse_torn ms _ u).
Qed.

Lemma prefix_app_cases (w x y : text) : w `prefix_of` x ++ y ->
  (exists z, w = x ++ z /\ z `prefix_of` y) \/ (exists u, x = w ++ u /\ u <> []).
Proof.
  revert w. induction x as [|a x IH]; intros w Hw; [left; by exists w|].
  destruct w as [|b w]; [right; by exists (a :: x)|]. cbn in Hw.
  apply prefix_cons_inv_1 in Hw as ?. apply prefix_cons_inv_2 in Hw. subst b.
  destruct (IH w Hw) as [(z & -> & Hz)|(u & -> & Hu)]; [left; by exists z|right; by exists u].
Qed.

(** What is read from the start of a log are its first records. *)
Lemma read_prefix l w : Forall ok l -> w `prefix_of` rows l ->
  exists k, ReadAll (Some w) = (take k l, false).
Proof.
  intros Hl. revert w. induction Hl as [|a l Ha Hl IH]; intros w Hw.
  { apply prefix_nil_inv in Hw as ->. by exists O. }
  unfold rows in Hw. cbn [map concat] in Hw. fold (rows l) in Hw.
  destruct (prefix_app_cases _ _ _ Hw) as [(z & -> & Hz)|(u & Hu & Hne)].
  { destruct (IH z Hz) as [k Hk]. exists (S k). by rewrite read_row, Hk. }
  destruct (exists_last Hne) as (u' & n & ->). unfold row in Hu. rewrite app_assoc in Hu.
  apply app_inj_tail in Hu as [Hu _]. rewrite (read_cut a w u' Ha Hu).
  case_decide; [by exists 1%nat|by exists O].
Qed.

Lemma read_rows l : Forall ok l -> ReadAll (Some (rows l)) = (l, false).
Proof.
  induction 1 as [|a l Ha Hl IH]; [done|]. unfold rows. cbn [map concat]. fold (rows l).
  by rewrite read_row, IH.
Qed.

Lemma rows_app (l l' : list A) : rows (l ++ l') = rows l ++ rows l'.
Proof. unfold rows. by rewrite map_app, concat_app. Qed.
End reading.

(** ** The two record types *)
Definition batch_ok (b : SBatch) : Prop :=
  inu64 (b_KeyID b) /\ inu64 (b_BucketID b) /\ in64 (b_NetDelta b) /\ inu64 (b_SeqEnd b).
Definition envelope_ok (e : Envelope) : Prop :=
  inu64 (f_KeyID (e_Footprint e)) /\ inu64 (t_BucketID (f_Time (e_Footprint e))) /\
  in64 (e_Delta e) /\ inu64 (e_SeqEnd e) /\
  length (e_HashPrev e) = 16%nat /\ Forall (fun b => 0 <= b < 256) (e_HashPrev e).

Lemma json_int_in lo hi old z : lo <= z <= hi -> json_int lo hi old (JNum z) = Some z.
Proof. intros Hz. cbn. destruct (Z.leb_spec lo z), (Z.leb_spec z hi); cbn; try done; lia. Qed.

Lemma json_uint64_in old z : inu64 z -> json_uint64 old (JNum z) = Some z.
Proof. unfold inu64. intros. apply json_int_in. lia. Qed.
Lemma json_int64_in old z : in64 z -> json_int64 old (JNum z) = Some z.
Proof. unfold in64, MinInt64, MaxInt64. intros. apply json_int_in. lia. Qed.

Lemma json_channel_num old c : json_channel old (JNum (channel_num c)) = Some c.
Proof. by destruct c. Qed.

Lemma set_bytes_back old bs : length old = length bs -> Forall (fun b => 0 <= b < 256) bs ->
  set_bytes old (map JNum bs) = Some bs.
Proof.
  intros Hl Hb. revert old Hl. induction Hb as [|b bs Hb Hbs IH]; intros [|o old] Hl; try done.
  cbn [map set_bytes]. rewrite json_int_in by lia. cbn [mbind option_bind]. rewrite IH by (cbn in Hl; lia). done.
Qed.

(** Each member sets its field. *)
Lemma SBatch_members b j :
  SBatch_set (txt "KeyID") j b = (v ← json_uint64 (b_KeyID b) j; Some (mkSBatch v (b_BucketID b) (b_NetDelta b) (b_SeqEnd b))) /\
  SBatch_set (txt "BucketID") j b = (v ← json_uint64 (b_BucketID b) j; Some (mkSBatch (b_KeyID b) v (b_NetDelta b) (b_SeqEnd b))) /\
  SBatch_set (txt "NetDelta") j b = (v ← json_int64 (b_NetDelta b) j; Some (mkSBatch (b_KeyID b) (b_BucketID b) v (b_SeqEnd b))) /\
  SBatch_set (txt "SeqEnd") j b = (v ← json_uint64 (b_SeqEnd b) j; Some (mkSBatch (b_KeyID b) (b_BucketID b) (b_NetDelta b) v)).
Proof. split_and!; reflexivity. Qed.

Lemma SBatch_back b : batch_ok b -> from_json (to_json b) = Some b.
Proof.
  intros (H1 & H2 & H3 & H4). unfold from_json, to_json, SBatch_logged, SBatch_json, json_struct. cbn [set_members fst snd].
  rewrite (proj1 (SBatch_members _ _)), json_uint64_in by done. cbn [mbind option_bind].
  rewrite (proj1 (proj2 (SBatch_members _ _))), json_uint64_in by done. cbn [mbind option_bind].
  rewrite (proj1 (proj2 (proj2 (SBatch_members _ _)))), json_int64_in by done. cbn [mbind option_bind].
  rewrite (proj2 (proj2 (proj2 (SBatch_members _ _)))), json_uint64_in by done. by destruct b.
Qed.

Lemma Time_back old t : inu64 (t_BucketID t) -> json_struct Time_set old (Time_json t) = Some t.
Proof.
  intros Ht. unfold json_struct, Time_json. cbn [set_members fst snd].
  change (Time_set (txt "BucketID") ?j ?t) with (v ← json_uint64 (t_BucketID t) j; Some (mkTime v (t_All t))).
  rewrite json_uint64_in by done. by destruct t.
Qed.

Lemma Footprint_back old f : inu64 (f_KeyID f) -> inu64 (t_BucketID (f_Time f)) ->
  json_struct Footprint_set old (Footprint_json f) = Some f.
Proof.
  intros Hk Ht. unfold json_struct, Footprint_json. cbn [set_members fst snd].
  change (Footprint_set (txt "KeyID") ?j ?f) with (v ← json_uint64 (f_KeyID f) j; Some (mkFootprint v (f_Time f) (f_Scope f))).
  rewrite json_uint64_in by done. cbn [mbind option_bind].
  change (Footprint_set (txt "Time") ?j ?f) with (v ← json_struct Time_set (f_Time f) j; Some (mkFootprint (f_KeyID f) v (f_Scope f))).
  rewrite Time_back by done. cbn [mbind option_bind].
  change (Footprint_set (txt "Scope") ?j ?f) with (v ← json_channel (f_Scope f) j; Some (mkFootprint (f_KeyID f) (f_Time f) v)).
  rewrite json_channel_num. by destruct f.
Qed.

Lemma Envelope_members e j :
  Envelope_set (txt "Channel") j e = (v ← json_channel (e_Channel e) j;
    Some (mkEnvelope v (e_Footprint e) (e_Delta e) (e_SeqEnd e) (e_HashPrev e))) /\
  Envelope_set (txt "Footprint") j e = (v ← json_struct Footprint_set (e_Footprint e) j;
    Some (mkEnvelope (e_Channel e) v (e_Delta e) (e_SeqEnd e) (e_HashPrev e))) /\
  Envelope_set (txt "Delta") j e = (v ← json_int64 (e_Delta e) j;
    Some (mkEnvelope (e_Channel e) (e_Footprint e) v (e_SeqEnd e) (e_HashPrev e))) /\
  Envelope_set (txt "SeqEnd") j e = (v ← json_uint64 (e_SeqEnd e) j;
    Some (mkEnvelope (e_Channel e) (e_Footprint e) (e_Delta e) v (e_HashPrev e))) /\
  Envelope_set (txt "HashPrev") j e = (v ← json_bytes (e_HashPrev e) j;
    Some (mkEnvelope (e_Channel e) (e_Footprint e) (e_Delta e) (e_SeqEnd e) v)).
Proof. split_and!; reflexivity. Qed.

Lemma Envelope_back e : envelope_ok e -> from_json (to_json e) = Some e.
Proof.
  intros (H1 & H2 & H3 & H4 & H5 & H6).
  unfold from_json, to_json, Envelope_logged, Envelope_json, json_struct. cbn [set_members fst snd].
  rewrite (proj1 (Envelope_members _ _)), json_channel_num. cbn [mbind option_bind].
  rewrite (proj1 (proj2 (Envelope_members _ _))), Footprint_back by done. cbn [mbind option_bind].
  rewrite (proj1 (proj2 (proj2 (Envelope_members _ _)))), json_int64_in by done. cbn [mbind option_bind].
  rewrite (proj1 (proj2 (proj2 (proj2 (Envelope_members _ _))))), json_uint64_in by done. cbn [mbind option_bind].
  rewrite (proj2 (proj2 (proj2 (proj2 (Envelope_members _ _))))). unfold json_bytes. cbn [e_HashPrev zero_Envelope].
  rewrite set_bytes_back by done. by destruct e.
Qed.

(** Records are far shorter than the longest line the reader takes. *)
Lemma num_text_u64 z : inu64 z -> (length (num_text z) <= 66)%nat.
Proof. unfold inu64. intros. apply num_text_short. lia. Qed.
Lemma num_text_i64 z : in64 z -> (length (num_text z) <= 66)%nat.
Proof. unfold in64. intros. apply num_text_short. lia. Qed.

Lemma join_length l m : Forall (fun t => (length t <= m)%nat) l -> (length (join l) <= length l * (m + 1))%nat.
Proof.
  induction 1 as [|t l Ht Hl IH]; [done|]. rewrite join_cons. destruct l; [cbn; lia|].
  rewrite length_app. cbn [length] in *. lia.
Qed.

Ltac fields_short :=
  repeat apply list.Forall_cons_2; try apply list.Forall_nil_2;
  cbn [fst snd]; cbn [txt length String.list_ascii_of_string]; try change (render (JNum ?z)) with (num_text z); lia.

Lemma bool_text_short b : (length (render (JBool b)) <= 5)%nat.
Proof. destruct b; cbn; lia. Qed.

Lemma obj_length ms m : Forall (fun x => (length x.1 + length (render x.2) <= m)%nat) ms ->
  (length (render (JObj ms)) <= length ms * (m + 4) + 2)%nat.
Proof.
  intros Hm. cbn [render length]. rewrite length_app. cbn [length].
  pose proof (join_length (map (fun x => quoted x.1 ++ ":"%char :: render x.2) ms) (m + 3)) as Hj.
  rewrite length_map in Hj. ospecialize (Hj _); [|lia].
  clear Hj. induction Hm as [|x ms Hx Hm IH]; cbn [map]; constructor; [|done]. unfold quoted. rewrite !length_app. cbn. rewrite length_app. cbn. lia.
Qed.

Lemma SBatch_short b : batch_ok b -> Z.of_nat (length (render (to_json b))) < max_token.
Proof.
  intros (H1%num_text_u64 & H2%num_text_u64 & H3%num_text_i64 & H4%num_text_u64).
  pose proof (obj_length [(txt "KeyID", JNum (b_KeyID b)); (txt "BucketID", JNum (b_BucketID b));
        (txt "NetDelta", JNum (b_NetDelta b)); (txt "SeqEnd", JNum (b_SeqEnd b))] 100) as Ho.
  ospecialize (Ho _); [fields_short|].
  change (to_json b) with (SBatch_json b). unfold SBatch_json. change max_token with 67108864. cbn [length] in Ho. lia.
Qed.

Lemma channel_short c : (length (num_text (channel_num c)) <= 66)%nat.
Proof. destruct c; cbn; lia. Qed.

Lemma bytes_short bs : length bs = 16%nat -> Forall (fun b => 0 <= b < 256) bs ->
  (length (render (JArr (map JNum bs))) <= 1200)%nat.
Proof.
  intros Hl Hb. cbn [render length]. rewrite length_app, map_map. cbn [length].
  pose proof (join_length (map (fun x => render (JNum x)) bs) 66) as Hj. rewrite length_map, Hl in Hj.
  ospecialize (Hj _); [|lia]. clear Hl Hj. induction Hb as [|b bs Hb Hbs IH]; cbn [map]; constructor; [|done].
  apply num_text_short. lia.
Qed.

Lemma Envelope_short e : envelope_ok e -> Z.of_nat (length (render (to_json e))) < max_token.
Proof.
  intros (H1%num_text_u64 & H2%num_text_u64 & H3%num_text_i64 & H4%num_text_u64 & H5 & H6).
  pose proof (bytes_short _ H5 H6) as H7. pose proof (bool_text_short (t_All (f_Time (e_Footprint e)))) as H8.
  pose proof (channel_short (e_Channel e)) as H9. pose proof (channel_short (f_Scope (e_Footprint e))) as H10.
  pose proof (obj_length [(txt "BucketID", JNum (t_BucketID (f_Time (e_Footprint e)))); (txt "All", JBool (t_All (f_Time (e_Footprint e))))] 100) as Ht.
  ospecialize (Ht _); [fields_short|].
  change (JObj _) with (Time_json (f_Time (e_Footprint e))) in Ht. cbn [length] in Ht.
  pose proof (obj_length [(txt "KeyID", JNum (f_KeyID (e_Footprint e))); (txt "Time", Time_json (f_Time (e_Footprint e)));
    (txt "Scope", JNum (channel_num (f_Scope (e_Footprint e))))] 300) as Hf.
  ospecialize (Hf _); [fields_short|].
  change (JObj _) with (Footprint_json (e_Footprint e)) in Hf. cbn [length] in Hf.
  change (to_json e) with (Envelope_json e). unfold Envelope_json.
  pose proof (obj_length [(txt "Channel", JNum (channel_num (e_Channel e))); (txt "Footprint", Footprint_json (e_Footprint e));
        (txt "Delta", JNum (e_Delta e)); (txt "SeqEnd", JNum (e_SeqEnd e));
        (txt "HashPrev", JArr (map JNum (e_HashPrev e)))] 2000) as He.
  ospecialize (He _); [fields_short|].
  change max_token with 67108864. cbn [length] in He. lia.
Qed.

#[export] Instance SBatch_laws : LoggedLaws SBatch batch_ok.
Proof.
  split; [intros b; by eexists|done|apply SBatch_back|apply SBatch_short].
Qed.

Lemma wf_nums bs : forallb wf_json (map JNum bs) = true.
Proof. induction bs; done. Qed.

#[export] Instance Envelope_laws : LoggedLaws Envelope envelope_ok.
Proof.
  split; [intros e; by eexists| |apply Envelope_back|apply Envelope_short].
  intros e. cbn -[map]. by rewrite wf_nums.
Qed.
