(* ===== verification/SinksSpec.v ===== *)
(** * What the file sinks keep

    The file always starts with what was there, followed by a prefix of what was
    appended, whatever the writes answer; after an error nothing is written any
    more, the retry included; when every write succeeds, a flush leaves every
    record readable. *)
From Stdlib Require Import Ascii.
From S2P Require Import Prelude TfdTypes Json Sinks SinksRead.

(** ** Writing

    [T] is all that was written to the buffered writer of a file that held
    [base]. *)
Definition holds (base T : text) (s : Sink) : Prop :=
  exists w, disk s = base ++ w /\ if err s then w `prefix_of` T else w ++ buf s = T.

Lemma take_prefix {X} n (l : list X) : take n l `prefix_of` l.
Proof. exists (drop n l). symmetry. apply take_drop. Qed.

Lemma file_write_spec p s : exists n, let '(s', failed) := file_write p s in
  disk s' = disk s ++ take n p /\ (failed = false -> take n p = p) /\
  err s' = err s /\ buf s' = buf s /\ wsize s' = wsize s /\ closed s' = closed s /\ lastFlush s' = lastFlush s.
Proof.
  unfold file_write. destruct (closed s) eqn:Hc.
  { exists O. cbn. rewrite app_nil_r. by split_and!. }
  destruct (outcomes s) as [|[n|] os];
    [exists (length p)|exists n|exists (length p)]; cbn; rewrite ?take_ge by lia; by split_and!.
Qed.

Lemma holds_more base T u s : holds base T s -> err s = true -> holds base (T ++ u) s.
Proof.
  intros (w & Hd & Hw) He. exists w. rewrite He in *. split; [done|]. by apply prefix_app_r.
Qed.

Lemma flush_holds base T s : holds base T s ->
  holds base T (bufio_flush s) /\ (err (bufio_flush s) = false -> buf (bufio_flush s) = []) /\
  wsize (bufio_flush s) = wsize s.
Proof.
  intros (w & Hd & Hw). unfold bufio_flush. destruct (err s) eqn:He; [split_and!; [|by rewrite He|done];
    exists w; by rewrite He|].
  destruct (buf s) as [|a b] eqn:Hb; [split_and!; [|done|done]; exists w; rewrite He, Hb; done|].
  destruct (file_write_spec (a :: b) s) as [n Hn]. destruct (file_write (a :: b) s) as [s' failed].
  destruct Hn as (Hd' & Hn & _ & _ & Hsz & _). rewrite Hd, <- app_assoc in Hd'. destruct failed; cbn.
  - split_and!; [|done|done]. exists (w ++ take n (a :: b)). cbn. split; [done|].
    rewrite <- Hw. apply prefix_app, take_prefix.
  - split_and!; [|done|done]. exists (w ++ take n (a :: b)). cbn. rewrite Hn, app_nil_r by done.
    rewrite Hn in Hd' by done. done.
Qed.

Lemma turn_holds base T p s : err s = false -> holds base T s ->
  let '(p', s') := bufio_turn p s in
  wsize s' = wsize s /\
  if err s' then holds base (T ++ p) s' else exists u, p = u ++ p' /\ holds base (T ++ u) s' /\ buf s' = [] /\
    (buf s = [] -> p' = []).
Proof.
  intros He (w & Hd & Hw). rewrite He in Hw. unfold bufio_turn. destruct (buf s) as [|a b] eqn:Hb.
  - rewrite app_nil_r in Hw. subst w. destruct (file_write_spec p s) as [n Hn].
    destruct (file_write p s) as [s' failed]. destruct Hn as (Hd' & Hn & _ & _ & Hsz & _). split; [done|].
    rewrite Hd, <- app_assoc in Hd'. destruct failed; cbn.
    + exists (T ++ take n p). split; [done|]. cbn. apply prefix_app, take_prefix.
    + rewrite Hn in Hd' by done. exists p. replace (length (disk s') - length (disk s))%nat with (length p)
        by (rewrite Hd', Hd, !length_app; lia). rewrite drop_all, app_nil_r. split_and!; try done.
      exists (T ++ p). split; [done|]. cbn. by rewrite app_nil_r.
  - set (n := Z.to_nat (available s)).
    assert (holds base (T ++ take n p) (set_buf ((a :: b) ++ take n p) (err s) s)) as Hh.
    { exists w. cbn. rewrite He, <- Hw, <- app_assoc. done. }
    apply flush_holds in Hh as (Hh & Hbuf & Hsz). split; [done|].
    destruct (err (bufio_flush _)) eqn:He'.
    + replace (T ++ p) with ((T ++ take n p) ++ drop n p) by (by rewrite <- app_assoc, take_drop). by apply holds_more.
    + exists (take n p). rewrite take_drop. split_and!; [done..|by apply Hbuf|done].
Qed.

(** The loop of [Write] needs two turns at most. *)
Lemma loop_holds base T p s : 0 < wsize s -> err s = false -> holds base T s ->
  let '(p', s') := bufio_loop 2 p s in
  wsize s' = wsize s /\
  if err s' then holds base (T ++ p) s'
  else Z.of_nat (length p') <= available s' /\ exists u, p = u ++ p' /\ holds base (T ++ u) s'.
Proof.
  intros Hs He Hh. cbn [bufio_loop]. rewrite He. cbn [negb]. rewrite andb_true_r.
  destruct (Z.gtb_spec (Z.of_nat (length p)) (available s)) as [Hgt|Hle]; cycle 1.
  { rewrite He. split_and!; [done..|]. exists []. by rewrite app_nil_r. }
  pose proof (turn_holds base T p s He Hh) as H1. destruct (bufio_turn p s) as [p1 s1].
  destruct H1 as [Hs1 H1]. destruct (err s1) eqn:He1; cbn [negb].
  { rewrite andb_false_r, He1. done. }
  destruct H1 as (u & Hp & Hh1 & Hb1 & Hp1). rewrite andb_true_r.
  assert (Hav : available s1 = wsize s) by (unfold available; rewrite Hb1, Hs1; cbn; lia).
  destruct (Z.gtb_spec (Z.of_nat (length p1)) (available s1)) as [Hgt1|Hle1]; cycle 1.
  { rewrite He1. split_and!; [done..|]. by exists u. }
  pose proof (turn_holds base _ p1 s1 He1 Hh1) as H2. destruct (bufio_turn p1 s1) as [p2 s2].
  destruct H2 as [Hs2 H2]. split; [congruence|]. destruct (err s2) eqn:He2.
  { by rewrite Hp, app_assoc. }
  destruct H2 as (v & Hv & Hh2 & Hb2 & Hp2). rewrite (Hp2 Hb1) in *. rewrite app_nil_r in Hv. subst v.
  unfold available. rewrite Hb2. cbn. split; [lia|]. exists p. rewrite app_nil_r. split; [done|].
  by rewrite Hp, app_assoc.
Qed.

Lemma write_holds base T p s : 0 < wsize s -> holds base T s ->
  let '(s', failed) := bufio_Write p s in
  failed = err s' /\ wsize s' = wsize s /\ holds base (T ++ p) s' /\ (err s = true -> s' = s).
Proof.
  intros Hs Hh. unfold bufio_Write. destruct (err s) eqn:He.
  { cbn [bufio_loop]. rewrite He. cbn [negb]. rewrite andb_false_r, He. split_and!; try done. by apply holds_more. }
  pose proof (loop_holds base T p s Hs He Hh) as Hl. destruct (bufio_loop 2 p s) as [p' s'].
  destruct Hl as [Hs' Hl]. destruct (err s') eqn:He'; [done|]. destruct Hl as (_ & u & -> & w & Hd & Hw).
  rewrite He' in Hw. split_and!; try done. exists w. cbn. split; [done|]. by rewrite !app_assoc, Hw.
Qed.

(** ** Encoding records *)
Definition good (base T : text) (s : Sink) : Prop := 0 < wsize s /\ holds base T s.

(** An encoder that stopped works on a writer that stopped. *)
Definition enc_good (base T : text) (es : bool * Sink) : Prop :=
  good base T es.2 /\ (es.1 = true -> err es.2 = true).

Section encoding.
Context {A : Type} `{Logged A}.

Lemma good_more base T u s : good base T s -> err s = true -> good base (T ++ u) s.
Proof. intros [Hs Hh] He. split; [done|]. by apply holds_more. Qed.

Lemma flush_good base T s : good base T s -> good base T (bufio_flush s).
Proof. intros [Hs Hh]. destruct (flush_holds base T s Hh) as (Hh' & _ & Hsz). split; [by rewrite Hsz|done]. Qed.

Lemma encode_good base T (a : A) es : enc_good base T es ->
  let '(es', failed) := Encode a es in
  enc_good base (T ++ row a) es' /\ (failed = err es'.2) /\ (es'.1 = failed) /\ (err es.2 = true -> es'.2 = es.2).
Proof.
  destruct es as [ee s]. intros [Hg He]. cbn in *. destruct ee.
  { split_and!; try done; [|symmetry; by apply He]. split; [|done]. cbn. apply good_more; [done|by apply He]. }
  destruct Hg as [Hs Hh]. pose proof (write_holds base T (row a) s Hs Hh) as Hw.
  destruct (bufio_Write (row a) s) as [s' failed]. destruct Hw as (-> & Hsz & Hh' & Hst).
  split_and!; try done. split; [|done]. split; [cbn; lia|done].
Qed.

(** The retry after a failed write writes nothing. *)
Definition encode_retry (es : bool * Sink) (a : A) : bool * Sink :=
  let '(es', failed) := Encode a es in
  if failed then (Encode a (es'.1, bufio_flush es'.2)).1 else es'.

Lemma encode_retry_eq base T es a : enc_good base T es -> encode_retry es a = (Encode a es).1.
Proof.
  intros Hg. unfold encode_retry. pose proof (encode_good base T a es Hg) as He.
  destruct (Encode a es) as [es' failed]. destruct He as ([_ Hst] & Hf & He & _). destruct failed; [|done].
  destruct es' as [ee s']. cbn in *. subst ee. cbn. unfold bufio_flush. by rewrite <- Hf.
Qed.

Lemma encodes_good base T (l : list A) es f :
  (forall T es a, enc_good base T es -> f es a = (Encode a es).1) -> enc_good base T es ->
  enc_good base (T ++ rows l) (foldl f es l) /\ (err es.2 = true -> (foldl f es l).2 = es.2).
Proof.
  intros Hf. revert T es. induction l as [|a l IH]; intros T es Hg; cbn.
  { unfold rows. cbn. rewrite app_nil_r. done. }
  rewrite (Hf T) by done. pose proof (encode_good base T a es Hg) as He.
  destruct (Encode a es) as [es' failed]. destruct He as (Hg' & _ & _ & Hst). cbn.
  destruct (IH _ _ Hg') as [IH1 IH2]. rewrite <- app_assoc in IH1. split; [done|].
  intros He. rewrite IH2 by (by rewrite Hst). by apply Hst.
Qed.
End encoding.

Lemma flush_sticky s : err s = true -> bufio_flush s = s.
Proof. unfold bufio_flush. by intros ->. Qed.

Lemma flush_due_good base T now s : good base T s ->
  good base T (flush_if_due now s) /\ (err s = true -> disk (flush_if_due now s) = disk s /\ err (flush_if_due now s) = true).
Proof.
  intros Hg. unfold flush_if_due. case_match; [|done]. split; [by apply flush_good in Hg|].
  intros He. by rewrite flush_sticky.
Qed.

(** ** The sinks' operations *)
Inductive SOp := SOnSBatches (now : Z) (b : list SBatch) | SFlush (now : Z) | SClose.
Inductive VOp := VAppend (now : Z) (env : Envelope) | VAppendAll (now : Z) (envs : list Envelope)
  | VFlush (now : Z) | VClose.

Definition sop (s : Sink) (o : SOp) : Sink :=
  match o with
  | SOnSBatches now b => OnSBatches now b s
  | SFlush now => (sink_Flush now s).1
  | SClose => sink_Close s
  end.
Definition vop (s : Sink) (o : VOp) : Sink :=
  match o with
  | VAppend now env => Append now env s
  | VAppendAll now envs => AppendAll now envs s
  | VFlush now => (sink_Flush now s).1
  | VClose => sink_Close s
  end.

(** No operation takes back what is in the file, and none writes to a closed one. *)
Definition extends (s s' : Sink) : Prop :=
  disk s `prefix_of` disk s' /\ (closed s = true -> closed s' = true /\ disk s' = disk s).
#[export] Instance extends_preorder : PreOrder extends.
Proof.
  split; [intros s; split; done|]. intros s1 s2 s3 [P1 C1] [P2 C2]. split; [by etrans|].
  intros H. destruct (C1 H) as [H1 <-]. by apply C2.
Qed.

Lemma file_write_extends p s : extends s (file_write p s).1.
Proof.
  destruct (file_write_spec p s) as [n Hn]. unfold extends. destruct (file_write p s) as [s' failed] eqn:Hw.
  destruct Hn as (Hd & _ & _ & _ & _ & Hc & _). cbn. rewrite Hd, Hc. split; [by apply prefix_app_r|].
  intros H. unfold file_write in Hw. rewrite H in Hw. injection Hw as <- <-. split; [done|]. by rewrite <- Hd.
Qed.

Lemma bufio_flush_extends s : extends s (bufio_flush s).
Proof.
  unfold bufio_flush. destruct (err s); [done|]. destruct (buf s) as [|a b]; [done|].
  pose proof (file_write_extends (a :: b) s) as He. destruct (file_write (a :: b) s) as [s' failed]. by destruct failed.
Qed.

Lemma bufio_turn_extends p s : extends s (bufio_turn p s).2.
Proof.
  unfold bufio_turn. destruct (buf s) as [|a b].
  - pose proof (file_write_extends p s) as He. by destruct (file_write p s) as [s' failed].
  - apply (bufio_flush_extends (set_buf ((a :: b) ++ take (Z.to_nat (available s)) p) (err s) s)).
Qed.

Lemma bufio_loop_extends n p s : extends s (bufio_loop n p s).2.
Proof.
  revert p s. induction n as [|n IH]; intros p s; cbn [bufio_loop]; [done|]. destruct (_ && _); [|done].
  pose proof (bufio_turn_extends p s) as Ht. destruct (bufio_turn p s) as [p' s']. etrans; [exact Ht|apply IH].
Qed.

Lemma Encode_extends {A} `{Logged A} (a : A) es : extends es.2 (Encode a es).1.2.
Proof.
  destruct es as [[] s]; [done|]. unfold Encode, bufio_Write. cbn [snd].
  pose proof (bufio_loop_extends 2 (row a) s) as Hl. destruct (bufio_loop 2 (row a) s) as [p' s']. by destruct (err s').
Qed.

Lemma encodes_extends {A} (f : bool * Sink -> A -> bool * Sink) es (l : list A) :
  (forall es a, extends es.2 (f es a).2) -> extends es.2 (foldl f es l).2.
Proof. intros Hf. revert es. induction l as [|a l IH]; intros es; cbn; [done|]. etrans; [apply Hf|apply IH]. Qed.

Lemma flush_if_due_extends now s : extends s (flush_if_due now s).
Proof. unfold flush_if_due. case_match; [|done]. apply (bufio_flush_extends s). Qed.

Lemma Close_extends s : disk s `prefix_of` disk (sink_Close s).
Proof. apply bufio_flush_extends. Qed.

Lemma sop_extends s o : match o with SClose => True | _ => extends s (sop s o) end.
Proof.
  destruct o as [now [|b bs]|now|]; cbn [sop]; [done| |apply (bufio_flush_extends (set_lastFlush now s))|done].
  unfold OnSBatches. destruct (foldl _ _ _) as [e s'] eqn:Hf. etrans; [|apply flush_if_due_extends].
  change s with (false, s).2. change s' with (e, s').2. rewrite <- Hf. apply encodes_extends. intros es a.
  pose proof (Encode_extends a es) as He. destruct (Encode a es) as [es' failed]. cbn [fst] in He. destruct failed; [|done].
  etrans; [exact He|]. etrans; [|apply (Encode_extends a (es'.1, bufio_flush es'.2))]. apply bufio_flush_extends.
Qed.

Lemma vop_extends s o : match o with VClose => True | _ => extends s (vop s o) end.
Proof.
  destruct o as [now env|now [|e envs]|now|]; cbn [vop]; [|done| |apply (bufio_flush_extends (set_lastFlush now s))|done].
  - etrans; [apply (Encode_extends env (false, s))|apply flush_if_due_extends].
  - etrans; [|apply flush_if_due_extends]. change s with (false, s).2 at 1. apply encodes_extends. intros es a. apply Encode_extends.
Qed.

(** The records an operation was given. *)
Definition sgiven (o : SOp) : list SBatch := match o with SOnSBatches _ b => b | _ => [] end.
Definition vgiven (o : VOp) : list Envelope :=
  match o with VAppend _ env => [env] | VAppendAll _ envs => envs | _ => [] end.

(** A step keeps the record of what was given, and writes nothing after an error. *)
Definition keeps (base T u : text) (s s' : Sink) : Prop :=
  good base (T ++ u) s' /\ (err s = true -> disk s' = disk s /\ err s' = true).

Lemma keeps_nil base T s : good base T s -> keeps base T [] s s.
Proof. intros Hg. unfold keeps. by rewrite app_nil_r. Qed.

Lemma Flush_keeps base T now s : good base T s -> keeps base T [] s (sink_Flush now s).1.
Proof.
  intros Hg. unfold keeps. rewrite app_nil_r. split; [by apply (flush_good base T (set_lastFlush now s))|].
  intros He. cbn. by rewrite flush_sticky.
Qed.

Lemma Close_keeps base T s : good base T s -> keeps base T [] s (sink_Close s).
Proof.
  intros Hg. unfold keeps. rewrite app_nil_r. split; [by apply flush_good in Hg|].
  intros He. cbn. by rewrite flush_sticky.
Qed.

Lemma sop_keeps base T s o : good base T s -> keeps base T (rows (sgiven o)) s (sop s o).
Proof.
  intros Hg. destruct o as [now b|now|]; [|by apply Flush_keeps|by apply Close_keeps].
  destruct b as [|b0 bs]; [by apply keeps_nil|]. cbn [sop sgiven OnSBatches]. set (b := b0 :: bs).
  destruct (encodes_good base T b (false, s) encode_retry (fun T es a => encode_retry_eq base T es a))
    as [[He1 _] He2]; [done|].
  change (foldl _ (false, s) b) with (foldl encode_retry (false, s) b).
  destruct (foldl encode_retry (false, s) b) as [ee s']. cbn in *.
  destruct (flush_due_good _ _ now s' He1) as [H1 H2]. split; [done|].
  intros He. rewrite He2 in * by done. by apply H2.
Qed.

Lemma append_keeps base T s now (envs : list Envelope) : good base T s ->
  keeps base T (rows envs) s (flush_if_due now (foldl (fun es env => (Encode env es).1) (false, s) envs).2).
Proof.
  intros Hg. destruct (encodes_good base T envs (false, s) (fun es env => (Encode env es).1)) as [[He1 _] He2]; [done..|].
  destruct (flush_due_good _ _ now _ He1) as [H1 H2]. split; [done|].
  intros He. rewrite He2 in * by done. by apply H2.
Qed.

Lemma vop_keeps base T s o : good base T s -> keeps base T (rows (vgiven o)) s (vop s o).
Proof.
  intros Hg. destruct o as [now env|now envs|now|]; [by apply (append_keeps _ _ _ now [env])| |by apply Flush_keeps|by apply Close_keeps].
  destruct envs as [|e es]; [by apply keeps_nil|]. by apply append_keeps.
Qed.

Lemma ops_keep {O A} `{Logged A} (op : Sink -> O -> Sink) (given : O -> list A) base :
  (forall T s o, good base T s -> keeps base T (rows (given o)) s (op s o)) ->
  forall os T s, good base T s -> keeps base T (rows (concat (map given os))) s (foldl op s os).
Proof.
  intros Hop os. induction os as [|o os IH]; intros T s Hg; [by apply keeps_nil|].
  destruct (Hop T s o Hg) as [H1 H2]. destruct (IH _ _ H1) as [H3 H4]. unfold keeps. cbn [map concat foldl].
  rewrite rows_app, app_assoc. split; [done|]. intros He. destruct (H2 He) as [Hd He']. rewrite <- Hd. by apply H4.
Qed.

Lemma New_good opened os now s : New_sink opened os now = Some s ->
  exists base, opened = Some base /\ good base [] s.
Proof.
  destruct opened as [base|]; [|done]. intros [= <-]. exists base. split; [done|]. split; [done|].
  exists []. by rewrite app_nil_r.
Qed.

(** ** When every write succeeds *)
Definition healthy (s : Sink) : Prop := closed s = false /\ err s = false /\ Forall (eq None) (outcomes s).

Lemma file_write_healthy p s : healthy s -> let '(s', failed) := file_write p s in healthy s' /\ failed = false.
Proof.
  intros (Hc & He & Ho). unfold file_write. rewrite Hc. destruct (outcomes s) as [|o os]; [done|].
  apply list.Forall_cons in Ho as [<- Ho]. done.
Qed.

Lemma flush_healthy s : healthy s -> healthy (bufio_flush s) /\ buf (bufio_flush s) = [].
Proof.
  intros Hs. pose proof Hs as (_ & He & _). unfold bufio_flush. rewrite He.
  destruct (buf s) as [|a b] eqn:Hb; [done|]. pose proof (file_write_healthy (a :: b) s Hs) as Hw.
  destruct (file_write (a :: b) s) as [s' failed]. destruct Hw as [(Hc & _ & Ho) ->]. done.
Qed.

Lemma loop_healthy n p s : healthy s -> healthy (bufio_loop n p s).2.
Proof.
  revert p s. induction n as [|n IH]; intros p s Hs; [done|]. cbn [bufio_loop]. case_match; [|done].
  unfold bufio_turn. destruct (buf s) as [|a b].
  - pose proof (file_write_healthy p s Hs) as Hw. destruct (file_write p s) as [s' failed].
    destruct Hw as [(Hc & _ & Ho) ->]. by apply IH.
  - apply IH. pose proof Hs as (Hc & He & Ho). by apply flush_healthy.
Qed.

Lemma encode_healthy {A} `{Logged A} (a : A) s : healthy s ->
  let '(es, failed) := Encode a (false, s) in failed = false /\ es.1 = false /\ healthy es.2.
Proof.
  intros Hs. unfold Encode, bufio_Write. pose proof (loop_healthy 2 (row a) s Hs) as Hl.
  destruct (bufio_loop 2 (row a) s) as [p' s']. destruct Hl as (Hc & He & Ho). cbn in *. rewrite He. done.
Qed.

Lemma encodes_healthy {A} `{Logged A} (f : bool * Sink -> A -> bool * Sink) l s :
  (forall a s, healthy s -> f (false, s) a = (Encode a (false, s)).1) -> healthy s ->
  (foldl f (false, s) l).1 = false /\ healthy (foldl f (false, s) l).2.
Proof.
  intros Hf. revert s. induction l as [|a l IH]; intros s Hs; [done|]. cbn [foldl]. rewrite Hf by done.
  pose proof (encode_healthy a s Hs) as He. destruct (Encode a (false, s)) as [[ee s'] failed].
  destruct He as (_ & Hee & Hs'). cbn in *. subst ee. by apply IH.
Qed.

Lemma flush_due_healthy now s : healthy s -> healthy (flush_if_due now s).
Proof. intros Hs. unfold flush_if_due. case_match; [|done]. by apply flush_healthy in Hs as [? _]. Qed.

Definition s_open (o : SOp) : Prop := match o with SClose => False | _ => True end.
Definition v_open (o : VOp) : Prop := match o with VClose => False | _ => True end.

Lemma sop_healthy s o : s_open o -> healthy s -> healthy (sop s o).
Proof.
  intros Ho Hs. destruct o as [now b|now|]; [|by apply (flush_healthy (set_lastFlush now s))|done].
  destruct b as [|b0 bs]; [done|]. cbn [sop OnSBatches].
  destruct (encodes_healthy encode_retry (b0 :: bs) s) as [_ H2]; [|done|].
  { intros a s1 H1. unfold encode_retry. pose proof (encode_healthy a s1 H1) as He.
    destruct (Encode a (false, s1)) as [es failed]. by destruct He as (-> & _ & _). }
  change (foldl _ (false, s) (b0 :: bs)) with (foldl encode_retry (false, s) (b0 :: bs)).
  destruct (foldl encode_retry (false, s) (b0 :: bs)) as [ee s']. by apply flush_due_healthy.
Qed.

Lemma vop_healthy s o : v_open o -> healthy s -> healthy (vop s o).
Proof.
  intros Ho Hs. assert (Hf : forall l now, healthy (flush_if_due now (foldl (fun es (env : Envelope) => (Encode env es).1) (false, s) l).2)).
  { intros l now. by apply flush_due_healthy, (encodes_healthy (fun es env => (Encode env es).1) l s). }
  destruct o as [now env|now envs|now|]; [apply (Hf [env])| |by apply (flush_healthy (set_lastFlush now s))|done].
  destruct envs as [|e es]; [done|]. apply (Hf (e :: es)).
Qed.

Lemma ops_healthy {O} (op : Sink -> O -> Sink) (open : O -> Prop) os s :
  (forall s o, open o -> healthy s -> healthy (op s o)) -> Forall open os -> healthy s -> healthy (foldl op s os).
Proof. intros Hop Hos. revert s. induction Hos as [|o os Ho Hos IH]; intros s Hs; [done|]. by apply IH, Hop. Qed.

Lemma New_healthy opened os now s : Forall (eq None) os -> New_sink opened os now = Some s -> healthy s.
Proof. intros Ho. destruct opened as [base|]; [|done]. by intros [= <-]. Qed.

(** Everything is on the disk after a flush of a sink in good health. *)
Lemma flushed_disk base T s : good base T s -> healthy s ->
  disk (bufio_flush s) = base ++ T /\ healthy (bufio_flush s).
Proof.
  intros [_ Hh] Hs. destruct (flush_healthy s Hs) as [Hs' Hb]. apply flush_holds in Hh as ((w & Hd & Hw) & _ & _).
  pose proof Hs' as (_ & He & _). rewrite He, Hb, app_nil_r in Hw. by subst w.
Qed.

(** ** The logs *)
Section logs.
Context {A : Type} `{HA : LoggedLaws A ok}.
Context {O : Type} (op : Sink -> O -> Sink) (given : O -> list A) (open : O -> Prop).
Context (Hkeeps : forall base T s o, good base T s -> keeps base T (rows (given o)) s (op s o)).
Context (Hhealthy : forall s o, open o -> healthy s -> healthy (op s o)).

Definition all_given (ops : list O) : list A := concat (map given ops).

Lemma read_after (old : list A) w : Forall ok old ->
  ReadAll (Some (rows old ++ w)) = (old ++ (ReadAll (Some w)).1, (ReadAll (A:=A) (Some w)).2).
Proof.
  induction 1 as [|a old Ha Hold IH]; [unfold rows; cbn [map concat app]; by destruct (ReadAll (Some w))|].
  unfold rows. cbn [map concat]. fold (rows old). rewrite <- app_assoc, read_row, IH by done. done.
Qed.

Lemma log_flushed old ops os t0 s : Forall ok old -> Forall ok (all_given ops) -> Forall open ops ->
  Forall (eq None) os -> New_sink (Some (rows old)) os t0 = Some s ->
  ReadAll (Some (disk (bufio_flush (foldl op s ops)))) = (old ++ all_given ops, false).
Proof.
  intros Hold Hnew Hop Hos Hs. pose proof (New_healthy _ _ _ _ Hos Hs) as Hhs.
  apply New_good in Hs as (base & [= <-] & Hg).
  destruct (ops_keep op given _ (Hkeeps _) ops _ _ Hg) as [Hg' _].
  destruct (flushed_disk _ _ _ Hg' (ops_healthy op open ops s Hhealthy Hop Hhs)) as [-> _].
  cbn [app]. rewrite read_after by done. by rewrite read_rows.
Qed.

Lemma log_prefix old ops os t0 s : Forall ok old -> Forall ok (all_given ops) ->
  New_sink (Some (rows old)) os t0 = Some s ->
  exists k, ReadAll (Some (disk (foldl op s ops))) = (old ++ take k (all_given ops), false).
Proof.
  intros Hold Hnew Hs. apply New_good in Hs as (base & [= <-] & Hg).
  destruct (ops_keep op given _ (Hkeeps _) ops _ _ Hg) as [[_ (w & -> & Hw)] _].
  destruct (read_prefix (all_given ops) w Hnew) as [k Hk].
  { cbn [app] in Hw. destruct (err _); [done|]. by exists (buf (foldl op s ops)). }
  exists k. rewrite read_after by done. by rewrite Hk.
Qed.
End logs.

Lemma flush_lastFlush now s : disk (bufio_flush (set_lastFlush now s)) = disk (bufio_flush s) /\
  err (bufio_flush (set_lastFlush now s)) = err (bufio_flush s).
Proof.
  unfold bufio_flush, set_lastFlush. cbn. destruct (err s) eqn:He; [by rewrite He|].
  destruct (buf s) as [|a b]; [cbn; by rewrite He|]. unfold file_write. cbn. destruct (closed s); [done|]. by destruct (outcomes s) as [|[n|] os].
Qed.

(** ** The theorems *)
(** C18: when the writes to a new scalar log sink succeed, what [ReadAllSLog] reads after [Close] or [Flush] is the log that was there and then every batch passed to [OnSBatches], in order, and [Flush] reports no error. *)
Theorem slog_roundtrip old ops os t0 s :
  Forall batch_ok old -> Forall batch_ok (all_given sgiven ops) -> Forall s_open ops -> Forall (eq None) os ->
  NewSBatchFileSink (Some (rows old)) os t0 = Some s ->
  let s' := foldl sop s ops in
  ReadAllSLog (Some (disk (sink_Close s'))) = (old ++ all_given sgiven ops, false) /\
  forall now, ReadAllSLog (Some (disk (sink_Flush now s').1)) = (old ++ all_given sgiven ops, false) /\
    (sink_Flush now s').2 = false.
Proof.
  intros Hold Hnew Hop Hos Hs s'.
  pose proof (log_flushed sop sgiven s_open sop_keeps sop_healthy old ops os t0 s Hold Hnew Hop Hos Hs) as Hr.
  split; [done|]. intros now. cbn [sink_Flush fst snd]. destruct (flush_lastFlush now s') as [-> ->]. split; [done|].
  pose proof (New_healthy _ _ _ _ Hos Hs) as Hhs.
  destruct (flush_healthy s') as [(_ & He & _) _]; [|done].
  apply (ops_healthy sop s_open ops s sop_healthy); done.
Qed.

(** When the writes to a new vector log sink succeed, what [ReadAllVLog] reads after [Close] or [Flush] is the log that was there and then every envelope passed to [Append] or [AppendAll], in order, and [Flush] reports no error. *)
Theorem vlog_roundtrip old ops os t0 s :
  Forall envelope_ok old -> Forall envelope_ok (all_given vgiven ops) -> Forall v_open ops -> Forall (eq None) os ->
  NewVEnvFileSink (Some (rows old)) os t0 = Some s ->
  let s' := foldl vop s ops in
  ReadAllVLog (Some (disk (sink_Close s'))) = (old ++ all_given vgiven ops, false) /\
  forall now, ReadAllVLog (Some (disk (sink_Flush now s').1)) = (old ++ all_given vgiven ops, false) /\
    (sink_Flush now s').2 = false.
Proof.
  intros Hold Hnew Hop Hos Hs s'.
  pose proof (log_flushed vop vgiven v_open vop_keeps vop_healthy old ops os t0 s Hold Hnew Hop Hos Hs) as Hr.
  split; [done|]. intros now. cbn [sink_Flush fst snd]. destruct (flush_lastFlush now s') as [-> ->]. split; [done|].
  pose proof (New_healthy _ _ _ _ Hos Hs) as Hhs.
  destruct (flush_healthy s') as [(_ & He & _) _]; [|done].
  apply (ops_healthy vop v_open ops s vop_healthy); done.
Qed.

(** C23: whatever the writes to the file answer and wherever the process stops, the log reads as what was there and then a prefix of the records passed to the sink: nothing is reordered, duplicated or garbled, although a failed batch is encoded twice. *)
Theorem logs_keep_a_prefix olds oldv sops vops os t0 ss sv :
  Forall batch_ok olds -> Forall batch_ok (all_given sgiven sops) -> Forall envelope_ok oldv ->
  Forall envelope_ok (all_given vgiven vops) ->
  NewSBatchFileSink (Some (rows olds)) os t0 = Some ss -> NewVEnvFileSink (Some (rows oldv)) os t0 = Some sv ->
  (exists k, ReadAllSLog (Some (disk (foldl sop ss sops))) = (olds ++ take k (all_given sgiven sops), false)) /\
  (exists k, ReadAllVLog (Some (disk (foldl vop sv vops))) = (oldv ++ take k (all_given vgiven vops), false)).
Proof.
  intros H1 H2 H3 H4 Hs Hv. split.
  - by apply (log_prefix sop sgiven sop_keeps olds sops os t0).
  - by apply (log_prefix vop vgiven vop_keeps oldv vops os t0).
Qed.

(** Once a write has failed, the sink writes nothing any more: whatever it is given later, the retry included, the file stays as it is, and only [Flush] says so. *)
Theorem sink_error_is_final opened os t0 s sops sops' :
  NewSBatchFileSink opened os t0 = Some s -> err (foldl sop s sops) = true ->
  let s1 := foldl sop s sops in
  let s2 := foldl sop s1 sops' in
  disk s2 = disk s1 /\ forall now, (sink_Flush now s2).2 = true.
Proof.
  intros Hs He s1 s2. apply New_good in Hs as (base & -> & Hg).
  destruct (ops_keep sop sgiven _ (sop_keeps _) sops _ _ Hg) as [Hg1 _].
  destruct (ops_keep sop sgiven _ (sop_keeps _) sops' _ _ Hg1) as [_ H2]. destruct (H2 He) as [Hd He2].
  split; [done|]. intros now. cbn. by rewrite flush_sticky.
Qed.

(** ** Examples *)
#[export] Instance batch_ok_dec b : Decision (batch_ok b).
Proof. unfold batch_ok, in64. apply _. Defined.
#[export] Instance envelope_ok_dec e : Decision (envelope_ok e).
Proof. unfold envelope_ok, in64. apply _. Defined.
Ltac concretely := apply (bool_decide_unpack _); vm_compute; exact I.

Definition demo_b (d : Z) : SBatch := mkSBatch 18446744073709551615 7 d 3.
Definition demo_v (d : Z) : Envelope :=
  mkEnvelope ChannelVector (mkFootprint 3 (mkTime 9 true) ChannelVector) d 12 no_hash.
Definition demo_sops : list SOp := [SOnSBatches 5 [demo_b 2; demo_b (-3)]; SOnSBatches 200000000 [demo_b 4]].
Definition demo_vops : list VOp := [VAppend 5 (demo_v 2); VAppendAll 200000000 [demo_v (-3); demo_v 4]].
Definition demo_sink (content : text) (os : list (option nat)) : Sink := mkSink content os false bufio_size [] false 0.

Lemma slog_roundtrip_witness :
  ReadAllSLog (Some (disk (sink_Close (foldl sop (demo_sink (rows [demo_b 1]) []) demo_sops)))) =
  ([demo_b 1; demo_b 2; demo_b (-3); demo_b 4], false).
Proof.
  refine (proj1 (slog_roundtrip [demo_b 1] demo_sops [] 0 (demo_sink (rows [demo_b 1]) []) _ _ _ _ eq_refl));
    [concretely|concretely|repeat constructor|constructor].
Defined.

Lemma vlog_roundtrip_witness :
  ReadAllVLog (Some (disk (sink_Close (foldl vop (demo_sink (rows [demo_v 1]) []) demo_vops)))) =
  ([demo_v 1; demo_v 2; demo_v (-3); demo_v 4], false).
Proof.
  refine (proj1 (vlog_roundtrip [demo_v 1] demo_vops [] 0 (demo_sink (rows [demo_v 1]) []) _ _ _ _ eq_refl));
    [concretely|concretely|repeat constructor|constructor].
Defined.

(** The write of the third batch's flush stops after 100 bytes. *)
Lemma logs_keep_a_prefix_witness :
  disk (foldl sop (demo_sink (rows [demo_b 1]) [Some 100%nat]) demo_sops) <> rows [demo_b 1] /\
  (exists k, ReadAllSLog (Some (disk (foldl sop (demo_sink (rows [demo_b 1]) [Some 100%nat]) demo_sops))) =
    ([demo_b 1] ++ take k (all_given sgiven demo_sops), false)) /\
  (exists k, ReadAllVLog (Some (disk (foldl vop (demo_sink (rows [demo_v 1]) [Some 100%nat]) demo_vops))) =
    ([demo_v 1] ++ take k (all_given vgiven demo_vops), false)).
Proof.
  split; [vm_compute; discriminate|].
  refine (logs_keep_a_prefix [demo_b 1] [demo_v 1] demo_sops demo_vops [Some 100%nat] 0 _ _ _ _ _ _ eq_refl eq_refl);
    concretely.
Defined.

Lemma sink_error_is_final_witness :
  let s1 := foldl sop (demo_sink [] [Some 100%nat]) demo_sops in
  let s2 := foldl sop s1 [SOnSBatches 400000000 [demo_b 5]; SFlush 400000001] in
  disk s1 <> [] /\ disk s2 = disk s1 /\ forall now, (sink_Flush now s2).2 = true.
Proof.
  intros s1 s2. split; [vm_compute; discriminate|].
  refine (sink_error_is_final (Some []) [Some 100%nat] 0 (demo_sink [] [Some 100%nat]) demo_sops
    [SOnSBatches 400000000 [demo_b 5]; SFlush 400000001] eq_refl _). vm_compute. reflexivity.
Defined.

(** A sink opened on a log whose last line was cut short puts its first record on
    that line: the record is lost. *)
Example torn_log_loses_next :
  ReadAllSLog (Some (disk (sink_Close (OnSBatches 0 [demo_b 2; demo_b 3]
    (demo_sink (rows [demo_b 1] ++ take 30 (row (demo_b 9))) []))))) = ([demo_b 1; demo_b 3], false).
Proof. vm_compute. reflexivity. Qed.
