(* ===== verification/TfdRanges.v ===== *)
(** * The ranges of the pipeline's values

    Lemmas for the reading of the logs, which refuses a number out of range: where
    the envelopes handled have the ranges of their Go types ([uint64], [int64], a
    16-byte digest), the batches the sink receives and the envelopes persisted have
    theirs. *)
From S2P Require Import Prelude Effects OpenAddr TfdTypes TfdShard TfdShardSpec TfdState TfdStateSpec TfdPipeline TfdPipelineSpec Json Sinks SinksRead.

Lemma Forall_snoc {A} (P : A -> Prop) l x : Forall P l -> P x -> Forall P (l ++ [x]).
Proof. intros Hl Hx. apply list.Forall_app. split; [done|]. by constructor. Qed.

(** ** Shards *)
Definition slot_ok (slot : Slot) : Prop := batch_ok (batch_of_slot slot).
Definition shard_ok (s : SShard) : Prop := Forall slot_ok (slots s).

Lemma empty_slot_ok : slot_ok empty_slot.
Proof. by vm_compute. Qed.

Lemma idx_set_Forall {A} (P : A -> Prop) (l l' : list A) i x :
  Forall P l -> P x -> idx_set l i x = Some l' -> Forall P l'.
Proof.
  intros Hl Hx. unfold idx_set. destruct (idx_get l i); [|done]. intros [= <-]. by apply list.Forall_insert.
Qed.

Lemma idx_get_Forall {A} (P : A -> Prop) (l : list A) i x : Forall P l -> idx_get l i = Some x -> P x.
Proof. intros Hl. unfold idx_get. case_match; [done|]. intros Hx. by apply (list.Forall_lookup_1 P l) in Hx. Qed.

Lemma max_seq_ok a b : inu64 a -> inu64 b -> inu64 (if a >? b then a else b).
Proof. by case_match. Qed.

Lemma merge_slot_ok k env slot : slot_ok slot -> envelope_ok env -> slot_ok (merge_slot k env slot).
Proof.
  intros (H1 & H2 & H3 & H4) (E1 & E2 & E3 & E4 & _). unfold merge_slot.
  destruct (s_key slot =? 0); split_and!; cbn; auto using max_seq_ok with go.
Qed.

Lemma Ingest_ok now env s s' : shard_ok s -> envelope_ok env -> Ingest now env s = Some s' -> shard_ok s'.
Proof.
  intros Hs He. unfold Ingest. destruct (probe _ _) as [i|]; [|done]. cbn.
  destruct (idx_get (slots s) i) as [slot|] eqn:Hi; [|done]. cbn.
  destruct (idx_set (slots s) i _) as [ss|] eqn:Hset; [|done]. cbn. intros [= <-].
  assert (Forall slot_ok ss).
  { eapply idx_set_Forall; [exact Hs| |exact Hset]. apply merge_slot_ok; [|done]. by eapply idx_get_Forall. }
  unfold maybeFlush. by case_match.
Qed.

Lemma shard_Flush_ok s out : shard_ok s -> Forall batch_ok out ->
  shard_ok (Flush s out).1 /\ Forall batch_ok (Flush s out).2.
Proof.
  intros Hs Hout. unfold Flush. case_match; [done|]. cbn. split.
  - unfold shard_ok. cbn. apply list.Forall_fmap. eapply list.Forall_impl; [exact Hs|].
    intros slot Hslot. cbn. case_match; [done|apply empty_slot_ok].
  - apply list.Forall_app. split; [done|]. apply list.Forall_fmap. apply list.Forall_forall.
    intros slot [_ Hin]%list_elem_of_filter. unfold shard_ok in Hs. rewrite list.Forall_forall in Hs. by apply Hs.
Qed.

(** ** The accumulator *)
Definition accu_ok (a : SAccumulator) : Prop := Forall shard_ok a.

Lemma acc_Ingest_types now env a a' : accu_ok a -> envelope_ok env -> acc_Ingest now env a = Some a' -> accu_ok a'.
Proof.
  intros Ha He. unfold acc_Ingest. case_match; [by intros [= <-]|].
  destruct (idx_get a _) as [s|] eqn:Hi; [|done]. cbn. destruct (Ingest now env s) as [s'|] eqn:Hin; [|done]. cbn.
  apply idx_set_Forall; [done|]. eapply Ingest_ok; [|done|done]. by eapply idx_get_Forall.
Qed.

Lemma FlushAll_types a : accu_ok a -> accu_ok (FlushAll a).1 /\ Forall batch_ok (FlushAll a).2.
Proof.
  intros Ha. unfold FlushAll.
  assert (H : forall acc, accu_ok acc.1 -> Forall batch_ok acc.2 ->
    let r := foldl (fun '(done, out) s => let '(s', out') := Flush s out in (done ++ [s'], out')) acc a in
    accu_ok r.1 /\ Forall batch_ok r.2); [|apply (H ([], [])); constructor].
  induction Ha as [|s a Hs Ha IH]; intros [dn out] Hd Ho; [done|]. cbn [foldl].
  destruct (shard_Flush_ok s out Hs Ho) as [H1 H2]. destruct (Flush s out) as [s' out']. cbn in *.
  apply IH; cbn; [by apply Forall_snoc|done].
Qed.

Lemma NewSAccumulator_types p o cnt cap now : accu_ok (NewSAccumulator p o cnt cap now).
Proof. apply list.Forall_replicate. cbn. apply list.Forall_replicate, empty_slot_ok. Qed.

(** ** Compression *)
Lemma merge_batch_ok old b : batch_ok old -> batch_ok b -> batch_ok (merge_batch old b).
Proof.
  intros (H1 & H2 & H3 & H4) (E1 & E2 & E3 & E4). split_and!; cbn; auto using max_seq_ok with go.
Qed.

Lemma merge_map_types bs : Forall batch_ok bs -> map_Forall (fun _ b => batch_ok b) (merge_map bs).
Proof.
  intros Hb. rewrite merge_map_eq.
  assert (H : forall m, map_Forall (fun _ b => batch_ok b) m -> map_Forall (fun _ b => batch_ok b) (foldl merge_into m bs)).
  { induction Hb as [|b bs Hb Hbs IH]; intros m Hm; [done|]. apply IH. apply map_Forall_insert_2; [|done].
    destruct (m !! batch_cell b) as [prev|] eqn:Hp; [|done]. apply merge_batch_ok; [by apply (Hm _ _ Hp)|done]. }
  by apply H, map_Forall_empty.
Qed.

Definition keeps_types (v : option (list SBatch -> option (list SBatch))) : Prop :=
  forall f bs out, v = Some f -> Forall batch_ok bs -> f bs = Some out -> Forall batch_ok out.

Lemma Compress_types order bs out : ranges order bs -> Forall batch_ok bs -> Compress order bs = Some out ->
  Forall batch_ok out.
Proof.
  intros Ho Hb Hc. destruct (Compress_ok order bs Ho) as (out' & Hc' & Hp). rewrite Hc in Hc'. injection Hc' as <-.
  rewrite Hp. unfold compressed. apply list.Forall_forall. intros b [_ Hin]%list_elem_of_filter.
  apply list_elem_of_fmap in Hin as ([k b'] & -> & Hin). apply elem_of_map_to_list in Hin.
  by apply (merge_map_types bs Hb _ _ Hin).
Qed.

(** [SimpleVSA]: [range] says in which order Go goes through the map. *)
Definition SimpleVSA (range : list SBatch -> list (Z * Z)) (bs : list SBatch) : option (list SBatch) :=
  Compress (range bs) bs.

Lemma SimpleVSA_ok range : (forall bs, ranges (range bs) bs) ->
  transformer_ok (Some (SimpleVSA range)) /\ keeps_types (Some (SimpleVSA range)).
Proof.
  intros Hr. split.
  - intros f bs [= <-]. destruct (Compress_ok (range bs) bs (Hr bs)) as (out & He & Hp). exists out.
    split; [done|]. intros c. rewrite <- (compressed_deltas c bs).
    rewrite (deltas_at_perm c (batch_delta <$> out) (batch_delta <$> compressed bs)); [done|]. by rewrite Hp.
  - intros f bs out [= <-] Hb Hf. by eapply Compress_types.
Qed.

(** ** The service and the pipeline *)
Record svc_types (s : SService) : Prop := {
  st_acc : accu_ok (acc s);
  st_vsa : keeps_types (vsa s);
  st_sunk : Forall batch_ok (concat (sunk s));
  st_in : Forall envelope_ok (ingress s)
}.

Lemma receive_types now s s' : svc_types s -> receive now s = Some s' -> svc_types s'.
Proof.
  intros [Ha Hv Hs Hi]. unfold receive. destruct (ingress s) as [|env q] eqn:Hq; [intros [= <-]; split; by rewrite ?Hq|].
  inversion_clear Hi as [|?? He Hrest]. case_match; [|by intros [= <-]; split].
  destruct (acc_Ingest now env (acc s)) as [a|] eqn:Hin; [|done]. cbn. intros [= <-].
  split; try done. by eapply acc_Ingest_types.
Qed.

Lemma drain_types now s s' : svc_types s -> drain now s = Some s' -> svc_types s'.
Proof.
  unfold drain. generalize (length (ingress s)) as n. intros n. revert s.
  induction n as [|n IH]; intros s Hs; cbn [drain_n]; [by intros [= <-]|].
  destruct (receive now s) as [s1|] eqn:Hr; [|done]. cbn. apply IH. by eapply receive_types.
Qed.

Lemma flush_types s s' : svc_types s -> flush s = Some s' -> svc_types s'.
Proof.
  intros [Ha Hv Hs Hi]. unfold flush. destruct (FlushAll_types (acc s) Ha) as [H1 H2].
  destruct (FlushAll (acc s)) as [a b]. cbn in H1, H2.
  assert (Hset : svc_types (set_acc a s)) by by split.
  assert (Hsend : forall b', Forall batch_ok b' -> svc_types (TfdPipeline.OnSBatches b' (set_acc a s))).
  { intros b' Hb'. split; cbn; try done. rewrite concat_app. apply list.Forall_app. cbn. by rewrite app_nil_r. }
  destruct b as [|b0 bs]; [by intros [= <-]|]. cbn [vsa set_acc].
  destruct (match vsa s with Some compress => compress (b0 :: bs) | None => Some (b0 :: bs) end) as [b'|] eqn:Hb'; [|done].
  cbn. assert (Forall batch_ok b').
  { destruct (vsa s) as [f|] eqn:Hf; [by eapply Hv|by injection Hb' as <-]. }
  destruct b' as [|x b'']; intros [= <-]; [done|by apply Hsend].
Qed.

Record pipe_types (p : Pipeline) : Prop := {
  pt_svc : svc_types (svc p);
  pt_router : map_Forall (fun _ act => Forall envelope_ok (a_queue act)) (router p);
  pt_persisted : Forall envelope_ok (persisted p)
}.

Lemma Hash128_ok parts : length (Hash128 parts) = 16%nat /\ Forall (fun b => 0 <= b < 256) (Hash128 parts).
Proof.
  unfold Hash128, PutUint64. split; [by rewrite length_app, !length_put_le|].
  apply list.Forall_app. split; apply put_le_bytes.
Qed.

Lemma set_HashPrev_ok parts env : envelope_ok env -> envelope_ok (set_HashPrev (Hash128 parts) env).
Proof. intros (H1 & H2 & H3 & H4 & _). destruct (Hash128_ok parts). by split_and!. Qed.

Lemma Route_types k r : map_Forall (fun _ act => Forall envelope_ok (a_queue act)) r ->
  map_Forall (fun _ act => Forall envelope_ok (a_queue act)) (Route k r).1 /\ Forall envelope_ok (a_queue (Route k r).2).
Proof.
  intros Hr. unfold Route. destruct (r !! k) as [act|] eqn:Hk; cbn; [split; [done|by apply (Hr _ _ Hk)]|].
  split; [|constructor]. by apply map_Forall_insert_2; [constructor|].
Qed.

Lemma push_types env s : svc_types s -> envelope_ok env -> svc_types (set_ingress (ingress s ++ [env]) s).
Proof. intros [Ha Hv Hs Hi] He. split; cbn; try done. by apply Forall_snoc. Qed.

Lemma Handle_types now env p p' : pipe_types p -> envelope_ok env -> Handle now env true p = Some p' -> pipe_types p'.
Proof.
  intros [Hs Hr Hp] He. unfold Handle. case_bool_decide as Hc.
  - unfold TryIngest, svc_Ingest. rewrite bool_decide_true by done. cbn [negb].
    destruct (Z.of_nat (length (ingress (svc p))) <? buffer (svc p)) eqn:Hlt; [intros [= <-]; by split; [apply push_types|..]|].
    rewrite Hlt. destruct (stopped (svc p)); [done|]. destruct (receive now (svc p)) as [s1|] eqn:Hrec; [|done].
    cbn. intros [= <-]. split; [|done|done]. apply push_types; [|done]. by eapply receive_types.
  - destruct (Route_types (f_KeyID (e_Footprint env)) (router p) Hr) as [H1 H2].
    destruct (Route (f_KeyID (e_Footprint env)) (router p)) as [r act]. cbn in H1, H2. intros [= <-].
    split; cbn [svc router persisted]; [done| |by apply Forall_snoc].
    apply map_Forall_insert_2; [|done]. unfold Enqueue. case_match; [done|]. cbn [a_queue].
    apply Forall_snoc; [done|]. by apply set_HashPrev_ok.
Qed.

Lemma on_svc_types f p p' : (forall s s', svc_types s -> f s = Some s' -> svc_types s') ->
  pipe_types p -> on_svc f p = Some p' -> pipe_types p'.
Proof.
  intros Hf [Hs Hr Hp]. unfold on_svc. destruct (f (svc p)) as [s|] eqn:He; [|done]. cbn. intros [= <-].
  split; cbn; [|done..]. by eapply Hf.
Qed.

Lemma drain_flush_types now s s' : svc_types s -> (s1 ← drain now s; flush s1) = Some s' -> svc_types s'.
Proof.
  intros Hs. destruct (drain now s) as [s1|] eqn:Hd; [|done]. cbn. apply flush_types. by eapply drain_types.
Qed.

Definition pevent_types (e : PEvent) : Prop := match e with PHandle _ env => envelope_ok env | _ => True end.

Lemma pstep_types e p p' : pipe_types p -> pevent_types e -> pstep e p = Some p' -> pipe_types p'.
Proof.
  intros Hp He. destruct e as [now env|now| |now|now]; cbn [pstep]; [by apply Handle_types|..]; apply on_svc_types; try done; intros s s' Hs.
  - unfold in_loop. case_match; [by intros [= <-]|by apply receive_types].
  - unfold in_loop. case_match; [by intros [= <-]|by apply flush_types].
  - unfold svc_Flush. case_match; [done|by apply drain_flush_types].
  - unfold svc_Stop. case_match; [done|]. intros Hstop.
    destruct (s1 ← drain now s; flush s1) as [s2|] eqn:Hd.
    + pose proof (drain_flush_types now s s2 Hs Hd) as [H1 H2 H3 H4].
      destruct (drain now s) as [s1|]; [|done]. cbn in *. rewrite Hd in Hstop. cbn in Hstop. injection Hstop as <-. by split.
    + destruct (drain now s) as [s1|]; [|done]. cbn in *. by rewrite Hd in Hstop.
Qed.

Lemma prun_types es p p' : pipe_types p -> Forall pevent_types es -> prun es p = Some p' -> pipe_types p'.
Proof.
  intros Hp Hes. revert p Hp. induction Hes as [|e es He Hes IH]; intros p Hp; cbn [prun]; [by intros [= <-]|].
  destruct (pstep e p) as [p1|] eqn:Hs; [|done]. cbn. apply IH. by eapply pstep_types.
Qed.

Lemma NewPipeline_types shards ord cnt cap buf now v :
  keeps_types v -> pipe_types (NewPipeline shards ord cnt cap buf now v).
Proof.
  intros Hv. split; cbn; [|apply map_Forall_empty|constructor]. split; cbn; [apply NewSAccumulator_types|done|constructor..].
Qed.
