(* ===== verification/Proxy.v ===== *)
(** * The TFD proxy ([cmd/tfd-proxy/main.go])

    The program that puts the pipeline and the two file sinks behind HTTP.  A
    request is the query parameters its handler reads; a response is its status
    and JSON body.  [None] is a panic or a handler that never returns.  The
    pipeline calls the sinks: what an event adds to [sunk] and [persisted] is
    passed on to them ([carry]).  The two logs are different files. *)
From Stdlib Require Import Ascii Decimal.
From stdpp Require Import sorting.
From S2P Require Import Prelude Effects OpenAddr TfdTypes TfdShard TfdState TfdPipeline Json Sinks.

(** ** Flags *)
Record Flags := mkFlags {
  shards : Z; orderPow2 : Z; countThresh : Z; time_cap : Z; flushEvery : Z;
  sLog : string; vLog : string; addr : string
}.
Definition millisecond : Z := 1000000.
Definition default_flags : Flags :=
  mkFlags 4 10 4096 (3 * millisecond) (2 * millisecond) "s.log" "v.log" ":9090".

Definition or_string (s d : string) : string := if bool_decide (s = "") then d else s.
Definition or_positive (z d : Z) : Z := if z <=? 0 then d else z.
(** [Apply sane defaults if flags are explicitly set empty/zero] *)
Definition sane (f : Flags) : Flags :=
  mkFlags (or_positive (shards f) 4) (or_positive (orderPow2 f) 10) (or_positive (countThresh f) 4096)
    (or_positive (time_cap f) (3 * millisecond)) (or_positive (flushEvery f) (2 * millisecond))
    (or_string (sLog f) "s.log") (or_string (vLog f) "v.log") (or_string (addr f) ":9090").

(** ** Requests *)
Record Query := mkQuery { q_key : string; q_bucket : string; q_n : string; q_sum : string }.

Inductive Response :=
| HttpError (status : Z) (message : string)   (* up to the error's own text *)
| Reply (status : Z) (body : option json).    (* no body when the encoder fails *)

(** [strconv.ParseInt(s, 10, 64)] *)
Definition ParseInt (s : string) : option Z :=
  let '(neg, ds) :=
    match txt s with
    | "-"%char :: ds => (true, ds)
    | "+"%char :: ds => (false, ds)
    | ds => (false, ds)
    end in
  match read_uint ds with
  | (Decimal.Nil, _) | (_, _ :: _) => None
  | (u, []) =>
      let v := Z.of_int (if neg then Decimal.Neg u else Decimal.Pos u) in
      if (MinInt64 <=? v) && (v <=? MaxInt64) then Some v else None
  end.

Definition query_n (q : Query) : Z :=
  if bool_decide (q_n q = "") then 1 else default 1 (ParseInt (q_n q)).

(** [uint64(time.Now().UnixNano())] *)
Definition request_seq (now : Z) : Z := u64 now.

Definition consume_op (now : Z) (q : Query) : Op :=
  mkOp (q_key q) (q_bucket q) (query_n q) false false false false false true true (request_seq now).
Definition set_limit_op (now : Z) (q : Query) : Op :=
  mkOp (q_key q) "" 0 false false true false false true false (request_seq now).
Definition reverse_op (now : Z) (q : Query) : Op :=
  mkOp (q_key q) (q_bucket q) (neg64 (query_n q)) false false false true false true false (request_seq now).

(** The envelope of an operation, or the error of [Classify]. *)
Definition request_envelope (now : Z) (op : Op) : Envelope + string :=
  let '(ch, fp, delta, err) := Classify op in
  match err with
  | Some e => inr e
  | None => inl (mkEnvelope ch fp delta (request_seq now) no_hash)
  end.

(** ** The process *)
Record Proxy := mkProxy { px_flags : Flags; pipe : Pipeline; fileSink : Sink; vSink : Sink }.

(** The pipeline's calls of [OnSBatches] and [vSink.Append]. *)
Definition carry (now : Z) (p : Pipeline) (px : Proxy) : Proxy :=
  mkProxy (px_flags px) p
    (foldl (fun s b => OnSBatches now b s) (fileSink px) (drop (length (sunk (svc (pipe px)))) (sunk (svc p))))
    (foldl (fun s env => Append now env s) (vSink px) (drop (length (persisted (pipe px))) (persisted p))).

Definition on_pipe (now : Z) (e : PEvent) (px : Proxy) : option Proxy :=
  p ← pstep e (pipe px); Some (carry now p px).

Definition set_sinks (fs vs : Sink) (px : Proxy) : Proxy := mkProxy (px_flags px) (pipe px) fs vs.

Definition accepted_body (chName : string) (fp : Footprint) (seq : Z) (with_bucket : bool) (s_log : option string)
    (v_log hint : string) : json :=
  JObj ([(txt "accepted", JBool true)] ++
    (if with_bucket then [(txt "bucket_id", JNum (t_BucketID (f_Time fp)))] else []) ++
    [(txt "channel", JStr (txt chName)); (txt "hint", JStr (txt hint)); (txt "key_id", JNum (f_KeyID fp))] ++
    match s_log with Some path => [(txt "s_log_path", JStr (txt path))] | None => [] end ++
    [(txt "seq_end", JNum seq); (txt "v_log_path", JStr (txt v_log))]).

(** The answers of the three handlers of operations. *)
Definition consume_reply (f : Flags) (now : Z) (env : Envelope) : Response :=
  Reply 202 (Some (accepted_body
    (if bool_decide (e_Channel env = ChannelScalar) then "S" else "V")
    (e_Footprint env) (request_seq now) true (Some (sLog f)) (vLog f)
    "Use GET /state?key=YOUR_KEY after a few ms or tail s.log/v.log")).
Definition set_limit_reply (f : Flags) (now : Z) (env : Envelope) : Response :=
  Reply 202 (Some (accepted_body "V" (e_Footprint env) (request_seq now) false None
    (vLog f) "This is a Vector op; inspect v.log or GET /state")).
Definition reverse_reply (f : Flags) (now : Z) (env : Envelope) : Response :=
  Reply 202 (Some (accepted_body "V" (e_Footprint env) (request_seq now) true None
    (vLog f) "Vector reversal logged; GET /state to observe effect")).

Definition handle_op (now : Z) (op : Op) (reply : Flags -> Z -> Envelope -> Response) (px : Proxy) :
    option (Proxy * Response) :=
  match request_envelope now op with
  | inr e => Some (px, HttpError 400 e)
  | inl env => px' ← on_pipe now (PHandle now env) px; Some (px', reply (px_flags px) now env)
  end.
(** [/consume], [/set_limit] and [/reverse] *)
Definition consume (now : Z) (q : Query) : Proxy -> option (Proxy * Response) :=
  handle_op now (consume_op now q) consume_reply.
Definition set_limit (now : Z) (q : Query) : Proxy -> option (Proxy * Response) :=
  handle_op now (set_limit_op now q) set_limit_reply.
Definition reverse (now : Z) (q : Query) : Proxy -> option (Proxy * Response) :=
  handle_op now (reverse_op now q) reverse_reply.

(** [json.Encoder] writes the members of a map in the order of their keys. *)
Definition member_le (a b : text * json) : Prop :=
  String.leb (String.string_of_list_ascii a.1) (String.string_of_list_ascii b.1) = true.
#[export] Instance member_le_dec a b : Decision (member_le a b).
Proof. unfold member_le. apply _. Defined.

Section process.
(** The orders in which [range] goes through the maps. *)
Context (range : list SBatch -> list (Z * Z)) (range_cells : State -> list ((Z * Z) * Z)).

(** The state's answers. *)
Definition sum_cells (hit : Z * Z -> bool) (st : State) : Z :=
  foldl (fun sum kv => if hit kv.1 then sum +! kv.2 else sum) 0 (range_cells st).

Definition cell_member (kv : (Z * Z) * Z) : text * json :=
  (num_text kv.1.1 ++ ":"%char :: num_text kv.1.2, JNum kv.2).

Definition state_body (q : Query) (st : State) : option json :=
  if bool_decide (q_key q = "") then None  (* a map with array keys has no JSON form *)
  else
    let kid := HashKey (q_key q) in
    if bool_decide (q_sum q = "1") then
      Some (JObj [(txt "sum", JNum
        (if bool_decide (q_bucket q = "") then sum_cells (fun kb => kb.1 =? kid) st
         else let bid := HashKey (q_bucket q) in sum_cells (fun kb => (kb.1 =? kid) && (kb.2 =? bid)) st))])
    else
      Some (JObj (merge_sort member_le
        (map cell_member (filter (fun kv => kv.1.1 = kid) (range_cells st))))).

(** [/state]; [can_read] says whether the two logs can be opened for reading. *)
Definition get_state (now : Z) (can_read : bool * bool) (q : Query) (px : Proxy) : option (Proxy * Response) :=
  px1 ← on_pipe now (PFlushS now) px;
  let fs := (sink_Flush now (fileSink px1)).1 in
  let vs := (sink_Flush now (vSink px1)).1 in
  let px2 := set_sinks fs vs px1 in
  let '(sb, e1) := ReadAllSLog (if can_read.1 then Some (disk fs) else None) in
  if (e1 : bool) then Some (px2, HttpError 500 "read S log: ")
  else
    let '(ve, e2) := ReadAllVLog (if can_read.2 then Some (disk vs) else None) in
    if (e2 : bool) then Some (px2, HttpError 500 "read V log: ")
    else Some (px2, Reply 200 (state_body q (Reconstruct sb ve NewState))).

(** [SimpleVSA{}] *)
Definition proxy_vsa (bs : list SBatch) : option (list SBatch) := Compress (range bs) bs.
Definition proxy_buffer : Z := 8192.

(** [main], up to the handlers: [None] is [log.Fatalf]. *)
Definition start (f : Flags) (s_log v_log : option text) (os_s os_v : list (option nat)) (now : Z) : option Proxy :=
  let f := sane f in
  fs ← NewSBatchFileSink s_log os_s now;
  let p := NewPipeline (shards f) (orderPow2 f) (countThresh f) (time_cap f) proxy_buffer now (Some proxy_vsa) in
  vs ← NewVEnvFileSink v_log os_v now;
  Some (mkProxy f p fs vs).

(** The deferred calls of [main], last first. *)
Definition shutdown (now : Z) (px : Proxy) : option Proxy :=
  let px1 := set_sinks (fileSink px) (sink_Close (vSink px)) px in
  px2 ← on_pipe now (PStop now) px1;
  Some (set_sinks (sink_Close (fileSink px2)) (vSink px2) px2).

(** ** Runs *)
Inductive ProxyEvent :=
| EConsume (now : Z) (q : Query)
| ESetLimit (now : Z) (q : Query)
| EReverse (now : Z) (q : Query)
| EState (now : Z) (can_read : bool * bool) (q : Query)
| EReceive (now : Z)   (* the service's goroutine *)
| ETick (now : Z).

Definition silent (px : option Proxy) : option (Proxy * option Response) := p ← px; Some (p, None).
Definition answered (r : option (Proxy * Response)) : option (Proxy * option Response) := '(p, a) ← r; Some (p, Some a).

Definition proxy_step (e : ProxyEvent) (px : Proxy) : option (Proxy * option Response) :=
  match e with
  | EConsume now q => answered (consume now q px)
  | ESetLimit now q => answered (set_limit now q px)
  | EReverse now q => answered (reverse now q px)
  | EState now can_read q => answered (get_state now can_read q px)
  | EReceive now => silent (on_pipe now (PReceive now) px)
  | ETick now => silent (on_pipe now PTick px)
  end.

Fixpoint proxy_run (es : list ProxyEvent) (px : Proxy) : option (Proxy * list (option Response)) :=
  match es with
  | [] => Some (px, [])
  | e :: es =>
      '(px', r) ← proxy_step e px;
      '(px'', rs) ← proxy_run es px';
      Some (px'', r :: rs)
  end.
End process.
