(* ===== verification/ProxySpec.v ===== *)
(** * The proxy answers with the sum of what it accepted

    The pipeline's theorem and the sinks' round trip together: as long as the cells
    fit the shards' tables ([fits]) and the writes succeed, whatever was accepted, in whatever order the requests, the service's goroutine, the ticker
    and the flushes ran, [/state] answers with the exact sums, and a restart on
    the logs changes nothing. *)
From Stdlib Require Import Ascii.
From stdpp Require Import sorting.
From S2P Require Import Prelude Effects OpenAddr TfdTypes TfdShard TfdShardSpec TfdState TfdStateSpec TfdPipeline TfdPipelineSpec Json Sinks SinksRead SinksSpec TfdRanges Proxy.

(** ** Sums over cells *)
Section sums.
Definition delta_sum (hit : Z * Z -> bool) (ps : list ((Z * Z) * Z)) : Z :=
  Zsum (omap (fun p => if hit p.1 then Some p.2 else None) ps).
Implicit Types (hit : Z * Z -> bool) (s : State).
Definition total (hit : Z * Z -> bool) (s : State) : Z := delta_sum hit (map_to_list s).

Lemma delta_sum_cons hit k v ps : delta_sum hit ((k, v) :: ps) = (if hit k then v else 0) + delta_sum hit ps.
Proof. unfold delta_sum. cbn. destruct (hit k); rewrite ?Zsum_cons; lia. Qed.

Lemma delta_sum_perm hit ps qs : ps ≡ₚ qs -> delta_sum hit ps = delta_sum hit qs.
Proof. intros H. unfold delta_sum. apply Zsum_perm. by rewrite H. Qed.

Lemma total_insert (hit : Z * Z -> bool) (k : Z * Z) (v : Z) (s : State) : s !! k = None -> total hit (<[k := v]> s) = (if hit k then v else 0) + total hit s.
Proof. intros Hk. unfold total. by rewrite (delta_sum_perm _ _ _ (map_to_list_insert s k v Hk)), delta_sum_cons. Qed.

Lemma total_add_cell hit k d s : total hit (add_cell k d s) ≡ₘ total hit s + (if hit k then d else 0).
Proof.
  unfold add_cell. destruct (s !! k) as [v|] eqn:Hk; cbn [default from_option]; unfold id.
  - rewrite <- (insert_delete_id s k v Hk) at 2. rewrite <- insert_delete_eq.
    rewrite !total_insert by apply lookup_delete_eq. destruct (hit k); [rewrite add64_eqm|];
    eqm_lia.
  - rewrite total_insert by done. destruct (hit k); [rewrite add64_eqm|];
    eqm_lia.
Qed.

Lemma total_add_cells hit ps s : total hit (add_cells ps s) ≡ₘ total hit s + delta_sum hit ps.
Proof.
  revert s. induction ps as [|[k d] ps IH]; intros s; [unfold delta_sum; cbn; by rewrite Zsum_nil, Z.add_0_r|].
  change (add_cells ((k, d) :: ps) s) with (add_cells ps (add_cell k d s)).
  rewrite IH, total_add_cell, delta_sum_cons. eqm_lia.
Qed.

(** Cells that hold 0 do not count. *)
Definition nonzeros (s : State) : State := filter (fun kv => kv.2 <> 0) s.

Lemma total_nonzeros hit s : total hit (nonzeros s) = total hit s.
Proof.
  unfold nonzeros. induction s as [|k v s Hk IH] using map_ind; [done|].
  rewrite total_insert by done. destruct (decide (v = 0)) as [->|Hv].
  - rewrite map_filter_insert_False by tauto. rewrite delete_id by done. rewrite IH. by destruct (hit k).
  - rewrite map_filter_insert_True by done. rewrite total_insert; [by rewrite IH|].
    apply map_lookup_filter_None. by left.
Qed.

#[export] Instance total_proper hit : Proper (state_eq ==> eq) (total hit).
Proof.
  intros s s' Hs. rewrite <- (total_nonzeros hit s), <- (total_nonzeros hit s'). f_equal. apply map_eq. intros c.
  specialize (Hs c). unfold value, nonzeros in *. rewrite !map_lookup_filter.
  destruct (s !! c) as [v|], (s' !! c) as [v'|]; cbn in *; try subst; repeat case_guard; cbn; try done; tauto.
Qed.

(** Increments that agree on every cell agree on every set of cells. *)
Lemma delta_sum_cells hit ps qs : (forall c, deltas_at c ps ≡ₘ deltas_at c qs) -> delta_sum hit ps ≡ₘ delta_sum hit qs.
Proof.
  intros H. pose proof (total_add_cells hit ps NewState) as H1. pose proof (total_add_cells hit qs NewState) as H2.
  rewrite (add_cells_eq ps qs NewState NewState_range H) in H1. rewrite H1 in H2.
  unfold total, NewState in H2. rewrite map_to_list_empty in H2. exact H2.
Qed.

Lemma sum_fold hit (l : list ((Z * Z) * Z)) z :
  foldl (fun sum kv => if hit kv.1 then sum +! kv.2 else sum) z l ≡ₘ z + delta_sum hit l.
Proof.
  revert z. induction l as [|[k v] l IH]; intros z; [unfold delta_sum; cbn; by rewrite Zsum_nil, Z.add_0_r|].
  cbn [foldl]. rewrite IH, delta_sum_cons. cbn [fst snd]. destruct (hit k); [rewrite add64_eqm|];
    eqm_lia.
Qed.

Lemma sum_fold_in hit (l : list ((Z * Z) * Z)) z : in64 z ->
  in64 (foldl (fun sum kv => if hit kv.1 then sum +! kv.2 else sum) z l).
Proof. revert z. induction l as [|[k v] l IH]; intros z Hz; [done|]. apply IH. cbn. destruct (hit k); auto with go. Qed.

Lemma sum_cells_total range_cells hit st : (forall st, range_cells st ≡ₚ map_to_list st) ->
  sum_cells range_cells hit st = wrap64 (total hit st).
Proof.
  intros Hr. apply eqm_in64_eq; [|by apply sum_fold_in; unfold in64; lia|apply wrap64_in].
  unfold sum_cells. rewrite sum_fold, wrap64_eqm, Z.add_0_l. unfold total. by rewrite (delta_sum_perm _ _ _ (Hr st)).
Qed.
End sums.

(** ** The sinks receive what the pipeline gives *)
Definition grows (p p' : Pipeline) : Prop :=
  sunk (svc p) `prefix_of` sunk (svc p') /\ persisted p `prefix_of` persisted p'.

Lemma receive_sunk now s s' : receive now s = Some s' -> sunk s' = sunk s.
Proof.
  unfold receive. destruct (ingress s) as [|env q]; [by intros [= <-]|]. case_match; [|by intros [= <-]].
  destruct (acc_Ingest now env (acc s)); [|done]. by intros [= <-].
Qed.

Lemma drain_sunk now s s' : drain now s = Some s' -> sunk s' = sunk s.
Proof.
  unfold drain. generalize (length (ingress s)) as n. intros n. revert s.
  induction n as [|n IH]; intros s; cbn [drain_n]; [by intros [= <-]|].
  destruct (receive now s) as [s1|] eqn:Hr; [|done]. cbn. intros H. by rewrite (IH _ H), (receive_sunk _ _ _ Hr).
Qed.

Lemma flush_sunk s s' : flush s = Some s' -> sunk s `prefix_of` sunk s'.
Proof.
  unfold flush. destruct (FlushAll (acc s)) as [a b].
  destruct b as [|b0 bs]; [by intros [= <-]|].
  destruct (match vsa (set_acc a s) with Some compress => compress (b0 :: bs) | None => Some (b0 :: bs) end) as [[|x b']|];
    [by intros [= <-]| |done]. intros [= <-]. by apply prefix_app_r.
Qed.

Lemma pstep_grows e p p' : pstep e p = Some p' -> grows p p'.
Proof.
  assert (Hsvc : forall f, (forall s s', f s = Some s' -> sunk s `prefix_of` sunk s') -> on_svc f p = Some p' -> grows p p').
  { intros f Hf. unfold on_svc. destruct (f (svc p)) as [s|] eqn:E; [|done]. intros [= <-]. split; [by apply Hf|done]. }
  assert (Hdf : forall now s s', (s1 ← drain now s; flush s1) = Some s' -> sunk s `prefix_of` sunk s').
  { intros now s s'. destruct (drain now s) as [s1|] eqn:E; [|done]. cbn. intros Hf.
    rewrite <- (drain_sunk _ _ _ E). by apply flush_sunk. }
  destruct e as [now env|now| |now|now]; cbn [pstep]; [|apply Hsvc; intros s s'; unfold in_loop, svc_Flush, svc_Stop;
    (case_match; [by intros [= <-]|])..].
  - unfold Handle. case_bool_decide.
    + destruct (TryIngest env (svc p)) as [s ok] eqn:E.
      assert (sunk s = sunk (svc p)) as Hs by (unfold TryIngest in E; repeat case_match; by injection E as <- <-).
      destruct ok; cbn; [intros [= <-]; split; [by rewrite <- Hs|done]|].
      unfold svc_Ingest. repeat case_match; try done; cbn; [by intros [= <-]; split; rewrite <- ?Hs..|].
      destruct (receive now s) as [s1|] eqn:E1; [|done]. cbn. intros [= <-].
      split; [cbn; by rewrite (receive_sunk _ _ _ E1), Hs|done].
    + destruct (Route _ _) as [r act]. intros [= <-]. split; [done|]. by apply prefix_app_r.
  - intros Hr%receive_sunk. by rewrite Hr.
  - apply flush_sunk.
  - apply (Hdf now).
  - intros Hd. destruct (drain now s) as [s1|] eqn:E; [|done]. cbn in Hd. destruct (flush s1) as [s2|] eqn:E2; [|done].
    cbn in Hd. injection Hd as <-. cbn. apply (Hdf now s s2). by rewrite E.
Qed.

(** A sink in good health that was given [T] after [base]. *)
Definition sink_ok (base T : text) (s : Sink) : Prop := good base T s /\ healthy s.

Lemma sops_sink base T ops s : Forall s_open ops -> sink_ok base T s ->
  sink_ok base (T ++ rows (all_given sgiven ops)) (foldl sop s ops).
Proof.
  intros Ho [Hg Hh]. split; [by apply (ops_keep sop sgiven base (sop_keeps base))|].
  by apply (ops_healthy sop s_open ops s sop_healthy).
Qed.

Lemma vops_sink base T ops s : Forall v_open ops -> sink_ok base T s ->
  sink_ok base (T ++ rows (all_given vgiven ops)) (foldl vop s ops).
Proof.
  intros Ho [Hg Hh]. split; [by apply (ops_keep vop vgiven base (vop_keeps base))|].
  by apply (ops_healthy vop v_open ops s vop_healthy).
Qed.

Lemma fileSink_given base T now bs s : sink_ok base T s ->
  sink_ok base (T ++ rows (concat bs)) (foldl (fun s b => OnSBatches now b s) s bs).
Proof.
  intros Hs. pose proof (sops_sink base T (SOnSBatches now <$> bs) s) as H. rewrite foldl_fmap in H.
  replace (all_given sgiven (SOnSBatches now <$> bs)) with (concat bs) in H.
  - apply H; [|done]. apply list.Forall_fmap, list.Forall_true. done.
  - unfold all_given. f_equal. clear. induction bs; [done|]. cbn. by f_equal.
Qed.

Lemma vSink_given base T now envs s : sink_ok base T s ->
  sink_ok base (T ++ rows envs) (foldl (fun s env => Append now env s) s envs).
Proof.
  intros Hs. pose proof (vops_sink base T (VAppend now <$> envs) s) as H. rewrite foldl_fmap in H.
  replace (all_given vgiven (VAppend now <$> envs)) with envs in H.
  - apply H; [|done]. apply list.Forall_fmap, list.Forall_true. done.
  - unfold all_given. clear. induction envs; [done|]. cbn. by f_equal.
Qed.

(** What the sinks of a process were given is what its pipeline has sunk and
    persisted. *)
Definition sinks_follow (olds : list SBatch) (oldv : list Envelope) (px : Proxy) : Prop :=
  sink_ok (rows olds) (rows (concat (sunk (svc (pipe px))))) (fileSink px) /\
  sink_ok (rows oldv) (rows (persisted (pipe px))) (vSink px).

Lemma carry_follow olds oldv now p px : grows (pipe px) p -> sinks_follow olds oldv px ->
  sinks_follow olds oldv (carry now p px).
Proof.
  intros [[more Hs] [morev Hv]] [H1 H2]. unfold sinks_follow, carry. cbn [pipe fileSink vSink].
  rewrite Hs, Hv, !drop_app_length, concat_app, !rows_app. split; [by apply fileSink_given|by apply vSink_given].
Qed.

(** ** Requests *)
Definition accepted_env (now : Z) (op : Op) : option Envelope :=
  match request_envelope now op with inl env => Some env | inr _ => None end.
Definition accepted_by (e : ProxyEvent) : option Envelope :=
  match e with
  | EConsume now q => accepted_env now (consume_op now q)
  | ESetLimit now q => accepted_env now (set_limit_op now q)
  | EReverse now q => accepted_env now (reverse_op now q)
  | _ => None
  end.
Definition accepted (es : list ProxyEvent) : list Envelope := omap accepted_by es.

Lemma in_range_in (v : Z) x : (if (MinInt64 <=? v) && (v <=? MaxInt64) then Some v else None) = Some x -> in64 x.
Proof.
  unfold MinInt64, MaxInt64, in64. destruct (Z.leb_spec (- H64) v), (Z.leb_spec v (H64 - 1)); try done. intros [= <-]. lia.
Qed.

Lemma ParseInt_in s v : ParseInt s = Some v -> in64 v.
Proof.
  unfold ParseInt. destruct (match txt s with [] => _ | _ => _ end) as [neg ds].
  destruct (read_uint ds) as [u r]. destruct u; try done; destruct r; try done; apply in_range_in.
Qed.

Lemma query_n_in q : in64 (query_n q).
Proof.
  unfold query_n. case_bool_decide; [unfold in64; lia|]. destruct (ParseInt (q_n q)) as [v|] eqn:E; cbn; [by eapply ParseInt_in|unfold in64; lia].
Qed.

Lemma request_envelope_ok now op env : in64 (o_Amount op) -> request_envelope now op = inl env -> envelope_ok env.
Proof.
  intros Ha. unfold request_envelope, Classify. case_bool_decide; [done|].
  assert (Hb : inu64 (if bool_decide (o_Bucket op = "") then 0 else HashKey (o_Bucket op)))
    by (case_bool_decide; [unfold inu64; lia|apply HashKey_in]).
  assert (Hno : length no_hash = 16%nat /\ Forall (fun b => 0 <= b < 256) no_hash)
    by (split; [done|apply list.Forall_replicate; lia]).
  destruct (_ || _); [|destruct (_ || _)]; intros [= <-]; split_and!; cbn;
    auto using HashKey_in, u64_in; apply Hno.
Qed.

Lemma accepted_ok e env : accepted_by e = Some env -> envelope_ok env.
Proof.
  intros H. assert (Hop : forall now op, in64 (o_Amount op) -> accepted_env now op = Some env -> envelope_ok env).
  { intros now op Ha. unfold accepted_env. destruct (request_envelope now op) eqn:E; [|done]. intros [= <-].
    by eapply request_envelope_ok. }
  destruct e as [now q|now q|now q| | |]; try done; cbn in H; (eapply Hop; [|exact H]); cbn;
    [apply query_n_in|unfold in64; lia|apply neg64_in].
Qed.

(** ** The invariant of a running proxy *)
Section proxy.
Context (o : nat) (D : gset (Z * Z)) (HD : fits o D).
Context (olds : list SBatch) (oldv : list Envelope).
Context (Holds : Forall batch_ok olds) (Holdv : Forall envelope_ok oldv).
Context (range_cells : State -> list ((Z * Z) * Z)).

(** [envs] are the envelopes accepted since the start. *)
Record px_inv (envs : list Envelope) (px : Proxy) : Prop := {
  xi_pipe : exists N, pinv o D envs (pipe px) N;
  xi_live : stopped (svc (pipe px)) = false;
  xi_types : pipe_types (pipe px);
  xi_sinks : sinks_follow olds oldv px
}.

Definition event_ok (e : ProxyEvent) : Prop :=
  match accepted_by e with Some env => e_Channel env = ChannelScalar -> env_cell env ∈ D | None => True end /\
  match e with EState _ can_read _ => can_read = (true, true) | _ => True end.

Lemma on_pipe_ok envs px now e :
  px_inv envs px -> pevent_ok D e -> pevent_types e ->
  exists px', on_pipe now e px = Some px' /\ px_inv (envs ++ handled [e]) px'.
Proof.
  intros [[N Hp] Hst Ht Hs] He Hty. unfold on_pipe.
  destruct (pstep_ok o D HD envs (pipe px) N e Hp Hst He) as (p' & N' & Hstep & Hp' & Hst'). rewrite Hstep. cbn.
  eexists. split; [done|]. split; cbn; [by exists N'|done|by eapply pstep_types|].
  apply carry_follow; [by eapply pstep_grows|done].
Qed.

(** A request for a flush leaves nothing in the channel nor in the tables. *)
Lemma flushS_ok envs px now : px_inv envs px ->
  exists px', on_pipe now (PFlushS now) px = Some px' /\ px_inv envs px' /\
    pinv o D envs (pipe px') ∅ /\ ingress (svc (pipe px')) = [].
Proof.
  intros Hx. destruct (on_pipe_ok envs px now (PFlushS now) Hx I I) as (px' & He & Hx').
  cbn [handled omap list_omap] in Hx'. rewrite app_nil_r in Hx'. exists px'. split; [done|]. split; [done|].
  destruct Hx as [[N Hp] Hst _ _]. unfold on_pipe in He. cbn [pstep] in He. unfold on_svc, svc_Flush in He. rewrite Hst in He.
  destruct (drain_ok o D HD now _ N (pi_svc _ _ _ _ _ Hp)) as (s1 & N1 & He1 & Hs1 & Hq1 & Hst1 & Ht1).
  destruct (flush_svc_ok o D HD s1 N1 Hs1) as (s & Hf & Hs & Hq & Hst' & Ht).
  rewrite He1 in He. cbn in He. rewrite Hf in He. cbn in He. injection He as <-. cbn. split; [|congruence].
  eapply pinv_svc; [done..|]. intros c. by rewrite Ht, Ht1.
Qed.

(** What a process is accountable for. *)
Definition history (envs : list Envelope) : list ((Z * Z) * Z) :=
  (batch_delta <$> olds) ++ (env_delta <$> oldv) ++ (env_delta <$> envs).

(** The logs of a flushed process. *)
Lemma logs_history envs p c : pinv o D envs p ∅ -> ingress (svc p) = [] ->
  deltas_at c (batch_delta <$> olds ++ concat (sunk (svc p))) + deltas_at c (env_delta <$> oldv ++ persisted p) ≡ₘ
  deltas_at c (history envs).
Proof.
  intros Hp Hq. unfold history. rewrite !fmap_app, !deltas_at_app, <- (pi_total _ _ _ _ _ Hp c).
  unfold svc_total, acc_value. rewrite Hq, lookup_empty. change (deltas_at c (env_delta <$> [])) with 0.
  cbn [default from_option fmap option_fmap option_map]. eqm_lia.
Qed.

Lemma reconstruct_history bs es ps : (forall c, deltas_at c (batch_delta <$> bs) + deltas_at c (env_delta <$> es) ≡ₘ deltas_at c ps) ->
  Reconstruct bs es NewState ≈ add_cells ps NewState.
Proof.
  intros H. rewrite Reconstruct_all. apply add_cells_eq; [apply NewState_range|]. intros c. rewrite deltas_at_app.
  rewrite (deltas_at_perm c (env_delta <$> merge_sort v_le es) (env_delta <$> es)) by (by rewrite merge_sort_Permutation).
  apply H.
Qed.

Lemma read_flushed {A} `{LoggedLaws A ok} old new s : Forall ok old -> Forall ok new -> sink_ok (rows old) (rows new) s ->
  ReadAll (Some (disk (bufio_flush s))) = (old ++ new, false) /\ disk (bufio_flush s) = rows (old ++ new).
Proof.
  intros Ho Hn [Hg Hh]. destruct (flushed_disk _ _ _ Hg Hh) as [Hd _]. rewrite rows_app, Hd.
  split; [|done]. by rewrite <- rows_app, read_rows by (by apply list.Forall_app).
Qed.

Lemma sunk_batches px envs : px_inv envs px ->
  Forall batch_ok (concat (sunk (svc (pipe px)))) /\ Forall envelope_ok (persisted (pipe px)).
Proof. intros [_ _ [Hs _ Hp] _]. by destruct Hs. Qed.

Lemma set_sinks_inv envs px now : px_inv envs px ->
  px_inv envs (set_sinks (sink_Flush now (fileSink px)).1 (sink_Flush now (vSink px)).1 px).
Proof.
  intros [Hp Hst Ht [Hs Hv]]. split; try done. split; cbn [pipe fileSink vSink set_sinks].
  - pose proof (sops_sink _ _ [SFlush now] _ ltac:(by repeat constructor) Hs) as H. by rewrite app_nil_r in H.
  - pose proof (vops_sink _ _ [VFlush now] _ ltac:(by repeat constructor) Hv) as H. by rewrite app_nil_r in H.
Qed.

Lemma get_state_ok envs px now q : px_inv envs px ->
  exists px' st, get_state range_cells now (true, true) q px = Some (px', Reply 200 (state_body range_cells q st)) /\
    px_inv envs px' /\ st ≈ add_cells (history envs) NewState.
Proof.
  intros Hx. destruct (flushS_ok envs px now Hx) as (px1 & He & Hx1 & Hp & Hq). unfold get_state. rewrite He. cbn [mbind option_bind].
  destruct (sunk_batches _ _ Hx1) as [Hb Hv]. destruct (xi_sinks _ _ Hx1) as [Hs1 Hs2].
  destruct (read_flushed olds _ _ Holds Hb Hs1) as [Hr1 _]. destruct (read_flushed oldv _ _ Holdv Hv Hs2) as [Hr2 _].
  cbn [fst snd]. unfold ReadAllSLog, ReadAllVLog. cbn [sink_Flush fst].
  rewrite (proj1 (flush_lastFlush now (fileSink px1))), (proj1 (flush_lastFlush now (vSink px1))), Hr1, Hr2.
  eexists _, _. split; [done|]. split; [by apply (set_sinks_inv envs px1 now)|].
  apply reconstruct_history. intros c. by apply logs_history.
Qed.

Lemma handled_one envs px now env px' :
  on_pipe now (PHandle now env) px = Some px' -> px_inv (envs ++ handled [PHandle now env]) px' -> px_inv (envs ++ [env]) px'.
Proof. done. Qed.

(** The handlers: what is accepted joins the history. *)
Lemma submit_ok envs px now op :
  px_inv envs px -> in64 (o_Amount op) ->
  match accepted_env now op with Some env => e_Channel env = ChannelScalar -> env_cell env ∈ D | None => True end ->
  match request_envelope now op with
  | inl env => exists px', on_pipe now (PHandle now env) px = Some px' /\ px_inv (envs ++ [env]) px'
  | inr _ => True
  end.
Proof.
  intros Hx Ha Hcell. destruct (request_envelope now op) as [env|] eqn:E; [|done]. unfold accepted_env in Hcell. rewrite E in Hcell.
  destruct (on_pipe_ok envs px now (PHandle now env) Hx Hcell) as (px' & He & Hx').
  { by eapply request_envelope_ok. }
  by exists px'.
Qed.

Lemma accepted_cons e es : accepted (e :: es) = match accepted_by e with Some env => env :: accepted es | None => accepted es end.
Proof. done. Qed.

Lemma proxy_step_ok envs px e : px_inv envs px -> event_ok e ->
  exists px' r, proxy_step range_cells e px = Some (px', r) /\ px_inv (envs ++ accepted [e]) px'.
Proof.
  intros Hx [Hcell Hread]. rewrite accepted_cons. change (accepted []) with (@nil Envelope).
  destruct e as [now q|now q|now q|now can_read q|now|now]; cbn [proxy_step accepted_by] in *.
  1-3: unfold consume, set_limit, reverse, handle_op.
  1: pose proof (submit_ok envs px now (consume_op now q) Hx (query_n_in q) Hcell) as H.
  2: pose proof (submit_ok envs px now (set_limit_op now q) Hx ltac:(by vm_compute) Hcell) as H.
  3: pose proof (submit_ok envs px now (reverse_op now q) Hx (neg64_in _) Hcell) as H.
  1-3: unfold accepted_env; destruct (request_envelope now _) as [env|e];
    [destruct H as (px' & -> & Hx'); by eexists _, _|eexists _, _; by rewrite app_nil_r].
  - subst can_read. destruct (get_state_ok envs px now q Hx) as (px' & st & -> & Hx' & _).
    eexists _, _. by rewrite app_nil_r.
  - destruct (on_pipe_ok envs px now (PReceive now) Hx I I) as (px' & -> & Hx'). by eexists _, _.
  - destruct (on_pipe_ok envs px now PTick Hx I I) as (px' & -> & Hx'). by eexists _, _.
Qed.

Lemma proxy_run_ok es envs px : px_inv envs px -> Forall event_ok es ->
  exists px' rs, proxy_run range_cells es px = Some (px', rs) /\ px_inv (envs ++ accepted es) px'.
Proof.
  intros Hx Hes. revert envs px Hx. induction Hes as [|e es He Hes IH]; intros envs px Hx.
  { exists px, []. by rewrite app_nil_r. }
  destruct (proxy_step_ok envs px e Hx He) as (px1 & r & Hr & Hx1). cbn [proxy_run]. rewrite Hr. cbn [mbind option_bind].
  destruct (IH _ px1 Hx1) as (px2 & rs & Hrs & Hx2). rewrite Hrs. cbn [mbind option_bind]. eexists _, _. split; [done|].
  rewrite <- app_assoc in Hx2. unfold accepted in *. by rewrite <- omap_app in Hx2.
Qed.

(** The deferred calls leave both logs complete. *)
Lemma shutdown_ok envs px now : px_inv envs px ->
  exists px' bs es, shutdown now px = Some px' /\ disk (fileSink px') = rows bs /\ disk (vSink px') = rows es /\
    Forall batch_ok bs /\ Forall envelope_ok es /\
    bs = olds ++ concat (sunk (svc (pipe px'))) /\ es = oldv ++ filter is_vector envs /\
    forall c, deltas_at c (batch_delta <$> bs) + deltas_at c (env_delta <$> es) ≡ₘ deltas_at c (history envs).
Proof.
  intros [[N Hp] Hst Ht [Hs Hv]]. unfold shutdown.
  destruct (pstop_ok o D HD envs (pipe px) N now Hp Hst) as (p & Hstep & Hp' & Hq).
  unfold on_pipe at 1. cbn [pipe set_sinks]. rewrite Hstep. cbn [mbind option_bind].
  assert (persisted p = persisted (pipe px)) as Hper by (rewrite (pi_persisted _ _ _ _ _ Hp'); by rewrite (pi_persisted _ _ _ _ _ Hp)).
  pose proof (pstep_grows _ _ _ Hstep) as [[more Hmore] _].
  pose proof (pstep_types (PStop now) _ _ Ht I Hstep) as [[_ _ Hb _] _ Hpv].
  eexists _, (olds ++ concat (sunk (svc p))), (oldv ++ persisted p). split; [done|]. cbn.
  rewrite Hper, drop_all, Hmore, drop_app_length. cbn [foldl]. rewrite Hper in Hpv.
  assert (sink_ok (rows olds) (rows (concat (sunk (svc p)))) (foldl (fun s b => OnSBatches now b s) (fileSink px) more)) as Hs'.
  { rewrite Hmore, concat_app, rows_app. by apply fileSink_given. }
  rewrite <- Hmore. split_and!.
  - by apply (read_flushed olds (concat (sunk (svc p))) _ Holds Hb Hs').
  - by apply (read_flushed oldv (persisted (pipe px)) _ Holdv Hpv Hv).
  - by apply list.Forall_app.
  - by apply list.Forall_app.
  - done.
  - f_equal. by apply (pi_persisted _ _ _ _ _ Hp).
  - intros c. rewrite <- Hper. by apply logs_history.
Qed.
End proxy.

(** ** From the start of the process *)
Lemma proxy_start_ok o D range olds oldv f t0 :
  (forall bs, ranges (range bs) bs) -> table_order (orderPow2 (sane f)) = o ->
  exists px, start range f (Some (rows olds)) (Some (rows oldv)) [] [] t0 = Some px /\ px_inv o D olds oldv [] px.
Proof.
  intros Hr <-. unfold start, NewSBatchFileSink, NewVEnvFileSink, New_sink. cbn [mbind option_bind].
  eexists. split; [done|]. pose proof (SimpleVSA_ok range Hr) as [Hv Hk].
  destruct (NewPipeline_inv D (shards (sane f)) (orderPow2 (sane f)) (countThresh (sane f)) (time_cap (sane f)) proxy_buffer t0 _ Hv) as [Hp Hst].
  assert (Hsink : forall base, sink_ok base [] (mkSink base [] false bufio_size [] false t0)).
  { intros base. split; [|done]. split; [done|]. exists []. by rewrite app_nil_r. }
  split; cbn; [by exists ∅|done|by apply NewPipeline_types|]. split; cbn; apply Hsink.
Qed.

(** The cells a sum is over. *)
Definition asked (q : Query) (kb : Z * Z) : bool :=
  (kb.1 =? HashKey (q_key q)) && (bool_decide (q_bucket q = "") || (kb.2 =? HashKey (q_bucket q))).

Lemma total_ext hit hit' s : (forall c, hit c = hit' c) -> total hit s = total hit' s.
Proof.
  intros He. unfold total, delta_sum. f_equal. induction (map_to_list s) as [|p l IH]; [done|]. cbn. by rewrite He, IH.
Qed.

Lemma state_body_sum range_cells q st ps : (forall s, range_cells s ≡ₚ map_to_list s) -> q_key q <> "" -> q_sum q = "1" ->
  st ≈ add_cells ps NewState ->
  state_body range_cells q st = Some (JObj [(txt "sum", JNum (wrap64 (delta_sum (asked q) ps)))]).
Proof.
  intros Hr Hk Hsum Hst. unfold state_body. rewrite bool_decide_false, bool_decide_true by done.
  assert (Ht : wrap64 (total (asked q) st) = wrap64 (delta_sum (asked q) ps)).
  { apply wrap64_unique. rewrite Hst, total_add_cells. unfold total, NewState. rewrite map_to_list_empty.
    unfold delta_sum at 1. cbn. by rewrite Zsum_nil. }
  rewrite <- Ht. do 5 f_equal. case_bool_decide as Hb; rewrite sum_cells_total by done; f_equal; apply total_ext; intros c; unfold asked;
    [rewrite bool_decide_true by done; by rewrite andb_true_r|by rewrite bool_decide_false].
Qed.

(** ** The theorems *)
(** C14: the answer of [/state].  Let the cells of the whole run have distinct non-zero
    packed ids and all fit one shard's table ([fits]; the default flags do not see to
    it, and a full table hangs the service, [TfdLimits]), the logs be readable and hold
    whole records, and every write succeed.  Then, for any flags and any order of
    requests (handlers one after the other), receives, ticks and earlier queries, no
    event panics or blocks for ever, and [/state?key=K&sum=1] (or with a bucket) answers
    200 with the sum, modulo [2^64], of the deltas the logs held and those of every
    request accepted since, each counted once. *)
Theorem proxy_state_sums D range range_cells olds oldv f t0 es now q :
  fits (table_order (orderPow2 (sane f))) D ->
  (forall bs, ranges (range bs) bs) -> (forall s, range_cells s ≡ₚ map_to_list s) ->
  Forall batch_ok olds -> Forall envelope_ok oldv -> Forall (event_ok D) es ->
  q_key q <> "" -> q_sum q = "1" ->
  exists px0 px rs px', start range f (Some (rows olds)) (Some (rows oldv)) [] [] t0 = Some px0 /\
    proxy_run range_cells es px0 = Some (px, rs) /\
    get_state range_cells now (true, true) q px = Some (px', Reply 200 (Some (JObj [(txt "sum",
      JNum (wrap64 (delta_sum (asked q) (history olds oldv (accepted es)))))]))).
Proof.
  intros HD Hr Hrc Hos Hov Hes Hk Hs.
  destruct (proxy_start_ok _ D range olds oldv f t0 Hr eq_refl) as (px0 & Hst & Hx0).
  destruct (proxy_run_ok _ D HD olds oldv Hos Hov range_cells es [] px0 Hx0 Hes) as (px & rs & Hrun & Hx).
  destruct (get_state_ok _ D HD olds oldv Hos Hov range_cells _ px now q Hx) as (px' & st & Hg & _ & Hstate).
  exists px0, px, rs, px'. rewrite Hg. split_and!; [done..|].
  by rewrite (state_body_sum range_cells q st _ Hrc Hk Hs Hstate).
Qed.

(** C20: a restart loses and repeats nothing.  Let the cells of both processes' runs
    together have distinct non-zero packed ids and fit one shard's table under the flags
    of each ([fits]), the logs be readable with whole records, every write succeed, and
    the handlers run one after the other.  Then after a shutdown by signal the two logs
    are complete, and a second process started on them answers [/state] with the sum,
    modulo [2^64], over the requests accepted by both processes and what the logs held
    at first; neither process panics or blocks. *)
Theorem proxy_restart_keeps_sums D range range_cells olds oldv f f' t0 t1 t2 es es' now q :
  fits (table_order (orderPow2 (sane f))) D -> fits (table_order (orderPow2 (sane f'))) D ->
  (forall bs, ranges (range bs) bs) -> (forall s, range_cells s ≡ₚ map_to_list s) ->
  Forall batch_ok olds -> Forall envelope_ok oldv -> Forall (event_ok D) es -> Forall (event_ok D) es' ->
  q_key q <> "" -> q_sum q = "1" ->
  exists px0 px rs px1 px2 px3 rs' px4,
    start range f (Some (rows olds)) (Some (rows oldv)) [] [] t0 = Some px0 /\
    proxy_run range_cells es px0 = Some (px, rs) /\ shutdown t1 px = Some px1 /\
    start range f' (Some (disk (fileSink px1))) (Some (disk (vSink px1))) [] [] t2 = Some px2 /\
    proxy_run range_cells es' px2 = Some (px3, rs') /\
    get_state range_cells now (true, true) q px3 = Some (px4, Reply 200 (Some (JObj [(txt "sum",
      JNum (wrap64 (delta_sum (asked q) (history olds oldv (accepted (es ++ es'))))))]))).
Proof.
  intros HD HD' Hr Hrc Hos Hov Hes Hes' Hk Hs.
  destruct (proxy_start_ok _ D range olds oldv f t0 Hr eq_refl) as (px0 & Hst & Hx0).
  destruct (proxy_run_ok _ D HD olds oldv Hos Hov range_cells es [] px0 Hx0 Hes) as (px & rs & Hrun & Hx).
  destruct (shutdown_ok _ D HD olds oldv Hos Hov _ px t1 Hx) as (px1 & bs & vs & Hsh & Hd1 & Hd2 & Hb & Hv & _ & _ & Hlogs).
  destruct (proxy_start_ok _ D range bs vs f' t2 Hr eq_refl) as (px2 & Hst2 & Hx2).
  destruct (proxy_run_ok _ D HD' bs vs Hb Hv range_cells es' [] px2 Hx2 Hes') as (px3 & rs' & Hrun' & Hx3).
  destruct (get_state_ok _ D HD' bs vs Hb Hv range_cells _ px3 now q Hx3) as (px4 & st & Hg & _ & Hstate).
  exists px0, px, rs, px1, px2, px3, rs', px4. rewrite Hd1, Hd2, Hg. split_and!; [done..|].
  cbn [app] in Hstate. rewrite (state_body_sum range_cells q st _ Hrc Hk Hs Hstate).
  enough (delta_sum (asked q) (history bs vs (accepted es')) ≡ₘ delta_sum (asked q) (history olds oldv (accepted (es ++ es'))))
    as E by by rewrite (wrap64_unique _ _ E).
  apply delta_sum_cells. intros c. unfold history, accepted in *. rewrite omap_app, !fmap_app, !deltas_at_app in *.
  specialize (Hlogs c). rewrite !deltas_at_app in Hlogs. cbn [app] in *. rewrite !Z.add_assoc. rewrite !Z.add_assoc in Hlogs.
  rewrite Hlogs. change (deltas_at c (env_delta <$> [])) with 0. eqm_lia.
Qed.

(** ** Examples *)
Definition map_order (bs : list SBatch) : list (Z * Z) := (map_to_list (merge_map bs)).*1.
Definition demo_q (bucket n sum : string) : Query := mkQuery "user" bucket n sum.
Definition demo_events : list ProxyEvent :=
  [EConsume 5 (demo_q "m1" "7" ""); EConsume 6 (demo_q "m1" "" ""); EReceive 7; EReverse 8 (demo_q "m1" "3" "");
   EState 9 (true, true) (demo_q "" "" ""); ESetLimit 10 (demo_q "" "" ""); EConsume 11 (mkQuery "" "m1" "4" "");
   EConsume 12 (demo_q "m2" "ten" ""); ETick 200000000].
Definition demo_ids : gset (Z * Z) := {[ (HashKey "user", HashKey "m1"); (HashKey "user", HashKey "m2") ]}.
Definition demo_flags : Flags := mkFlags 2 2 0 0 0 "" "" "".

Lemma demo_ids_fit : fits (table_order (orderPow2 (sane demo_flags))) demo_ids.
Proof.
  assert (Hc : forall c, c ∈ demo_ids -> c = (HashKey "user", HashKey "m1") \/ c = (HashKey "user", HashKey "m2"))
    by (unfold demo_ids; set_solver).
  split; [split|by vm_compute].
  - intros c [->| ->]%Hc; by vm_compute.
  - intros c c' [->| ->]%Hc [->| ->]%Hc; by vm_compute.
Qed.

#[export] Instance event_ok_dec D e : Decision (event_ok D e).
Proof. unfold event_ok. apply and_dec; [destruct (accepted_by e); apply _|destruct e; apply _]. Defined.

Lemma map_order_ranges bs : ranges (map_order bs) bs.
Proof. unfold ranges. reflexivity. Qed.

Lemma proxy_state_sums_witness :
  exists px0 px rs px', start map_order demo_flags (Some (rows [demo_b 4])) (Some (rows [demo_v 1])) [] [] 0 = Some px0 /\
    proxy_run map_to_list demo_events px0 = Some (px, rs) /\
    get_state map_to_list 300000000 (true, true) (demo_q "" "" "1") px =
      Some (px', Reply 200 (Some (JObj [(txt "sum", JNum 6)]))).
Proof.
  refine (proxy_state_sums demo_ids map_order map_to_list [demo_b 4] [demo_v 1] demo_flags 0 demo_events 300000000
    (demo_q "" "" "1") _ _ _ _ _ _ _ _).
  - exact demo_ids_fit.
  - exact map_order_ranges.
  - intros s. reflexivity.
  - concretely.
  - concretely.
  - concretely.
  - discriminate.
  - reflexivity.
Defined.

Lemma proxy_restart_keeps_sums_witness :
  exists px0 px rs px1 px2 px3 rs' px4,
    start map_order demo_flags (Some (rows [demo_b 4])) (Some (rows [])) [] [] 0 = Some px0 /\
    proxy_run map_to_list demo_events px0 = Some (px, rs) /\ shutdown 300000000 px = Some px1 /\
    start map_order demo_flags (Some (disk (fileSink px1))) (Some (disk (vSink px1))) [] [] 400000000 = Some px2 /\
    proxy_run map_to_list demo_events px2 = Some (px3, rs') /\
    get_state map_to_list 500000000 (true, true) (demo_q "m1" "" "1") px3 =
      Some (px4, Reply 200 (Some (JObj [(txt "sum", JNum 10)]))).
Proof.
  refine (proxy_restart_keeps_sums demo_ids map_order map_to_list [demo_b 4] [] demo_flags demo_flags 0 300000000 400000000
    demo_events demo_events 500000000 (demo_q "m1" "" "1") _ _ _ _ _ _ _ _ _ _).
  - exact demo_ids_fit.
  - exact demo_ids_fit.
  - exact map_order_ranges.
  - intros s. reflexivity.
  - concretely.
  - constructor.
  - concretely.
  - concretely.
  - discriminate.
  - reflexivity.
Defined.

(** The server is still up while [main]'s deferred calls run: a request handled
    after them is answered 202, and is in neither log. *)
Definition late_run (e : ProxyEvent) : option (list (option Response) * bool) :=
  px ← start map_order demo_flags (Some []) (Some []) [] [] 0;
  px ← shutdown 1 px;
  '(px', rs) ← proxy_run map_to_list [e] px;
  Some (rs, bool_decide (disk (fileSink px') = []) && bool_decide (disk (vSink px') = [])).
Definition status_of (r : option Response) : Z := match r with Some (Reply z _) => z | _ => 0 end.
Example late_requests_are_lost :
  option_map (fun r => (map status_of r.1, r.2)) (late_run (EConsume 2 (demo_q "m1" "7" ""))) = Some ([202], true) /\
  option_map (fun r => (map status_of r.1, r.2)) (late_run (EReverse 200000002 (demo_q "m1" "7" ""))) = Some ([202], true).
Proof. split; vm_compute; reflexivity. Qed.

(** A query without a key is answered 200 without a body. *)
Example state_without_key_is_empty q range_cells st : q_key q = "" -> state_body range_cells q st = None.
Proof. intros Hk. unfold state_body. by rewrite bool_decide_true. Qed.
