(* ===== verification/ProxyConc.v ===== *)
(** * The proxy with its requests as threads ([cmd/tfd-proxy/main.go])

    [Proxy] runs a handler in one step.  Here every request is a goroutine over the
    service's threads of [TfdService], the router and the two sinks, cut at each call
    that takes a lock or a channel: the send of [pipe.Handle] and [vSink.Append]; and
    for [/state] the request for a flush and its answer, the flushes of the two sinks
    and the two reads of the logs.  A read of a growing file gives what it holds when
    the reader meets its end.  Request [i] is caller [i] of the service.  The process
    is running: [main]'s deferred calls are not among the events.

    The router takes no lock.  A request of the V lane is inside [Route] and
    [Enqueue] for two steps: it reads the map as it enters and has written when it
    leaves.  Two requests inside at once conflict when one of them adds its actor to
    the map, or when both queue at the same actor.  Go then kills the process when it
    notices the two accesses to the map, and promises nothing otherwise: such a step
    ([race]) has no result, and the runs a theorem speaks of are those without one
    ([raced]).  Accesses that do not overlap in time are taken to see each other's
    writes. *)
From Stdlib Require Import Ascii.
From S2P Require Import Prelude Effects OpenAddr TfdTypes TfdShard TfdState TfdPipeline TfdService Json Sinks Proxy.

Inductive Visit :=
| VSend (env : Envelope) (r : Response)      (* in [pipe.Handle], S lane *)
| VRoute (env : Envelope) (r : Response)     (* in [pipe.Handle], V lane: before [Route] *)
| VRouting (env : Envelope) (r : Response) (w : bool)  (* in [Route] and [Enqueue]; [w]: the key has no actor yet *)
| VPersist (env : Envelope) (r : Response)   (* before [vSink.Append] *)
| VDone (env : Envelope) (r : Response)      (* accepted and answered *)
| QFlushS (q : Query)                        (* [/state]: in [pipe.FlushS] *)
| QFlushFile (q : Query)                     (* before [fileSink.Flush] *)
| QFlushLog (q : Query)                      (* before [vSink.Flush] *)
| QReadS (q : Query)                         (* before [ReadAllSLog] *)
| QReadV (q : Query) (sb : list SBatch)      (* before [ReadAllVLog] *)
| QDone (r : Response).                      (* answered *)

Record PxConf := mkPxConf {
  px_opts : Flags;
  px_svc : SConf;
  px_router : gmap Z VActor;
  px_file : Sink;               (* [fileSink] *)
  px_log : Sink;                (* [vSink] *)
  px_appended : list Envelope;  (* what [vSink.Append] was given *)
  visits : list Visit
}.
Definition set_px_svc (c : SConf) (p : PxConf) : PxConf :=
  mkPxConf (px_opts p) c (px_router p) (px_file p) (px_log p) (px_appended p) (visits p).
Definition set_px_router (r : gmap Z VActor) (p : PxConf) : PxConf :=
  mkPxConf (px_opts p) (px_svc p) r (px_file p) (px_log p) (px_appended p) (visits p).
Definition set_px_file (s : Sink) (p : PxConf) : PxConf :=
  mkPxConf (px_opts p) (px_svc p) (px_router p) s (px_log p) (px_appended p) (visits p).
Definition set_px_log (s : Sink) (a : list Envelope) (p : PxConf) : PxConf :=
  mkPxConf (px_opts p) (px_svc p) (px_router p) (px_file p) s a (visits p).
Definition set_visits (v : list Visit) (p : PxConf) : PxConf :=
  mkPxConf (px_opts p) (px_svc p) (px_router p) (px_file p) (px_log p) (px_appended p) v.
Definition set_visit (i : nat) (v : Visit) (p : PxConf) : PxConf := set_visits (<[i := v]> (visits p)) p.

(** A new request and its caller of the service. *)
Definition add_visit (x : Caller) (v : Visit) (p : PxConf) : PxConf :=
  set_visits (visits p ++ [v]) (set_px_svc (set_callers (TfdService.callers (px_svc p) ++ [x]) (px_svc p)) p).

(** The three handlers of operations, up to [pipe.Handle]. *)
Definition arrive (now : Z) (op : Op) (reply : Flags -> Z -> Envelope -> Response) (p : PxConf) : PxConf :=
  match request_envelope now op with
  | inr e => add_visit Sent (QDone (HttpError 400 e)) p
  | inl env =>
      let r := reply (px_opts p) now env in
      if bool_decide (e_Channel env = ChannelScalar) then add_visit (Sending env) (VSend env r) p
      else add_visit Sent (VRoute env r) p
  end.

Inductive PxEvent :=
| XConsume (now : Z) (q : Query)
| XSetLimit (now : Z) (q : Query)
| XReverse (now : Z) (q : Query)
| XState (q : Query)
| XVisit (i : nat) (now : Z) (can_read : bool)
| XLoop (pick : Ready) (now : Z).

(** The two requests inside the router touch the same memory, and one writes it. *)
Definition routed_key (env : Envelope) : Z := f_KeyID (e_Footprint env).
Definition conflicts (env : Envelope) (w : bool) (v : Visit) : bool :=
  match v with VRouting env' _ w' => w || w' || (routed_key env =? routed_key env') | _ => false end.
Definition actor_absent (env : Envelope) (p : PxConf) : bool := bool_decide (px_router p !! routed_key env = None).
Definition racing (env : Envelope) (p : PxConf) : bool := existsb (conflicts env (actor_absent env p)) (visits p).

Section process.
Context (range_cells : State -> list ((Z * Z) * Z)).

(** A step of a request; one that must wait stays. *)
Definition visit_step (i : nat) (now : Z) (can_read : bool) (p : PxConf) : option PxConf :=
  let call := c ← caller_step i (px_svc p); Some (set_px_svc c p) in
  match visits p !! i with
  | Some (VSend env r) =>
      match TfdService.callers (px_svc p) !! i with Some Sent => Some (set_visit i (VDone env r) p) | _ => call end
  | Some (VRoute env r) => if racing env p then None else Some (set_visit i (VRouting env r (actor_absent env p)) p)
  | Some (VRouting env r _) =>
      let '(ro, act) := Route (routed_key env) (px_router p) in
      Some (set_visit i (VPersist env r) (set_px_router (<[routed_key env := Enqueue env act]> ro) p))
  | Some (VPersist env r) =>
      Some (set_visit i (VDone env r) (set_px_log (Append now env (px_log p)) (px_appended p ++ [env]) p))
  | Some (QFlushS q) =>
      match TfdService.callers (px_svc p) !! i with Some Flushed => Some (set_visit i (QFlushFile q) p) | _ => call end
  | Some (QFlushFile q) => Some (set_visit i (QFlushLog q) (set_px_file (sink_Flush now (px_file p)).1 p))
  | Some (QFlushLog q) => Some (set_visit i (QReadS q) (set_px_log (sink_Flush now (px_log p)).1 (px_appended p) p))
  | Some (QReadS q) =>
      let '(sb, e) := ReadAllSLog (if can_read then Some (disk (px_file p)) else None) in
      Some (set_visit i (if e : bool then QDone (HttpError 500 "read S log: ") else QReadV q sb) p)
  | Some (QReadV q sb) =>
      let '(ve, e) := ReadAllVLog (if can_read then Some (disk (px_log p)) else None) in
      Some (set_visit i (QDone (if e : bool then HttpError 500 "read V log: "
        else Reply 200 (state_body range_cells q (Reconstruct sb ve NewState)))) p)
  | Some (VDone _ _) | Some (QDone _) | None => Some p
  end.

(** A step of the service's goroutine; what it sinks goes to [fileSink]. *)
Definition loop_step_px (pick : Ready) (now : Z) (p : PxConf) : option PxConf :=
  c ← run_step pick now (px_svc p);
  Some (set_px_svc c (set_px_file (foldl (fun s b => OnSBatches now b s) (px_file p)
    (drop (length (sunk (service (px_svc p)))) (sunk (service c)))) p)).

Definition px_event (e : PxEvent) (p : PxConf) : option PxConf :=
  match e with
  | XConsume now q => Some (arrive now (consume_op now q) consume_reply p)
  | XSetLimit now q => Some (arrive now (set_limit_op now q) set_limit_reply p)
  | XReverse now q => Some (arrive now (reverse_op now q) reverse_reply p)
  | XState q => Some (add_visit Flushing (QFlushS q) p)
  | XVisit i now can_read => visit_step i now can_read p
  | XLoop pick now => loop_step_px pick now p
  end.
Fixpoint px_run (es : list PxEvent) (p : PxConf) : option PxConf :=
  match es with
  | [] => Some p
  | e :: es => p' ← px_event e p; px_run es p'
  end.

(** A step that enters the router against another request, and a run that has one. *)
Definition race (e : PxEvent) (p : PxConf) : bool :=
  match e with
  | XVisit i _ _ => match visits p !! i with Some (VRoute env _) => racing env p | _ => false end
  | _ => false
  end.
Fixpoint raced (es : list PxEvent) (p : PxConf) : bool :=
  match es with
  | [] => false
  | e :: es => race e p || match px_event e p with Some p' => raced es p' | None => false end
  end.
End process.

(** [main] up to the handlers; [pipe.Start] has started the goroutine. *)
Definition px_start (range : list SBatch -> list (Z * Z)) (f : Flags) (s_log v_log : option text)
    (os_s os_v : list (option nat)) (now : Z) : option PxConf :=
  px ← start range f s_log v_log os_s os_v now;
  let s := svc (pipe px) in
  Some (mkPxConf (px_flags px) (set_loop s Selecting (service_conf s)) (router (pipe px)) (fileSink px) (vSink px) [] []).
