(* ===== verification/ProxyConcSpec.v ===== *)
(** * What a query of the running proxy answers

    Whatever the interleaving, as long as the cells fit the tables, the writes succeed
    and no two requests race in the router, the state [/state] answers is, cell by
    cell, that of a moment: the deltas the logs held at first, those of the first operations of the S
    lane up to some point (of its own for each cell) and those of the first
    operations of the V lane up to some point, none before the query began
    ([state_answers_moments]). *)
From Stdlib Require Import Ascii.
From stdpp Require Import sorting.
From S2P Require Import Prelude Effects OpenAddr TfdTypes TfdShard TfdShardSpec TfdState TfdStateSpec TfdPipeline TfdPipelineSpec TfdService TfdServiceSpec Json Sinks SinksRead SinksSpec TfdRanges Proxy ProxySpec ProxyConc.

(** ** Reading a file between two moments *)
Lemma read_between {A} `{LoggedLaws A ok} (l1 l2 : list A) w : Forall ok (l1 ++ l2) ->
  rows l1 `prefix_of` w -> w `prefix_of` rows (l1 ++ l2) -> exists k, ReadAll (Some w) = (l1 ++ take k l2, false).
Proof.
  intros [Ho1 Ho2]%list.Forall_app [w' ->] Hw. rewrite rows_app in Hw. apply prefix_app_inv in Hw.
  destruct (read_prefix l2 w' Ho2 Hw) as [k Hk]. exists k. by rewrite read_after, Hk.
Qed.

Lemma sink_disk base T s : sink_ok base T s -> disk s `prefix_of` base ++ T.
Proof.
  intros [[_ (w & -> & Hw)] (_ & He & _)]. rewrite He in Hw. apply prefix_app. by exists (buf s).
Qed.

(** ** What the sink has received is a prefix of the sends *)
Definition received (c : SConf) : nat := length (sent c) - length (ingress (service c)).
Definition sunk_rows (c : SConf) : list SBatch := concat (sunk (service c)).

(** From row [k0] on, what a cell has in the rows is what it has in the sends up to
    some point, not before [n1]. *)
Definition snap (n1 k0 : nat) (c : SConf) : Prop :=
  (n1 <= received c)%nat /\ (k0 <= length (sunk_rows c))%nat /\
  forall k cell, (k0 <= k <= length (sunk_rows c))%nat -> exists n, (n1 <= n <= length (sent c))%nat /\
    deltas_at cell (batch_delta <$> take k (sunk_rows c)) ≡ₘ deltas_at cell (env_delta <$> take n (sent c)).

(** A step that sinks nothing. *)
Lemma snap_same n1 k0 c c' more : snap n1 k0 c -> sunk (service c') = sunk (service c) ->
  sent c' = sent c ++ more -> (received c <= received c')%nat -> snap n1 k0 c'.
Proof.
  intros (H1 & H2 & H3) Hs He Hr. unfold snap, sunk_rows in *. rewrite Hs. split_and!; [lia|done|].
  intros k cell Hk. destruct (H3 k cell Hk) as (n & Hn & Hd). exists n. rewrite He, length_app. split; [lia|].
  by rewrite take_app_le by lia.
Qed.

(** A flush, of rows on distinct cells. *)
Lemma snap_flush n1 k0 c c' (b : list SBatch) : snap n1 k0 c -> sunk_rows c' = sunk_rows c ++ b ->
  NoDup (batch_cell <$> b) -> sent c' = sent c -> received c' = received c ->
  (forall cell, deltas_at cell (batch_delta <$> sunk_rows c') ≡ₘ deltas_at cell (env_delta <$> take (received c') (sent c'))) ->
  snap n1 k0 c'.
Proof.
  intros (H1 & H2 & H3) Hrows Hnd He Hr Hfull. unfold snap. rewrite Hrows, length_app, Hr. split_and!; [done|lia|].
  intros k cell Hk. destruct (decide (k <= length (sunk_rows c)))%nat as [Hle|Hgt].
  { rewrite take_app_le by done. rewrite He. apply H3. lia. }
  rewrite take_app_ge by lia. set (r := (k - length (sunk_rows c))%nat).
  rewrite fmap_app, deltas_at_app. destruct (decide (cell ∈ batch_cell <$> take r b)) as [Hin|Hni].
  - exists (received c). split; [rewrite He; unfold received in *; lia|]. rewrite <- Hr.
    pose proof (Hfull cell) as Hf. rewrite Hrows, fmap_app, deltas_at_app in Hf. rewrite <- Hf.
    rewrite <- (take_drop r b) at 2. rewrite (fmap_app _ (take r b)), deltas_at_app.
    rewrite (deltas_at_notin cell (batch_delta <$> drop r b)); [by rewrite Z.add_0_r|].
    rewrite <- list_fmap_compose. change (fst ∘ batch_delta) with batch_cell.
    rewrite <- (take_drop r b), fmap_app in Hnd. apply list.NoDup_app in Hnd as (_ & Hd & _). by apply Hd.
  - destruct (H3 (length (sunk_rows c)) cell) as (n & Hn & Hd); [lia|]. exists n. rewrite He. split; [done|].
    rewrite (deltas_at_notin cell (batch_delta <$> take r b)) by (by rewrite <- list_fmap_compose).
    rewrite Z.add_0_r, <- Hd. by rewrite firstn_all.
Qed.

(** ** The service of a running proxy *)
Section service.
Context (range : list SBatch -> list (Z * Z)) (Hrange : forall bs, ranges (range bs) bs).
Context (o : nat) (D : gset (Z * Z)) (HD : fits o D).

Definition caller_types (x : Caller) : Prop :=
  match x with Sending env | Blocked env => envelope_ok env | _ => True end.
Definition serving (r : RunLoop) : Prop := match r with Selecting | Draining _ => True | _ => False end.
Definition under_service (r : RunLoop) : list nat := match r with Draining j => [j] | _ => [] end.

Record live (c : SConf) : Prop := {
  lv_conf : exists N, conf_ok o D c N;
  lv_stops : TfdServiceSpec.stops c = 0;
  lv_run : serving (runner c);
  lv_fifo : exists before, sent c = before ++ ingress (service c);
  lv_types : svc_types (service c);
  lv_callers : Forall caller_types (TfdService.callers c);
  lv_vsa : vsa (service c) = Some (proxy_vsa range);
  lv_ids : Forall (fun j => j < length (TfdService.callers c))%nat (TfdService.answered c ++ flushReqCh c ++ under_service (runner c))
}.

(** All that was received is in the sink. *)
Definition all_sunk (c : SConf) : Prop := forall cell,
  deltas_at cell (batch_delta <$> sunk_rows c) ≡ₘ deltas_at cell (env_delta <$> take (received c) (sent c)).

Lemma flush_shape s s' : vsa s = Some (proxy_vsa range) -> flush s = Some s' ->
  vsa s' = vsa s /\ exists more, sunk s' = sunk s ++ more /\ NoDup (batch_cell <$> concat more).
Proof using Hrange.
  intros Hv. unfold flush. destruct (FlushAll (acc s)) as [a [|b bs]].
  { intros [= <-]. split; [done|]. exists []. rewrite app_nil_r. split; [done|constructor]. }
  cbn [vsa set_acc]. rewrite Hv. destruct (proxy_vsa range (b :: bs)) as [out|] eqn:Hp; [|done]. cbn [mbind option_bind].
  unfold proxy_vsa in Hp. destruct (Compress_ok _ _ (Hrange (b :: bs))) as (out' & Hc & Hperm). rewrite Hp in Hc. injection Hc as <-.
  assert (Hnd : NoDup (batch_cell <$> out)) by (rewrite Hperm; apply compressed_cells_NoDup).
  destruct out as [|x out]; intros [= <-]; (split; [done|]).
  - exists []. rewrite app_nil_r. split; [done|constructor].
  - exists [x :: out]. split; [done|]. cbn [concat]. by rewrite app_nil_r.
Qed.

Lemma flush_live c : live c -> exists s', flush (service c) = Some s' /\
  ingress s' = ingress (service c) /\ svc_inv o D s' ∅ /\ svc_types s' /\ vsa s' = Some (proxy_vsa range) /\
  (exists more, sunk s' = sunk (service c) ++ more /\ NoDup (batch_cell <$> concat more)) /\
  (forall k, svc_total s' ∅ k ≡ₘ deltas_at k (env_delta <$> sent c)) /\
  (forall k, deltas_at k (batch_delta <$> concat (sunk s')) ≡ₘ deltas_at k (env_delta <$> take (received c) (sent c))).
Proof using HD Hrange.
  intros [[N Hc] Hst Hrun [before Hb] Ht _ Hv _].
  destruct (loop_flush o D HD c N Hc) as (s' & Hf & Hi & Hinv & Htot); [by destruct (runner c)|].
  exists s'. destruct (flush_shape _ _ Hv Hf) as [Hv' Hmore]. split_and!; try done; [by eapply flush_types|by rewrite Hv'|].
  intros k. specialize (Htot k). unfold svc_total in Htot. rewrite empty_acc_value, Hi in Htot.
  unfold received. rewrite Hb, length_app, Nat.add_sub, take_app_length.
  rewrite Hb, fmap_app, deltas_at_app in Htot. destruct Htot as [q Hq]. exists q. lia.
Qed.

Lemma received_tail c c' : (exists before, sent c = before ++ ingress (service c)) -> sent c' = sent c ->
  ingress (service c') = tail (ingress (service c)) ->
  (received c <= received c')%nat /\ exists before, sent c' = before ++ ingress (service c').
Proof.
  intros [before Hb] Hs Hi. unfold received. rewrite Hs, Hi. split; [destruct (ingress (service c)); cbn; lia|].
  rewrite Hb. destruct (ingress (service c)) as [|e q]; [by exists before|]. exists (before ++ [e]). by rewrite <- app_assoc.
Qed.

(** What a step of the loop does. *)
Record loop_effect (c c' : SConf) : Prop := {
  le_live : live c';
  le_sent : sent c' = sent c;
  le_callers : TfdService.callers c' = TfdService.callers c;
  le_sunk : exists more, sunk (service c') = sunk (service c) ++ more /\ NoDup (batch_cell <$> concat more) /\
    (received c <= received c')%nat /\ (more <> [] -> received c' = received c /\ all_sunk c');
  le_kept : TfdService.answered c `prefix_of` TfdService.answered c';
  le_answers j : j ∈ TfdService.answered c' -> j ∈ TfdService.answered c \/ all_sunk c' /\ ingress (service c') = []
}.

Lemma loop_nothing c : live c -> loop_effect c c.
Proof.
  intros Hl. split; [done..| |done|by left]. exists []. rewrite app_nil_r. split_and!; [done|constructor|done|done].
Qed.

Lemma loop_received c s' r now : live c -> serving r -> receive now (service c) = Some s' ->
  Forall (fun j => j < length (TfdService.callers c))%nat (TfdService.answered c ++ flushReqCh c ++ under_service r) ->
  loop_effect c (set_loop s' r c).
Proof using HD Hrange.
  intros Hl Hr Hrec Hids. destruct Hl as [[N Hc] Hst Hrun Hb Ht Hcs Hv _].
  destruct (loop_receive o D HD now c N r Hc) as (s1 & N' & Hrec' & Hi & Hok); [by destruct (runner c)|by destruct r|].
  rewrite Hrec in Hrec'. injection Hrec' as <-. pose proof (receive_sunk _ _ _ Hrec) as Hs.
  destruct (received_tail c (set_loop s' r c) Hb eq_refl Hi) as [Hle Hb'].
  split; [|done|done| |done|by left].
  - split; [by exists N'|done|done|done|by eapply receive_types|done| |done].
    cbn. revert Hrec. unfold receive. destruct (ingress (service c)); [by intros [= <-]|]. case_match; [|by intros [= <-]].
    destruct (acc_Ingest _ _ _); [|done]. by intros [= <-].
  - exists []. cbn [service set_loop]. rewrite Hs, app_nil_r. split_and!; [done|constructor|done|done].
Qed.

Lemma loop_flushed c s' c' : live c -> flush (service c) = Some s' -> service c' = s' -> sent c' = sent c ->
  TfdService.callers c' = TfdService.callers c -> stopCh c' = stopCh c -> runner c' = Selecting ->
  flushReqCh c' = flushReqCh c ->
  (TfdService.answered c' = TfdService.answered c \/ ingress (service c) = [] /\ TfdService.answered c' = TfdService.answered c ++ under_service (runner c)) ->
  loop_effect c c'.
Proof using HD Hrange.
  intros Hl Hf Hs Hse Hca Hsc Hr Hfr Ha. destruct (flush_live c Hl) as (s1 & Hf1 & Hi & Hinv & Hty & Hv & (more & Hm & Hnd) & Htot & Hfull).
  rewrite Hf in Hf1. injection Hf1 as <-. destruct Hl as [[N Hc] Hst Hrun Hb Ht Hcs _ Hids].
  assert (Hrec : received c' = received c) by (unfold received; by rewrite Hse, Hs, Hi).
  assert (Hall : all_sunk c') by (intros cell; unfold sunk_rows; rewrite Hrec, Hse, Hs; apply Hfull).
  split; [|done|done| | |].
  - split; [exists ∅| | | | | | |].
    + split; [by rewrite Hs|rewrite Hca; apply Hc|intros _ k; rewrite Hs, Hse; apply Htot|by rewrite Hr].
    + unfold TfdServiceSpec.stops in *. by rewrite Hca, Hsc.
    + by rewrite Hr.
    + rewrite Hse, Hs, Hi. done.
    + by rewrite Hs.
    + by rewrite Hca.
    + by rewrite Hs.
    + rewrite Hca, Hfr, Hr. cbn [under_service]. rewrite app_nil_r.
      apply list.Forall_app in Hids as [H1 H2]. apply list.Forall_app in H2 as [H2 H3].
      apply list.Forall_app. split; [|done]. destruct Ha as [->|[_ ->]]; [done|]. by apply list.Forall_app.
  - exists more. rewrite Hs. split_and!; [done|done|lia|done].
  - destruct Ha as [->|[_ ->]]; [done|by apply prefix_app_r].
  - intros j Hj. destruct Ha as [Ha|[Hin Ha]]; [left; by rewrite <- Ha|]. right. rewrite Hs, Hi. done.
Qed.

Lemma run_step_live pick now c : live c -> exists c', run_step pick now c = Some c' /\ loop_effect c c'.
Proof using HD Hrange.
  intros Hl. destruct (lv_conf _ Hl) as [N Hc]. pose proof (lv_run _ Hl) as Hrun. pose proof (lv_ids _ Hl) as Hids.
  assert (Hrecv : exists s', receive now (service c) = Some s').
  { destruct (loop_receive o D HD now c N Selecting Hc) as (s' & _ & ? & _); [by destruct (runner c)|done|]. by exists s'. }
  destruct Hrecv as [s1 Hrecv]. destruct (flush_live c Hl) as (s2 & Hflush & _).
  assert (Hstop : stopCh c = false).
  { pose proof (lv_stops _ Hl) as Hs. unfold TfdServiceSpec.stops in Hs. pose proof (stopping_nonneg (TfdService.callers c)).
    destruct (stopCh c); [unfold fmap in *; lia|done]. }
  unfold run_step. destruct (runner c) as [| |i| |] eqn:Hr; try done.
  - destruct pick.
    + rewrite Hrecv. eexists. split; [done|]. by eapply loop_received.
    + rewrite Hflush. eexists. split; [done|]. eapply loop_flushed; try done. by left.
    + destruct (flushReqCh c) as [|i rest] eqn:Hq; [eexists; split; [done|]; by apply loop_nothing|].
      eexists. split; [done|]. destruct Hl as [[N' Hc'] Hst _ Hb Ht Hcs Hv _]. split; [|done|done| |done|by left].
      * split; [exists N'|done|done|done|done|done|done|].
        -- destruct Hc' as [H1 H2 H3 H4]. split; [done|done| |done]. intros _. apply H3. congruence.
        -- cbn. cbn [under_service app] in Hids. rewrite app_nil_r in Hids. rewrite list.Forall_app in *.
           destruct Hids as [H1 H2]. inversion_clear H2. split; [done|]. apply list.Forall_app. by repeat constructor.
      * exists []. rewrite app_nil_r. split_and!; [done|constructor|done|done].
    + rewrite Hstop. eexists. split; [done|]. by apply loop_nothing.
  - destruct (ingress (service c)) as [|env q] eqn:Hq.
    + rewrite Hflush. eexists. split; [done|]. eapply loop_flushed; try done. right. by rewrite Hr.
    + rewrite Hrecv. eexists. split; [done|]. by eapply loop_received.
Qed.

(** What a step of a caller does to the rest. *)
Record caller_effect (i : nat) (c c' : SConf) : Prop := {
  ce_live : live c';
  ce_sent : exists more, sent c' = sent c ++ more;
  ce_sunk : sunk (service c') = sunk (service c);
  ce_received : received c' = received c;
  ce_answered : TfdService.answered c' = TfdService.answered c;
  ce_length : length (TfdService.callers c') = length (TfdService.callers c);
  ce_others j : j <> i -> TfdService.callers c' !! j = TfdService.callers c !! j;
  ce_mine : match TfdService.callers c !! i, TfdService.callers c' !! i with
    | Some (Sending env), Some y | Some (Blocked env), Some y =>
        e_Channel env = ChannelScalar -> y = Blocked env \/ y = Sent /\ env ∈ sent c'
    | Some Flushing, Some y => y = Flushing \/ y = AwaitsFlush
    | Some AwaitsFlush, Some y => y = AwaitsFlush \/ y = Flushed /\ i ∈ TfdService.answered c
    | x, y => y = x
    end
}.

(** The callers a request has. *)
Definition visiting (x : Caller) : Prop :=
  match x with Sending _ | Blocked _ | Sent | Flushing | AwaitsFlush | Flushed => True | _ => False end.

Lemma push_effect i env c : live c -> TfdService.callers c !! i = Some (Sending env) \/ TfdService.callers c !! i = Some (Blocked env) ->
  e_Channel env = ChannelScalar -> has_room (service c) = true ->
  forall c', caller_step i c = Some c' -> c' = set_caller i Sent (push env c) -> caller_effect i c c'.
Proof using HD Hrange.
  intros Hl Hi Hch Hroom c' Hst ->. destruct Hl as [[N Hc] Hs Hrun [before Hb] Ht Hcs Hv Hids].
  assert (Hlen : (i < length (TfdService.callers c))%nat) by (destruct Hi as [Hi|Hi]; by eapply lookup_lt_Some).
  assert (Htypes : envelope_ok env) by (destruct Hi as [Hi|Hi]; exact (Forall_lookup_1 _ _ _ _ Hcs Hi)).
  destruct (caller_step_ok o D i c N Hc) as (c2 & Hst2 & Hok); [intros Hx; destruct Hi as [Hi|Hi]; congruence|].
  rewrite Hst in Hst2. injection Hst2 as <-.
  split.
  - split; [by exists N| |done| | | |done|].
    + by rewrite (caller_step_stops _ _ _ Hst).
    + exists before. cbn. by rewrite Hb, app_assoc.
    + cbn. by apply push_types.
    + cbn. by apply Forall_insert.
    + cbn. by rewrite length_insert.
  - by exists [env].
  - done.
  - unfold received. cbn. rewrite !length_app. cbn. rewrite Hb, length_app. lia.
  - done.
  - cbn. by rewrite length_insert.
  - intros j Hj. cbn. by rewrite list_lookup_insert_ne.
  - cbn. rewrite list_lookup_insert_eq by done.
    destruct Hi as [-> | ->]; intros _; right; (split; [done|]); apply elem_of_app; right; by left.
Qed.

(** A step that changes only the caller, and perhaps asks for a flush. *)
Lemma quiet_effect i c c' x y q : live c -> TfdService.callers c !! i = Some x -> caller_step i c = Some c' ->
  c' = mkSConf (service c) (runner c) (stopCh c) q (TfdService.answered c) (<[i := y]> (TfdService.callers c)) (sent c) (sent_at_end c) ->
  x <> Stopping -> caller_types y ->
  q = flushReqCh c \/ q = [i] ->
  match x with
  | Sending env | Blocked env => e_Channel env = ChannelScalar -> y = Blocked env \/ y = Sent /\ env ∈ sent c
  | Flushing => y = Flushing \/ y = AwaitsFlush
  | AwaitsFlush => y = AwaitsFlush \/ y = Flushed /\ i ∈ TfdService.answered c
  | x => y = x
  end -> caller_effect i c c'.
Proof using HD Hrange.
  intros Hl Hi Hst -> Hns Hy Hq Hmine. destruct Hl as [[N Hc] Hs Hrun Hb Ht Hcs Hv Hids].
  assert (Hlen : (i < length (TfdService.callers c))%nat) by (by eapply lookup_lt_Some).
  destruct (caller_step_ok o D i c N Hc) as (c2 & Hst2 & Hok); [intros Hx; congruence|].
  rewrite Hst in Hst2. injection Hst2 as <-.
  split.
  - split; [by exists N| |done|done|done| |done|].
    + by rewrite (caller_step_stops _ _ _ Hst).
    + cbn. by apply Forall_insert.
    + cbn. rewrite length_insert. rewrite !list.Forall_app in *. destruct Hids as (H1 & H2 & H3). split_and!; try done.
      destruct Hq as [-> | ->]; [done|]. by repeat constructor.
  - exists []. by rewrite app_nil_r.
  - done.
  - done.
  - done.
  - cbn. by rewrite length_insert.
  - intros j Hj. cbn. by rewrite list_lookup_insert_ne.
  - cbn. rewrite list_lookup_insert_eq by done. rewrite Hi. destruct x; try done; by rewrite Hmine.
Qed.

Lemma caller_step_live i c : live c -> match TfdService.callers c !! i with Some x => visiting x | None => True end ->
  exists c', caller_step i c = Some c' /\ caller_effect i c c'.
Proof using HD Hrange.
  intros Hl Hvis. destruct (lv_conf _ Hl) as [N Hc].
  destruct (TfdService.callers c !! i) as [x|] eqn:Hi.
  2: { exists c. unfold caller_step. rewrite Hi. split; [done|]. split; try done; [exists []; by rewrite app_nil_r|by rewrite Hi]. }
  assert (Hns : x <> Stopping) by by destruct x.
  destruct (caller_step_ok o D i c N Hc) as (c' & Hst & _); [intros Hx; congruence|].
  exists c'. split; [done|].
  assert (Hsame : c = mkSConf (service c) (runner c) (stopCh c) (flushReqCh c) (TfdService.answered c)
    (<[i := x]> (TfdService.callers c)) (sent c) (sent_at_end c)) by (rewrite list_insert_id by done; by destruct c).
  pose proof (Forall_lookup_1 _ _ _ _ (lv_callers _ Hl) Hi) as Hty.
  pose proof Hst as Hst'. unfold caller_step in Hst'. rewrite Hi in Hst'.
  destruct x as [env|env| | | | | | | | |]; try done.
  - destruct (decide (e_Channel env = ChannelScalar)) as [Hch|Hch].
    + rewrite bool_decide_true in Hst' by done. cbn [negb] in Hst'. destruct (has_room (service c)) eqn:Hroom; injection Hst' as <-.
      * eapply push_effect; try done. by left.
      * eapply quiet_effect; try done; [by left|]. cbn. by left.
    + rewrite bool_decide_false in Hst' by done. injection Hst' as <-. eapply quiet_effect; try done; [by left|]. cbn. done.
  - destruct (has_room (service c)) eqn:Hroom; injection Hst' as <-.
    + destruct (decide (e_Channel env = ChannelScalar)) as [Hch|Hch]; [eapply push_effect; try done; by right|].
      exfalso. pose proof (Forall_lookup_1 _ _ _ _ (co_callers _ _ _ _ Hc) Hi) as [_ Hb]. done.
    + eapply quiet_effect; [done..|exact Hsame|done|done|by left|]. cbn. by left.
  - injection Hst' as <-. eapply quiet_effect; [done..|exact Hsame|done|done|by left|done].
  - destruct (flushReqCh c) eqn:Hq; injection Hst' as <-.
    + eapply quiet_effect; [done..|reflexivity|done|done|by right|]. by right.
    + rewrite <- Hq in Hsame. eapply quiet_effect; [done..|exact Hsame|done|done|by left|]. by left.
  - destruct (decide (i ∈ TfdService.answered c)) as [Ha|Ha]; injection Hst' as <-.
    + eapply quiet_effect; [done..|reflexivity|done|done|by left|]. by right.
    + eapply quiet_effect; [done..|exact Hsame|done|done|by left|]. by left.
  - injection Hst' as <-. eapply quiet_effect; [done..|exact Hsame|done|done|by left|done].
Qed.

Lemma live_add c x : live c -> caller_ok D x -> caller_types x -> x <> Stopping ->
  live (set_callers (TfdService.callers c ++ [x]) c).
Proof using HD Hrange.
  intros [[N Hc] Hs Hrun Hb Ht Hcs Hv Hids] Hx Hty Hns. split; [exists N| |done|done|done| |done|].
  - apply conf_ok_callers; [done|]. apply list.Forall_app. split; [apply Hc|by constructor].
  - unfold TfdServiceSpec.stops in *. cbn. rewrite fmap_app, Zsum_app. cbn [fmap list_fmap]. rewrite Zsum_cons, Zsum_nil.
    destruct x; cbn; unfold fmap in *; try lia; done.
  - cbn. apply list.Forall_app. by repeat constructor.
  - cbn. eapply list.Forall_impl; [exact Hids|]. intros j Hj. cbn in Hj |- *. rewrite length_app. lia.
Qed.
End service.

(** ** The running proxy *)
Section proxy.
Context (range : list SBatch -> list (Z * Z)) (Hrange : forall bs, ranges (range bs) bs).
Context (range_cells : State -> list ((Z * Z) * Z)).
Context (o : nat) (D : gset (Z * Z)) (HD : fits o D).
Context (olds : list SBatch) (oldv : list Envelope).
Context (Holds : Forall batch_ok olds) (Holdv : Forall envelope_ok oldv).

(** What a request knows of its caller, and what it was answered. *)
Definition visit_ok (c : SConf) (appended : list Envelope) (i : nat) (v : Visit) : Prop :=
  match v with
  | VSend env _ => e_Channel env = ChannelScalar /\
      (TfdService.callers c !! i = Some (Sending env) \/ TfdService.callers c !! i = Some (Blocked env) \/
       TfdService.callers c !! i = Some Sent /\ env ∈ sent c)
  | VRoute env _ | VRouting env _ _ | VPersist env _ => e_Channel env <> ChannelScalar /\ envelope_ok env
  | VDone env _ => env ∈ (if bool_decide (e_Channel env = ChannelScalar) then sent c else appended)
  | QFlushS _ => TfdService.callers c !! i = Some Flushing \/ TfdService.callers c !! i = Some AwaitsFlush \/
      TfdService.callers c !! i = Some Flushed /\ i ∈ TfdService.answered c
  | _ => True
  end.

Record px_ok (p : PxConf) : Prop := {
  xo_live : live range o D (px_svc p);
  xo_file : sink_ok (rows olds) (rows (sunk_rows (px_svc p))) (px_file p);
  xo_log : sink_ok (rows oldv) (rows (px_appended p)) (px_log p);
  xo_appended : Forall envelope_ok (px_appended p);
  xo_length : length (TfdService.callers (px_svc p)) = length (visits p);
  xo_visits i v : visits p !! i = Some v -> visit_ok (px_svc p) (px_appended p) i v
}.

(** What no event takes back. *)
Record evolves (p p' : PxConf) : Prop := {
  ev_snap n1 k0 : snap n1 k0 (px_svc p) -> snap n1 k0 (px_svc p');
  ev_sent : sent (px_svc p) `prefix_of` sent (px_svc p');
  ev_rows : sunk_rows (px_svc p) `prefix_of` sunk_rows (px_svc p');
  ev_appended : px_appended p `prefix_of` px_appended p';
  ev_file : disk (px_file p) `prefix_of` disk (px_file p');
  ev_log : disk (px_log p) `prefix_of` disk (px_log p');
  ev_answers j : j ∈ TfdService.answered (px_svc p') -> j ∈ TfdService.answered (px_svc p) \/
    all_sunk (px_svc p') /\ ingress (service (px_svc p')) = []
}.

(** The request that asked [q] when [n1] S operations and [m1] V operations were in. *)
Definition rows_written (k0 : nat) (p : PxConf) : Prop :=
  rows (olds ++ take k0 (sunk_rows (px_svc p))) `prefix_of` disk (px_file p).
Definition log_written (m1 : nat) (p : PxConf) : Prop :=
  rows (oldv ++ take m1 (px_appended p)) `prefix_of` disk (px_log p).
(** The rows read are, cell by cell, those of a moment since. *)
Definition moments (n1 : nat) (sb : list SBatch) (p : PxConf) : Prop :=
  forall cell, exists n, (n1 <= n <= length (sent (px_svc p)))%nat /\
    deltas_at cell (batch_delta <$> sb) ≡ₘ
      deltas_at cell (batch_delta <$> olds) + deltas_at cell (env_delta <$> take n (sent (px_svc p))).
Definition answers_moments (n1 m1 : nat) (st : State) (p : PxConf) : Prop :=
  exists m, (m1 <= m <= length (px_appended p))%nat /\
    forall cell, exists n, (n1 <= n <= length (sent (px_svc p)))%nat /\
      value st cell = wrap64 (deltas_at cell (history olds oldv (take n (sent (px_svc p)) ++ take m (px_appended p)))).

Definition query_at (n1 m1 : nat) (q : Query) (v : Visit) (i : nat) (p : PxConf) : Prop :=
  match v with
  | QFlushS q' => q' = q /\ (i ∈ TfdService.answered (px_svc p) -> exists k0, snap n1 k0 (px_svc p))
  | QFlushFile q' => q' = q /\ exists k0, snap n1 k0 (px_svc p)
  | QFlushLog q' => q' = q /\ exists k0, snap n1 k0 (px_svc p) /\ rows_written k0 p
  | QReadS q' => q' = q /\ (exists k0, snap n1 k0 (px_svc p) /\ rows_written k0 p) /\ log_written m1 p
  | QReadV q' sb => q' = q /\ moments n1 sb p /\ log_written m1 p
  | QDone r => exists st, r = Reply 200 (state_body range_cells q st) /\ answers_moments n1 m1 st p
  | _ => False
  end.
Definition query_ok (n1 m1 : nat) (q : Query) (i : nat) (p : PxConf) : Prop :=
  (n1 <= length (sent (px_svc p)))%nat /\ (m1 <= length (px_appended p))%nat /\
  exists v, visits p !! i = Some v /\ query_at n1 m1 q v i p.

Lemma take_prefix_eq {X} n (l l' : list X) : l `prefix_of` l' -> (n <= length l)%nat -> take n l' = take n l.
Proof. intros [k ->] Hn. by rewrite take_app_le. Qed.

Lemma query_evolves n1 m1 q v i p p' : (n1 <= length (sent (px_svc p)))%nat -> (m1 <= length (px_appended p))%nat ->
  evolves p p' -> query_at n1 m1 q v i p -> query_at n1 m1 q v i p'.
Proof.
  intros Hn Hm [Hsnap Hsent Hrows Happ Hfile Hlog Hans].
  assert (Hls : (length (sent (px_svc p)) <= length (sent (px_svc p')))%nat) by by apply prefix_length.
  assert (Hla : (length (px_appended p) <= length (px_appended p'))%nat) by by apply prefix_length.
  assert (Hw : forall k0, snap n1 k0 (px_svc p) -> rows_written k0 p -> rows_written k0 p').
  { intros k0 (_ & Hk & _) Hw. unfold rows_written in *. rewrite (take_prefix_eq _ _ _ Hrows Hk). by etrans. }
  assert (Hlw : log_written m1 p -> log_written m1 p').
  { intros Hw'. unfold log_written in *. rewrite (take_prefix_eq _ _ _ Happ Hm). by etrans. }
  destruct v as [env r|env r|env r w|env r|env r|q'|q'|q'|q'|q' sb|r]; cbn [query_at]; try done.
  - intros [-> H]. split; [done|]. intros Hi. destruct (Hans i Hi) as [Hold|[Hall Hin]].
    + destruct (H Hold) as [k0 Hk]. exists k0. by apply Hsnap.
    + exists (length (sunk_rows (px_svc p'))). unfold snap, received. rewrite Hin. cbn. split_and!; [lia|done|].
      intros k cell Hk. exists (length (sent (px_svc p'))). split; [lia|].
      replace k with (length (sunk_rows (px_svc p'))) by lia. rewrite !firstn_all.
      specialize (Hall cell). unfold received in Hall. rewrite Hin in Hall. cbn in Hall. by rewrite Nat.sub_0_r, firstn_all in Hall.
  - intros [-> [k0 H]]. split; [done|]. exists k0. by apply Hsnap.
  - intros [-> (k0 & H1 & H2)]. split; [done|]. exists k0. auto.
  - intros [-> [(k0 & H1 & H2) H3]]. split; [done|]. split; [exists k0; auto|auto].
  - intros [-> [H1 H2]]. split; [done|]. split; [|auto]. intros cell. destruct (H1 cell) as (n & Hle & Hd).
    exists n. split; [lia|]. by rewrite (take_prefix_eq _ _ _ Hsent) by lia.
  - intros (st & -> & m & Hle & H). exists st. split; [done|]. exists m. split; [lia|]. intros cell.
    destruct (H cell) as (n & Hle' & Hd). exists n. split; [lia|].
    by rewrite (take_prefix_eq _ _ _ Hsent), (take_prefix_eq _ _ _ Happ) by lia.
Qed.

Lemma visit_ok_mono c c' app app' i v : TfdService.callers c' !! i = TfdService.callers c !! i ->
  sent c `prefix_of` sent c' -> app `prefix_of` app' -> TfdService.answered c `prefix_of` TfdService.answered c' ->
  visit_ok c app i v -> visit_ok c' app' i v.
Proof.
  intros Hc [ms Hs] [ma Ha] [mn Hn]. destruct v as [env r|env r|env r w|env r|env r|q'|q'|q'|q'|q' sb|r]; cbn [visit_ok]; try done; rewrite ?Hc.
  - intros [Hch [H|[H|[H Hin]]]]; (split; [done|]); [by left|by right; left|]. right; right. split; [done|].
    rewrite Hs, elem_of_app. by left.
  - rewrite Hs, Ha. case_bool_decide; rewrite elem_of_app; by left.
  - intros [H|[H|[H Hin]]]; [by left|by right; left|]. right; right. split; [done|]. rewrite Hn, elem_of_app. by left.
Qed.

Lemma evolves_refl p p' : px_svc p' = px_svc p -> px_appended p' = px_appended p ->
  disk (px_file p) `prefix_of` disk (px_file p') -> disk (px_log p) `prefix_of` disk (px_log p') -> evolves p p'.
Proof. intros Hs Ha Hf Hl. by split; rewrite ?Hs, ?Ha; try done; [..|left]. Qed.

(** A request that moves. *)
Lemma px_ok_visit p p' i v w : px_ok p -> visits p !! i = Some w -> visits p' = <[i := v]> (visits p) ->
  live range o D (px_svc p') -> evolves p p' ->
  sink_ok (rows olds) (rows (sunk_rows (px_svc p'))) (px_file p') ->
  sink_ok (rows oldv) (rows (px_appended p')) (px_log p') -> Forall envelope_ok (px_appended p') ->
  TfdService.answered (px_svc p) `prefix_of` TfdService.answered (px_svc p') ->
  length (TfdService.callers (px_svc p')) = length (TfdService.callers (px_svc p)) ->
  (forall j, j <> i -> TfdService.callers (px_svc p') !! j = TfdService.callers (px_svc p) !! j) ->
  visit_ok (px_svc p') (px_appended p') i v -> px_ok p'.
Proof.
  intros Hok Hi Hv Hl Hev Hf Hlg Ha Han Hlen Hoth Hmine. split; try done.
  - rewrite Hlen, Hv, length_insert. apply Hok.
  - intros j x. rewrite Hv. destruct (decide (i = j)) as [<-|Hne].
    + rewrite list_lookup_insert_eq by (by eapply lookup_lt_Some). by intros [= <-].
    + rewrite list_lookup_insert_ne by done. intros Hj. eapply visit_ok_mono; [by apply Hoth| | |done|by eapply xo_visits]; apply Hev.
Qed.

Lemma add_visit_ok p x v : px_ok p -> caller_ok D x -> caller_types x -> x <> Stopping ->
  visit_ok (px_svc (add_visit x v p)) (px_appended p) (length (visits p)) v ->
  px_ok (add_visit x v p) /\ evolves p (add_visit x v p).
Proof using HD Hrange.
  intros Hok Hx Hty Hns Hnew. split.
  - split; cbn; try apply Hok.
    + apply live_add; try done. apply Hok.
    + rewrite !length_app. by rewrite (xo_length _ Hok).
    + intros i w Hi. apply lookup_app_Some in Hi as [Hi|[Hge Hi]].
      * eapply visit_ok_mono; [| | | |by eapply xo_visits]; try done. cbn. apply lookup_app_l.
        rewrite (xo_length _ Hok). by eapply lookup_lt_Some.
      * apply list_lookup_singleton_Some in Hi as [Hz <-].
        assert (Hi : i = length (visits p)) by lia. subst i. exact Hnew.
  - split; try done. by left.
Qed.

(** A caller's step inside a request. *)
Lemma call_ok_px p i w : px_ok p -> visits p !! i = Some w ->
  match w with VSend _ _ | QFlushS _ => True | _ => False end ->
  exists c, caller_step i (px_svc p) = Some c /\ px_ok (set_px_svc c p) /\ evolves p (set_px_svc c p).
Proof using HD Hrange.
  intros Hok Hi Hw. pose proof (xo_visits _ Hok i w Hi) as Hv. pose proof (xo_live _ Hok) as Hl.
  destruct (caller_step_live range Hrange o D HD i (px_svc p) Hl) as (c & Hst & [Hl' [more Hs] Hsu Hr Ha Hlen Hoth Hmine]).
  { destruct w; try done; cbn in Hv.
    - destruct Hv as (_ & [-> |[-> |[-> _]]]); done.
    - destruct Hv as [-> |[-> |[-> _]]]; done. }
  exists c. split; [done|].
  assert (Hrows : sunk_rows c = sunk_rows (px_svc p)) by (unfold sunk_rows; by rewrite Hsu).
  assert (Hev : evolves p (set_px_svc c p)).
  { split; cbn; try done.
    - intros n1 k0 Hsn. eapply snap_same; [done|done|done|lia].
    - rewrite Hs. by apply prefix_app_r.
    - by rewrite Hrows.
    - rewrite Ha. by left. }
  split; [|done]. eapply px_ok_visit; [done|exact Hi| |done|done| |apply Hok|apply Hok|cbn; by rewrite Ha|done|done|].
  - cbn. symmetry. by apply list_insert_id.
  - cbn. rewrite Hrows. apply Hok.
  - cbn. assert (Hlt : (i < length (TfdService.callers c))%nat).
    { rewrite Hlen, (xo_length _ Hok). by eapply lookup_lt_Some. }
    apply lookup_lt_is_Some in Hlt as [y Hy]. rewrite Hy in Hmine. destruct w; try done; cbn [visit_ok] in *; rewrite ?Hy.
    + destruct Hv as (Hch & [Hc|[Hc|[Hc Hin]]]); rewrite Hc in Hmine; (split; [done|]).
      * destruct (Hmine Hch) as [-> |[-> ?]]; auto.
      * destruct (Hmine Hch) as [-> |[-> ?]]; auto.
      * rewrite Hmine. right; right. split; [done|]. rewrite Hs, elem_of_app. by left.
    + rewrite Ha. destruct Hv as [Hc|[Hc|[Hc Hin]]]; rewrite Hc in Hmine.
      * destruct Hmine as [-> | ->]; auto.
      * destruct Hmine as [-> |[-> ?]]; auto.
      * rewrite Hmine. auto.
Qed.

(** The service's loop. *)
Lemma loop_ok_px pick now p : px_ok p ->
  exists p', loop_step_px pick now p = Some p' /\ px_ok p' /\ evolves p p' /\ visits p' = visits p.
Proof using HD Hrange.
  intros Hok. destruct (run_step_live range Hrange o D HD pick now (px_svc p) (xo_live _ Hok))
    as (c & Hst & [Hl Hs Hc (more & Hm & Hnd & Hr & Hfull) Hk Ha]).
  unfold loop_step_px. rewrite Hst. cbn [mbind option_bind]. rewrite Hm, drop_app_length. eexists. split; [done|].
  assert (Hrows : sunk_rows c = sunk_rows (px_svc p) ++ concat more) by (unfold sunk_rows; by rewrite Hm, concat_app).
  assert (Hext : disk (px_file p) `prefix_of` disk (foldl (fun s b => OnSBatches now b s) (px_file p) more)).
  { clear. revert p. induction more as [|b more IH] using rev_ind; intros p; [done|]. rewrite foldl_app. cbn.
    etrans; [apply IH|]. apply (sop_extends _ (SOnSBatches now b)). }
  assert (Hev : evolves p (set_px_svc c (set_px_file (foldl (fun s b => OnSBatches now b s) (px_file p) more) p))).
  { split; cbn; try done.
    - intros n1 k0 Hsn. destruct more as [|b more].
      + eapply (snap_same _ _ (px_svc p) c []); [done|by rewrite Hm, app_nil_r|by rewrite Hs, app_nil_r|done].
      + destruct Hfull as [Hre Hall]; [done|]. by eapply snap_flush.
    - by rewrite Hs.
    - rewrite Hrows. by apply prefix_app_r. }
  split_and!; [|done|done]. split; cbn; try apply Hok; try done.
  - rewrite Hrows, rows_app. by apply fileSink_given, Hok.
  - rewrite Hc. apply Hok.
  - intros i v Hi. eapply visit_ok_mono; [by rewrite Hc|by rewrite Hs|done|done|by apply Hok].
Qed.

Lemma query_same n1 m1 q j p p' : evolves p p' -> visits p' !! j = visits p !! j ->
  query_ok n1 m1 q j p -> query_ok n1 m1 q j p'.
Proof.
  intros Hev Hv (Hn & Hm & v & Hj & Hq). pose proof (prefix_length _ _ (ev_sent _ _ Hev)). pose proof (prefix_length _ _ (ev_appended _ _ Hev)).
  split_and!; [lia|lia|]. exists v. rewrite Hv. split; [done|]. by eapply query_evolves.
Qed.

(** What a flush of a sink and a read of its file give. *)
Lemma flushed_rows {A} `{LoggedLaws A ok} (old new : list A) now s k : Forall ok old -> Forall ok new ->
  sink_ok (rows old) (rows new) s -> rows (old ++ take k new) `prefix_of` disk (sink_Flush now s).1.
Proof.
  intros Ho Hn Hs. destruct (read_flushed old new s Ho Hn Hs) as [_ Hd]. cbn [sink_Flush fst].
  rewrite (proj1 (flush_lastFlush now s)), Hd, !rows_app. apply prefix_app. rewrite <- (take_drop k new) at 2. rewrite rows_app. by apply prefix_app_r.
Qed.

Lemma read_since {A} `{LoggedLaws A ok} (old new : list A) s k0 : Forall ok old -> Forall ok new ->
  sink_ok (rows old) (rows new) s -> rows (old ++ take k0 new) `prefix_of` disk s -> (k0 <= length new)%nat ->
  exists k, (k0 <= k <= length new)%nat /\ ReadAll (Some (disk s)) = (old ++ take k new, false).
Proof.
  intros Ho Hn Hs Hw Hk. destruct (read_between (old ++ take k0 new) (drop k0 new) (disk s)) as [k Hr].
  - rewrite <- app_assoc, take_drop. by apply list.Forall_app.
  - done.
  - rewrite <- app_assoc, take_drop, rows_app. by apply sink_disk.
  - exists (k0 + Nat.min k (length new - k0))%nat. split; [lia|]. rewrite Hr. f_equal. rewrite <- app_assoc. f_equal.
    rewrite take_take_drop. destruct (Nat.le_ge_cases k (length new - k0)).
    + by rewrite Nat.min_l.
    + rewrite Nat.min_r by done. rewrite !take_ge; [done|lia..].
Qed.

Lemma sunk_ok p : px_ok p -> Forall batch_ok (sunk_rows (px_svc p)).
Proof. intros Hok. apply (lv_types _ _ _ _ (xo_live _ Hok)). Qed.

Lemma visit_step_ok i now p : px_ok p -> race (XVisit i now true) p = false ->
  exists p', visit_step range_cells i now true p = Some p' /\
  px_ok p' /\ evolves p p' /\ forall n1 m1 q j, query_ok n1 m1 q j p -> query_ok n1 m1 q j p'.
Proof using HD Hrange Holds Holdv.
  intros Hok. unfold visit_step, race. destruct (visits p !! i) as [v|] eqn:Hi; [|by exists p; split_and!; [done|done|by apply evolves_refl|]].
  intros Hrace.
  assert (Hother : forall p' w, evolves p p' -> visits p' = <[i := w]> (visits p) ->
    (forall n1 m1 q, query_ok n1 m1 q i p -> query_at n1 m1 q w i p') ->
    forall n1 m1 q j, query_ok n1 m1 q j p -> query_ok n1 m1 q j p').
  { intros p' w Hev Hv Hmine n1 m1 q j Hq. destruct (decide (j = i)) as [->|Hne].
    - pose proof Hq as (Hn & Hm & _). pose proof (prefix_length _ _ (ev_sent _ _ Hev)). pose proof (prefix_length _ _ (ev_appended _ _ Hev)).
      split_and!; [lia|lia|]. exists w. rewrite Hv, list_lookup_insert_eq by (by eapply lookup_lt_Some). auto.
    - apply (query_same n1 m1 q j p p' Hev); [|done]. by rewrite Hv, list_lookup_insert_ne. }
  assert (Hat : forall n1 m1 q, query_ok n1 m1 q i p -> query_at n1 m1 q v i p).
  { intros n1 m1 q (_ & _ & w & Hw & H). rewrite Hi in Hw. by injection Hw as ->. }
  assert (Hcall : match v with VSend _ _ | QFlushS _ => True | _ => False end ->
    exists p', (c ← caller_step i (px_svc p); Some (set_px_svc c p)) = Some p' /\ px_ok p' /\ evolves p p' /\
      forall n1 m1 q j, query_ok n1 m1 q j p -> query_ok n1 m1 q j p').
  { intros Hv. destruct (call_ok_px p i v Hok Hi Hv) as (c & -> & Hok' & Hev). cbn [mbind option_bind].
    eexists. split_and!; [done..|]. intros n1 m1 q j. by apply query_same. }
  (* a step that touches nothing but the request, the router and the sinks *)
  assert (Hmove : forall p' w, px_svc p' = px_svc p -> visits p' = <[i := w]> (visits p) -> evolves p p' ->
    sink_ok (rows olds) (rows (sunk_rows (px_svc p))) (px_file p') ->
    sink_ok (rows oldv) (rows (px_appended p')) (px_log p') -> Forall envelope_ok (px_appended p') ->
    visit_ok (px_svc p) (px_appended p') i w ->
    (forall n1 m1 q, query_ok n1 m1 q i p -> query_at n1 m1 q w i p') ->
    exists p'', Some p' = Some p'' /\ px_ok p'' /\ evolves p p'' /\
      forall n1 m1 q j, query_ok n1 m1 q j p -> query_ok n1 m1 q j p'').
  { intros p' w Hs Hv Hev Hf Hl Ha Hw Hq. exists p'. split_and!; [done| |done|by eapply Hother].
    eapply (px_ok_visit p p' i w v); try done; rewrite ?Hs; try done. apply Hok. }
  pose proof (xo_visits _ Hok i v Hi) as Hv. pose proof (xo_file _ Hok) as Hfile. pose proof (xo_log _ Hok) as Hlog.
  pose proof (xo_appended _ Hok) as Happ. pose proof (sunk_ok p Hok) as Hsunk.
  destruct v as [env r|env r|env r w|env r|env r|q'|q'|q'|q'|q' sb|r]; cbn [visit_ok] in Hv.
  - destruct Hv as [Hch Hv]. destruct (TfdService.callers (px_svc p) !! i) as [[]|] eqn:Hc; try (by apply Hcall).
    apply (Hmove _ (VDone env r)); try done.
    + by apply evolves_refl.
    + cbn. rewrite bool_decide_true by done. by destruct Hv as [?|[?|[_ ?]]].
  - rewrite Hrace. apply (Hmove _ (VRouting env r (actor_absent env p))); try done. by apply evolves_refl.
  - destruct (Route _ _) as [ro act]. apply (Hmove _ (VPersist env r)); try done. by apply evolves_refl.
  - destruct Hv as [Hch Henv]. apply (Hmove _ (VDone env r)); try done.
    + split; cbn; try done; [by apply prefix_app_r|apply (vop_extends _ (VAppend now env))|by left].
    + pose proof (vops_sink _ _ [VAppend now env] _ ltac:(by repeat constructor) Hlog) as H. rewrite <- rows_app in H. exact H.
    + cbn. apply list.Forall_app. split; [done|]. by constructor.
    + cbn. rewrite bool_decide_false by done. apply elem_of_app. right. by left.
  - exists p. split_and!; [done|done|by apply evolves_refl|done].
  - destruct (TfdService.callers (px_svc p) !! i) as [[]|] eqn:Hc; try (by apply Hcall).
    apply (Hmove _ (QFlushFile q')); try done; [by apply evolves_refl|].
    intros n1 m1 q Hq. destruct (Hat _ _ _ Hq) as [-> Hs]. split; [done|]. apply Hs. by destruct Hv as [?|[?|[_ ?]]].
  - apply (Hmove _ (QFlushLog q')); try done.
    + apply evolves_refl; try done. apply (sop_extends _ (SFlush now)).
    + pose proof (sops_sink _ _ [SFlush now] _ ltac:(by repeat constructor) Hfile) as H. by rewrite app_nil_r in H.
    + intros n1 m1 q Hq. destruct (Hat _ _ _ Hq) as [-> [k0 Hs]]. split; [done|]. exists k0. split; [done|]. by apply flushed_rows.
  - apply (Hmove _ (QReadS q')); try done.
    + apply evolves_refl; try done. apply (vop_extends _ (VFlush now)).
    + pose proof (vops_sink _ _ [VFlush now] _ ltac:(by repeat constructor) Hlog) as H. by rewrite app_nil_r in H.
    + intros n1 m1 q Hq. destruct (Hat _ _ _ Hq) as [-> H]. split; [done|]. split; [exact H|]. by apply flushed_rows.
  - destruct (ReadAllSLog _) as [sb e] eqn:Hread. apply (Hmove _ (if e then QDone (HttpError 500 "read S log: ") else QReadV q' sb)); try done.
    + by apply evolves_refl.
    + by destruct e.
    + intros n1 m1 q Hq. destruct (Hat _ _ _ Hq) as (-> & (k0 & (H1 & H2 & H3) & Hw) & Hl).
      destruct (read_since olds _ (px_file p) k0 Holds Hsunk Hfile Hw H2) as (k & Hk & Hr).
      unfold ReadAllSLog in Hread. rewrite Hr in Hread. injection Hread as <- <-. split; [done|]. split; [|done].
      intros cell. destruct (H3 k cell Hk) as (n & Hn & Hd). exists n. split; [done|]. cbn. by rewrite fmap_app, deltas_at_app, Hd.
  - destruct (ReadAllVLog _) as [ve e] eqn:Hread. eapply Hmove; try done; [by apply evolves_refl|].
    intros n1 m1 q Hq. pose proof Hq as (_ & Hm & _). destruct (Hat _ _ _ Hq) as (-> & Hmom & Hw).
    destruct (read_since oldv _ (px_log p) m1 Holdv Happ Hlog Hw Hm) as (m & Hmm & Hr).
    unfold ReadAllVLog in Hread. rewrite Hr in Hread. injection Hread as <- <-. eexists. split; [done|]. exists m. split; [done|].
    intros cell. destruct (Hmom cell) as (n & Hn & Hd). exists n. split; [done|]. cbn.
    rewrite Reconstruct_all, value_add_cells by apply NewState_range. apply wrap64_unique.
    unfold value, NewState. rewrite lookup_empty. cbn [default from_option]. rewrite deltas_at_app, Hd.
    rewrite (deltas_at_perm cell (env_delta <$> merge_sort v_le _) (env_delta <$> oldv ++ take m (px_appended p))) by (by rewrite merge_sort_Permutation).
    unfold history. rewrite !fmap_app, !deltas_at_app. eqm_lia.
  - exists p. split_and!; [done|done|by apply evolves_refl|done].
Qed.

(** A request as an event of the coarse proxy. *)
Definition proxy_event (e : PxEvent) : option ProxyEvent :=
  match e with
  | XConsume now q => Some (EConsume now q)
  | XSetLimit now q => Some (ESetLimit now q)
  | XReverse now q => Some (EReverse now q)
  | _ => None
  end.
Definition xevent_ok (e : PxEvent) : Prop :=
  match proxy_event e with Some e' => event_ok D e' | None => True end /\
  match e with XVisit _ _ can_read => can_read = true | _ => True end.

Lemma query_add n1 m1 q j p p' : evolves p p' -> visits p `prefix_of` visits p' ->
  query_ok n1 m1 q j p -> query_ok n1 m1 q j p'.
Proof.
  intros Hev [more Hv] Hq. eapply query_same; [done| |done]. destruct Hq as (_ & _ & v & Hj & _). rewrite Hv.
  apply lookup_app_l. by eapply lookup_lt_Some.
Qed.

Lemma arrive_ok now op reply p : px_ok p -> in64 (o_Amount op) ->
  match accepted_env now op with Some env => e_Channel env = ChannelScalar -> env_cell env ∈ D | None => True end ->
  px_ok (arrive now op reply p) /\ evolves p (arrive now op reply p) /\ visits p `prefix_of` visits (arrive now op reply p).
Proof using HD Hrange.
  intros Hok Ha Hcell. unfold arrive, accepted_env in *.
  destruct (request_envelope now op) as [env|e] eqn:He.
  - pose proof (request_envelope_ok now op env Ha He) as Henv. case_bool_decide as Hch.
    + destruct (add_visit_ok p (Sending env) (VSend env (reply (px_opts p) now env))) as [H1 H2]; try done.
      { cbn. split; [done|]. left. apply list_lookup_middle. by rewrite (xo_length _ Hok). }
      split_and!; [done..|by apply prefix_app_r].
    + destruct (add_visit_ok p Sent (VRoute env (reply (px_opts p) now env))) as [H1 H2]; try done.
      split_and!; [done..|by apply prefix_app_r].
  - destruct (add_visit_ok p Sent (QDone (HttpError 400 e))) as [H1 H2]; try done.
    split_and!; [done..|by apply prefix_app_r].
Qed.

Lemma ask_ok q p : px_ok p ->
  let p' := add_visit Flushing (QFlushS q) p in
  px_ok p' /\ evolves p p' /\ visits p `prefix_of` visits p' /\
  query_ok (length (sent (px_svc p))) (length (px_appended p)) q (length (visits p)) p'.
Proof using HD Hrange.
  intros Hok p'. destruct (add_visit_ok p Flushing (QFlushS q)) as [H1 H2]; try done.
  { cbn. left. apply list_lookup_middle. by rewrite (xo_length _ Hok). }
  split_and!; [done..|by apply prefix_app_r|]. split_and!; [done..|]. exists (QFlushS q). split.
  - cbn. by apply list_lookup_middle.
  - split; [done|]. intros Hin. exfalso. cbn in Hin.
    pose proof (lv_ids _ _ _ _ (xo_live _ Hok)) as Hids. apply list.Forall_app in Hids as [Hids _].
    rewrite list.Forall_forall in Hids. specialize (Hids _ Hin). rewrite (xo_length _ Hok) in Hids. cbn in Hids. lia.
Qed.

Lemma px_event_ok e p : px_ok p -> xevent_ok e -> race e p = false ->
  exists p', px_event range_cells e p = Some p' /\ px_ok p' /\
  forall n1 m1 q j, query_ok n1 m1 q j p -> query_ok n1 m1 q j p'.
Proof using HD Hrange Holds Holdv.
  intros Hok [He Hc] Hrace.
  assert (Hadd : forall p', px_ok p' /\ evolves p p' /\ visits p `prefix_of` visits p' -> exists p'', Some p' = Some p'' /\ px_ok p'' /\
    forall n1 m1 q j, query_ok n1 m1 q j p -> query_ok n1 m1 q j p'').
  { intros p' (H1 & H2 & H3). exists p'. split_and!; [done..|]. intros n1 m1 q j. by apply query_add. }
  destruct e as [now q|now q|now q|q|i now can_read|pick now]; cbn [px_event proxy_event] in *.
  - apply Hadd, arrive_ok; [done|apply query_n_in|apply He].
  - apply Hadd, arrive_ok; [done|cbn; unfold in64; lia|apply He].
  - apply Hadd, arrive_ok; [done|apply neg64_in|apply He].
  - apply Hadd. destruct (ask_ok q p Hok) as (H1 & H2 & H3 & _). by split_and!.
  - subst can_read. destruct (visit_step_ok i now p Hok Hrace) as (p' & Hst & H1 & _ & H3). by exists p'.
  - destruct (loop_ok_px pick now p Hok) as (p' & Hst & H1 & H2 & H3). exists p'. split_and!; [done..|].
    intros n1 m1 q j. apply query_same; [done|by rewrite H3].
Qed.

Lemma px_run_ok es p : px_ok p -> Forall xevent_ok es -> raced range_cells es p = false -> exists p', px_run range_cells es p = Some p' /\ px_ok p' /\
  forall n1 m1 q j, query_ok n1 m1 q j p -> query_ok n1 m1 q j p'.
Proof using HD Hrange Holds Holdv.
  intros Hok Hes. revert p Hok. induction Hes as [|e es He Hes IH]; intros p Hok; cbn [px_run raced]; [by exists p|].
  intros [Hre Hrs]%orb_false_iff. destruct (px_event_ok e p Hok He Hre) as (p1 & Hp1 & Hok1 & Hq1).
  rewrite Hp1 in Hrs |- *. cbn [mbind option_bind]. destruct (IH p1 Hok1 Hrs) as (p2 & Hr & Hok2 & Hq2). exists p2. split_and!; [done..|]. auto.
Qed.
End proxy.

Lemma raced_app range_cells es es' p : raced range_cells (es ++ es') p = false ->
  raced range_cells es p = false /\ forall p', px_run range_cells es p = Some p' -> raced range_cells es' p' = false.
Proof.
  revert p. induction es as [|e es IH]; intros p; cbn [raced app px_run].
  { intros H. split; [done|]. by intros p' [= <-]. }
  intros [-> H]%orb_false_iff. cbn [orb]. destruct (px_event range_cells e p) as [p1|]; [by apply IH|done].
Qed.

(** ** From the start *)
Lemma px_start_ok D range olds oldv f t0 : (forall bs, ranges (range bs) bs) ->
  exists p, px_start range f (Some (rows olds)) (Some (rows oldv)) [] [] t0 = Some p /\
    px_ok range (table_order (orderPow2 (sane f))) D olds oldv p.
Proof.
  intros Hr. destruct (proxy_start_ok _ D range olds oldv f t0 Hr eq_refl) as (px & Hst & [[N Hp] Hlive Ht [Hs Hv]]).
  unfold px_start. rewrite Hst. cbn [mbind option_bind]. eexists. split; [done|].
  unfold start, NewSBatchFileSink, NewVEnvFileSink, New_sink in Hst. cbn [mbind option_bind] in Hst. injection Hst as <-. cbn in *.
  split; try done.
  split; try done; [|by exists []|apply Ht].
  exists N. split; [apply Hp|constructor| |done]. intros _ k. cbn. rewrite <- (pi_total _ _ _ _ _ Hp k). cbn.
  change (deltas_at k (env_delta <$> [])) with 0. by rewrite Z.add_0_r.
Qed.

(** The answer about one cell. *)
Lemma state_body_cell range_cells q st : (forall s, range_cells s ≡ₚ map_to_list s) ->
  q_key q <> "" -> q_bucket q <> "" -> q_sum q = "1" -> in64 (value st (HashKey (q_key q), HashKey (q_bucket q))) ->
  state_body range_cells q st =
    Some (JObj [(txt "sum", JNum (value st (HashKey (q_key q), HashKey (q_bucket q))))]).
Proof.
  intros Hr Hk Hb Hs Hin. set (cell := (HashKey (q_key q), HashKey (q_bucket q))) in *.
  unfold state_body. rewrite bool_decide_false, bool_decide_true, bool_decide_false by done.
  rewrite sum_cells_total by done.
  assert (Ht : total (fun kb => (kb.1 =? HashKey (q_key q)) && (kb.2 =? HashKey (q_bucket q))) st = value st cell).
  { unfold value. pose proof (deltas_at_map (fun v : Z => v) st cell) as Hd.
    assert (Hid : (fun v : Z => v) <$> st !! cell = st !! cell) by (by destruct (st !! cell)). rewrite Hid in Hd. rewrite <- Hd. unfold total, delta_sum, deltas_at. f_equal. clear.
    induction (map_to_list st) as [|[[a b] v] l IH]; [done|]. cbn. rewrite IH. unfold cell.
    destruct (Z.eqb_spec a (HashKey (q_key q))), (Z.eqb_spec b (HashKey (q_bucket q))); cbn; case_decide; congruence. }
  by rewrite Ht, wrap64_id.
Qed.

(** C15: every query sees the past, and each cell at a moment.  Let requests, the
    service's goroutine and its ticker take their steps in any order, on any readable
    logs of whole records, with writes that succeed, and let the cells of the whole run
    have distinct non-zero packed ids and all fit one shard's table ([fits]).  The
    router has no lock: of the runs in which no two requests are in it at once on the
    same actor, or while one adds an actor ([raced]; otherwise Go may kill the process),
    the following holds.  Nothing panics or is refused; a request answered 202 has its
    operation among the sends of the S lane or in the V log; and when a query for
    [/state] has its answer, it is 200 with a state that gives every cell what the logs
    held at first, the first operations of the S lane and the first operations of the V
    lane up to some points, which include every operation that was in before the query
    began: the point of the V lane is the same for all cells, that of the S lane may
    differ from cell to cell, since a batch of rows may be cut by a full buffer.  The
    sum asked of one bucket is thus its sum at a moment. *)
Theorem state_answers_moments D range range_cells olds oldv f t0 es1 q es2 :
  fits (table_order (orderPow2 (sane f))) D -> (forall bs, ranges (range bs) bs) ->
  (forall s, range_cells s ≡ₚ map_to_list s) ->
  Forall batch_ok olds -> Forall envelope_ok oldv -> Forall (xevent_ok D) es1 -> Forall (xevent_ok D) es2 ->
  exists p0, px_start range f (Some (rows olds)) (Some (rows oldv)) [] [] t0 = Some p0 /\
  (raced range_cells (es1 ++ XState q :: es2) p0 = false ->
  exists p1 p2, px_run range_cells es1 p0 = Some p1 /\ px_run range_cells (XState q :: es2) p1 = Some p2 /\
    (forall j env r, visits p1 !! j = Some (VDone env r) ->
       env ∈ (if bool_decide (e_Channel env = ChannelScalar) then sent (px_svc p1) else px_appended p1)) /\
    forall r, visits p2 !! length (visits p1) = Some (QDone r) ->
      exists st m, r = Reply 200 (state_body range_cells q st) /\
        (length (px_appended p1) <= m <= length (px_appended p2))%nat /\
        (forall cell, exists n, (length (sent (px_svc p1)) <= n <= length (sent (px_svc p2)))%nat /\
          value st cell = wrap64 (deltas_at cell (history olds oldv (take n (sent (px_svc p2)) ++ take m (px_appended p2))))) /\
        (q_key q <> "" -> q_bucket q <> "" -> q_sum q = "1" ->
          r = Reply 200 (Some (JObj [(txt "sum", JNum (value st (HashKey (q_key q), HashKey (q_bucket q))))])))).
Proof.
  intros HD Hr Hrc Hos Hov Hes1 Hes2. destruct (px_start_ok D range olds oldv f t0 Hr) as (p0 & Hst & Hok0).
  exists p0. split; [done|]. intros [Hrace1 Hrace2]%raced_app.
  destruct (px_run_ok range Hr range_cells _ D HD olds oldv Hos Hov es1 p0 Hok0 Hes1 Hrace1) as (p1 & Hrun1 & Hok1 & _).
  specialize (Hrace2 p1 Hrun1). cbn in Hrace2.
  destruct (ask_ok range Hr range_cells _ D HD olds oldv q p1 Hok1) as (Hok' & _ & _ & Hq).
  destruct (px_run_ok range Hr range_cells _ D HD olds oldv Hos Hov es2 _ Hok' Hes2 Hrace2) as (p2 & Hrun2 & Hok2 & Hkeep).
  exists p1, p2. split_and!; [done..| |].
  - intros j env r Hj. exact (xo_visits _ _ _ _ _ _ Hok1 j _ Hj).
  - intros r Hv. destruct (Hkeep _ _ _ _ Hq) as (_ & _ & v & Hv' & Hans). rewrite Hv in Hv'. injection Hv' as <-.
    destruct Hans as (st & -> & m & Hm & Hcells). exists st, m. split_and!; [done|lia|lia|done|].
    intros Hk Hb Hsum. rewrite (state_body_cell range_cells q st Hrc Hk Hb Hsum); [done|].
    destruct (Hcells (HashKey (q_key q), HashKey (q_bucket q))) as (n & _ & ->). apply wrap64_in.
Qed.

(** ** Example *)
(** A query for a bucket while one operation is in, one comes between the flush and
    the read of the V log, and a third is waiting in the channel. *)
Definition demo_before : list PxEvent := [XConsume 5 (demo_q "m1" "7" ""); XVisit 0 6 true; XVisit 0 6 true].
Definition demo_query : Query := demo_q "m1" "" "1".
Definition demo_after : list PxEvent :=
  [XVisit 1 7 true; XLoop RFlush 8; XLoop RFlush 9; XLoop RFlush 10; XVisit 1 11 true; XVisit 1 12 true;
   XReverse 13 (demo_q "m1" "3" ""); XConsume 14 (demo_q "m1" "100" ""); XVisit 3 14 true;
   XVisit 1 15 true; XVisit 2 16 true; XVisit 2 17 true; XVisit 2 17 true; XVisit 1 18 true; XVisit 1 19 true; XVisit 1 20 true].

#[export] Instance xevent_ok_dec D e : Decision (xevent_ok D e).
Proof. unfold xevent_ok. apply and_dec; [destruct (proxy_event e); apply _|destruct e; apply _]. Defined.

(** The sum is 4: the 7 in before the query and the reversal of 3 that overtook it. *)
Lemma demo_answers :
  (p0 ← px_start map_order demo_flags (Some (rows [demo_b 4])) (Some (rows [demo_v 1])) [] [] 0;
   p1 ← px_run map_to_list demo_before p0; p2 ← px_run map_to_list (XState demo_query :: demo_after) p1;
   Some (length (visits p1), length (sent (px_svc p1)), length (sent (px_svc p2)),
     match visits p2 !! 1%nat with Some (QDone r) => Some r | _ => None end)) =
  Some (1%nat, 1%nat, 2%nat, Some (Reply 200 (Some (JObj [(txt "sum", JNum 4)])))).
Proof. vm_compute. reflexivity. Qed.

(** No two requests are in the router at once. *)
Lemma demo_unraced :
  (p0 ← px_start map_order demo_flags (Some (rows [demo_b 4])) (Some (rows [demo_v 1])) [] [] 0;
   Some (raced map_to_list (demo_before ++ XState demo_query :: demo_after) p0)) = Some false.
Proof. vm_compute. reflexivity. Qed.
Lemma start_split (s : option PxConf) (g : PxConf -> bool) p0 : s = Some p0 -> (p0 ← s; Some (g p0)) = Some false -> g p0 = false.
Proof. intros ->. by intros [= ->]. Qed.

(** Two requests that both meet a key without an actor: the second one enters the
    router while the first one is about to write its map. *)
Definition demo_race : list PxEvent :=
  [XReverse 5 (demo_q "m1" "3" ""); XReverse 5 (demo_q "m1" "4" ""); XVisit 0 6 true; XVisit 1 6 true].
Lemma demo_race_kills :
  (p0 ← px_start map_order demo_flags (Some (rows [demo_b 4])) (Some (rows [demo_v 1])) [] [] 0;
   Some (raced map_to_list demo_race p0, bool_decide (is_Some (px_run map_to_list demo_race p0)))) = Some (true, false).
Proof. vm_compute. reflexivity. Qed.

Lemma runs_split s es1 es2 p0 p1 p2 a b c r : s = Some p0 -> px_run map_to_list es1 p0 = Some p1 ->
  px_run map_to_list es2 p1 = Some p2 ->
  (p0 ← s; p1 ← px_run map_to_list es1 p0; p2 ← px_run map_to_list es2 p1;
   Some (length (visits p1), length (sent (px_svc p1)), length (sent (px_svc p2)),
     match visits p2 !! 1%nat with Some (QDone r) => Some r | _ => None end)) = Some (a, b, c, Some r) ->
  length (visits p1) = a /\ length (sent (px_svc p1)) = b /\ length (sent (px_svc p2)) = c /\
  visits p2 !! 1%nat = Some (QDone r).
Proof.
  intros -> H1 H2. cbn [mbind option_bind]. rewrite H1. cbn [mbind option_bind]. rewrite H2. cbn [mbind option_bind].
  destruct (visits p2 !! 1%nat) as [[]|]; by intros [= <- <- <- <-].
Qed.

Lemma state_answers_moments_witness :
  exists p0 p1 p2 st, px_start map_order demo_flags (Some (rows [demo_b 4])) (Some (rows [demo_v 1])) [] [] 0 = Some p0 /\
    px_run map_to_list demo_before p0 = Some p1 /\
    px_run map_to_list (XState demo_query :: demo_after) p1 = Some p2 /\
    length (sent (px_svc p1)) = 1%nat /\ length (sent (px_svc p2)) = 2%nat /\
    visits p2 !! 1%nat = Some (QDone (Reply 200 (state_body map_to_list demo_query st))) /\
    Reply 200 (Some (JObj [(txt "sum", JNum 4)])) =
      Reply 200 (Some (JObj [(txt "sum", JNum (value st (HashKey "user", HashKey "m1")))])).
Proof.
  destruct (state_answers_moments demo_ids map_order map_to_list [demo_b 4] [demo_v 1] demo_flags 0 demo_before demo_query demo_after)
    as (p0 & H0 & Hall).
  - exact demo_ids_fit.
  - exact map_order_ranges.
  - intros s. reflexivity.
  - concretely.
  - concretely.
  - concretely.
  - concretely.
  - destruct Hall as (p1 & p2 & H1 & H2 & _ & Hans); [exact (start_split _ _ _ H0 demo_unraced)|].
    destruct (runs_split _ _ _ _ _ _ _ _ _ _ H0 H1 H2 demo_answers) as (Hl & Hs1 & Hs2 & Hv).
    rewrite Hl in Hans. destruct (Hans _ Hv) as (st & m & Hr & _ & _ & Hcell).
    exists p0, p1, p2, st. do 5 (split; [assumption|]). split.
    + rewrite Hv. rewrite Hr. reflexivity.
    + apply Hcell; [discriminate|discriminate|reflexivity].
Defined.
