(* ===== verification/ProxyCode.v ===== *)
(** * A request left undisturbed is the proxy's handler

    The threads of [ProxyConc], when one request runs and only the service's
    goroutine answers it, do what the one-step handlers of [Proxy] do: the cuts
    between the steps lose nothing of the handlers' code. *)
From Stdlib Require Import Ascii.
From stdpp Require Import sorting.
From S2P Require Import Prelude Effects OpenAddr TfdTypes TfdShard TfdState TfdPipeline TfdService Json Sinks SinksRead SinksSpec Proxy ProxySpec ProxyConc.

(** The proxy without its threads. *)
Definition coarse (p : PxConf) : Proxy :=
  mkProxy (px_opts p) (mkPipeline (service (px_svc p)) (px_router p) (px_appended p)) (px_file p) (px_log p).

(** A request that is not in the router. *)
Definition not_routing (v : Visit) : Prop := match v with VRouting _ _ _ => False | _ => True end.

(** The goroutine waits at its select, no request is in the router, and every request
    has its caller. *)
Record at_rest (p : PxConf) : Prop := {
  id_runner : runner (px_svc p) = Selecting;
  id_flushReq : flushReqCh (px_svc p) = [];
  id_live : stopped (service (px_svc p)) = false;
  id_router : Forall not_routing (visits p);
  id_length : length (TfdService.callers (px_svc p)) = length (visits p);
  id_buffer : Z.of_nat (length (ingress (service (px_svc p)))) <= buffer (service (px_svc p)) /\ 0 < buffer (service (px_svc p))
}.

(** What a request does alone: its own steps, with the goroutine's where it waits. *)
Definition own (i : nat) (e : PxEvent) : Prop :=
  match e with XVisit j _ can_read => j = i /\ can_read = true | XLoop _ _ => True | _ => False end.
Definition answered_with (i : nat) (r : Response) (p : PxConf) : Prop :=
  match visits p !! i with Some (VDone _ r') | Some (QDone r') => r' = r | _ => False end.

Section code.
Context (range_cells : State -> list ((Z * Z) * Z)).
Let run := px_run range_cells.

Lemma px_run_app es es' p : run (es ++ es') p = (p' ← run es p; run es' p').
Proof. revert p. induction es as [|e es IH]; intros p; cbn; [done|]. destruct (px_event range_cells e p); cbn; [apply IH|done]. Qed.

Lemma new_lookup {A} (l : list A) x i : i = length l -> (l ++ [x]) !! i = Some x.
Proof. intros ->. by apply list_lookup_middle. Qed.
Lemma new_insert {A} (l : list A) x y i : i = length l -> <[i := y]> (l ++ [x]) = l ++ [y].
Proof. intros ->. by rewrite insert_app_r_alt, Nat.sub_diag by done. Qed.

Lemma not_routing_new l v : Forall not_routing l -> not_routing v -> Forall not_routing (l ++ [v]).
Proof. intros Hl Hv. apply list.Forall_app. by repeat constructor. Qed.
Lemma not_routing_racing env p : Forall not_routing (visits p) -> racing env p = false.
Proof.
  unfold racing. generalize (actor_absent env p) as w. intros w. by induction 1 as [|v l Hv Hl IH]; [|destruct v; cbn].
Qed.

(** The handler of a request, as [Proxy] has it. *)
Definition handler (now : Z) (e : PxEvent) (px : Proxy) : option (Proxy * Response) :=
  match e with
  | XConsume t q => consume t q px
  | XSetLimit t q => set_limit t q px
  | XReverse t q => reverse t q px
  | XState q => get_state range_cells now (true, true) q px
  | _ => None
  end.

Definition alone_is (i : nat) (p0 : PxConf) (px' : Proxy) (r : Response) : Prop :=
  exists es p', Forall (own i) es /\ run es p0 = Some p' /\ coarse p' = px' /\ answered_with i r p' /\ at_rest p'.

Lemma run_cons e es p p1 p' : px_event range_cells e p = Some p1 -> run es p1 = Some p' -> run (e :: es) p = Some p'.
Proof. intros He Hr. unfold run in *. cbn. by rewrite He. Qed.

Lemma receive_rest now s s' : receive now s = Some s' ->
  ingress s' = tail (ingress s) /\ buffer s' = buffer s /\ stopped s' = stopped s.
Proof.
  unfold receive. destruct (ingress s) as [|env q] eqn:Hq; [intros [= <-]; by rewrite Hq|].
  case_bool_decide; [|by intros [= <-]]. destruct (acc_Ingest now env (acc s)); [|done]. by intros [= <-].
Qed.

(** The steps of the requests, one by one. *)
Section steps.
Context (p : PxConf) (i : nat) (now : Z).
Let c := px_svc p.

Lemma step_send env r : visits p !! i = Some (VSend env r) -> TfdService.callers c !! i = Some (Sending env) ->
  e_Channel env = ChannelScalar ->
  px_event range_cells (XVisit i now true) p =
    Some (set_px_svc (if has_room (service c) then set_caller i Sent (push env c) else set_caller i (Blocked env) c) p).
Proof.
  intros Hv Hc Hch. cbn [px_event]. unfold visit_step. fold c. rewrite Hv, Hc. unfold caller_step. rewrite Hc.
  by rewrite bool_decide_true.
Qed.
Lemma step_blocked env r : visits p !! i = Some (VSend env r) -> TfdService.callers c !! i = Some (Blocked env) ->
  has_room (service c) = true ->
  px_event range_cells (XVisit i now true) p = Some (set_px_svc (set_caller i Sent (push env c)) p).
Proof.
  intros Hv Hc Hr. cbn [px_event]. unfold visit_step. fold c. rewrite Hv, Hc. unfold caller_step. by rewrite Hc, Hr.
Qed.
Lemma step_sent env r : visits p !! i = Some (VSend env r) -> TfdService.callers c !! i = Some Sent ->
  px_event range_cells (XVisit i now true) p = Some (set_visit i (VDone env r) p).
Proof. intros Hv Hc. cbn [px_event]. unfold visit_step. fold c. by rewrite Hv, Hc. Qed.
Lemma step_enter env r : visits p !! i = Some (VRoute env r) -> racing env p = false ->
  px_event range_cells (XVisit i now true) p = Some (set_visit i (VRouting env r (actor_absent env p)) p).
Proof. intros Hv Hr. cbn [px_event]. unfold visit_step. by rewrite Hv, Hr. Qed.
Lemma step_route env r w ro act : visits p !! i = Some (VRouting env r w) -> Route (routed_key env) (px_router p) = (ro, act) ->
  px_event range_cells (XVisit i now true) p =
    Some (set_visit i (VPersist env r) (set_px_router (<[routed_key env := Enqueue env act]> ro) p)).
Proof. intros Hv Hr. cbn [px_event]. unfold visit_step. by rewrite Hv, Hr. Qed.
Lemma step_append env r : visits p !! i = Some (VPersist env r) ->
  px_event range_cells (XVisit i now true) p =
    Some (set_visit i (VDone env r) (set_px_log (Append now env (px_log p)) (px_appended p ++ [env]) p)).
Proof. intros Hv. cbn [px_event]. unfold visit_step. by rewrite Hv. Qed.
Lemma step_receive s' : runner c = Selecting -> receive now (service c) = Some s' -> sunk s' = sunk (service c) ->
  px_event range_cells (XLoop RIn now) p = Some (set_px_svc (set_loop s' Selecting c) p).
Proof.
  intros Hr Hs Hk. cbn [px_event]. unfold loop_step_px, run_step. fold c. rewrite Hr, Hs. cbn [mbind option_bind service set_loop].
  rewrite Hk, drop_all. by destruct p.
Qed.
End steps.

Lemma op_alone now op reply p px' r : at_rest p -> handle_op now op reply (coarse p) = Some (px', r) ->
  alone_is (length (visits p)) (arrive now op reply p) px' r.
Proof.
  destruct p as [opts [s rn sc fr an cs se en] ro fl lg ap vs]. intros [Hr Hf Hl Hout Hlen Hb]. cbn in Hr, Hf, Hl, Hout, Hlen, Hb. subst rn fr.
  assert (Hc : forall x, (cs ++ [x]) !! length vs = Some x) by (intros x; by apply new_lookup).
  assert (Hv : forall x, (vs ++ [x]) !! length vs = Some x) by (intros x; by apply new_lookup).
  assert (Hci : forall x y, <[length vs := y]> (cs ++ [x]) = cs ++ [y]) by (intros x y; by apply new_insert).
  assert (Hvi : forall x y, <[length vs := y]> (vs ++ [x]) = vs ++ [y]) by (intros x y; by apply new_insert).
  assert (Hlen' : forall x y, length (cs ++ [x]) = length (vs ++ [y])) by (intros x y; by rewrite !length_app, Hlen).
  unfold handle_op, arrive. destruct (request_envelope now op) as [env|e].
  2: { intros [= <- <-]. exists [], (add_visit Sent (QDone (HttpError 400 e)) (mkPxConf opts (mkSConf s Selecting sc [] an cs se en) ro fl lg ap vs)).
       split; [constructor|]. split; [reflexivity|]. split; [done|]. split; [|split; [done..|by apply not_routing_new|apply Hlen'|done]].
       unfold answered_with. cbn. by rewrite Hv. }
  unfold on_pipe, coarse. cbn [pstep pipe px_svc service px_router px_appended px_opts px_flags]. unfold Handle. case_bool_decide as Hch.
  - unfold TryIngest, svc_Ingest. cbn [svc]. rewrite bool_decide_true by done. cbn [negb].
    destruct (Z.of_nat (length (ingress s)) <? buffer s) eqn:Hroom.
    + cbn [mbind option_bind]. intros [= <- <-]. exists [XVisit (length vs) now true; XVisit (length vs) now true]. eexists.
      split; [by repeat constructor|]. split.
      { eapply run_cons; [eapply (step_send _ _ _ env); [apply Hv|apply Hc|done]|]. unfold has_room. cbn [px_svc service add_visit set_visits set_px_svc set_callers].
        rewrite Hroom. eapply run_cons; [|reflexivity]. eapply step_sent; [apply Hv|]. cbn. by rewrite Hci. }
      split; [|split; [|split]]; try done.
      * unfold carry. cbn. by rewrite !drop_all.
      * unfold answered_with. cbn. by rewrite Hvi, Hv.
      * cbn. rewrite Hvi. by apply not_routing_new.
      * cbn. by rewrite Hci, length_insert.
      * cbn. rewrite length_app. cbn. lia.
    + rewrite Hroom, Hl. destruct (receive now s) as [s1|] eqn:Hrec; [|done]. cbn [mbind option_bind]. intros [= <- <-].
      pose proof (receive_sunk _ _ _ Hrec) as Hsk. destruct (receive_rest _ _ _ Hrec) as (Hin & Hbuf & Hst).
      assert (Hroom1 : has_room s1 = true).
      { unfold has_room. rewrite Hin, Hbuf. destruct (ingress s); cbn in *; apply Z.ltb_lt; lia. }
      exists [XVisit (length vs) now true; XLoop RIn now; XVisit (length vs) now true; XVisit (length vs) now true]. eexists.
      split; [by repeat constructor|]. split.
      { eapply run_cons; [eapply (step_send _ _ _ env); [apply Hv|apply Hc|done]|]. unfold has_room at 1. cbn [px_svc service add_visit set_visits set_px_svc set_callers].
        rewrite Hroom. eapply run_cons; [eapply step_receive; done|]. eapply run_cons.
        { eapply (step_blocked _ _ _ env); [apply Hv| |done]. cbn. by rewrite Hci. }
        eapply run_cons; [|reflexivity]. eapply step_sent; [apply Hv|]. cbn. rewrite Hci. by rewrite Hci. }
      split; [|split; [|split]]; try done.
      * unfold carry. cbn. by rewrite Hsk, !drop_all.
      * unfold answered_with. cbn. by rewrite Hvi, Hv.
      * cbn. by rewrite Hst.
      * cbn. rewrite Hvi. by apply not_routing_new.
      * cbn. by rewrite !Hci, length_insert.
      * cbn. unfold has_room in Hroom1. rewrite length_app. cbn. lia.
  - cbn [router]. destruct (Route (f_KeyID (e_Footprint env)) ro) as [ro' act] eqn:Hro. cbn [mbind option_bind]. intros [= <- <-].
    exists [XVisit (length vs) now true; XVisit (length vs) now true; XVisit (length vs) now true]. eexists. split; [by repeat constructor|]. split.
    { eapply run_cons; [eapply step_enter; [apply Hv|by apply not_routing_racing, not_routing_new]|].
      eapply run_cons; [eapply step_route; [cbn; by rewrite Hvi, Hv|exact Hro]|].
      eapply run_cons; [|reflexivity]. eapply step_append. cbn. by rewrite !Hvi, Hv. }
    split; [|split; [|split]]; try done.
    + unfold carry. cbn. by rewrite drop_all, drop_app_length.
    + unfold answered_with. cbn. by rewrite !Hvi, Hv.
    + cbn. rewrite !Hvi. by apply not_routing_new.
    + cbn. by rewrite !length_insert.
Qed.

Lemma drain_run i now s' p : runner (px_svc p) = Draining i -> drain now (service (px_svc p)) = Some s' ->
  run (replicate (length (ingress (service (px_svc p)))) (XLoop RIn now)) p = Some (set_px_svc (set_loop s' (Draining i) (px_svc p)) p) /\
  ingress s' = [].
Proof.
  unfold drain. remember (length (ingress (service (px_svc p)))) as n eqn:Hn. revert p Hn.
  induction n as [|n IH]; intros p Hn Hr; cbn [drain_n replicate].
  - intros [= <-]. split; [|by destruct (ingress _)]. unfold run. cbn. f_equal. rewrite <- Hr. by destruct p as [? [] ? ? ? ? ?].
  - destruct (receive now (service (px_svc p))) as [s1|] eqn:Hs; [|done]. cbn [mbind option_bind]. intros Hd.
    destruct (receive_rest _ _ _ Hs) as (Hin & _). pose proof (receive_sunk _ _ _ Hs) as Hk.
    set (p1 := set_px_svc (set_loop s1 (Draining i) (px_svc p)) p).
    destruct (IH p1) as [H1 H2]; [cbn; rewrite Hin; destruct (ingress (service (px_svc p))); cbn in *; lia|done|exact Hd|].
    split; [|done]. apply (run_cons _ _ _ p1); [|exact H1]. cbn [px_event]. unfold loop_step_px, run_step. rewrite Hr.
    destruct (ingress (service (px_svc p))); [done|]. rewrite Hs. cbn [mbind option_bind service set_loop]. rewrite Hk, drop_all. by destruct p.
Qed.

Lemma drain_rest now s s' : drain now s = Some s' -> buffer s' = buffer s /\ stopped s' = stopped s.
Proof.
  unfold drain. generalize (length (ingress s)) as n. intros n. revert s.
  induction n as [|n IH]; intros s; cbn [drain_n]; [by intros [= <-]|].
  destruct (receive now s) as [s1|] eqn:Hr; [|done]. cbn. intros [-> ->]%IH. by apply receive_rest in Hr as (_ & -> & ->).
Qed.

Lemma flush_rest s s' : flush s = Some s' -> ingress s' = ingress s /\ buffer s' = buffer s /\ stopped s' = stopped s.
Proof.
  unfold flush. destruct (FlushAll (acc s)) as [a [|b bs]]; [by intros [= <-]|].
  destruct (match vsa (set_acc a s) with Some compress => _ | None => _ end) as [[|x out]|]; [by intros [= <-]..|done].
Qed.

#[local] Ltac px_cbn := unfold add_visit, set_visit, set_visits, set_px_log, set_px_file, set_px_svc, set_loop, set_caller, set_callers; cbn.

Lemma state_alone now q p px' r : at_rest p -> get_state range_cells now (true, true) q (coarse p) = Some (px', r) ->
  alone_is (length (visits p)) (add_visit Flushing (QFlushS q) p) px' r.
Proof.
  destruct p as [opts [s rn sc fr an cs se en] ro fl lg ap vs]. intros [Hr Hf Hl Hout Hlen Hb]. cbn in Hr, Hf, Hl, Hout, Hlen, Hb. subst rn fr.
  assert (Hc : forall x, (cs ++ [x]) !! length vs = Some x) by (intros x; by apply new_lookup).
  assert (Hv : forall x, (vs ++ [x]) !! length vs = Some x) by (intros x; by apply new_lookup).
  assert (Hci : forall x y, <[length vs := y]> (cs ++ [x]) = cs ++ [y]) by (intros x y; by apply new_insert).
  assert (Hvi : forall x y, <[length vs := y]> (vs ++ [x]) = vs ++ [y]) by (intros x y; by apply new_insert).
  set (i := length vs) in *. set (p := mkPxConf opts (mkSConf s Selecting sc [] an cs se en) ro fl lg ap vs).
  unfold get_state, on_pipe, coarse. cbn [p pstep pipe px_svc service px_router px_appended px_opts px_flags px_file px_log]. unfold on_svc, svc_Flush. cbn [svc].
  rewrite Hl. destruct (drain now s) as [s1|] eqn:Hd; [|done]. cbn [mbind option_bind].
  destruct (flush s1) as [s2|] eqn:Hfl; [|done]. cbn [mbind option_bind].
  pose proof (drain_sunk _ _ _ Hd) as Hk. destruct (flush_rest _ _ Hfl) as (Hin2 & Hbuf2 & Hst2).
  unfold carry. cbn [px_flags pipe svc router persisted fileSink vSink set_sinks]. rewrite drop_all. cbn [foldl].
  set (fs := (sink_Flush now _).1). set (ls := (sink_Flush now lg).1). cbn [fst snd].
  set (c0 := mkSConf s (Draining i) sc [] an (cs ++ [AwaitsFlush]) se en).
  set (p2 := mkPxConf opts c0 ro fl lg ap (vs ++ [QFlushS q])).
  destruct (drain_run i now s1 p2 eq_refl Hd) as [Hdr Hin1]. cbn [px_svc p2 service c0] in Hdr.
  set (c4 := mkSConf s2 Selecting sc [] (an ++ [i]) (cs ++ [Flushed]) se en).
  set (p6 := mkPxConf opts c4 ro fs ls ap (vs ++ [QReadS q])).
  assert (Hpre : exists es, Forall (own i) es /\ run es (add_visit Flushing (QFlushS q) p) = Some p6).
  { exists ([XVisit i now true; XLoop RFlush now] ++ replicate (length (ingress s)) (XLoop RIn now) ++
      [XLoop RIn now; XVisit i now true; XVisit i now true; XVisit i now true; XVisit i now true]). split.
    { repeat (apply list.Forall_app; split); [by repeat constructor|by apply Forall_replicate|by repeat constructor]. }
    cbn [app]. eapply run_cons.
    { cbn [px_event]. unfold visit_step. px_cbn. rewrite Hv, Hc. unfold caller_step. px_cbn. rewrite Hc. px_cbn. rewrite Hci. reflexivity. }
    eapply (run_cons _ _ _ p2).
    { cbn [px_event]. unfold loop_step_px, run_step. px_cbn. by rewrite drop_all. }
    rewrite px_run_app, Hdr. cbn [mbind option_bind]. eapply run_cons.
    { cbn [px_event]. unfold loop_step_px, run_step. px_cbn. rewrite Hin1, Hfl. cbn. reflexivity. }
    eapply run_cons.
    { cbn [px_event]. unfold visit_step. px_cbn. rewrite Hv, Hc. unfold caller_step. px_cbn. rewrite Hc.
      rewrite decide_True by (apply elem_of_app; right; by left). px_cbn. rewrite Hci. reflexivity. }
    eapply run_cons; [cbn [px_event]; unfold visit_step; px_cbn; rewrite Hv, Hc, Hvi; reflexivity|].
    eapply run_cons; [cbn [px_event]; unfold visit_step; px_cbn; rewrite Hv, Hvi; reflexivity|].
    eapply run_cons; [cbn [px_event]; unfold visit_step; px_cbn; rewrite Hv, Hvi; reflexivity|].
    unfold p6, c4, fs. cbn. by rewrite Hk. }
  destruct Hpre as (es & Hes & Hrun).
  destruct (drain_rest _ _ _ Hd) as [Hbuf1 Hst1].
  assert (Hidle : forall v, not_routing v -> at_rest (mkPxConf opts c4 ro fs ls ap (vs ++ [v]))).
  { intros v Ho. split; cbn; try done; [by rewrite Hst2, Hst1|by apply not_routing_new|by rewrite !length_app, Hlen|rewrite Hin2, Hin1, Hbuf2, Hbuf1; cbn; lia]. }
  assert (Hans : forall v r', (match v with QDone r'' => r'' = r' | _ => False end) ->
    answered_with i r' (mkPxConf opts c4 ro fs ls ap (vs ++ [v]))).
  { intros v r'. unfold answered_with. cbn. rewrite Hv. by destruct v. }
  destruct (ReadAllSLog _) as [sb e1] eqn:H1. destruct e1.
  { intros [= <- <-]. exists (es ++ [XVisit i now true]), (mkPxConf opts c4 ro fs ls ap (vs ++ [QDone (HttpError 500 "read S log: ")])).
    split; [apply list.Forall_app; by repeat constructor|]. split_and!; [|done|by apply Hans|by apply Hidle].
    rewrite px_run_app, Hrun. cbn [mbind option_bind]. eapply run_cons; [|reflexivity].
    cbn [px_event]. unfold visit_step. px_cbn. rewrite Hv. cbn in H1. rewrite H1, Hvi. reflexivity. }
  destruct (ReadAllVLog _) as [ve e2] eqn:H2.
  set (r' := if e2 then HttpError 500 "read V log: " else Reply 200 (state_body range_cells q (Reconstruct sb ve NewState))).
  intros Hx. assert (Hx' : set_sinks fs ls (mkProxy opts (mkPipeline s2 ro ap)
    (foldl (fun s b => OnSBatches now b s) fl (drop (length (sunk s)) (sunk s2))) lg) = px' /\ r' = r) by (by destruct e2; injection Hx as <- <-).
  destruct Hx' as [<- <-]. exists (es ++ [XVisit i now true; XVisit i now true]), (mkPxConf opts c4 ro fs ls ap (vs ++ [QDone r'])).
  split; [apply list.Forall_app; by repeat constructor|]. split_and!; [|done|by apply Hans|by apply Hidle].
  rewrite px_run_app, Hrun. cbn [mbind option_bind].
  eapply run_cons; [cbn [px_event]; unfold visit_step; px_cbn; rewrite Hv; cbn in H1; rewrite H1, Hvi; reflexivity|].
  eapply run_cons; [|reflexivity]. cbn [px_event]. unfold visit_step. px_cbn. rewrite Hv. cbn in H2. rewrite H2, Hvi. reflexivity.
Qed.
End code.

(** C37: a request left undisturbed is the handler as written.  On an idle proxy, the handlers of [Proxy], each in one step, and the request's own steps with those of the service's goroutine it waits for, give the same proxy and the same answer, whatever the request, also with a full channel and with a log that cannot be scanned; and the proxy is idle again. *)
Theorem undisturbed_visits_are_the_handlers range_cells now e p px' r :
  at_rest p -> handler range_cells now e (coarse p) = Some (px', r) ->
  exists es p', Forall (own (length (visits p))) es /\ px_run range_cells (e :: es) p = Some p' /\
    coarse p' = px' /\ answered_with (length (visits p)) r p' /\ at_rest p'.
Proof.
  intros Hid Hh.
  assert (Hgo : forall p1, px_event range_cells e p = Some p1 -> alone_is range_cells (length (visits p)) p1 px' r ->
    exists es p', Forall (own (length (visits p))) es /\ px_run range_cells (e :: es) p = Some p' /\
      coarse p' = px' /\ answered_with (length (visits p)) r p' /\ at_rest p').
  { intros p1 He (es & p' & Hes & Hrun & Hrest). exists es, p'. split; [done|]. split; [by eapply run_cons|done]. }
  destruct e as [t q|t q|t q|q|i t cr|pick t]; cbn [handler] in Hh; try done; (eapply Hgo; [done|]).
  - by apply op_alone.
  - by apply op_alone.
  - by apply op_alone.
  - by eapply state_alone.
Qed.

(** ** Example *)
Lemma px_start_idle range f s_log v_log os_s os_v t0 p :
  px_start range f s_log v_log os_s os_v t0 = Some p -> at_rest p.
Proof.
  unfold px_start, start, NewSBatchFileSink, NewVEnvFileSink, New_sink.
  destruct s_log, v_log; try done. cbn [mbind option_bind]. intros [= <-]. by split.
Qed.

Definition demo_answer (e : PxEvent) : option Response :=
  p ← px_start map_order demo_flags (Some (rows [demo_b 4])) (Some (rows [demo_v 1])) [] [] 0;
  '(_, r) ← handler map_to_list 9 e (coarse p); Some r.
Lemma demo_answer_sum : demo_answer (XState (demo_q "" "" "1")) = Some (Reply 200 (Some (JObj [(txt "sum", JNum 0)]))).
Proof. vm_compute. reflexivity. Qed.

Lemma demo_answer_split s e r : (p ← s; '(_, r) ← handler map_to_list 9 e (coarse p); Some r) = Some r ->
  exists p px', s = Some p /\ handler map_to_list 9 e (coarse p) = Some (px', r).
Proof.
  destruct s as [p|]; [|done]. cbn. destruct (handler map_to_list 9 e (coarse p)) as [[px' r']|] eqn:Hh; [|done].
  cbn. intros [= <-]. by exists p, px'.
Qed.

Lemma undisturbed_visits_are_the_handlers_witness :
  exists p es p', px_start map_order demo_flags (Some (rows [demo_b 4])) (Some (rows [demo_v 1])) [] [] 0 = Some p /\
    Forall (own (length (visits p))) es /\ px_run map_to_list (XState (demo_q "" "" "1") :: es) p = Some p' /\
    answered_with (length (visits p)) (Reply 200 (Some (JObj [(txt "sum", JNum 0)]))) p'.
Proof.
  destruct (demo_answer_split _ _ _ demo_answer_sum) as (p & px' & Hs & Hh).
  destruct (undisturbed_visits_are_the_handlers map_to_list 9 (XState (demo_q "" "" "1")) p px' _ (px_start_idle _ _ _ _ _ _ _ _ Hs) Hh)
    as (es & p' & Hes & Hrun & _ & Ha & _).
  exists p, es, p'. split; [exact Hs|]. split; [exact Hes|]. split; [exact Hrun|exact Ha].
Defined.
