(* ===== verification/Sim.v ===== *)
(** * The TFD simulator ([cmd/tfd-sim/main.go])

    A generator of operations in front of the same service, router and sinks as
    the proxy's, with counters around them.  The random draws of the generator
    are arguments.  The service's sink and transformer are the wrappers
    [metricSink] and [metricVSA].  A counter is a number; the histogram is the
    list of what it observed, in nanoseconds. *)
From Stdlib Require Import Ascii QArith.
From S2P Require Import Prelude Effects OpenAddr TfdTypes TfdShard TfdState TfdPipeline Json Sinks Proxy.

(** ** Flags *)
Record SimFlags := mkSimFlags {
  base_flags : Flags;      (* those of the proxy, [-http] with its own default *)
  sCoverage : Q; keys : Z; buckets : Z; qps : Z; burst : Z; duration : Z
}.
Definition second : Z := 1000000000.
Definition sim_default_flags : SimFlags :=
  mkSimFlags (mkFlags 4 10 4096 (3 * millisecond) (2 * millisecond) "s.log" "v.log" ":8080")
    (85 # 100) 1000 64 20000 1000 (30 * second).

Definition clamp01 (x : Q) : Q := if negb (Qle_bool 0 x) then 0%Q else if negb (Qle_bool x 1) then 1%Q else x.
(** [Apply sane defaults if flags are explicitly empty/zero and clamp ranges] *)
Definition sim_sane (f : SimFlags) : SimFlags :=
  let b := base_flags f in
  mkSimFlags
    (mkFlags (or_positive (shards b) 4) (or_positive (orderPow2 b) 10) (or_positive (countThresh b) 4096)
      (or_positive (time_cap b) (3 * millisecond)) (or_positive (flushEvery b) (2 * millisecond))
      (or_string (sLog b) "s.log") (or_string (vLog b) "v.log") (or_string (addr b) ":8080"))
    (clamp01 (sCoverage f)) (or_positive (keys f) 1000) (or_positive (buckets f) 64) (or_positive (qps f) 20000)
    (or_positive (burst f) 1000) (if duration f <? 0 then 0 else duration f).

Definition max_int (a b : Z) : Z := if a >? b then a else b.
(** [time.Second / time.Duration(max(1, *qps))] *)
Definition tick_interval (f : SimFlags) : Z := Z.quot second (max_int 1 (qps f)).

(** ** Counters *)
Record Counters := mkCounters {
  totalOps : Z; sOps : Z; vOps : Z; tryIngestFail : Z; sBatchesIn : Z; sBatchesOut : Z;
  flushIntervals : list Z
}.
Definition no_counts : Counters := mkCounters 0 0 0 0 0 0 [].
Definition inc_total (c : Counters) : Counters :=
  mkCounters (totalOps c + 1) (sOps c) (vOps c) (tryIngestFail c) (sBatchesIn c) (sBatchesOut c) (flushIntervals c).
Definition inc_s (c : Counters) : Counters :=
  mkCounters (totalOps c) (sOps c + 1) (vOps c) (tryIngestFail c) (sBatchesIn c) (sBatchesOut c) (flushIntervals c).
Definition inc_v (c : Counters) : Counters :=
  mkCounters (totalOps c) (sOps c) (vOps c + 1) (tryIngestFail c) (sBatchesIn c) (sBatchesOut c) (flushIntervals c).
Definition inc_fail (c : Counters) : Counters :=
  mkCounters (totalOps c) (sOps c) (vOps c) (tryIngestFail c + 1) (sBatchesIn c) (sBatchesOut c) (flushIntervals c).
Definition add_in (n : nat) (c : Counters) : Counters :=
  mkCounters (totalOps c) (sOps c) (vOps c) (tryIngestFail c) (sBatchesIn c + Z.of_nat n) (sBatchesOut c) (flushIntervals c).
Definition add_out (n : nat) (c : Counters) : Counters :=
  mkCounters (totalOps c) (sOps c) (vOps c) (tryIngestFail c) (sBatchesIn c) (sBatchesOut c + Z.of_nat n) (flushIntervals c).
Definition observe (d : Z) (c : Counters) : Counters :=
  mkCounters (totalOps c) (sOps c) (vOps c) (tryIngestFail c) (sBatchesIn c) (sBatchesOut c) (flushIntervals c ++ [d]).

(** ** The process *)
Record Sim := mkSim {
  sim_flags : SimFlags;
  sim_pipe : Pipeline;     (* [svc], [vr] and what [vSink.Append] was given *)
  sim_fileSink : Sink;
  sink_last : Z;           (* [metricSink.last], unix nanoseconds *)
  sim_vSink : Sink;
  counts : Counters
}.
Definition set_counts (c : Counters) (s : Sim) : Sim :=
  mkSim (sim_flags s) (sim_pipe s) (sim_fileSink s) (sink_last s) (sim_vSink s) c.
Definition set_svc (v : SService) (s : Sim) : Sim :=
  mkSim (sim_flags s) (mkPipeline v (router (sim_pipe s)) (persisted (sim_pipe s)))
    (sim_fileSink s) (sink_last s) (sim_vSink s) (counts s).

(** [time.Unix(0, ns).IsZero()]: the zero time is the first of January of year 1. *)
Definition unix_is_zero (ns : Z) : bool := ns =? - 62135596800 * second.

Section process.
Context (range : list SBatch -> list (Z * Z)).

(** [metricVSA.Compress] *)
Definition metricVSA_Compress (c : Counters) (bs : list SBatch) : option (Counters * list SBatch) :=
  let c := add_in (length bs) c in
  out ← proxy_vsa range bs;
  Some (add_out (length out) c, out).

(** [metricSink.OnSBatches] *)
Definition metricSink_OnSBatches (now : Z) (b : list SBatch) (s : Sim) : Sim :=
  let prev := sink_last s in
  let c := if negb (unix_is_zero prev) then observe (time_Sub now prev) (counts s) else counts s in
  mkSim (sim_flags s) (sim_pipe s) (OnSBatches now b (sim_fileSink s)) now (sim_vSink s) c.

(** The service's closure [flush], with the two wrappers. *)
Definition sim_flush (now : Z) (s : Sim) : option Sim :=
  let v := svc (sim_pipe s) in
  let '(a, b) := FlushAll (acc v) in
  let s := set_svc (set_acc a v) s in
  match b with
  | [] => Some s
  | _ =>
      '(c, b') ← metricVSA_Compress (counts s) b;
      let s := set_counts c s in
      match b' with
      | [] => Some s
      | _ => Some (metricSink_OnSBatches now b' (set_svc (TfdPipeline.OnSBatches b' (svc (sim_pipe s))) s))
      end
  end.

(** The rest of the service. *)
Definition sim_tick (now : Z) (s : Sim) : option Sim :=
  if stopped (svc (sim_pipe s)) then Some s else sim_flush now s.
Definition sim_receive (now : Z) (s : Sim) : option Sim :=
  v ← in_loop (receive now) (svc (sim_pipe s)); Some (set_svc v s).
Definition sim_Stop (now : Z) (s : Sim) : option Sim :=
  let v := svc (sim_pipe s) in
  if stopped v then None
  else
    v' ← drain now v;
    s' ← sim_flush now (set_svc v' s);
    let w := svc (sim_pipe s') in
    Some (set_svc (mkSService (acc w) (vsa w) (sunk w) (ingress w) (buffer w) true) s').

(** ** Routing: the same lines in the handler and in the generator *)
Definition sim_route (now : Z) (env : Envelope) (s : Sim) : option Sim :=
  if bool_decide (e_Channel env = ChannelScalar) then
    let '(v, ok) := TryIngest env (svc (sim_pipe s)) in
    if (ok : bool) then Some (set_counts (inc_s (counts s)) (set_svc v s))
    else
      v' ← svc_Ingest now env v;
      Some (set_counts (inc_s (inc_fail (counts s))) (set_svc v' s))
  else
    let k := f_KeyID (e_Footprint env) in
    let '(r, act) := Route k (router (sim_pipe s)) in
    Some (mkSim (sim_flags s)
      (mkPipeline (svc (sim_pipe s)) (<[k := Enqueue env act]> r) (persisted (sim_pipe s) ++ [env]))
      (sim_fileSink s) (sink_last s) (Append now env (sim_vSink s)) (inc_v (counts s))).

(** [/consume]; the status of the response. *)
Definition sim_consume (now : Z) (q : Query) (s : Sim) : option (Sim * Z) :=
  match request_envelope now (consume_op now q) with
  | inr _ => Some (s, 400)
  | inl env => s' ← sim_route now env s; Some (s', 202)
  end.

(** What the generator draws for an operation: [Intn] of keys and of buckets,
    [Float64]. *)
Record Draw := mkDraw { d_key : Z; d_bucket : Z; d_float : Q }.

Definition user_key (ki : Z) : string := String.string_of_list_ascii (txt "user:" ++ num_text ki).
Definition time_bucket (bi : Z) : string := String.string_of_list_ascii (txt "t1s/" ++ num_text bi).

Definition generated_op (f : SimFlags) (now : Z) (d : Draw) : Op :=
  let isS := negb (Qle_bool (sCoverage f) (d_float d)) in
  mkOp (user_key (d_key d)) (time_bucket (d_bucket d)) 1
    (negb isS) false false false false isS isS (request_seq now).

(** A turn of the inner loop. *)
Definition generate (now : Z) (d : Draw) (s : Sim) : option Sim :=
  let s := set_counts (inc_total (counts s)) s in
  match request_envelope now (generated_op (sim_flags s) now d) with
  | inr _ => Some s
  | inl env => sim_route now env s
  end.

(** A tick of the generator: [burst] operations. *)
Fixpoint generate_burst (now : Z) (ds : list Draw) (s : Sim) : option Sim :=
  match ds with
  | [] => Some s
  | d :: ds => s' ← generate now d s; generate_burst now ds s'
  end.

(** ** Start and end of [main] *)
Definition sim_start (f : SimFlags) (s_log v_log : option text) (os_s os_v : list (option nat)) (now : Z) : option Sim :=
  let f := sim_sane f in
  let b := base_flags f in
  fs ← NewSBatchFileSink s_log os_s now;
  let p := NewPipeline (shards b) (orderPow2 b) (countThresh b) (time_cap b) proxy_buffer now (Some (proxy_vsa range)) in
  vs ← NewVEnvFileSink v_log os_v now;
  Some (mkSim f p fs 0 vs no_counts).

(** The deferred calls: [vSink.Close], then [svc.Stop] and [fileSink.Close]. *)
Definition sim_shutdown (now : Z) (s : Sim) : option Sim :=
  let s := mkSim (sim_flags s) (sim_pipe s) (sim_fileSink s) (sink_last s) (sink_Close (sim_vSink s)) (counts s) in
  s' ← sim_Stop now s;
  Some (mkSim (sim_flags s') (sim_pipe s') (sink_Close (sim_fileSink s')) (sink_last s') (sim_vSink s') (counts s')).

(** ** Runs *)
Inductive SimEvent :=
| SGenerate (now : Z) (d : Draw)
| SConsume (now : Z) (q : Query)
| SReceive (now : Z)
| STick (now : Z).

Definition sim_step (e : SimEvent) (s : Sim) : option Sim :=
  match e with
  | SGenerate now d => generate now d s
  | SConsume now q => '(s', _) ← sim_consume now q s; Some s'
  | SReceive now => sim_receive now s
  | STick now => sim_tick now s
  end.
Fixpoint sim_run (es : list SimEvent) (s : Sim) : option Sim :=
  match es with
  | [] => Some s
  | e :: es => s' ← sim_step e s; sim_run es s'
  end.
End process.
