(* ===== verification/SimSpec.v ===== *)
(** * The simulator is the proxy's machine with counters

    Every event of the simulator is the same event of the pipeline and the sinks
    ([sim_is_pipeline]); so its logs hold exactly the operations its counters
    counted.  Two readings of its own do not come out: the rate of the generator
    and the first flush interval. *)
From Stdlib Require Import Ascii QArith.
From stdpp Require Import sorting.
From S2P Require Import Prelude Effects OpenAddr TfdTypes TfdShard TfdShardSpec TfdState TfdStateSpec TfdPipeline TfdPipelineSpec Json Sinks SinksRead SinksSpec TfdRanges Proxy ProxySpec Sim.

(** The simulator without its counters. *)
Definition project (s : Sim) : Proxy := mkProxy (base_flags (sim_flags s)) (sim_pipe s) (sim_fileSink s) (sim_vSink s).

(** The event of the pipeline an event of the simulator is. *)
Definition pipe_event (f : SimFlags) (e : SimEvent) : option (Z * PEvent) :=
  match e with
  | SGenerate now d => env ← accepted_env now (generated_op f now d); Some (now, PHandle now env)
  | SConsume now q => env ← accepted_env now (consume_op now q); Some (now, PHandle now env)
  | SReceive now => Some (now, PReceive now)
  | STick now => Some (now, PTick)
  end.

Fixpoint pipe_run (es : list (Z * PEvent)) (px : Proxy) : option Proxy :=
  match es with [] => Some px | e :: es => px' ← on_pipe e.1 e.2 px; pipe_run es px' end.

Section refinement.
Context (range : list SBatch -> list (Z * Z)).

(** The two lives, from start to shutdown. *)
Definition sim_life (f : SimFlags) (s_log v_log : option text) (os_s os_v : list (option nat)) (t0 : Z)
    (es : list SimEvent) (t1 : Z) : option Sim :=
  s0 ← sim_start range f s_log v_log os_s os_v t0; s ← sim_run range es s0; sim_shutdown range t1 s.
Definition pipe_life (f : Flags) (s_log v_log : option text) (os_s os_v : list (option nat)) (t0 : Z)
    (es : list (Z * PEvent)) (t1 : Z) : option Proxy :=
  px0 ← start range f s_log v_log os_s os_v t0; px ← pipe_run es px0; shutdown t1 px.

Definition sim_wf (s : Sim) : Prop := vsa (svc (sim_pipe s)) = Some (proxy_vsa range).

Lemma pipeline_eta p : mkPipeline (svc p) (router p) (persisted p) = p.
Proof. by destruct p. Qed.

Lemma receive_vsa now v v' : receive now v = Some v' -> vsa v' = vsa v.
Proof.
  unfold receive. destruct (ingress v) as [|x q]; [by intros [= <-]|]. case_match; [|by intros [= <-]].
  destruct (acc_Ingest now x (acc v)); [|done]. by intros [= <-].
Qed.

Lemma drain_vsa now v v' : drain now v = Some v' -> vsa v' = vsa v.
Proof.
  unfold drain. generalize (length (ingress v)) as n. intros n. revert v.
  induction n as [|n IH]; intros v; cbn [drain_n]; [by intros [= <-]|].
  destruct (receive now v) as [v1|] eqn:Hr; [|done]. cbn. intros H. by rewrite (IH _ H), (receive_vsa _ _ _ Hr).
Qed.

(** Nothing new for the sinks. *)
Lemma carry_same now p px : sunk (svc p) = sunk (svc (pipe px)) -> persisted p = persisted (pipe px) ->
  carry now p px = mkProxy (px_flags px) p (fileSink px) (vSink px).
Proof. intros Hs Hp. unfold carry. by rewrite Hs, Hp, !drop_all. Qed.

Lemma carry_batch now p px b : sunk (svc p) = sunk (svc (pipe px)) ++ [b] -> persisted p = persisted (pipe px) ->
  carry now p px = mkProxy (px_flags px) p (OnSBatches now b (fileSink px)) (vSink px).
Proof. intros Hs Hp. unfold carry. by rewrite Hs, Hp, drop_all, drop_app_length. Qed.

Lemma carry_env now p px e : sunk (svc p) = sunk (svc (pipe px)) -> persisted p = persisted (pipe px) ++ [e] ->
  carry now p px = mkProxy (px_flags px) p (fileSink px) (Append now e (vSink px)).
Proof. intros Hs Hp. unfold carry. by rewrite Hs, Hp, drop_all, drop_app_length. Qed.

Lemma sim_flush_project now s : sim_wf s ->
  option_map project (sim_flush range now s) =
  (v ← flush (svc (sim_pipe s));
   Some (carry now (mkPipeline v (router (sim_pipe s)) (persisted (sim_pipe s))) (project s))) /\
  forall s', sim_flush range now s = Some s' -> sim_wf s' /\ sim_flags s' = sim_flags s.
Proof.
  intros Hwf. unfold sim_flush, flush. destruct (FlushAll (acc (svc (sim_pipe s)))) as [a b].
  destruct b as [|b0 bs].
  { cbn. split; [by rewrite carry_same|]. by intros s' [= <-]. }
  unfold sim_wf in Hwf. cbn [vsa set_acc svc sim_pipe set_svc]. rewrite Hwf. unfold metricVSA_Compress.
  destruct (proxy_vsa range (b0 :: bs)) as [b'|]; [|done]. cbn [mbind option_bind].
  destruct b' as [|b1 b']; cbn; (split; [|by intros s' [= <-]]).
  - by rewrite carry_same.
  - by rewrite (carry_batch now _ _ (b1 :: b')).
Qed.

Lemma sim_route_project now env s : sim_wf s ->
  option_map project (sim_route now env s) = on_pipe now (PHandle now env) (project s) /\
  forall s', sim_route now env s = Some s' -> sim_wf s' /\ sim_flags s' = sim_flags s.
Proof.
  intros Hwf. unfold sim_route, on_pipe. cbn [pstep pipe project]. unfold Handle. case_bool_decide as Hc.
  - unfold TryIngest, svc_Ingest. rewrite bool_decide_true by done. cbn [negb].
    destruct (Z.of_nat (length (ingress (svc (sim_pipe s)))) <? buffer (svc (sim_pipe s))) eqn:Hlt.
    { cbn. split; [by rewrite carry_same|]. by intros s' [= <-]. }
    rewrite Hlt. destruct (stopped (svc (sim_pipe s))); [done|].
    destruct (receive now (svc (sim_pipe s))) as [v|] eqn:Hr; [|done]. cbn.
    pose proof (receive_sunk _ _ _ Hr) as Hs. split; [by rewrite carry_same|]. intros s' [= <-]. split; [|done].
    unfold sim_wf. cbn. by rewrite (receive_vsa _ _ _ Hr).
  - destruct (Route _ _) as [r act]. cbn. split; [by rewrite (carry_env now _ _ env)|]. by intros s' [= <-].
Qed.

(** Every event has the effect of its event of the pipeline. *)
Lemma sim_step_project e s : sim_wf s ->
  option_map project (sim_step range e s) =
    match pipe_event (sim_flags s) e with
    | Some (now, pe) => on_pipe now pe (project s)
    | None => Some (project s)
    end /\
  forall s', sim_step range e s = Some s' -> sim_wf s' /\ sim_flags s' = sim_flags s.
Proof.
  intros Hwf. destruct e as [now d|now q|now|now]; cbn [sim_step pipe_event].
  - unfold generate, accepted_env. cbn [set_counts sim_flags].
    destruct (request_envelope now (generated_op (sim_flags s) now d)) as [env|e]; cbn [mbind option_bind].
    + apply (sim_route_project now env (set_counts (inc_total (counts s)) s) Hwf).
    + split; [done|]. by intros s' [= <-].
  - unfold sim_consume, accepted_env. destruct (request_envelope now (consume_op now q)) as [env|e]; cbn [mbind option_bind].
    + destruct (sim_route_project now env s Hwf) as [H1 H2].
      destruct (sim_route now env s) as [s1|]; cbn in *; (split; [done|]); [|done]. intros s' [= <-]. by apply H2.
    + cbn. split; [done|]. by intros s' [= <-].
  - unfold sim_receive, on_pipe. cbn [pstep pipe project]. unfold on_svc, in_loop.
    destruct (stopped (svc (sim_pipe s))).
    + cbn. split; [by rewrite carry_same|]. by intros s' [= <-].
    + destruct (receive now (svc (sim_pipe s))) as [v|] eqn:Hr; [|done]. cbn. split.
      * rewrite carry_same; [done| |done]. apply (receive_sunk _ _ _ Hr).
      * intros s' [= <-]. split; [|done]. unfold sim_wf. cbn. by rewrite (receive_vsa _ _ _ Hr).
  - unfold sim_tick, on_pipe. cbn [pstep pipe project]. unfold on_svc, in_loop.
    destruct (stopped (svc (sim_pipe s))).
    + cbn. split; [by rewrite carry_same, pipeline_eta|]. by intros s' [= <-].
    + destruct (sim_flush_project now s Hwf) as [H1 H2]. split; [|done]. rewrite H1.
      by destruct (flush (svc (sim_pipe s))).
Qed.

Lemma sim_shutdown_project now s : sim_wf s ->
  option_map project (sim_shutdown range now s) = shutdown now (project s).
Proof.
  intros Hwf. unfold sim_shutdown, sim_Stop, shutdown, on_pipe. cbn [sim_pipe pipe project set_sinks pstep].
  unfold on_svc, svc_Stop. destruct (stopped (svc (sim_pipe s))); [done|].
  destruct (drain now (svc (sim_pipe s))) as [v|] eqn:Hd; [|done]. cbn [mbind option_bind].
  set (s0 := set_svc v _).
  assert (Hwf0 : sim_wf s0) by (unfold sim_wf; cbn; by rewrite (drain_vsa _ _ _ Hd)).
  destruct (sim_flush_project now s0 Hwf0) as [H1 _]. change (svc (sim_pipe s0)) with v in H1.
  assert (Hsunk : sunk v = sunk (svc (sim_pipe s))) by apply (drain_sunk _ _ _ Hd).
  destruct (flush v) as [v'|]; cbn [mbind option_bind] in *.
  - destruct (sim_flush range now s0) as [s1|]; [|done]. cbn in H1. injection H1 as Hfl Hp Hfs Hvs. cbn.
    unfold carry, set_sinks, project. cbn. rewrite <- Hsunk. rewrite Hp, Hfl, Hfs, Hvs. cbn. by rewrite !drop_all.
  - by destruct (sim_flush range now s0).
Qed.
Lemma sim_run_project es s : sim_wf s ->
  option_map project (sim_run range es s) = pipe_run (omap (pipe_event (sim_flags s)) es) (project s) /\
  forall s', sim_run range es s = Some s' -> sim_wf s'.
Proof.
  revert s. induction es as [|e es IH]; intros s Hwf; [split; [done|by intros s' [= <-]]|].
  destruct (sim_step_project e s Hwf) as [Hstep Hkeep]. cbn [sim_run omap list_omap].
  destruct (sim_step range e s) as [s1|]; cbn [mbind option_bind option_map] in *.
  - destruct (Hkeep s1 eq_refl) as [Hwf1 Hf1]. destruct (IH s1 Hwf1) as [IH1 IH2]. split; [|done]. rewrite IH1, Hf1.
    destruct (pipe_event (sim_flags s) e) as [[now pe]|]; cbn [pipe_run fst snd];
      [by rewrite <- Hstep|apply (inj Some) in Hstep; by rewrite Hstep].
  - split; [|done]. destruct (pipe_event (sim_flags s) e) as [[now pe]|]; cbn [pipe_run fst snd]; [by rewrite <- Hstep|done].
Qed.

Lemma or_positive_again z d d' : 0 < d -> or_positive (or_positive z d) d' = or_positive z d.
Proof. intros Hd. unfold or_positive at 1. destruct (or_positive z d <=? 0) eqn:E; [|done]. unfold or_positive in *. destruct (z <=? 0) eqn:E'; lia. Qed.
Lemma or_string_again s d d' : d <> "" -> or_string (or_string s d) d' = or_string s d.
Proof. intros Hd. unfold or_string. repeat case_bool_decide; done. Qed.

Lemma sane_sim_sane f : sane (base_flags (sim_sane f)) = base_flags (sim_sane f).
Proof.
  unfold sane, sim_sane. cbn [base_flags shards orderPow2 countThresh time_cap flushEvery sLog vLog addr].
  by rewrite !or_positive_again, !or_string_again by done.
Qed.

(** C31: the simulator is the proxy's pipeline and sinks with counters around them: forgetting the counters, its whole life, from the start on any logs through any events to the shutdown, is that of the pipeline started with the same flags and given the accepted operations in their order; a refused operation does nothing, and one life fails exactly when the other does. *)
Theorem sim_is_pipeline f s_log v_log os_s os_v t0 es t1 :
  option_map project (sim_life f s_log v_log os_s os_v t0 es t1) =
    pipe_life (base_flags (sim_sane f)) s_log v_log os_s os_v t0 (omap (pipe_event (sim_sane f)) es) t1.
Proof.
  unfold sim_life, pipe_life, sim_start, start. rewrite sane_sim_sane.
  destruct (NewSBatchFileSink s_log os_s t0) as [fs|]; [|done]. cbn [mbind option_bind].
  destruct (NewVEnvFileSink v_log os_v t0) as [vs|]; [|done]. cbn [mbind option_bind].
  set (s0 := mkSim _ _ _ _ _ _). destruct (sim_run_project es s0 eq_refl) as [Hrun Hwf].
  change (sim_flags s0) with (sim_sane f) in Hrun. change (mkProxy _ _ _ _) with (project s0). rewrite <- Hrun.
  destruct (sim_run range es s0) as [s|]; [|done]. by apply sim_shutdown_project, Hwf.
Qed.
End refinement.

(** ** The counters *)
Section counters.
Context (range : list SBatch -> list (Z * Z)) (Hrange : forall bs, ranges (range bs) bs).

Lemma Compress_shorter bs out : proxy_vsa range bs = Some out -> (length out <= length bs)%nat.
Proof.
  intros Hc. destruct (Compress_ok (range bs) bs (Hrange bs)) as (out' & Hc' & Hp).
  unfold proxy_vsa in Hc. rewrite Hc in Hc'. injection Hc' as <-.
  assert (Hsub : batch_cell <$> out ⊆ batch_cell <$> bs).
  { intros c Hin. rewrite Hp in Hin. apply list_elem_of_fmap in Hin as (b & -> & Hb).
    unfold compressed in Hb. apply list_elem_of_filter in Hb as [_ Hb]. apply list_elem_of_fmap in Hb as ([k b'] & -> & Hb).
    apply elem_of_map_to_list in Hb. pose proof (merge_map_ok bs k) as Hk. rewrite Hb in Hk. cbn. destruct Hk as (-> & Hk & _). done. }
  assert (Hnd : NoDup (batch_cell <$> out)) by (rewrite Hp; apply compressed_cells_NoDup).
  rewrite <- (length_fmap batch_cell out), <- (length_fmap batch_cell bs).
  by apply submseteq_length, NoDup_submseteq.
Qed.

(** The counters after [n] generated operations, with the envelopes [envs]. *)
Definition scalars (envs : list Envelope) : list Envelope := filter (fun env => e_Channel env = ChannelScalar) envs.
Record counted (n : Z) (envs : list Envelope) (s : Sim) : Prop := {
  co_total : totalOps (counts s) = n;
  co_s : sOps (counts s) = Z.of_nat (length (scalars envs));
  co_v : vOps (counts s) = Z.of_nat (length (filter is_vector envs));
  co_out : sBatchesOut (counts s) = Z.of_nat (length (concat (sunk (svc (sim_pipe s)))));
  co_in : sBatchesOut (counts s) <= sBatchesIn (counts s)
}.

Lemma counted_svc n envs s v : sunk v = sunk (svc (sim_pipe s)) -> counted n envs s -> counted n envs (set_svc v s).
Proof. intros Hv [H1 H2 H3 H4 H5]. split; try done. cbn. by rewrite Hv. Qed.

Lemma flush_counted n envs now s s' : counted n envs s -> sim_flush range now s = Some s' -> counted n envs s'.
Proof.
  intros Hc. unfold sim_flush. destruct (FlushAll _) as [a b].
  assert (Hc1 : counted n envs (set_svc (set_acc a (svc (sim_pipe s))) s)) by by apply counted_svc.
  destruct b as [|b0 bs]; [by intros [= <-]|]. unfold metricVSA_Compress.
  destruct (proxy_vsa range (b0 :: bs)) as [out|] eqn:Ho; [|done]. apply Compress_shorter in Ho.
  cbn [mbind option_bind]. destruct Hc1 as [H1 H2 H3 H4 H5].
  destruct out as [|b1 out]; intros [= <-].
  - split; cbn in *; try done; lia.
  - unfold metricSink_OnSBatches. cbn [sink_last set_svc set_counts counts].
    assert (H : counted n envs (mkSim (sim_flags s) (mkPipeline (TfdPipeline.OnSBatches (b1 :: out) (set_acc a (svc (sim_pipe s))))
      (router (sim_pipe s)) (persisted (sim_pipe s))) (OnSBatches now (b1 :: out) (sim_fileSink s)) now (sim_vSink s)
      (add_out (length (b1 :: out)) (add_in (length (b0 :: bs)) (counts s))))).
    { split; cbn in *; try done; [|lia]. rewrite concat_app, length_app. cbn. rewrite app_nil_r. lia. }
    case_match; [destruct H as [G1 G2 G3 G4 G5]; by split|exact H].
Qed.

Lemma scalars_snoc envs env : scalars (envs ++ [env]) = scalars envs ++ scalars [env].
Proof. unfold scalars. by rewrite list.filter_app. Qed.

Lemma route_counted n envs now env s s' : counted n envs s -> sim_route now env s = Some s' -> counted n (envs ++ [env]) s'.
Proof.
  intros [H1 H2 H3 H4 H5]. unfold sim_route. case_bool_decide as Hc.
  - assert (Hs : length (scalars (envs ++ [env])) = S (length (scalars envs)) /\ filter is_vector (envs ++ [env]) = filter is_vector envs).
    { rewrite scalars_snoc, length_app, list.filter_app. unfold scalars at 2. rewrite !list.filter_cons.
      rewrite (decide_True (P := e_Channel env = ChannelScalar)), (decide_False (P := is_vector env)) by (unfold is_vector; congruence). cbn. rewrite app_nil_r. split; [lia|done]. }
    destruct Hs as [Hs Hv].
    assert (Hcnt : forall v c, sunk v = sunk (svc (sim_pipe s)) -> totalOps c = n -> sOps c = sOps (counts s) + 1 ->
      vOps c = vOps (counts s) -> sBatchesOut c = sBatchesOut (counts s) -> sBatchesIn c = sBatchesIn (counts s) ->
      counted n (envs ++ [env]) (set_counts c (set_svc v s))).
    { intros v c Hk C1 C2 C3 C4 C5. split; cbn; rewrite ?Hs, ?Hv, ?Hk; try congruence; lia. }
    destruct (TryIngest env (svc (sim_pipe s))) as [v ok] eqn:Ht.
    assert (sunk v = sunk (svc (sim_pipe s))) as Hk by (unfold TryIngest in Ht; repeat case_match; by injection Ht as <- <-).
    destruct ok; [intros [= <-]; by apply Hcnt|].
    unfold svc_Ingest. repeat case_match; try done; cbn; [intros [= <-]; by apply Hcnt..|].
    destruct (receive now v) as [v1|] eqn:Hr; [|done]. cbn. intros [= <-]. apply Hcnt; try done.
    cbn. by rewrite (receive_sunk _ _ _ Hr).
  - destruct (Route _ _) as [r act]. intros [= <-].
    assert (Hch : is_vector env) by (unfold is_vector; by destruct (e_Channel env)).
    split; cbn; try done.
    + rewrite scalars_snoc, length_app. unfold scalars at 2. rewrite list.filter_cons_False by done. cbn. lia.
    + rewrite list.filter_app, length_app, list.filter_cons_True by done. cbn. lia.
Qed.

Definition is_generated (e : SimEvent) : Z := match e with SGenerate _ _ => 1 | _ => 0 end.
Definition sim_accepted_by (f : SimFlags) (e : SimEvent) : list Envelope :=
  match pipe_event f e with Some (_, PHandle _ env) => [env] | _ => [] end.

Lemma step_counted n envs e s s' : counted n envs s -> sim_step range e s = Some s' ->
  counted (n + is_generated e) (envs ++ sim_accepted_by (sim_flags s) e) s'.
Proof.
  intros Hc. unfold sim_accepted_by. destruct e as [now d|now q|now|now]; cbn [sim_step pipe_event is_generated].
  - unfold generate, accepted_env. cbn [set_counts sim_flags].
    assert (Hc1 : counted (n + 1) envs (set_counts (inc_total (counts s)) s)) by (destruct Hc as [H1 H2 H3 H4 H5]; split; cbn; try done; lia).
    destruct (request_envelope now (generated_op (sim_flags s) now d)) as [env|e]; cbn [mbind option_bind];
      [by apply route_counted|]. intros [= <-]. by rewrite app_nil_r.
  - unfold sim_consume, accepted_env. rewrite Z.add_0_r.
    destruct (request_envelope now (consume_op now q)) as [env|e]; cbn [mbind option_bind].
    + destruct (sim_route now env s) as [s1|] eqn:Hr; [|done]. cbn. intros [= <-]. by eapply route_counted.
    + cbn. intros [= <-]. by rewrite app_nil_r.
  - rewrite Z.add_0_r, app_nil_r. unfold sim_receive, in_loop. destruct (stopped _).
    + cbn. intros [= <-]. by apply counted_svc.
    + destruct (receive now _) as [v|] eqn:Hr; [|done]. cbn. intros [= <-]. apply counted_svc; [|done]. by apply (receive_sunk _ _ _ Hr).
  - rewrite Z.add_0_r, app_nil_r. unfold sim_tick. destruct (stopped _); [by intros [= <-]|by apply flush_counted].
Qed.
End counters.

(** ** Whole runs *)
Section runs.
Context (range : list SBatch -> list (Z * Z)) (Hrange : forall bs, ranges (range bs) bs).
Context (o : nat) (D : gset (Z * Z)) (HD : fits o D) (f : SimFlags).

Definition sim_event_ok (e : SimEvent) : Prop :=
  Forall (fun env => e_Channel env = ChannelScalar -> env_cell env ∈ D) (sim_accepted_by f e).
Definition sim_accepted (es : list SimEvent) : list Envelope := es ≫= sim_accepted_by f.

Record sim_inv (n : Z) (envs : list Envelope) (s : Sim) : Prop := {
  sv_px : px_inv o D [] [] envs (project s);
  sv_wf : sim_wf range s;
  sv_flags : sim_flags s = f;
  sv_counted : counted n envs s
}.

Lemma sim_envelope_ok e env : sim_accepted_by f e = [env] -> envelope_ok env.
Proof.
  unfold sim_accepted_by. destruct e as [now d|now q|now|now]; cbn; try done; unfold accepted_env.
  - destruct (request_envelope now (generated_op f now d)) eqn:E; cbn; [|done]. intros [= <-].
    eapply request_envelope_ok; [|exact E]. cbn. unfold in64. lia.
  - destruct (request_envelope now (consume_op now q)) eqn:E; cbn; [|done]. intros [= <-].
    eapply request_envelope_ok; [|exact E]. apply query_n_in.
Qed.

Lemma sim_step_ok n envs e s : sim_inv n envs s -> sim_event_ok e ->
  exists s', sim_step range e s = Some s' /\ sim_inv (n + is_generated e) (envs ++ sim_accepted_by f e) s'.
Proof.
  intros [Hpx Hwf Hf Hc] He. pose proof (sim_step_project range e s Hwf) as [Hproj Hkeep]. rewrite Hf in *.
  assert (exists px', option_map project (sim_step range e s) = Some px' /\ px_inv o D [] [] (envs ++ sim_accepted_by f e) px') as (px' & Hs & Hpx').
  { rewrite Hproj. unfold sim_event_ok in He. pose proof (sim_envelope_ok e) as Hty. unfold sim_accepted_by in *.
    destruct (pipe_event f e) as [[now pe]|] eqn:Hpe; [|rewrite app_nil_r; by eexists].
    destruct (on_pipe_ok o D HD [] [] envs (project s) now pe Hpx) as (px' & He' & Hx').
    - destruct pe; cbn; try done; [by inversion_clear He|]. destruct e; cbn in Hpe; try done; by destruct (accepted_env _ _).
    - destruct pe; try done. by apply Hty.
    - exists px'. split; [done|]. destruct pe; try done. }
  destruct (sim_step range e s) as [s'|] eqn:Hstep; [|done]. cbn in Hs. injection Hs as <-.
  exists s'. split; [done|]. destruct (Hkeep s' eq_refl) as [Hwf' Hf']. split; try done.
  pose proof (step_counted range Hrange n envs e s s' Hc Hstep) as Hc'. by rewrite Hf in Hc'.
Qed.

Definition generated (es : list SimEvent) : Z := Zsum (map is_generated es).

Lemma sim_run_ok es n envs s : sim_inv n envs s -> Forall sim_event_ok es ->
  exists s', sim_run range es s = Some s' /\ sim_inv (n + generated es) (envs ++ sim_accepted es) s'.
Proof.
  intros Hs Hes. revert n envs s Hs. induction Hes as [|e es He Hes IH]; intros n envs s Hs.
  { exists s. unfold generated. cbn. by rewrite Zsum_nil, Z.add_0_r, app_nil_r. }
  destruct (sim_step_ok n envs e s Hs He) as (s1 & Hstep & Hs1). cbn [sim_run]. rewrite Hstep. cbn [mbind option_bind].
  destruct (IH _ _ s1 Hs1) as (s2 & Hrun & Hs2). exists s2. split; [done|].
  unfold generated, sim_accepted in *. cbn [map mbind list_bind]. by rewrite Zsum_cons, Z.add_assoc, app_assoc.
Qed.
End runs.

Lemma scalar_deltas c envs :
  deltas_at c (env_delta <$> envs) = deltas_at c (env_delta <$> scalars envs) + deltas_at c (env_delta <$> filter is_vector envs).
Proof.
  rewrite <- deltas_at_app, <- fmap_app. apply deltas_at_perm. f_equiv. unfold scalars.
  induction envs as [|env envs IH]; [done|]. rewrite !list.filter_cons.
  destruct (e_Channel env) eqn:Hc.
  - rewrite decide_True by done. rewrite decide_False by (unfold is_vector; congruence). cbn. by constructor.
  - rewrite decide_False by done. rewrite decide_True by done. rewrite IH at 1. apply Permutation_middle.
Qed.

(** A fresh start on empty logs. *)
Lemma sim_start_ok D range f t0 : (forall bs, ranges (range bs) bs) ->
  exists s0, sim_start range f (Some []) (Some []) [] [] t0 = Some s0 /\
    sim_inv range (table_order (orderPow2 (base_flags (sim_sane f)))) D (sim_sane f) 0 [] s0.
Proof.
  intros Hr. set (fs := sim_sane f).
  unfold sim_start, NewSBatchFileSink, NewVEnvFileSink, New_sink. cbn [mbind option_bind]. eexists. split; [done|].
  pose proof (SimpleVSA_ok range Hr) as [Hv Hk].
  destruct (NewPipeline_inv D (shards (base_flags fs)) (orderPow2 (base_flags fs)) (countThresh (base_flags fs))
    (time_cap (base_flags fs)) proxy_buffer t0 _ Hv) as [Hp Hsto].
  assert (Hsink : sink_ok [] [] (mkSink [] [] false bufio_size [] false t0)) by (split; [split; [done|]; by exists []|done]).
  split; [|done|done|done]. split; cbn; [by exists ∅|done|by apply NewPipeline_types|by split].
Qed.

(** What the logs and the counters of a simulator say. *)
Definition logs_match (n : Z) (envs : list Envelope) (s' : Sim) : Prop :=
  exists bs, ReadAllSLog (Some (disk (sim_fileSink s'))) = (bs, false) /\
    ReadAllVLog (Some (disk (sim_vSink s'))) = (filter is_vector envs, false) /\
    (forall c, deltas_at c (batch_delta <$> bs) ≡ₘ deltas_at c (env_delta <$> scalars envs)) /\
    sBatchesOut (counts s') = Z.of_nat (length bs) /\ sBatchesOut (counts s') <= sBatchesIn (counts s') /\
    sOps (counts s') = Z.of_nat (length (scalars envs)) /\
    vOps (counts s') = Z.of_nat (length (filter is_vector envs)) /\ totalOps (counts s') = n.

Lemma sim_shutdown_logs D range f n envs t1 s :
  fits (table_order (orderPow2 (base_flags f))) D -> (forall bs, ranges (range bs) bs) ->
  sim_inv range (table_order (orderPow2 (base_flags f))) D f n envs s ->
  exists s', sim_shutdown range t1 s = Some s' /\ logs_match n envs s'.
Proof.
  intros HD Hr [Hpx Hwf Hfl Hc].
  destruct (shutdown_ok _ D HD [] [] (list.Forall_nil_2 _) (list.Forall_nil_2 _) envs (project s) t1 Hpx)
    as (px' & bs & vs & Hsh & Hd1 & Hd2 & Hb & Hv & Hbs & Hvs & Hlogs).
  pose proof (sim_shutdown_project range t1 s Hwf) as Hproj. rewrite Hsh in Hproj.
  destruct (sim_shutdown range t1 s) as [s'|] eqn:Hsd; [|done]. cbn in Hproj. injection Hproj as <-.
  assert (Hc' : counted n envs s').
  { unfold sim_shutdown, sim_Stop in Hsd. cbn [sim_pipe] in Hsd. destruct (stopped _); [done|].
    destruct (drain t1 _) as [v|] eqn:Hdr; [|done]. cbn [mbind option_bind] in Hsd.
    destruct (sim_flush range t1 _) as [s1|] eqn:Hf1; [|done]. cbn in Hsd. injection Hsd as <-.
    apply (flush_counted range Hr n envs) in Hf1; [by destruct Hf1|].
    destruct Hc as [H1 H2 H3 H4 H5]. split; try done. cbn. by rewrite (drain_sunk _ _ _ Hdr). }
  cbn in Hbs, Hvs, Hd1, Hd2. destruct Hc' as [C1 C2 C3 C4 C5]. subst vs. exists s'. split; [done|].
  exists bs. split_and!; try done.
  - rewrite Hd1. by apply (read_rows bs).
  - rewrite Hd2. by apply (read_rows (filter is_vector envs)).
  - intros c. specialize (Hlogs c). unfold history in Hlogs. cbn [fmap list_fmap app] in Hlogs. rewrite (scalar_deltas c envs) in Hlogs.
    clear -Hlogs. destruct Hlogs as [k Hk]. exists k. lia.
  - by rewrite Hbs.
Qed.

(** When the simulator is stopped with nothing under way its logs hold what its counters counted: the V log is exactly the V operations, in order, [tfd_v_ops] of them; the S log's [tfd_s_batches_out_total] rows give every cell the sum of the [tfd_s_ops] S operations on it; compression never wrote more batches than it was given; and [tfd_total_ops] counts the generated operations only. *)
Theorem sim_logs_match_counters D range f t0 t1 es :
  fits (table_order (orderPow2 (base_flags (sim_sane f)))) D -> (forall bs, ranges (range bs) bs) ->
  Forall (sim_event_ok D (sim_sane f)) es ->
  exists s0 s s', sim_start range f (Some []) (Some []) [] [] t0 = Some s0 /\
    sim_run range es s0 = Some s /\ sim_shutdown range t1 s = Some s' /\
    logs_match (generated es) (sim_accepted (sim_sane f) es) s'.
Proof.
  intros HD Hr Hes. destruct (sim_start_ok D range f t0 Hr) as (s0 & Hs0 & Hinv0).
  destruct (sim_run_ok range Hr _ D HD _ es 0 [] s0 Hinv0 Hes) as (s & Hrun & Hinv).
  destruct (sim_shutdown_logs D range _ _ _ t1 s HD Hr Hinv) as (s' & Hsd & Hlogs). by exists s0, s, s'.
Qed.

(** ** What two of the readings mean *)

(** [-qps] is not the number of operations per second: the ticker fires at least [qps] times a second and each tick adds a whole [burst], so at least [qps * burst] operations per second are asked for; and above 10^9 the interval is 0, which [time.NewTicker] refuses with a panic. *)
Theorem generator_rate f :
  0 < qps f ->
  (qps f <= second -> 0 < tick_interval f /\ (0 < burst f -> qps f * burst f <= (second / tick_interval f) * burst f)) /\
  (second < qps f -> tick_interval f = 0).
Proof.
  intros Hq. unfold tick_interval, max_int.
  assert ((if 1 >? qps f then 1 else qps f) = qps f) as -> by (destruct (Z.gtb_spec 1 (qps f)); lia).
  rewrite Z.quot_div_nonneg by (unfold second; lia). split.
  - intros Hle. assert (Hpos : 0 < second / qps f) by (apply Z.div_str_pos; lia). split; [done|]. intros Hb.
    apply Z.mul_le_mono_nonneg_r; [lia|]. apply Z.div_le_lower_bound; [done|].
    rewrite Z.mul_comm. apply Z.mul_div_le. done.
  - intros Hlt. apply Z.div_small. unfold second in *. lia.
Qed.

Lemma generator_rate_witness :
  qps sim_default_flags * burst sim_default_flags <=
    (second / tick_interval sim_default_flags) * burst sim_default_flags /\
  qps sim_default_flags * burst sim_default_flags = 1000 * qps sim_default_flags.
Proof.
  split; [|reflexivity].
  refine (proj2 (proj1 (generator_rate sim_default_flags _) _) _); vm_compute; [reflexivity|discriminate|reflexivity].
Defined.

(** The first interval the histogram gets is the time since 1970: the guard
    against it asks for the year 1. *)
Lemma unix_never_zero ns : in64 ns -> unix_is_zero ns = false.
Proof. intros H. unfold unix_is_zero, second, in64 in *. apply Z.eqb_neq. lia. Qed.

Lemma first_flush_interval range f s_log v_log os_s os_v t0 s now b :
  sim_start range f s_log v_log os_s os_v t0 = Some s -> in64 now ->
  flushIntervals (counts (metricSink_OnSBatches now b s)) = [now].
Proof.
  unfold sim_start. intros Hs Hn. destruct s_log, v_log; try done. injection Hs as <-.
  unfold metricSink_OnSBatches. cbn [sink_last]. rewrite unix_never_zero by (unfold in64; lia). cbn.
  unfold time_Sub, MinInt64, MaxInt64. unfold in64 in Hn. f_equal. lia.
Qed.

(** ** Examples *)
Definition demo_sim_flags : SimFlags := mkSimFlags demo_flags (1 # 2) 10 10 1 1 0.
Definition demo_sim_events : list SimEvent :=
  [SGenerate 5 (mkDraw 3 5 (1 # 4)); SGenerate 6 (mkDraw 3 5 (1 # 5)); SReceive 7; SGenerate 8 (mkDraw 3 6 (3 # 4));
   STick 9; SConsume 10 (mkQuery "user:3" "t1s/5" "40" ""); SConsume 11 (mkQuery "" "" "" "")].
Definition demo_sim_cells : gset (Z * Z) := {[ (HashKey "user:3", HashKey "t1s/5") ]}.

Lemma demo_sim_fits : fits (table_order (orderPow2 (base_flags (sim_sane demo_sim_flags)))) demo_sim_cells.
Proof.
  assert (Hc : forall c, c ∈ demo_sim_cells -> c = (HashKey "user:3", HashKey "t1s/5")) by (unfold demo_sim_cells; set_solver).
  split; [split|by vm_compute].
  - intros c ->%Hc. by vm_compute.
  - by intros c c' ->%Hc ->%Hc.
Qed.

#[export] Instance sim_event_ok_dec D f e : Decision (sim_event_ok D f e).
Proof. unfold sim_event_ok. apply _. Defined.

Lemma demo_sim_logs :
  exists s0 s s', sim_start map_order demo_sim_flags (Some []) (Some []) [] [] 0 = Some s0 /\
    sim_run map_order demo_sim_events s0 = Some s /\ sim_shutdown map_order 20 s = Some s' /\
    sOps (counts s') = 3 /\ vOps (counts s') = 1 /\ totalOps (counts s') = 3.
Proof.
  destruct (sim_logs_match_counters demo_sim_cells map_order demo_sim_flags 0 20 demo_sim_events)
    as (s0 & s & s' & H1 & H2 & H3 & bs & _ & _ & _ & _ & _ & H5 & H6 & H7).
  - exact demo_sim_fits.
  - exact map_order_ranges.
  - concretely.
  - exists s0, s, s'. split_and!; [done..| | |].
    + rewrite H5. vm_compute. reflexivity.
    + rewrite H6. vm_compute. reflexivity.
    + rewrite H7. vm_compute. reflexivity.
Qed.
