(* ===== verification/SimMain.v ===== *)
(** * The simulator's goroutines ([cmd/tfd-sim/main.go], [main])

    [Sim] has the turn of the generator, the handler and the deferred calls.
    Here they are threads: the generator's goroutine with its ticker and its
    [stop] channel, the handlers and the service's loop, and [main], which waits for a
    signal or the timer, closes [stop], sleeps and runs its deferred calls.  Nothing
    makes [main] wait for the generator or the handlers.  A turn of the generator and
    a handler are one step each: what they could do to each other in the router, which
    has no lock, is in [ProxyConc].  When they are done in time, the cells fit the
    tables and the writes succeed, the logs hold what the counters counted ([quiet_exit_keeps_everything]);
    when they are not, what they count after the deferred calls is in no log
    ([late_turns_are_lost]). *)
From Stdlib Require Import Ascii QArith.
From S2P Require Import Prelude Effects OpenAddr TfdTypes TfdShard TfdShardSpec TfdState TfdStateSpec TfdPipeline TfdPipelineSpec Json Sinks SinksRead SinksSpec TfdRanges Proxy ProxySpec Sim SimSpec.

(** ** The threads *)
Inductive Generator :=
| Beginning                   (* before [time.NewTicker] *)
| AtSelect (burstLeft : Z)
| InBurst (burstLeft : Z)     (* in the inner loop, more to do *)
| GenBlocked                  (* in an [Ingest] no one will receive *)
| GenEnded.

Inductive MainAt :=
| Watching         (* at the last [select] *)
| Pausing          (* [stop] closed, in the sleep *)
| VSinkClosed      (* of the deferred calls, [vSink.Close] is done *)
| ServiceStopped   (* and [svc.Stop] *)
| Exited.          (* and [fileSink.Close]: the process is gone *)
#[export] Instance MainAt_eq_dec : EqDecision MainAt.
Proof. solve_decision. Defined.

Record SimProcess := mkSimProcess { sim : Sim; generator : Generator; stop : bool; main_at : MainAt }.
Definition set_sim (s : Sim) (p : SimProcess) : SimProcess := mkSimProcess s (generator p) (stop p) (main_at p).
Definition set_gen (g : Generator) (p : SimProcess) : SimProcess := mkSimProcess (sim p) g (stop p) (main_at p).
Definition set_main (m : MainAt) (p : SimProcess) : SimProcess := mkSimProcess (sim p) (generator p) (stop p) m.

(** [for burstLeft > 0] *)
Definition burst_loop (burstLeft : Z) : Generator := if burstLeft >? 0 then InBurst burstLeft else AtSelect burstLeft.

Inductive ProcEvent :=
| GBegin | GTick | GStop | GTurn (now : Z) (d : Draw)    (* the generator *)
| HConsume (now : Z) (q : Query)                         (* a handler *)
| LReceive (now : Z) | LTick (now : Z)                   (* the service's loop *)
| MSignal | MTimer | MNext (now : Z).                    (* [main] *)

Section process.
Context (range : list SBatch -> list (Z * Z)).

(** The simulator's event an event of a thread is, when the thread is there. *)
Definition sim_event (e : ProcEvent) (p : SimProcess) : option SimEvent :=
  match e with
  | GTurn now d => match generator p with InBurst _ => Some (SGenerate now d) | _ => None end
  | HConsume now q => Some (SConsume now q)
  | LReceive now => Some (SReceive now)
  | LTick now => Some (STick now)
  | _ => None
  end.

(** A sender that meets a full buffer after the service has stopped has counted
    the failure and waits for ever. *)
Definition or_blocked (g : Counters -> Counters) (x : Generator) (r : option SimProcess) (p : SimProcess) : option SimProcess :=
  match r with
  | Some p' => Some p'
  | None =>
      if stopped (svc (sim_pipe (sim p)))
      then Some (mkSimProcess (set_counts (inc_fail (g (counts (sim p)))) (sim p)) x (stop p) (main_at p))
      else None
  end.

(** A step of the generator; [time.NewTicker] panics on an interval of 0. *)
Definition generator_step (e : ProcEvent) (p : SimProcess) : option SimProcess :=
  let f := sim_flags (sim p) in
  match e, generator p with
  | GBegin, Beginning => if tick_interval f <=? 0 then None else Some (set_gen (AtSelect 0) p)
  | GTick, AtSelect n => Some (set_gen (burst_loop (n + burst f)) p)
  | GStop, AtSelect n => Some (if stop p then set_gen GenEnded p else p)
  | GTurn now d, InBurst n =>
      or_blocked inc_total GenBlocked
        (s ← sim_step range (SGenerate now d) (sim p); Some (set_gen (burst_loop (n - 1)) (set_sim s p))) p
  | _, _ => Some p
  end.

(** A step of [main]. *)
Definition sim_main_step (e : ProcEvent) (p : SimProcess) : option SimProcess :=
  let s := sim p in
  match e, main_at p with
  | MSignal, Watching => Some (mkSimProcess s (generator p) true Pausing)
  | MTimer, Watching => Some (if duration (sim_flags s) >? 0 then mkSimProcess s (generator p) true Pausing else p)
  | MNext _, Pausing =>
      Some (set_main VSinkClosed (set_sim
        (mkSim (sim_flags s) (sim_pipe s) (sim_fileSink s) (sink_last s) (sink_Close (sim_vSink s)) (counts s)) p))
  | MNext now, VSinkClosed => s' ← sim_Stop range now s; Some (set_main ServiceStopped (set_sim s' p))
  | MNext _, ServiceStopped =>
      Some (set_main Exited (set_sim
        (mkSim (sim_flags s) (sim_pipe s) (sink_Close (sim_fileSink s)) (sink_last s) (sim_vSink s) (counts s)) p))
  | _, _ => Some p
  end.

Definition thread_step (e : ProcEvent) (p : SimProcess) : option SimProcess :=
  match e with
  | GBegin | GTick | GStop | GTurn _ _ => generator_step e p
  | HConsume now q =>
      or_blocked (fun c => c) (generator p) (s ← sim_step range (SConsume now q) (sim p); Some (set_sim s p)) p
  | LReceive now => s ← sim_step range (SReceive now) (sim p); Some (set_sim s p)
  | LTick now => s ← sim_step range (STick now) (sim p); Some (set_sim s p)
  | MSignal | MTimer | MNext _ => sim_main_step e p
  end.
(** The process ends with [main]. *)
Definition proc_step (e : ProcEvent) (p : SimProcess) : option SimProcess :=
  if decide (main_at p = Exited) then Some p else thread_step e p.
Fixpoint proc_run (es : list ProcEvent) (p : SimProcess) : option SimProcess :=
  match es with
  | [] => Some p
  | e :: es => p' ← proc_step e p; proc_run es p'
  end.

Lemma proc_run_app es es' p : proc_run (es ++ es') p = (p' ← proc_run es p; proc_run es' p').
Proof.
  revert p. induction es as [|e es IH]; intros p; cbn; [done|]. destruct (proc_step e p); cbn; [apply IH|done].
Qed.

(** The simulator's events a run is made of. *)
Fixpoint sim_trace (es : list ProcEvent) (p : SimProcess) : list SimEvent :=
  match es with
  | [] => []
  | e :: es =>
      match sim_event e p with Some x => [x] | None => [] end ++
      match proc_step e p with Some p' => sim_trace es p' | None => [] end
  end.

Definition sim_main_start (f : SimFlags) (s_log v_log : option text) (os_s os_v : list (option nat)) (now : Z) : option SimProcess :=
  s ← sim_start range f s_log v_log os_s os_v now; Some (mkSimProcess s Beginning false Watching).
End process.

(** ** A main that is done last *)
Section quiet.
Context (range : list SBatch -> list (Z * Z)) (Hrange : forall bs, ranges (range bs) bs).
Context (D : gset (Z * Z)) (f0 : SimFlags).
Let f := sim_sane f0.
Let o := table_order (orderPow2 (base_flags f)).
Hypothesis (HD : fits o D) (Hqps : qps f <= second).

Lemma sane_burst : 0 < burst f.
Proof. subst f. unfold sim_sane, or_positive. cbn. destruct (burst f0 <=? 0) eqn:E; lia. Qed.

Lemma sane_tick : 0 < tick_interval f.
Proof using Hqps.
  unfold tick_interval, max_int. assert (0 < qps f) by (subst f; unfold sim_sane, or_positive; cbn; destruct (qps f0 <=? 0) eqn:E; lia).
  destruct (Z.gtb_spec 1 (qps f)); [lia|]. rewrite Z.quot_div_nonneg by (unfold second; lia). by apply Z.div_str_pos.
Qed.

(** What the generator has left of the burst it is in. *)
Definition burst_left (g : Generator) : Z := match g with AtSelect n | InBurst n => n | _ => 0 end.
Definition gen_shape (g : Generator) : Prop :=
  match g with AtSelect n => n = 0 | InBurst n => 0 < n | GenBlocked => False | _ => True end.
Definition whole_bursts (n : Z) (g : Generator) : Prop := gen_shape g /\ (burst f | n + burst_left g).

Lemma burst_loop_shape n : 0 <= n -> gen_shape (burst_loop n) /\ burst_left (burst_loop n) = n.
Proof. intros Hn. unfold burst_loop. destruct (Z.gtb_spec n 0); cbn; lia. Qed.

(** The deferred calls so far, of a simulator [s0] that was quiet. *)
Definition close_v (s : Sim) : Sim :=
  mkSim (sim_flags s) (sim_pipe s) (sim_fileSink s) (sink_last s) (sink_Close (sim_vSink s)) (counts s).
Definition close_s (s : Sim) : Sim :=
  mkSim (sim_flags s) (sim_pipe s) (sink_Close (sim_fileSink s)) (sink_last s) (sim_vSink s) (counts s).
Definition deferred (m : MainAt) (s0 s : Sim) : Prop :=
  match m with
  | Watching | Pausing => s = s0
  | VSinkClosed => s = close_v s0
  | ServiceStopped => exists t, sim_Stop range t (close_v s0) = Some s
  | Exited => exists t, sim_shutdown range t s0 = Some s
  end.

Record proc_inv (n : Z) (envs : list Envelope) (p : SimProcess) : Prop := {
  pc_sim : exists s0, sim_inv range o D f n envs s0 /\ deferred (main_at p) s0 (sim p);
  pc_gen : whole_bursts n (generator p)
}.

(** The events of a process whose [main] has not begun its deferred calls, and
    those of one where the generator and the handlers are done. *)
Definition open (e : ProcEvent) : Prop := match e with MNext _ => False | _ => True end.
Definition quiet (e : ProcEvent) : Prop := match e with GTurn _ _ | HConsume _ _ => False | _ => True end.
#[export] Instance quiet_dec e : Decision (quiet e).
Proof. destruct e; cbn; apply _. Defined.
Definition proc_event_ok (e : ProcEvent) : Prop :=
  match e with
  | GTurn now d => sim_event_ok D f (SGenerate now d)
  | HConsume now q => sim_event_ok D f (SConsume now q)
  | _ => True
  end.

Definition at_work (p : SimProcess) : Prop := match main_at p with Watching | Pausing => True | _ => False end.

Lemma trace_nil n envs : n + generated [] = n /\ envs ++ sim_accepted f [] = envs.
Proof. unfold generated, sim_accepted. cbn. rewrite Zsum_nil, app_nil_r. split; [lia|done]. Qed.
Lemma trace_one n envs e :
  n + generated [e] = n + is_generated e /\ envs ++ sim_accepted f [e] = envs ++ sim_accepted_by f e.
Proof. unfold generated, sim_accepted. cbn. rewrite Zsum_cons, Zsum_nil, app_nil_r. split; [lia|done]. Qed.

Definition sim_events (e : ProcEvent) (p : SimProcess) : list SimEvent :=
  match sim_event e p with Some x => [x] | None => [] end.

Lemma flush_flags now s s' : sim_flush range now s = Some s' -> sim_flags s' = sim_flags s.
Proof.
  unfold sim_flush. destruct (FlushAll _) as [a [|b bs]]; [by intros [= <-]|].
  destruct (metricVSA_Compress range (counts s) (b :: bs)) as [[c [|b' bs']]|] eqn:Hm;
    cbn [set_svc counts]; rewrite ?Hm; cbn; [by intros [= <-]..|done].
Qed.

Lemma stop_facts now s s' : sim_Stop range now s = Some s' ->
  sim_flags s' = sim_flags s /\ stopped (svc (sim_pipe s')) = true.
Proof.
  unfold sim_Stop. destruct (stopped _); [done|]. destruct (drain now _) as [v|]; [|done]. cbn [mbind option_bind].
  destruct (sim_flush range now _) as [s1|] eqn:Hf; [|done]. cbn. intros [= <-]. cbn. by rewrite (flush_flags _ _ _ Hf).
Qed.

Lemma shutdown_split now s :
  sim_shutdown range now s = (s' ← sim_Stop range now (close_v s); Some (close_s s')).
Proof. done. Qed.

Lemma deferred_flags m s0 s : deferred m s0 s -> sim_flags s = sim_flags s0.
Proof.
  destruct m; cbn; [by intros ->..| |]; intros [t Ht].
  - by apply stop_facts in Ht as [-> _].
  - rewrite shutdown_split in Ht. destruct (sim_Stop range t (close_v s0)) as [s1|] eqn:Hs; [|done].
    apply stop_facts in Hs as [Hf _]. cbn in Ht. injection Ht as <-. done.
Qed.

Lemma generator_ok e n envs p : proc_inv n envs p -> quiet e ->
  exists g, generator_step range e p = Some (set_gen g p) /\ whole_bursts n g.
Proof using Hqps.
  intros [(s0 & Hs0 & Hd) [Hshape Hdiv]] Hq. pose proof (sv_flags _ _ _ _ _ _ _ Hs0) as Hf.
  apply deferred_flags in Hd. rewrite Hf in Hd.
  assert (Hsame : Some p = Some (set_gen (generator p) p)) by (by destruct p).
  assert (Hok : whole_bursts n (generator p)) by done.
  unfold generator_step. destruct e; try done; destruct (generator p) as [|k|k| |] eqn:Hg; rewrite ?Hd;
    try (by eexists; split; [exact Hsame|]).
  - pose proof sane_tick. case_Z; [lia|]. eexists. by split.
  - eexists. split; [done|]. pose proof sane_burst. cbn in Hshape. subst k.
    destruct (burst_loop_shape (0 + burst f)) as [H1 H2]; [lia|]. split; [done|]. rewrite H2.
    apply Z.divide_add_r; [|by exists 1; lia]. cbn in Hdiv. by rewrite Z.add_0_r in Hdiv.
  - destruct (stop p); [|by eexists; split; [exact Hsame|]]. eexists. split; [done|]. cbn in Hshape. by subst k.
Qed.

(** A turn of the loop while the deferred calls are under way. *)
Lemma loop_deferred e n envs p s0 : (exists now, e = SReceive now \/ e = STick now) ->
  sim_inv range o D f n envs s0 -> deferred (main_at p) s0 (sim p) -> main_at p <> Exited ->
  exists s1 s, sim_step range e (sim p) = Some s /\ sim_inv range o D f n envs s1 /\ deferred (main_at p) s1 s.
Proof using HD Hrange.
  intros [now He] Hs0 Hd Hne.
  assert (Hev : is_generated e = 0 /\ sim_accepted_by f e = []) by (by destruct He as [-> | ->]).
  destruct Hev as [Hg Ha].
  assert (exists s1, sim_step range e s0 = Some s1 /\ sim_inv range o D f n envs s1) as (s1 & Hst & Hs1).
  { destruct (sim_step_ok range Hrange o D HD f n envs e s0 Hs0) as (s1 & Hst & Hs1); [unfold sim_event_ok; by rewrite Ha|].
    rewrite Hg, Ha, Z.add_0_r, app_nil_r in Hs1. by exists s1. }
  destruct (main_at p); cbn [deferred] in *; [by subst s0; exists s1, s1..| | |done].
  - exists s1, (close_v s1). rewrite Hd. split_and!; [|done..].
    destruct He as [-> | ->]; cbn [sim_step] in *; unfold sim_receive, sim_tick, in_loop in *; cbn [sim_pipe close_v].
    + destruct (stopped _); [by injection Hst as <-|]. destruct (receive now _); [|done]. by injection Hst as <-.
    + destruct (stopped _); [by injection Hst as <-|]. revert Hst. unfold sim_flush. cbn [sim_pipe close_v].
      destruct (FlushAll _) as [a [|b bs]]; [by intros [= <-]|]. cbn [set_svc counts close_v].
      destruct (metricVSA_Compress range (counts s0) (b :: bs)) as [[c [|b' bs']]|]; [by intros [= <-]..|done].
  - exists s0, (sim p). split_and!; [|done..]. destruct Hd as [t Ht]. apply stop_facts in Ht as [_ Ht].
    destruct He as [-> | ->]; cbn [sim_step]; unfold sim_receive, sim_tick, in_loop; rewrite Ht; [|done].
    cbn. f_equal. unfold set_svc. by destruct (sim p) as [? [] ? ? ? ?].
Qed.

(** What is quiet keeps the account, whatever [main] has done. *)
Lemma quiet_step e n envs p : proc_inv n envs p -> quiet e ->
  exists p', proc_step range e p = Some p' /\ proc_inv n envs p'.
Proof using HD Hrange Hqps.
  intros Hp Hq. destruct (decide (main_at p = Exited)) as [Hx|Hx].
  { exists p. unfold proc_step. by rewrite decide_True. }
  pose proof Hp as [(s0 & Hs0 & Hd) Hgen].
  assert (Hgs : forall e', e' = e -> match e with GBegin | GTick | GStop => True | _ => False end ->
    exists p', generator_step range e' p = Some p' /\ proc_inv n envs p').
  { intros e' -> He. destruct (generator_ok e n envs p Hp Hq) as (g & Hg & Hw). exists (set_gen g p). split; [done|].
    split; [by exists s0|done]. }
  assert (Hl : forall e', (exists now, e' = SReceive now \/ e' = STick now) ->
    exists p', (s ← sim_step range e' (sim p); Some (set_sim s p)) = Some p' /\ proc_inv n envs p').
  { intros e' He'. destruct (loop_deferred e' n envs p s0 He' Hs0 Hd Hx) as (s1 & s & Hst & Hs1 & Hd1).
    rewrite Hst. cbn. eexists. split; [done|]. split; [by exists s1|done]. }
  unfold proc_step. rewrite decide_False by done. unfold thread_step. destruct (main_at p) eqn:Hm; try done;
    (destruct e as [| | |now d|now q|now|now| | |now]; try done;
      [by apply Hgs..|by apply Hl; exists now; left|by apply Hl; exists now; right| | |]);
    unfold sim_main_step; rewrite Hm; cbn [deferred] in Hd; try (eexists; split; [done|]); try done.
  - split; [|done]. cbn. by exists s0.
  - case_match; [|done]. split; [|done]. cbn. by exists s0.
  - split; [|done]. cbn. exists s0. by rewrite Hd.
  - destruct (sim_shutdown_logs D range f n envs now s0 HD Hrange Hs0) as (s' & Hsd & _).
    rewrite shutdown_split in Hsd. rewrite Hd. destruct (sim_Stop range now (close_v s0)) as [s1|] eqn:Hs1; [|done].
    cbn. eexists. split; [done|]. split; [|done]. cbn. exists s0. split; [done|]. by exists now.
  - destruct Hd as [t Ht]. split; [|done]. cbn. exists s0. split; [done|]. exists t. by rewrite shutdown_split, Ht.
Qed.

(** A quiet event is not a generated operation nor an accepted one. *)
Lemma quiet_trace e n envs p : quiet e ->
  n + generated (sim_events e p) = n /\ envs ++ sim_accepted f (sim_events e p) = envs.
Proof.
  intros Hq. unfold sim_events.
  destruct e as [| | |now d|now q|now|now| | |now]; try done; cbn [sim_event]; apply trace_nil.
Qed.

Lemma generator_main e p p' : generator_step range e p = Some p' -> main_at p' = main_at p.
Proof.
  unfold generator_step, or_blocked. destruct e, (generator p); intros H; repeat case_match; try done; simplify_eq; try done.
  all: destruct (sim_step range _ _); cbn in *; by simplify_eq.
Qed.

Lemma open_at_work e p p' : at_work p -> open e -> proc_step range e p = Some p' -> at_work p'.
Proof.
  intros Hat Ho. assert (Hx : main_at p <> Exited) by (unfold at_work in Hat; by destruct (main_at p)).
  intros Hst. assert (Hs : main_at p' = main_at p \/ at_work p').
  { unfold proc_step in Hst.
    rewrite decide_False in Hst by done. unfold thread_step in Hst.
    destruct e as [| | |now d|now q|now|now| | |now]; try done.
    1-4: left; by eapply generator_main.
    - left. unfold or_blocked in Hst. destruct (sim_step range _ _); cbn in *; [by simplify_eq|].
      destruct (stopped _); by simplify_eq.
    - left. destruct (sim_step range _ _); cbn in *; by simplify_eq.
    - left. destruct (sim_step range _ _); cbn in *; by simplify_eq.
    - unfold sim_main_step in Hst. destruct (main_at p); simplify_eq; by auto.
    - unfold sim_main_step in Hst. destruct (main_at p); simplify_eq; auto; case_match; by auto. }
  destruct Hs as [Hs|Hs]; [|done]. unfold at_work. by rewrite Hs.
Qed.

(** Until [main] is woken from its sleep, every event of a thread is the simulator's. *)
Lemma open_step e n envs p : proc_inv n envs p -> at_work p -> open e -> proc_event_ok e ->
  exists p', proc_step range e p = Some p' /\ at_work p' /\
    proc_inv (n + generated (sim_events e p)) (envs ++ sim_accepted f (sim_events e p)) p'.
Proof using HD Hrange Hqps.
  intros Hp Hat Hopen Hok.
  enough (exists p', proc_step range e p = Some p' /\
    proc_inv (n + generated (sim_events e p)) (envs ++ sim_accepted f (sim_events e p)) p') as (p' & Hst & Hp').
  { exists p'. split_and!; [done|by eapply open_at_work|done]. }
  destruct (decide (quiet e)) as [Hq|Hnq].
  { destruct (quiet_trace e n envs p Hq) as [-> ->]. by apply quiet_step. }
  assert (Hx : main_at p <> Exited) by (unfold at_work in Hat; by destruct (main_at p)).
  assert (Hwork : forall s0 s, deferred (main_at p) s0 s <-> s = s0) by (unfold at_work in Hat; by destruct (main_at p)).
  destruct Hp as [(s0 & Hs0 & Hd) [Hshape Hdiv]]. pose proof Hd as Hd0. apply Hwork in Hd.
  assert (Hsim : forall x, sim_event_ok D f x -> exists s1, sim_step range x (sim p) = Some s1 /\ deferred (main_at p) s1 s1 /\
    sim_inv range o D f (n + is_generated x) (envs ++ sim_accepted_by f x) s1).
  { intros x Hxok. destruct (sim_step_ok range Hrange o D HD f n envs x s0 Hs0 Hxok) as (s1 & Hst & Hs1). rewrite Hd.
    exists s1. split_and!; [done|by apply Hwork|done]. }
  destruct e as [| | |now d|now q|now|now| | |now]; try (by destruct Hnq); unfold sim_events; cbn [sim_event].
  - destruct (generator p) as [|k|k| |] eqn:Hg.
    1-2,4-5: exists p; destruct (trace_nil n envs) as [-> ->];
      (split; [unfold proc_step; rewrite decide_False by done; unfold thread_step, generator_step; by rewrite Hg|]); split; [by exists s0|by rewrite Hg].
    destruct (Hsim _ Hok) as (s1 & Hst & Hd1 & Hs1). eexists. split.
    { unfold proc_step. rewrite decide_False by done. unfold thread_step, generator_step. by rewrite Hg, Hst. }
    destruct (trace_one n envs (SGenerate now d)) as [-> ->]. split; [by exists s1|].
    cbn in Hshape. cbn [generator set_gen]. destruct (burst_loop_shape (k - 1)) as [H1 H2]; [lia|]. split; [done|]. rewrite H2.
    cbn in Hdiv |- *. by replace (n + 1 + (k - 1)) with (n + k) by lia.
  - destruct (Hsim _ Hok) as (s1 & Hst & Hd1 & Hs1). eexists. split.
    { unfold proc_step. rewrite decide_False by done. unfold thread_step. by rewrite Hst. }
    destruct (trace_one n envs (SConsume now q)) as [-> ->]. split; [by exists s1|]. by rewrite Z.add_0_r.
Qed.

Lemma open_run es n envs p : proc_inv n envs p -> at_work p -> Forall open es -> Forall proc_event_ok es ->
  exists p', proc_run range es p = Some p' /\ at_work p' /\
    proc_inv (n + generated (sim_trace range es p)) (envs ++ sim_accepted f (sim_trace range es p)) p'.
Proof using HD Hrange Hqps.
  revert n envs p. induction es as [|e es IH]; intros n envs p Hp Hat Ho Hok; cbn [proc_run sim_trace].
  { exists p. destruct (trace_nil n envs) as [-> ->]. by split_and!. }
  inversion_clear Ho. inversion_clear Hok.
  destruct (open_step e n envs p) as (p1 & Hst & Hat1 & Hp1); [done..|]. rewrite Hst. cbn [mbind option_bind].
  destruct (IH _ _ p1 Hp1) as (p2 & Hrun & Hat2 & Hp2); [done..|]. exists p2. split_and!; [done..|].
  fold (sim_events e p). unfold generated, sim_accepted in *. rewrite map_app, Zsum_app, bind_app, Z.add_assoc, app_assoc. done.
Qed.

Lemma quiet_run es n envs p : proc_inv n envs p -> Forall quiet es ->
  exists p', proc_run range es p = Some p' /\ proc_inv n envs p'.
Proof using HD Hrange Hqps.
  intros Hp Hq. revert p Hp. induction Hq as [|e es He Hes IH]; intros p Hp; cbn [proc_run]; [by exists p|].
  destruct (quiet_step e n envs p Hp He) as (p1 & -> & Hp1). cbn [mbind option_bind]. by apply IH.
Qed.
End quiet.

(** C21: a simulator whose generator and handlers are done when [main] wakes up loses
    nothing, if the cells of its operations have distinct non-zero packed ids and all
    fit one shard's table ([fits]: the default flags, 1000 keys of 64 buckets over
    tables of 1024 slots, do not), both logs are empty at the start, every write
    succeeds and [-qps] is at most 10^9.  Let the generator, the handlers (each turn in
    one step, so no two are in the router at once), the service's loop and [main] be
    interleaved in any way before that, and the loop and [main] after it.  Then nothing
    panics, the operations generated and those left of the burst under way are whole
    bursts, and once the deferred calls are over the logs hold exactly the operations
    generated and consumed: every V operation in order, for every cell the sum of its S
    operations, as many as the counters say. *)
Theorem quiet_exit_keeps_everything D range f t0 es cl :
  fits (table_order (orderPow2 (base_flags (sim_sane f)))) D -> (forall bs, ranges (range bs) bs) ->
  qps (sim_sane f) <= second -> Forall open es -> Forall (proc_event_ok D f) es -> Forall quiet cl ->
  exists p0 p, sim_main_start range f (Some []) (Some []) [] [] t0 = Some p0 /\
    proc_run range (es ++ cl) p0 = Some p /\
    let run := sim_trace range es p0 in
    (burst (sim_sane f) | generated run + burst_left (generator p)) /\
    (main_at p = Exited -> logs_match (generated run) (sim_accepted (sim_sane f) run) (sim p)).
Proof.
  intros HD Hr Hq Ho Hok Hcl. destruct (sim_start_ok D range f t0 Hr) as (s0 & Hs0 & Hinv).
  set (p0 := mkSimProcess s0 Beginning false Watching).
  assert (Hp0 : proc_inv range D f 0 [] p0).
  { split; [by exists s0|]. split; [done|]. by exists 0. }
  destruct (open_run range Hr D f HD Hq es 0 [] p0 Hp0 I Ho Hok) as (p1 & Hrun1 & _ & Hp1).
  destruct (quiet_run range Hr D f HD Hq cl _ _ p1 Hp1 Hcl) as (p2 & Hrun2 & [(s & Hs & Hd) [_ Hdiv]]).
  exists p0, p2. unfold sim_main_start. rewrite Hs0. split; [done|]. split.
  { by rewrite proc_run_app, Hrun1. }
  split; [done|]. intros Hx. rewrite Hx in Hd. destruct Hd as [t Ht].
  destruct (sim_shutdown_logs D range _ _ _ t s HD Hr Hs) as (s' & Hsd & Hlogs). rewrite Ht in Hsd. by injection Hsd as ->.
Qed.

(** Two operations in a burst of two, both lanes; the timer ends the run. *)
Definition demo_main_flags : SimFlags := mkSimFlags demo_flags (1 # 2) 10 10 1 2 1.
Definition demo_main_events : list ProcEvent :=
  [GBegin; GTick; GTurn 5 (mkDraw 3 5 (1 # 4)); LReceive 6; MTimer; GTurn 7 (mkDraw 3 6 (3 # 4));
   HConsume 8 (mkQuery "user:3" "t1s/5" "40" ""); GStop].
Definition demo_main_close : list ProcEvent := [MNext 9; LTick 10; MNext 11; MNext 12].

Definition ends (p0 : option SimProcess) (es : list ProcEvent) : option (MainAt * Z * Z * Z * bool) :=
  p ← (p0 ≫= proc_run map_order es);
  Some (main_at p, totalOps (counts (sim p)), sOps (counts (sim p)), vOps (counts (sim p)),
    match disk (sim_fileSink (sim p)), disk (sim_vSink (sim p)) with [], [] => true | _, _ => false end).

Lemma demo_main_ends :
  ends (sim_main_start map_order demo_main_flags (Some []) (Some []) [] [] 0) (demo_main_events ++ demo_main_close) =
    Some (Exited, 2, 2, 1, false).
Proof. vm_compute. reflexivity. Qed.

#[export] Instance open_dec e : Decision (open e).
Proof. destruct e; cbn; apply _. Defined.
#[export] Instance proc_event_ok_dec D f e : Decision (proc_event_ok D f e).
Proof. destruct e; cbn; apply _. Defined.

Lemma quiet_exit_keeps_everything_witness :
  exists p0 p, sim_main_start map_order demo_main_flags (Some []) (Some []) [] [] 0 = Some p0 /\
    proc_run map_order (demo_main_events ++ demo_main_close) p0 = Some p /\
    main_at p = Exited /\
    logs_match 2 (sim_accepted (sim_sane demo_main_flags) (sim_trace map_order demo_main_events p0)) (sim p).
Proof.
  destruct (quiet_exit_keeps_everything demo_sim_cells map_order demo_main_flags 0 demo_main_events demo_main_close)
    as (p0 & p & H0 & Hrun & _ & Hx).
  - exact demo_sim_fits.
  - exact map_order_ranges.
  - vm_compute. discriminate.
  - concretely.
  - concretely.
  - concretely.
  - exists p0, p. split; [exact H0|]. split; [exact Hrun|].
    pose proof demo_main_ends as He. unfold ends in He. rewrite H0 in He. cbn [mbind option_bind] in He. rewrite Hrun in He.
    cbn [mbind option_bind] in He. injection He as Hm Ht _ _ _. split; [exact Hm|]. specialize (Hx Hm).
    assert (Hn : generated (sim_trace map_order demo_main_events p0) = 2).
    { destruct Hx as (bs & _ & _ & _ & _ & _ & _ & _ & Hn). rewrite <- Hn. exact Ht. }
    rewrite Hn in Hx. exact Hx.
Defined.

(** ** A main that does not wait *)
(** What no event of the threads undoes or writes. *)
Definition sealed (s s' : Sim) : Prop :=
  extends (sim_vSink s) (sim_vSink s') /\
  (stopped (svc (sim_pipe s)) = true -> stopped (svc (sim_pipe s')) = true /\ sim_fileSink s' = sim_fileSink s).
#[export] Instance sealed_preorder : PreOrder sealed.
Proof.
  split; [intros s; split; [done|by intros H]|]. intros s1 s2 s3 [H1 H2] [H3 H4]. split; [by etrans|].
  intros H. destruct (H2 H) as [H5 <-]. by apply H4.
Qed.

Section late.
Context (range : list SBatch -> list (Z * Z)).

Lemma sealed_route now env s s' : sim_route now env s = Some s' -> sealed s s'.
Proof.
  unfold sim_route. case_bool_decide as Hc.
  - unfold TryIngest, svc_Ingest. rewrite bool_decide_true by done. cbn [negb].
    destruct (_ <? _) eqn:Hlt; [by intros [= <-]|]. rewrite Hlt.
    destruct (stopped (svc (sim_pipe s))) eqn:Hst; [done|]. destruct (receive now _) as [v|]; [|done]. cbn. intros [= <-].
    split; [done|]. by rewrite Hst.
  - destruct (Route _ _) as [r act]. intros [= <-]. split; [apply (vop_extends _ (VAppend now env))|done].
Qed.

Lemma sealed_step x s s' : sim_step range x s = Some s' -> sealed s s'.
Proof.
  destruct x as [now d|now q|now|now]; cbn [sim_step].
  - unfold generate. destruct (request_envelope _ _); [|by intros [= <-]]. intros H%sealed_route. exact H.
  - unfold sim_consume. destruct (request_envelope _ _) as [env|]; [|by intros [= <-]].
    destruct (sim_route now env s) as [s1|] eqn:Hr; [|done]. cbn. intros [= <-]. by eapply sealed_route.
  - unfold sim_receive, in_loop. destruct (stopped _) eqn:Hst.
    + cbn. intros [= <-]. split; [done|]. cbn. by rewrite Hst.
    + destruct (receive now _) as [v|]; [|done]. cbn. intros [= <-]. split; [done|]. by rewrite Hst.
  - unfold sim_tick. destruct (stopped _) eqn:Hst; [by intros [= <-]|]. intros H. split; [|by rewrite Hst].
    revert H. unfold sim_flush. destruct (FlushAll _) as [a [|b bs]]; [by intros [= <-]|].
    destruct (metricVSA_Compress range (counts (set_svc (set_acc a (svc (sim_pipe s))) s)) (b :: bs)) as [[c [|b' bs']]|];
      [by intros [= <-]..|done].
Qed.

(** What the logs hold once the service has stopped: nothing more comes, but the last flush of the S log. *)
Definition settled_logs (p : SimProcess) : Prop :=
  match main_at p with
  | Watching | Pausing => True
  | VSinkClosed => closed (sim_vSink (sim p)) = true
  | ServiceStopped | Exited => closed (sim_vSink (sim p)) = true /\ stopped (svc (sim_pipe (sim p))) = true
  end.
Definition final_logs (p : SimProcess) : text * text :=
  (disk (match main_at p with Exited => sim_fileSink (sim p) | _ => sink_Close (sim_fileSink (sim p)) end), disk (sim_vSink (sim p))).

Lemma sealed_logs s p : settled_logs p -> sealed (sim p) s ->
  forall g, settled_logs (mkSimProcess s g (stop p) (main_at p)) /\
    (main_at p = ServiceStopped -> final_logs (mkSimProcess s g (stop p) (main_at p)) = final_logs p).
Proof.
  intros Hl [Hv Hs] g. unfold settled_logs, final_logs in *. cbn [main_at sim].
  destruct (main_at p); try done.
  - split; [by apply (proj2 Hv)|done].
  - destruct Hl as [Hl Hst]. destruct (proj2 Hv Hl) as [H1 H2], (Hs Hst) as [H3 H4]. split; [done|]. intros _. by rewrite H2, H4.
  - destruct Hl as [Hl Hst]. by destruct (proj2 Hv Hl) as [H1 H2], (Hs Hst) as [H3 H4].
Qed.

Lemma stop_vSink now s s' : sim_Stop range now s = Some s' -> sim_vSink s' = sim_vSink s.
Proof.
  unfold sim_Stop. destruct (stopped _); [done|]. destruct (drain now _) as [v|]; [|done]. cbn [mbind option_bind].
  unfold sim_flush. cbn [sim_pipe set_svc svc]. destruct (FlushAll _) as [a [|b bs]]; [by intros [= <-]|].
  cbn [counts set_svc]. destruct (metricVSA_Compress range (counts s) (b :: bs)) as [[c [|b' bs']]|]; [by intros [= <-]..|done].
Qed.

Definition late (p : SimProcess) : Prop := main_at p = ServiceStopped \/ main_at p = Exited.

(** A step of a thread other than [main]. *)
Lemma thread_logs p s g : settled_logs p -> sealed (sim p) s ->
  let q := mkSimProcess s g (stop p) (main_at p) in
  main_at p <> Exited -> settled_logs q /\ (late p -> late q /\ final_logs q = final_logs p).
Proof.
  intros Hl Hs q Hx. destruct (sealed_logs s p Hl Hs g) as [H1 H2]. split; [done|].
  intros [Hm|Hm]; [|done]. split; [by left|by apply H2].
Qed.

Lemma blocked_logs c g x r p p' : settled_logs p -> main_at p <> Exited -> or_blocked c x r p = Some p' ->
  (forall q, r = Some q -> exists s, sealed (sim p) s /\ q = mkSimProcess s g (stop p) (main_at p)) ->
  settled_logs p' /\ (late p -> late p' /\ final_logs p' = final_logs p).
Proof.
  intros Hl Hx Hr Hq. unfold or_blocked in Hr. destruct r as [q|].
  - injection Hr as <-. destruct (Hq q eq_refl) as (s & Hs & ->). by apply thread_logs.
  - destruct (stopped _) eqn:Hsp; [|done]. injection Hr as <-. apply thread_logs; [done| |done]. by split.
Qed.

Lemma late_step e p p' : settled_logs p -> proc_step range e p = Some p' ->
  settled_logs p' /\ (late p -> late p' /\ final_logs p' = final_logs p).
Proof.
  intros Hl. unfold proc_step. case_decide as Hx; [by intros [= <-]|].
  assert (Hid : forall g, settled_logs (set_gen g p) /\ (late p -> late (set_gen g p) /\ final_logs (set_gen g p) = final_logs p)).
  { intros g. by apply (thread_logs p (sim p) g). }
  assert (Hsim : forall x g q, (s ← sim_step range x (sim p); Some (mkSimProcess s g (stop p) (main_at p))) = Some q ->
    exists s, sealed (sim p) s /\ q = mkSimProcess s g (stop p) (main_at p)).
  { intros x g q. destruct (sim_step range x (sim p)) as [s|] eqn:Hs; [|done]. cbn. intros [= <-].
    exists s. split; [by eapply sealed_step|done]. }
  destruct e as [| | |now d|now q|now|now| | |now]; unfold thread_step.
  1-3: unfold generator_step; intros Hst; repeat case_match; simplify_eq; by apply Hid || done.
  - unfold generator_step. destruct (generator p) as [|k|k| |]; try (by intros [= <-]).
    intros Hst. eapply blocked_logs; [done..|]. apply Hsim.
  - intros Hst. eapply blocked_logs; [done..|]. apply Hsim.
  - intros Hst. destruct (Hsim _ (generator p) p' Hst) as (s & Hs & ->). by apply thread_logs.
  - intros Hst. destruct (Hsim _ (generator p) p' Hst) as (s & Hs & ->). by apply thread_logs.
  - unfold sim_main_step, late. destruct (main_at p) eqn:Hm; intros [= <-]; rewrite ?Hm; split; try done; by intros [?|?].
  - unfold sim_main_step, late. destruct (main_at p) eqn:Hm; try case_match; intros [= <-]; rewrite ?Hm; split; try done; by intros [?|?].
  - unfold sim_main_step, late, settled_logs in *. destruct (main_at p) eqn:Hm; try done.
    + intros [= <-]. rewrite Hm. split; [done|]. by intros [?|?].
    + intros [= <-]. split; [done|]. by intros [?|?].
    + destruct (sim_Stop range now (sim p)) as [s|] eqn:Hs; [|done]. cbn. intros [= <-]. cbn.
      rewrite (stop_vSink _ _ _ Hs). apply stop_facts in Hs as [_ Hs]. split; [done|]. by intros [?|?].
    + intros [= <-]. split; [done|]. intros _. split; [by right|]. unfold final_logs. by rewrite Hm.
Qed.
End late.

(** C36: what is generated or consumed late is in no log.  [main] waits for neither the
    generator nor the handlers (closing [stop] does not interrupt a burst, and the HTTP
    server is never shut down): in any interleaving from any start, once the service has
    stopped no event of any thread changes what the two logs will hold at the exit.  An
    operation may still be accepted and counted by then, as in the run of the witness. *)
Theorem late_turns_are_lost range f s_log v_log os_s os_v t0 es es' p0 p p' :
  sim_main_start range f s_log v_log os_s os_v t0 = Some p0 ->
  proc_run range es p0 = Some p -> main_at p = ServiceStopped ->
  proc_run range es' p = Some p' -> main_at p' = Exited ->
  disk (sim_fileSink (sim p')) = disk (sink_Close (sim_fileSink (sim p))) /\
  disk (sim_vSink (sim p')) = disk (sim_vSink (sim p)).
Proof.
  intros H0 Hrun Hm Hrun' Hm'.
  assert (Hkeep : forall es q q', settled_logs q -> proc_run range es q = Some q' ->
    settled_logs q' /\ (late q -> late q' /\ final_logs q' = final_logs q)).
  { clear. induction es as [|e es IH]; intros q q' Hq; cbn [proc_run]; [by intros [= <-]|].
    destruct (proc_step range e q) as [q1|] eqn:Hst; [|done]. cbn [mbind option_bind]. intros Hr.
    destruct (late_step range e q q1 Hq Hst) as [Hq1 Hl1]. destruct (IH q1 q' Hq1 Hr) as [Hq' Hl']. split; [done|].
    intros Hl. destruct (Hl1 Hl) as [Hl2 <-]. by apply Hl'. }
  assert (Hs0 : settled_logs p0).
  { unfold sim_main_start in H0. destruct (sim_start _ _ _ _ _ _ _); [|done]. cbn in H0. by injection H0 as <-. }
  destruct (Hkeep es p0 p Hs0 Hrun) as [Hs _]. destruct (Hkeep es' p p' Hs Hrun') as [_ Hl].
  destruct Hl as [_ Hl]; [by left|]. unfold final_logs in Hl. rewrite Hm, Hm' in Hl. by injection Hl as -> ->.
Qed.

(** The timer fires in the middle of a burst: one S and one V operation come
    after the deferred calls of their lanes, are counted and are in no log. *)
Definition late_events : list ProcEvent := [GBegin; GTick; MTimer; MNext 5; MNext 6].
Definition late_turns : list ProcEvent := [GTurn 7 (mkDraw 3 5 (1 # 4)); GTurn 8 (mkDraw 3 6 (3 # 4)); LReceive 9; MNext 10].

Lemma late_turns_counted :
  ends (sim_main_start map_order demo_main_flags (Some []) (Some []) [] [] 0) (late_events ++ late_turns) =
    Some (Exited, 2, 1, 1, true).
Proof. vm_compute. reflexivity. Qed.

Lemma late_turns_stopped :
  (ends (sim_main_start map_order demo_main_flags (Some []) (Some []) [] [] 0) late_events ≫= fun r => Some r.1.1.1.1) =
    Some ServiceStopped.
Proof. vm_compute. reflexivity. Qed.

Lemma ends_split start es es' m m' t a b c :
  (ends start es ≫= fun r => Some r.1.1.1.1) = Some m -> ends start (es ++ es') = Some (m', t, a, b, c) ->
  exists p0 p p', start = Some p0 /\ proc_run map_order es p0 = Some p /\ proc_run map_order es' p = Some p' /\
    main_at p = m /\ main_at p' = m' /\ totalOps (counts (sim p')) = t /\ sOps (counts (sim p')) = a /\ vOps (counts (sim p')) = b.
Proof.
  unfold ends. destruct start as [p0|]; [|done]. cbn [mbind option_bind]. rewrite proc_run_app.
  destruct (proc_run map_order es p0) as [p|] eqn:H1; [|done]. cbn [mbind option_bind fst].
  destruct (proc_run map_order es' p) as [p'|] eqn:H2; [|done]. cbn [mbind option_bind].
  intros [= <-] [= <- <- <- <- _]. by exists p0, p, p'.
Qed.

Lemma late_turns_are_lost_witness :
  exists p0 p p', sim_main_start map_order demo_main_flags (Some []) (Some []) [] [] 0 = Some p0 /\
    proc_run map_order late_events p0 = Some p /\ proc_run map_order late_turns p = Some p' /\
    totalOps (counts (sim p')) = 2 /\ sOps (counts (sim p')) = 1 /\ vOps (counts (sim p')) = 1 /\
    disk (sim_fileSink (sim p')) = disk (sink_Close (sim_fileSink (sim p))) /\
    disk (sim_vSink (sim p')) = disk (sim_vSink (sim p)).
Proof.
  destruct (ends_split _ late_events late_turns _ _ _ _ _ _ late_turns_stopped late_turns_counted)
    as (p0 & p & p' & H0 & H1 & H2 & Hm & Hm' & Ht & Hs & Hv).
  exists p0, p, p'. do 6 (split; [assumption|]).
  exact (late_turns_are_lost map_order demo_main_flags (Some []) (Some []) [] [] 0 late_events late_turns p0 p p' H0 H1 Hm H2 Hm').
Defined.
