(* ===== verification/Loadgen.v ===== *)
(** * The HTTP load generator ([tools/http-loadgen/main.go])

    Its flags, the split of the requests over the workers, the key of each
    request and its URL.  A worker is a function of when the run's context ends;
    the responses change what it waits, not what it sends ([worker_actions_requests]).  What is proved: without a timeout
    exactly [-n] requests are sent; the skew; which cold keys are ever used; and
    that the reported throughput is not that of the requests sent. *)
From Stdlib Require Import Ascii QArith.
From S2P Require Import Prelude Json.

Inductive modeType := modeSingle | modeZipf | modeRelease.
#[export] Instance modeType_eq_dec : EqDecision modeType.
Proof. solve_decision. Defined.

Record LoadFlags := mkLoadFlags {
  base : text; path : text; param : text; modeS : text; key : text; hotKey : text;
  coldN : Z; N : Z; conc : Z; hotEvery : Z; timeout : Z
}.
Definition default_load : LoadFlags :=
  mkLoadFlags (txt "http://127.0.0.1:8080") (txt "/check") (txt "api_key") (txt "single") (txt "alice-key") (txt "hot-1")
    50 5000 8 5 20000000000.

(** [strings.ToLower] on ASCII; the conversion [modeType(...)] accepts any string. *)
Definition lower (a : ascii) : ascii :=
  let n := N_of_ascii a in if ((65 <=? n) && (n <=? 90))%N then ascii_of_N (n + 32) else a.
Definition mode_of (s : text) : option modeType :=
  let l := map lower s in
  if bool_decide (l = txt "single") then Some modeSingle
  else if bool_decide (l = txt "zipf") then Some modeZipf
  else if bool_decide (l = txt "release") then Some modeRelease
  else None.

Definition set_hotEvery (h : Z) (f : LoadFlags) : LoadFlags :=
  mkLoadFlags (base f) (path f) (param f) (modeS f) (key f) (hotKey f) (coldN f) (N f) (conc f) h (timeout f).

(** The checks of [main]; the error is the exit status. *)
Definition validate (f : LoadFlags) : (modeType * LoadFlags) + Z :=
  match mode_of (modeS f) with
  | Some modeSingle => if (N f <=? 0) || (conc f <=? 0) then inr 2 else inl (modeSingle, f)
  | Some modeZipf =>
      if (N f <=? 0) || (conc f <=? 0) then inr 2
      else if coldN f <=? 0 then inr 2
      else inl (modeZipf, if hotEvery f <? 2 then set_hotEvery 2 f else f)
  | _ => inr 2
  end.

(** [strings.TrimRight(s, "/")] *)
Fixpoint trim_slashes (s : text) : text :=
  match s with
  | [] => []
  | a :: s => match trim_slashes s with [] => if bool_decide (a = "/"%char) then [] else [a] | t => a :: t end
  end.
Definition full_path (f : LoadFlags) : text :=
  trim_slashes (base f) ++ match path f with "/"%char :: _ => path f | p => "/"%char :: p end.

(** [url.QueryEscape] *)
Definition hex_digit (n : BinNums.N) : ascii := ascii_of_N (if (n <? 10)%N then 48 + n else 55 + n).
Definition unreserved (a : ascii) : bool :=
  let n := N_of_ascii a in
  ((48 <=? n) && (n <=? 57) || (65 <=? n) && (n <=? 90) || (97 <=? n) && (n <=? 122) ||
   (n =? 45) || (n =? 46) || (n =? 95) || (n =? 126))%N.
Definition escape_char (a : ascii) : text :=
  if unreserved a then [a]
  else if bool_decide (a = " "%char) then ["+"%char]
  else let n := N_of_ascii a in ["%"%char; hex_digit (n / 16); hex_digit (n mod 16)].
Definition query_escape (s : text) : text := s ≫= escape_char.

(** The key of request [i] of worker [id]. *)
Definition request_key (m : modeType) (f : LoadFlags) (id i : Z) : text :=
  match m with
  | modeSingle | modeRelease => key f
  | modeZipf =>
      if negb (Z.rem (i + id) (hotEvery f) =? 0) then hotKey f
      else txt "cold-" ++ num_text (Z.rem (i + id) (coldN f) + 1)
  end.

Inductive method := GET | POST.
Definition request_method (m : modeType) : method := match m with modeRelease => POST | _ => GET end.
Definition request_url (f : LoadFlags) (k : text) : text :=
  full_path f ++ "?"%char :: query_escape (param f) ++ "="%char :: query_escape k.

(** [worker(id, count)]: [ended i] says whether the context has ended before
    request [i].  The requests it sends. *)
Fixpoint worker_from (m : modeType) (f : LoadFlags) (ended : Z -> bool) (id i : Z) (count : nat) : list (method * text) :=
  match count with
  | O => []
  | S n =>
      if ended i then []
      else (request_method m, request_url f (request_key m f id i)) :: worker_from m f ended id (i + 1) n
  end.
Definition worker (m : modeType) (f : LoadFlags) (ended : Z -> bool) (id count : Z) : list (method * text) :=
  worker_from m f ended id 0 (Z.to_nat count).

(** What a worker does with the answers: [failed i] says whether request [i] got
    none.  A failure makes it wait, in nanoseconds. *)
Inductive WorkerAction := Do (r : method * text) | DrainAndClose | Sleep (d : Z).
Fixpoint worker_actions (m : modeType) (f : LoadFlags) (ended failed : Z -> bool) (id i : Z) (count : nat) : list WorkerAction :=
  match count with
  | O => []
  | S n =>
      if ended i then []
      else Do (request_method m, request_url f (request_key m f id i)) ::
        (if failed i then Sleep 200000 else DrainAndClose) :: worker_actions m f ended failed id (i + 1) n
  end.
(** [defer atomic.AddInt64(&done, int64(count))]: the whole share, sent or not. *)
Definition worker_done (count done : Z) : Z := done + count.

Lemma worker_actions_requests m f ended failed id i n :
  omap (fun a => match a with Do r => Some r | _ => None end) (worker_actions m f ended failed id i n) =
    worker_from m f ended id i n.
Proof.
  revert i. induction n as [|n IH]; intros i; [done|]. cbn [worker_actions worker_from].
  destruct (ended i); [done|]. cbn. by destruct (failed i); cbn; rewrite IH.
Qed.

(** [Split N across conc workers] *)
Definition worker_count (f : LoadFlags) (w : Z) : Z :=
  let per := Z.quot (N f) (conc f) in
  let rem := N f - per * conc f in
  if w =? conc f - 1 then per + rem else per.
Definition workers (f : LoadFlags) : list Z := map Z.of_nat (seq 0 (Z.to_nat (conc f))).

(** All the requests of a run, worker by worker; the exit status on bad flags. *)
Definition load_run (f : LoadFlags) (ended : Z -> Z -> bool) : list (method * text) + Z :=
  match validate f with
  | inr e => inr e
  | inl (m, f) => inl (workers f ≫= fun w => worker m f (ended w) w (worker_count f w))
  end.

(** The throughput printed, per second, for an elapsed time in nanoseconds. *)
Definition reported_ops (f : LoadFlags) (elapsed : Z) : Q :=
  let elapsed := if elapsed <=? 0 then 1000000 else elapsed in
  inject_Z (N f) / (inject_Z elapsed / inject_Z 1000000000).

(** ** The split *)
Lemma counts_sum f : 0 < N f -> 0 < conc f ->
  Zsum (map (worker_count f) (workers f)) = N f /\ Forall (fun w => 0 <= worker_count f w) (workers f).
Proof.
  intros HN Hc. set (per := Z.quot (N f) (conc f)).
  assert (Hq : 0 <= per /\ 0 <= N f - per * conc f).
  { unfold per. rewrite Z.quot_div_nonneg by lia. pose proof (Z.mul_div_le (N f) (conc f) Hc).
    pose proof (Z.div_pos (N f) (conc f)). lia. }
  assert (Hpart : forall n, (n < Z.to_nat (conc f))%nat ->
    Zsum (map (worker_count f) (map Z.of_nat (seq 0 n))) = Z.of_nat n * per).
  { induction n as [|n IH]; intros Hn; [done|].
    rewrite seq_S, !map_app, Zsum_app, IH by lia. cbn. rewrite Zsum_cons, Zsum_nil. unfold worker_count. fold per.
    destruct (Z.eqb_spec (Z.of_nat n) (conc f - 1)); lia. }
  split.
  - unfold workers. destruct (Z.to_nat (conc f)) as [|n] eqn:Hn; [lia|].
    rewrite seq_S, !map_app, Zsum_app, Hpart by lia. cbn. rewrite Zsum_cons, Zsum_nil. unfold worker_count. fold per.
    rewrite (proj2 (Z.eqb_eq (Z.of_nat n) (conc f - 1))) by lia. lia.
  - apply list.Forall_forall. intros w _. unfold worker_count. fold per. destruct (w =? conc f - 1); lia.
Qed.

Lemma worker_length m f id i n : length (worker_from m f (fun _ => false) id i n) = n.
Proof. revert i. induction n as [|n IH]; intros i; [done|]. cbn. by rewrite IH. Qed.

Lemma bind_length {A} (g : Z -> list A) (h : Z -> Z) l : Forall (fun w => Z.of_nat (length (g w)) = h w) l ->
  Z.of_nat (length (l ≫= g)) = Zsum (map h l).
Proof.
  induction 1 as [|w l Hw Hl IH]; [done|]. cbn [mbind list_bind map]. rewrite length_app, Zsum_cons. lia.
Qed.

Lemma bind_length_le {A} (g : Z -> list A) (h : Z -> Z) l : Forall (fun w => Z.of_nat (length (g w)) <= h w) l ->
  Z.of_nat (length (l ≫= g)) <= Zsum (map h l).
Proof.
  induction 1 as [|w l Hw Hl IH]; [done|]. cbn [mbind list_bind map]. rewrite length_app, Zsum_cons. lia.
Qed.

Lemma worker_length_le m f ended id i n : (length (worker_from m f ended id i n) <= n)%nat.
Proof.
  revert i. induction n as [|n IH]; intros i; cbn; [done|]. destruct (ended i); cbn; [lia|]. specialize (IH (i + 1)). lia.
Qed.

Lemma validate_ok f m g : validate f = inl (m, g) -> 0 < N g /\ 0 < conc g /\ N g = N f /\ conc g = conc f /\
  m <> modeRelease /\ (m = modeZipf -> 0 < coldN g /\ 2 <= hotEvery g).
Proof.
  unfold validate. destruct (mode_of (modeS f)) as [[]|]; try done.
  - destruct (Z.leb_spec (N f) 0), (Z.leb_spec (conc f) 0); try done. intros [= <- <-]. by split_and!.
  - destruct (Z.leb_spec (N f) 0), (Z.leb_spec (conc f) 0); try done. cbn [orb].
    destruct (Z.leb_spec (coldN f) 0); [done|]. intros [= <- <-]. destruct (Z.ltb_spec (hotEvery f) 2); cbn; by split_and!.
Qed.

Lemma worker_methods m f ended id i n : m <> modeRelease -> Forall (fun r => r.1 = GET) (worker_from m f ended id i n).
Proof.
  intros Hm. revert i. induction n as [|n IH]; intros i; cbn; [constructor|]. destruct (ended i); [constructor|].
  constructor; [by destruct m|apply IH].
Qed.

(** With flags that pass the checks and no timeout, the workers' shares are not negative and add up to [-n]: exactly [-n] requests are sent; with a timeout no more than that; and every one is a GET, the release mode being refused by the checks. *)
Theorem loadgen_sends_n f m g ended :
  validate f = inl (m, g) ->
  (exists reqs, load_run f (fun _ _ => false) = inl reqs /\ Z.of_nat (length reqs) = N f) /\
  (exists reqs, load_run f ended = inl reqs /\ Z.of_nat (length reqs) <= N f /\ Forall (fun r => r.1 = GET) reqs).
Proof.
  intros Hv. unfold load_run. rewrite Hv. destruct (validate_ok f m g Hv) as (HN & Hc & HNf & _ & Hm & _).
  destruct (counts_sum g HN Hc) as [Hsum Hpos]. rewrite HNf in Hsum. split; (eexists; split; [done|]).
  - rewrite <- Hsum. apply bind_length. eapply list.Forall_impl; [exact Hpos|]. intros w Hw. cbn. unfold worker.
    by rewrite worker_length, Z2Nat.id.
  - split.
    + rewrite <- Hsum. apply bind_length_le. eapply list.Forall_impl; [exact Hpos|]. intros w Hw. cbn in Hw.
      pose proof (worker_length_le m g (ended w) w 0 (Z.to_nat (worker_count g w))). unfold worker. lia.
    + clear Hsum Hpos. induction (workers g) as [|w l IH]; [constructor|]. cbn. apply list.Forall_app. split; [|done].
      by apply worker_methods.
Qed.

(** In zipf mode not every cold key is used: the number of a cold key is 1 modulo the greatest common divisor of [-cold_keys] and [-hot_every], so at most [cold_keys / gcd] of them ever get a request (10 of 50 with the defaults). *)
Theorem cold_keys_used f m g id i :
  validate f = inl (m, g) -> m = modeZipf -> 0 <= id -> 0 <= i ->
  request_key m g id i = hotKey g \/
  exists j, 0 <= j < coldN g / Z.gcd (coldN g) (hotEvery g) /\
    request_key m g id i = txt "cold-" ++ num_text (j * Z.gcd (coldN g) (hotEvery g) + 1).
Proof.
  intros Hv -> Hid Hi. destruct (validate_ok f modeZipf g Hv) as (_ & _ & _ & _ & _ & Hz). destruct (Hz eq_refl) as [Hcold Hhot].
  unfold request_key. destruct (Z.eqb_spec (Z.rem (i + id) (hotEvery g)) 0) as [E|E]; cbn [negb]; [right|by left].
  rewrite Z.rem_mod_nonneg in * by lia. set (d := Z.gcd (coldN g) (hotEvery g)).
  assert (Hd : 0 < d) by (pose proof (Z.gcd_nonneg (coldN g) (hotEvery g)); assert (d <> 0) by (unfold d; rewrite Z.gcd_eq_0; lia); unfold d in *; lia).
  assert (Hdc : (d | coldN g)) by apply Z.gcd_divide_l. assert (Hdh : (d | hotEvery g)) by apply Z.gcd_divide_r.
  assert (Hs : (d | i + id)) by (eapply Z.divide_trans; [exact Hdh|]; apply Z.mod_divide; [lia|done]).
  assert (Hm : (d | (i + id) mod coldN g)).
  { rewrite Z.mod_eq by lia. apply Z.divide_sub_r; [done|]. by apply Z.divide_mul_l. }
  destruct Hm as [j Hj]. exists j. pose proof (Z.mod_pos_bound (i + id) (coldN g) Hcold) as Hb. split; [|by rewrite Hj].
  destruct Hdc as [c Hc]. rewrite Hc, Z.div_mul by lia. rewrite Hj in Hb. rewrite Hc in Hb. nia.
Qed.

Definition demo_load : LoadFlags := set_hotEvery 1
  (mkLoadFlags (txt "http://h//") (txt "check") (txt "api key") (txt "ZIPF") (txt "k") (txt "hot") 6 7 3 5 1).

Lemma loadgen_sends_n_witness :
  (exists reqs, load_run demo_load (fun _ _ => false) = inl reqs /\ Z.of_nat (length reqs) = 7) /\
  (exists reqs, load_run demo_load (fun w i => i =? w) = inl reqs /\ Z.of_nat (length reqs) <= 7 /\
    Forall (fun r => r.1 = GET) reqs).
Proof. exact (loadgen_sends_n demo_load modeZipf (set_hotEvery 2 demo_load) (fun w i => i =? w) eq_refl). Defined.

Lemma cold_keys_used_witness :
  request_key modeZipf (set_hotEvery 2 demo_load) 1 3 = hotKey (set_hotEvery 2 demo_load) \/
  exists j, 0 <= j < 3 /\ request_key modeZipf (set_hotEvery 2 demo_load) 1 3 = txt "cold-" ++ num_text (j * 2 + 1).
Proof. refine (cold_keys_used demo_load modeZipf (set_hotEvery 2 demo_load) 1 3 eq_refl eq_refl _ _); discriminate. Defined.

Example demo_urls : load_run demo_load (fun w i => i =? 1) = inl
  (map (fun k => (GET, txt ("http://h/check?api+key=" ++ k)%string)) ["cold-1"; "hot"; "cold-3"]%string).
Proof. vm_compute. reflexivity. Qed.

(** A run whose context has ended sends nothing, and reports [-n] requests. *)
Example timed_out_run_reports_n :
  load_run default_load (fun _ _ => true) = inl [] /\ (reported_ops default_load 20000000000 == 250)%Q.
Proof. split; [vm_compute; reflexivity|]. vm_compute. reflexivity. Qed.
