(* ===== verification/ApiMain.v ===== *)
(** * The rate limiter's command ([cmd/ratelimiter-api/main.go]) and its summary

    Flags, the wiring of the components, the order of the shutdown, and the
    summary [PrintFinalMetrics] of the mock backend ([core/persistence.go]).  The
    text of a floating-point number is an argument ([fmt_g], [fmt_pct]). *)
From Stdlib Require Import Ascii QArith.
From stdpp Require Import pretty sorting.
From S2P Require Import Prelude Effects Vsa Counter Store CoreMetrics Worker Api Service Churn Kafka.

(** ** Flags *)
Record ApiFlags := mkApiFlags {
  rate_limit : Z; commit_threshold : Z; commit_low_watermark : Z; commit_interval : Z; commit_max_age : Z;
  eviction_age : Z; eviction_interval : Z; http_addr : string;
  persistence_adapter : string; kafka_topic : string; redis_marker_ttl : Z; redis_addr : string;
  vsa_stripes : Z; vsa_cheap_update_chooser : bool; vsa_per_p_update_chooser : bool; vsa_use_cached_gate : bool;
  vsa_cache_interval : Z; vsa_cache_slack : Z; vsa_group_count : Z; vsa_group_slack : Z;
  vsa_fast_path_guard : Z; vsa_hierarchical_groups : Z;
  churn_metrics : bool; metrics_addr : string; churn_sample : Q; churn_log_interval : Z; churn_top_n : Z;
  churn_key_hash_len : Z
}.
Definition us : Z := 1000.
Definition ms : Z := 1000000.
Definition sec : Z := 1000000000.
Definition default_api_flags : ApiFlags :=
  mkApiFlags 1000 50 0 (100 * ms) 0 (3600 * sec) (600 * sec) ":8080"
    "mock" "vsa-commits" (24 * 3600 * sec) ""
    0 false false false (100 * us) 0 0 0 0 0
    false "" 1 (15 * sec) 50 8.

(** ** [time.Duration.String] *)
Fixpoint digits (n : nat) (v : Z) : string :=   (* the last [n] digits *)
  match n with
  | O => ""
  | S n => digits n (v / 10) +:+ pretty (v mod 10)
  end.
Fixpoint trim_zeros (n : nat) (v : Z) : string :=
  match n with
  | O => ""
  | S n' => if v mod 10 =? 0 then trim_zeros n' (v / 10) else digits n v
  end.
(** [fmtFrac]: the fraction [v / 10^prec] without trailing zeros. *)
Definition fmt_frac (v : Z) (prec : nat) : string :=
  let f := trim_zeros prec (v mod 10 ^ Z.of_nat prec) in
  if bool_decide (f = "") then "" else "." +:+ f.
Definition duration_String (d : Z) : string :=
  let u := Z.abs d in
  let sign := if d <? 0 then "-" else "" in
  if u =? 0 then "0s"
  else if u <? us then sign +:+ pretty u +:+ "ns"
  else if u <? ms then sign +:+ pretty (u / us) +:+ fmt_frac u 3 +:+ "µs"
  else if u <? sec then sign +:+ pretty (u / ms) +:+ fmt_frac u 6 +:+ "ms"
  else
    let s := u / sec in
    let m := s / 60 in
    let h := m / 60 in
    sign +:+ (if h >? 0 then pretty h +:+ "h" else "") +:+ (if m >? 0 then pretty (m mod 60) +:+ "m" else "") +:+
    pretty (s mod 60) +:+ fmt_frac u 9 +:+ "s".

Section formats.
Context (fmt_g : Q -> string) (fmt_pct : Q -> string).

Definition SetThresholdDuration (name : string) (d : Z) : Metrics -> Metrics := SetThreshold name (duration_String d).
Definition SetThresholdFloat64 (name : string) (f : Q) : Metrics -> Metrics := SetThreshold name (fmt_g f).

(** [Capture thresholds/configuration for final metrics printing] *)
Definition capture_thresholds (f : ApiFlags) (m : Metrics) : Metrics :=
  let m := SetThresholdInt64 "rate_limit" (rate_limit f) m in
  let m := SetThresholdInt64 "commit_threshold" (commit_threshold f) m in
  let m := SetThresholdInt64 "commit_low_watermark" (commit_low_watermark f) m in
  let m := SetThresholdDuration "commit_interval" (commit_interval f) m in
  let m := SetThresholdDuration "commit_max_age" (commit_max_age f) m in
  let m := SetThresholdDuration "eviction_age" (eviction_age f) m in
  let m := SetThresholdDuration "eviction_interval" (eviction_interval f) m in
  let m := SetThreshold "http_addr" (http_addr f) m in
  let m := SetThresholdBool "churn_metrics" (churn_metrics f) m in
  let m := SetThreshold "metrics_addr" (metrics_addr f) m in
  let m := SetThresholdFloat64 "churn_sample" (churn_sample f) m in
  let m := SetThresholdDuration "churn_log_interval" (churn_log_interval f) m in
  let m := SetThresholdInt64 "churn_top_n" (churn_top_n f) m in
  SetThresholdInt64 "churn_key_hash_len" (churn_key_hash_len f) m.

(** ** Wiring *)
Definition vsa_options (f : ApiFlags) : Vsa.Options :=
  Vsa.mkOptions (vsa_stripes f) (vsa_cheap_update_chooser f) (vsa_per_p_update_chooser f) (vsa_use_cached_gate f)
    (vsa_cache_interval f) (vsa_cache_slack f) (vsa_group_count f) (vsa_group_slack f) (vsa_fast_path_guard f)
    (vsa_hierarchical_groups f).

Record Wiring := mkWiring {
  w_metrics : Metrics;
  w_churn : Churn.Config;
  w_persister : Built;
  w_options : Vsa.Options;
  w_limit : Z;               (* of the store *)
  w_worker : Worker;
  w_server : Server
}.

(** What [main]'s goroutine comes to: it waits for the signal, the worker's loops and
    the server started, or it has ended the process. *)
Inductive Start :=
| Serving (w : Wiring)
| Fatal (message : string).   (* [log.Fatalf] *)

(** What the goroutines [worker.Start] has started do first, at any moment from then
    on: each makes its ticker, and [time.NewTicker] panics on an interval that is not
    positive ([None]).  The panic ends the process whatever the server is doing. *)
Inductive WorkerLoop := CommitLoop | EvictionLoop.
Definition loop_ticker (w : Worker) (l : WorkerLoop) : option Z :=
  let d := match l with CommitLoop => commitInterval w | EvictionLoop => evictionInterval w end in
  if d >? 0 then Some d else None.

Definition main_start (f : ApiFlags) : Start :=
  let m := capture_thresholds f no_metrics in
  let ch := Churn.mkConfig (churn_metrics f) (churn_sample f) (metrics_addr f) (churn_log_interval f) 0
              (churn_top_n f) (churn_key_hash_len f) in
  match BuildPersister (persistence_adapter f) (mkDemoOptions (redis_marker_ttl f) (redis_addr f) (kafka_topic f)) with
  | inr e => Fatal ("failed to build persister (adapter=" +:+ persistence_adapter f +:+ "): " +:+ e)
  | inl p =>
      let wk := mkWorker (commit_threshold f) (commit_low_watermark f) (commit_interval f) (commit_max_age f)
                  (eviction_age f) (eviction_interval f) in
      Serving (mkWiring m ch p (vsa_options f) (rate_limit f) wk (mkServer (rate_limit f)))
  end.

(** ** [mockPersister.PrintFinalMetrics] *)
(** Widths count characters: the bytes that do not continue one. *)
Definition char_count (s : string) : nat :=
  length (filter (fun a => negb ((128 <=? N_of_ascii a) && (N_of_ascii a <? 192))%N = true) (String.list_ascii_of_string s)).
Definition padding (n : nat) (s : string) : string :=
  String.string_of_list_ascii (replicate (n - char_count s) " "%char).
Definition pad_left (n : nat) (s : string) : string := padding n s +:+ s.
Definition pad_right (n : nat) (s : string) : string := s +:+ padding n s.
Definition sep : string := String.string_of_list_ascii (replicate 60 "-"%char).
Definition line18 (name value : string) : string := pad_right 18 name +:+ " " +:+ pad_left 12 value.
Definition line30 (name value : string) : string := pad_right 30 name +:+ " " +:+ pad_left 24 value.
Definition escape : string := String "027"%char "".

(** The share of the events that were not written. *)
Definition write_reduction (p : mockPersister) (m : Metrics) : option Q :=
  let events := final_events m in
  if events >? 0 then
    let wr := (1 - inject_Z (totalWrites p) / inject_Z events)%Q in
    Some (if negb (Qle_bool 0 wr) then 0%Q else if negb (Qle_bool wr 1) then 1%Q else wr)
  else None.

Definition string_le (a b : string) : Prop := String.leb a b = true.
#[export] Instance string_le_dec a b : Decision (string_le a b).
Proof. unfold string_le. apply _. Defined.

(** [now] is the time in RFC 3339. *)
Definition PrintFinalMetrics (now : string) (p : mockPersister) (m : Metrics) : list string :=
  let '(attemptedN, admitsN, refundsN) := getEventTotals m in
  let th := getThresholdSnapshot m in
  let keys := merge_sort string_le (map_to_list th).*1 in
  let wrPctStr := match write_reduction p m with Some wr => fmt_pct (wr * 100)%Q +:+ "%" | None => "n/a" end in
  [escape +:+ "[33m[" +:+ now +:+ "] Final persistence metrics"; sep; line18 "Metric" "Value"; sep;
   line18 "Attempted" (pretty attemptedN); line18 "Admits" (pretty admitsN); line18 "Refunds" (pretty refundsN);
   line18 "Events (A+R)" (pretty (final_events m)); line18 "Writes" (pretty (totalWrites p));
   line18 "Batches" (pretty (totalBatches p)); line18 "Write reduction" wrPctStr; sep] ++
  (if (0 <? Z.of_nat (length keys)) then
     ["Configured thresholds"; sep; line30 "Name" "Value"; sep] ++
     map (fun k => line30 k (default "" (th !! k))) keys ++ [sep]
   else []) ++
  ["Impact: fewer DB writes -> lower cost, higher throughput, better latency/SLA.";
   "Pending vectors: any sub-threshold remainders are flushed on graceful shutdown; abrupt termination may leave some in-memory until next start.";
   escape +:+ "[0m"].
End formats.

(** ** The life of the process

    The intervals are positive, so that both loops have their tickers
    ([loop_ticker]), and the address can be listened on.  The worker's goroutines and the HTTP server run until they are stopped; the
    main goroutine stops the worker, prints, closes the accumulators and shuts the
    server down, in this order. *)
Section lifecycle.
Context {A P C : Type} {CA : Counter A} {PP : Persister P} {CC : Churn C}.

Inductive Phase := Running | Flushed | WorkerStopped | Printed | Closed | Down.

Inductive MainEvent :=
| MService (e : Service.Event)      (* a handler, or a cycle of the worker *)
| MFlush (order : list string)      (* the commit loop ends with its final flush *)
| MStopped                          (* both loops have ended: [worker.Stop] returns *)
| MPrint                            (* [persister.PrintFinalMetrics] *)
| MCloseAll (order : list string)   (* [store.CloseAll] *)
| MShutdown.                        (* [httpServer.Shutdown]: no handler runs after it *)

(** When an event can happen. *)
Definition next_phase (ph : Phase) (e : MainEvent) : option Phase :=
  match e, ph with
  | MService (Service.ECheck _ _ | Service.ERelease _ _), Down => None
  | MService (Service.ECheck _ _ | Service.ERelease _ _), _ => Some ph
  | MService (Service.ECommit _ _), Running => Some ph
  | MService (Service.EEvict _ _ _), (Running | Flushed) => Some ph
  | MFlush _, Running => Some Flushed
  | MStopped, Flushed => Some WorkerStopped
  | MPrint, WorkerStopped => Some Printed
  | MCloseAll _, Printed => Some Closed
  | MShutdown, Closed => Some Down
  | _, _ => None
  end.

(** What it does: the trace of the responses, and the totals when the summary was
    printed. *)
Definition main_event (sv : Server) (w : Worker) (acc : Service.Trace * option Metrics) (e : MainEvent) :
    SM (Process A P C) (Service.Trace * option Metrics) :=
  let '(tr, printed) := acc in
  match e with
  | MService e => tr ← Service.run_event sv w tr e; mret (tr, printed)
  | MFlush order => in_world (runFinalFlush order) ;; mret (tr, printed)
  | MPrint => m ← gets metrics; mret (tr, Some m)
  | MCloseAll order => in_world (in_store (CloseAll order)) ;; mret (tr, printed)
  | MStopped | MShutdown => mret (tr, printed)
  end.
Definition main_events (sv : Server) (w : Worker) (es : list MainEvent) :
    SM (Process A P C) (Service.Trace * option Metrics) := foldM (main_event sv w) ([], None) es.

Fixpoint phases (ph : Phase) (es : list MainEvent) : option Phase :=
  match es with [] => Some ph | e :: es => ph' ← next_phase ph e; phases ph' es end.
End lifecycle.
