(* ===== verification/ApiMainSpec.v ===== *)
(** * The command's life, and the numbers it prints

    A complete run conserves the units; when no request comes after the final
    flush nothing is lost, and the summary has the final totals. *)
From Stdlib Require Import QArith.
From S2P Require Import Prelude Effects Vsa VsaSpec Counter Store Ledger CoreMetrics Worker WorkerSpec Doubles WorkerProps Api ApiSpec Service Churn Kafka ApiMain.
Import Spec.

(** The write reduction printed is a share: it is printed exactly when something was admitted or refunded, lies between 0 and 1, and is [1 - writes / events] whenever there were no more writes than events. *)
Theorem write_reduction_bounds p m :
  match write_reduction p m with
  | Some wr => 0 < final_events m /\ (0 <= wr /\ wr <= 1)%Q /\
      (0 <= totalWrites p <= final_events m -> (wr == 1 - inject_Z (totalWrites p) / inject_Z (final_events m))%Q)
  | None => final_events m <= 0
  end.
Proof.
  unfold write_reduction. destruct (Z.gtb_spec (final_events m) 0) as [He|He]; [|done].
  set (wr := (1 - inject_Z (totalWrites p) / inject_Z (final_events m))%Q).
  assert (Hq : (0 < inject_Z (final_events m))%Q) by (change 0%Q with (inject_Z 0); by rewrite <- Zlt_Qlt).
  assert (Hin : 0 <= totalWrites p <= final_events m -> (0 <= wr /\ wr <= 1)%Q).
  { intros [H0 H1]. assert (Hd : (0 <= inject_Z (totalWrites p) / inject_Z (final_events m) /\
      inject_Z (totalWrites p) / inject_Z (final_events m) <= 1)%Q).
    { split; [apply Qle_shift_div_l; [done|]; rewrite Qmult_0_l; change 0%Q with (inject_Z 0); by rewrite <- Zle_Qle|].
      apply Qle_shift_div_r; [done|]. rewrite Qmult_1_l. by rewrite <- Zle_Qle. }
    destruct Hd as [Hd0 Hd1]. unfold wr. split.
    - apply Qle_minus_iff in Hd1. done.
    - apply Qle_minus_iff. ring_simplify. done. }
  split; [done|]. destruct (Qle_bool 0 wr) eqn:H0; cbn [negb].
  - destruct (Qle_bool wr 1) eqn:H1; cbn [negb].
    + split; [by split; apply Qle_bool_iff|done].
    + split; [done|]. intros Hw. destruct (Hin Hw) as [_ H]. apply Qle_bool_iff in H. congruence.
  - split; [done|]. intros Hw. destruct (Hin Hw) as [H _]. apply Qle_bool_iff in H. congruence.
Qed.

(** ** The life of the process *)
(** What follows the signal, when no request comes any more. *)
Definition signalled (order order' : list string) : list MainEvent :=
  [MFlush order; MStopped; MPrint; MCloseAll order'; MShutdown].

Section lifecycle.
Context {A P C : Type} {CA : Counter A} {CL : CounterLaws A} {PP : Persister P} {PL : PersisterLaws P}
  {CC : Worker.Churn C}.

Definition main_ok (e : MainEvent) : Prop :=
  match e with MService e => event_ok e | MFlush order => NoDup order | _ => True end.

Lemma CloseAll_service order : triple (service_inv (A := A) (P := P) (C := C))
  (in_world (in_store (CloseAll order))) (fun s _ => service_inv s).
Proof.
  intros s (B & m & Hs & Hc).
  destruct (in_world_wrep (in_store (CloseAll order)) B B m) with s as (s' & [] & He & Hs'); [|done|].
  { eapply triple_conseq; [apply (in_store_ok _ B _ (CloseAll_ok order (ledger B)))|done|].
    cbn. intros w [] (Hr & Hb & Ht). by split. }
  exists s', tt. split; [done|]. by exists B, m.
Qed.

Lemma ret_inv {R} (a : R) : triple (service_inv (A := A) (P := P) (C := C)) (mret a) (fun s _ => service_inv s).
Proof. intros s Hs. by exists s, a. Qed.

Lemma main_event_inv sv w acc e : main_ok e -> triple (service_inv (A := A) (P := P) (C := C))
  (main_event sv w acc e) (fun s _ => service_inv s).
Proof.
  intros He. destruct acc as [tr printed]. destruct e as [e|order| | |order|]; cbn [main_event main_ok] in *.
  - eapply (triple_bind _ _ (fun s _ => service_inv s)); [|intros tr'; apply ret_inv].
    intros s (B & m & Hs & Hc). destruct (run_event_conserves sv w tr e B m s He Hs Hc) as (s' & tr' & B' & m' & Hr & Hs' & Hc').
    exists s', tr'. split; [done|]. by exists B', m'.
  - eapply (triple_bind _ _ (fun s _ => service_inv s)); [|intros []; apply ret_inv].
    intros s (B & m & Hs & Hc). destruct (run_event_conserves sv w tr (EFlush order) B m s He Hs Hc) as (s' & tr' & B' & m' & Hr & Hs' & Hc').
    cbn [run_event] in Hr. unfold mbind, SM_bind in Hr. destruct (in_world (runFinalFlush order) s) as [[s1 []]|] eqn:E; [|done].
    injection Hr as <- <-. exists s1, tt. split; [done|]. by exists B', m'.
  - apply ret_inv.
  - eapply (triple_bind _ _ (fun s _ => service_inv s)); [|intros m'; apply ret_inv]. intros s Hs. by exists s, (metrics s).
  - eapply (triple_bind _ _ (fun s _ => service_inv s)); [apply CloseAll_service|intros []; apply ret_inv].
  - apply ret_inv.
Qed.

Lemma main_events_inv sv w acc es : Forall main_ok es -> triple (service_inv (A := A) (P := P) (C := C))
  (foldM (main_event sv w) acc es) (fun s _ => service_inv s).
Proof.
  intros Hes. revert acc. induction Hes as [|e es He Hes IH]; intros acc; [by intros s H; exists s, acc|].
  cbn [foldM]. eapply triple_bind; [by apply main_event_inv|apply IH].
Qed.

Lemma phases_running evs es : Forall (fun e => next_phase Running (MService e) = Some Running) evs ->
  phases Running (map MService evs ++ es) = phases Running es.
Proof. induction 1 as [|e evs He Hevs IH]; [done|]. cbn [map app phases]. by rewrite He. Qed.

Lemma main_service sv w tr printed evs (s s' : Process A P C) tr' :
  foldM (run_event sv w) tr evs s = Some (s', tr') ->
  foldM (main_event sv w) (tr, printed) (map MService evs) s = Some (s', (tr', printed)).
Proof.
  revert tr s. induction evs as [|e evs IH]; intros tr s; cbn [foldM map]; [by intros [= <- <-]|].
  unfold mbind at 1, SM_bind at 1. destruct (run_event sv w tr e s) as [[s1 tr1]|] eqn:E; [|done]. intros Hrun.
  unfold mbind at 1, SM_bind at 1. cbn [main_event]. unfold mbind at 1, SM_bind at 1. rewrite E. by apply IH.
Qed.

(** C19: the whole life of the command, for any handlers and cycles before the signal and a final flush of every key that the backend accepts: the shutdown runs to its end without a panic, through the phases in the order of [main]; when no request comes after the flush the backend has exactly the units admitted less those refunded, and the summary was printed with the final totals. *)
Theorem graceful_life_loses_nothing sv w s0 (P0 : P) (C0 : C) evs order order' (s : Process A P C) tr :
  0 <= s0 < H64 -> accepted_units P0 = 0 -> Forall event_ok evs ->
  run_events sv w evs (service_start s0 P0 C0) = Some (s, tr) ->
  NoDup order -> (forall k, is_Some (counters (store (world s)) !! k) -> k ∈ order) ->
  (forall cs, exists P', CommitBatch cs (persister (world s)) = (P', None)) ->
  let life := map MService evs ++ signalled order order' in
  (Forall (fun e => next_phase Running (MService e) = Some Running) evs -> phases Running life = Some Down) /\
  exists s' : Process A P C, main_events sv w life (service_start s0 P0 C0) = Some (s', (tr, Some (metrics s'))) /\
    admits (metrics s') - refunds (metrics s') ≡ₘ accepted_units (persister (world s')).
Proof.
  intros Hs0 H0 Hevs Hrun Hnd Hord Hacc life. split.
  { intros Hph. unfold life. by rewrite phases_running. }
  destruct (graceful_stop_persists_everything sv w s0 P0 C0 evs order s tr Hs0 H0 Hevs Hrun Hnd Hord Hacc) as (s1 & Hf & Hc).
  cbn [run_event] in Hf. unfold mbind, SM_bind in Hf. destruct (in_world (runFinalFlush order) s) as [[s1' []]|] eqn:E; [|done].
  injection Hf as ->.
  (* closing the accumulators changes neither the totals nor the backend *)
  destruct (run_events_conserves sv w evs [] Hevs _ (service_start_inv s0 P0 C0 Hs0 H0)) as (? & ? & He & B & m & Hs & Hcons).
  unfold run_events in Hrun. rewrite Hrun in He. injection He as <- <-.
  destruct (in_world_wrep _ B _ m (runFinalFlush_ok order B Hnd) s Hs) as (s2 & [] & He2 & Hs2). rewrite E in He2. injection He2 as <-.
  destruct (in_world_wrep (in_store (CloseAll order')) (final_flush order B) (final_flush order B) m) with s1 as (s3 & [] & He3 & Hs3); [|done|].
  { eapply triple_conseq; [apply (in_store_ok _ (final_flush order B) _ (CloseAll_ok order' (ledger (final_flush order B))))|done|].
    cbn. intros w1 [] (Hr & Hb & Ht). by split. }
  exists s3. unfold main_events, life. rewrite foldM_app.
  erewrite bind_Some; [|by apply (main_service sv w [] None evs)]. unfold signalled. cbn [foldM].
  erewrite bind_Some; [|cbn [main_event]; erewrite bind_Some; [reflexivity|exact E]].
  erewrite bind_Some; [|reflexivity]. erewrite bind_Some; [|reflexivity].
  erewrite bind_Some; [|cbn [main_event]; erewrite bind_Some; [reflexivity|exact He3]].
  erewrite bind_Some; [|reflexivity].
  rewrite (prep_metrics _ _ _ Hs3), (prep_metrics _ _ _ Hs2) in *. split; [done|].
  rewrite (wrep_backend _ _ (prep_world _ _ _ Hs3)). by rewrite <- (wrep_backend _ _ (prep_world _ _ _ Hs2)).
Qed.

(** Whatever comes, also after the flush and after the accumulators are closed, is
    accounted for: accepted by the backend or still pending, lost at the exit. *)
Lemma main_conserves sv w s0 (P0 : P) (C0 : C) es :
  0 <= s0 < H64 -> accepted_units P0 = 0 -> Forall main_ok es ->
  exists (s : Process A P C) tr printed B, main_events sv w es (service_start s0 P0 C0) = Some (s, (tr, printed)) /\
    wrep B (world s) /\
    admits (metrics s) - refunds (metrics s) ≡ₘ accepted_units (persister (world s)) + pending_total (ledger B).
Proof.
  intros Hs0 H0 Hes. destruct (main_events_inv sv w ([], None) es Hes _ (service_start_inv s0 P0 C0 Hs0 H0))
    as (s & [tr printed] & He & B & m & Hs & Hc & _).
  exists s, tr, printed, B. split_and!; [done|apply Hs|].
  by rewrite (prep_metrics _ _ _ Hs), (wrep_backend _ _ (prep_world _ _ _ Hs)).
Qed.
End lifecycle.

(** ** Examples *)
Definition demo_life : list MainEvent :=
  map MService (take 9 demo_events) ++ signalled ["b"; "a"] ["a"].

(** With the default flags the command serves, with the exact gate and no fast path,
    and both loops have their tickers. *)
Example default_flags_serve :
  match main_start (fun _ => "1") default_api_flags with
  | Serving w => service_options (w_options w) /\ loop_ticker (w_worker w) CommitLoop = Some (100 * ms) /\
      loop_ticker (w_worker w) EvictionLoop = Some (600 * sec)
  | Fatal _ => False
  end.
Proof. by vm_compute. Qed.

Lemma graceful_life_loses_nothing_witness :
  match demo_history with
  | Some (s, tr) => phases Running demo_life = Some Down /\
      exists s', main_events demo_server (demo_worker 0) demo_life (service_start 3 NewMockPersister []) =
        Some (s', (tr, Some (metrics s'))) /\
        admits (metrics s') - refunds (metrics s') ≡ₘ totalRequests (persister (world s'))
  | None => False
  end.
Proof.
  pose proof demo_history_keys as Hkeys.
  destruct demo_history as [[s tr]|] eqn:He; [|exact Hkeys].
  destruct (graceful_life_loses_nothing (A := VSA) (PL := mock_laws) demo_server (demo_worker 0) 3
    NewMockPersister ([] : list Call) (take 9 demo_events) ["b"; "a"] ["a"] s tr) as (H1 & H2).
  - lia.
  - reflexivity.
  - apply Forall_take, demo_events_ok.
  - exact He.
  - apply (bool_decide_unpack _). vm_compute. exact I.
  - intros k [p Hp%elem_of_map_to_list]. apply (list_elem_of_fmap_2 fst) in Hp.
    rewrite Hkeys in Hp. cbn in Hp. revert Hp. rewrite !elem_of_cons. intuition auto.
  - intros cs. apply mock_accepts.
  - split; [|exact H2]. apply H1. repeat constructor.
Defined.

(** A check that comes between the final flush and the server's shutdown is
    admitted, is not in the summary, and its unit never reaches the backend. *)
Definition late_life : list MainEvent :=
  [MService (ECheck "a" 1); MFlush ["a"]; MStopped; MPrint; MService (ECheck "a" 2); MCloseAll ["a"];
   MService (ECheck "a" 3); MShutdown].
Example late_checks_are_lost : phases Running late_life = Some Down /\
  option_map (fun '(s, (tr, printed)) => (map (fun kr => status kr.2) tr, admits <$> printed, admits (metrics s),
      totalRequests (persister (world s))))
    (main_events (A := VSA) demo_server (demo_worker 0) late_life (service_start 3 NewMockPersister ([] : list Call))) =
  Some ([200; 200; 200], Some 1, 3, 1).
Proof. split; vm_compute; reflexivity. Qed.
