(* ===== verification/HarnessMain.v ===== *)
(** * The harness's command ([benchmarks/harness/main.go], [main])

    The flags, the choice of the producer, the operations drawn before the run, the
    workers as threads over the producer and its background loops, the figures and
    their text.  A [producer] value is one of the six types, and its calls are
    dispatched on it.  An operation of a worker is one step; what is inside is cut in
    [Harness] and [HarnessVsa].  The generator's draws are an argument: [rng a b k n]
    is the [k]-th [IntN(n)] of the generator seeded with [a] and [b]; so are the
    latencies, the clock, the figures of the runtime and the text of a float.  A
    panic of a background goroutine is taken where it starts, and the figures of the
    summary are read in one step. *)
From Stdlib Require Import Floats.SpecFloat Ascii.
From stdpp Require Import sorting pretty.
From S2P Require Import Prelude ApiMain Effects Vsa Harness HarnessVsa.

(** ** Flags *)
Inductive variantType := variantVSA | variantAtomic | variantBatch | variantCRDT | variantToken | variantLeaky.
#[export] Instance variantType_eq_dec : EqDecision variantType.
Proof. solve_decision. Defined.
Definition variant_name (v : variantType) : string :=
  match v with
  | variantVSA => "vsa" | variantAtomic => "atomic" | variantBatch => "batch"
  | variantCRDT => "crdt" | variantToken => "token" | variantLeaky => "leaky"
  end.
Definition variants : list variantType := [variantVSA; variantAtomic; variantBatch; variantCRDT; variantToken; variantLeaky].

(** [strings.ToLower], as far as a comparison with these names can tell: of the other
    letters, only the Kelvin sign and the dotted capital I have one of ASCII below. *)
Definition lower_byte (c : ascii) : ascii :=
  let n := N_of_ascii c in if ((65 <=? n) && (n <=? 90))%N then ascii_of_N (n + 32) else c.
Fixpoint to_lower (s : list ascii) : list ascii :=
  match s with
  | "226"%char :: "132"%char :: "170"%char :: s => "k"%char :: to_lower s
  | "196"%char :: "176"%char :: s => "i"%char :: to_lower s
  | c :: s => lower_byte c :: to_lower s
  | [] => []
  end.
Definition variant_of (variantStr : string) : option variantType :=
  let s := String.string_of_list_ascii (to_lower (String.list_ascii_of_string variantStr)) in
  list_find (fun v => variant_name v = s) variants ≫= fun iv => Some iv.2.

Record HarnessFlags := mkHarnessFlags {
  f_variantStr : string; f_opCount : Z; f_workers : Z; f_keysN : Z; f_churnPct : Z; f_seed : Z;
  f_threshold : Z; f_lowThreshold : Z; f_commitInterval : Z; f_commitMaxAge : Z; f_initialScalar : Z;
  f_batchSize : Z; f_batchInterval : Z; f_replicas : Z; f_mergePeriod : Z; f_rate : spec_float; f_burst : Z;
  f_writeDelay : Z; f_sampleEvery : Z; f_maxLatSamples : Z; f_duration : Z
}.
Definition harness_default_flags : HarnessFlags :=
  mkHarnessFlags "vsa" 200000 32 1 50 1
    64 0 (10 * ms) (15 * ms) 1000000
    64 (10 * ms) 4 (25 * ms) (fl 10000) 100
    0 1 200000 0.

(** ** The producer *)
Inductive AnyProducer :=
| ProdAtomic (t : atomicCounter)
| ProdBatch (t : batcher)
| ProdPN (t : pnCounter)
| ProdToken (t : bucket)
| ProdLeaky (t : bucket)
| ProdVSA (t : vsaHarness) (loop : LoopStage).

Definition kind_of (p : AnyProducer) : variantType :=
  match p with
  | ProdAtomic _ => variantAtomic | ProdBatch _ => variantBatch | ProdPN _ => variantCRDT
  | ProdToken _ => variantToken | ProdLeaky _ => variantLeaky | ProdVSA _ _ => variantVSA
  end.

(** What a call reads besides its arguments: the clock and the chooser's hints. *)
Record CallEnv := mkCallEnv { e_now : Z; e_chooser : ChooserEnv }.

(** A call of the value in the interface. *)
Definition call_of {T A} (wrap : A -> T -> AnyProducer) (t : T) (f : SM (Run T) A) : SM (Run AnyProducer) unit := fun r =>
  match f (mkRun t (datastore r)) with
  | Some (r', a) => Some (mkRun (wrap a (prod r')) (datastore r'), tt)
  | None => None
  end.
Definition prod_update (e : CallEnv) (key : string) (delta : Z) : SM (Run AnyProducer) unit := fun r =>
  match prod r with
  | ProdAtomic t => call_of (fun _ => ProdAtomic) t (update (Producer := atomic_producer) tt key delta) r
  | ProdBatch t => call_of (fun _ => ProdBatch) t (update (Producer := batcher_producer) tt key delta) r
  | ProdPN t => call_of (fun _ => ProdPN) t (update (Producer := pn_producer) tt key delta) r
  | ProdToken t => call_of (fun _ => ProdToken) t (update (Producer := token_producer) (e_now e) key delta) r
  | ProdLeaky t => call_of (fun _ => ProdLeaky) t (update (Producer := leaky_producer) (e_now e) key delta) r
  | ProdVSA t st => call_of (fun _ t => ProdVSA t st) t (update (Producer := vsa_producer []) (e_chooser e, e_now e) key delta) r
  end.

(** The steps of the goroutines that [startBG] has started. *)
Inductive Background := BgTick (now : Z) (order : list string) | BgLoop (ns : Z) | BgSample (order : list string).
Definition prod_background (e : Background) : SM (Run AnyProducer) unit := fun r =>
  match prod r, e with
  | ProdBatch t, BgTick _ _ => call_of (fun _ => ProdBatch) t batcher_tick r
  | ProdPN t, BgTick _ _ => call_of (fun _ => ProdPN) t pn_merge r
  | ProdVSA t st, BgTick now order => call_of (fun st t => ProdVSA t st) t (harness_event st (HTick now order)) r
  | ProdVSA t st, BgLoop ns => call_of (fun st t => ProdVSA t st) t (harness_event st (HLoop ns)) r
  | ProdVSA t st, BgSample order => call_of (fun st t => ProdVSA t st) t (harness_event st (HSample order)) r
  | _, _ => Some (r, tt)
  end.

(** [stopBG] waits for the goroutines: a commit loop in the middle of a pass ends it
    first. *)
Definition stop_waits (p : AnyProducer) : bool :=
  match p with ProdVSA _ LWaiting => false | ProdVSA _ _ => true | _ => false end.
Definition prod_stopBG (order : list string) : SM (Run AnyProducer) unit := fun r =>
  match prod r with
  | ProdAtomic t => call_of (fun _ => ProdAtomic) t (stopBG (Producer := atomic_producer)) r
  | ProdBatch t => call_of (fun _ => ProdBatch) t (stopBG (Producer := batcher_producer)) r
  | ProdPN t => call_of (fun _ => ProdPN) t (stopBG (Producer := pn_producer)) r
  | ProdToken t => call_of (fun _ => ProdToken) t (stopBG (Producer := token_producer)) r
  | ProdLeaky t => call_of (fun _ => ProdLeaky) t (stopBG (Producer := leaky_producer)) r
  | ProdVSA t st => call_of (fun _ t => ProdVSA t st) t (stopBG (Producer := vsa_producer order)) r
  end.

(** ** Before the run *)
Section random.
Context (rng : Z -> Z -> nat -> Z -> Z).

(** [IntN] panics on a bound that is not positive. *)
Definition IntN (a b : Z) (k : nat) (n : Z) : option Z := if n <=? 0 then None else Some (rng a b k n).

Definition bench_keys (keysN : Z) : option (list string) :=
  if keysN <? 0 then None else Some ((fun i => "key-" +:+ pretty (Z.of_nat i)) <$> seq 0 (Z.to_nat keysN)).

(** Operation [i] of worker [g]: two draws. *)
Definition drawn_op (f : HarnessFlags) (keys : list string) (g i : nat) : option (string * Z) :=
  let draw := IntN (u64_of_int (f_seed f)) (Z.of_nat g + 1) in
  ki ← draw (2 * i)%nat (Z.of_nat (length keys));
  key ← keys !! Z.to_nat ki;
  c ← draw (2 * i + 1)%nat 100;
  Some (key, if c <? f_churnPct f then -1 else 1).
Definition draw_ops (f : HarnessFlags) (keys : list string) (share : Z) (g : nat) : option (list (string * Z)) :=
  mapM (drawn_op f keys g) (seq 0 (Z.to_nat share)).

(** [now] is the clock when the buckets and the touches are set up. *)
Definition new_producer (gomaxprocs now : Z) (f : HarnessFlags) (v : variantType) (keys : list string) : option AnyProducer :=
  match v with
  | variantAtomic => Some (ProdAtomic mkAtomic)
  | variantBatch => Some (ProdBatch (newBatcher (f_batchSize f)))
  | variantCRDT => ProdPN <$> newPN keys (f_replicas f)
  | variantToken => Some (ProdToken (newTokenBucket keys (f_burst f) (f_rate f) now))
  | variantLeaky => Some (ProdLeaky (newLeakyBucket keys (f_burst f) (f_rate f) now))
  | variantVSA => Some (ProdVSA (newVSAHarness gomaxprocs keys (f_initialScalar f) (f_threshold f) (f_commitMaxAge f)
      (f_lowThreshold f) now) LWaiting)
  end.
(** What a goroutine of [startBG] does first, at any moment after: it makes its
    ticker, and [time.NewTicker] panics on an interval that is not positive. *)
Definition bg_interval (f : HarnessFlags) (v : variantType) : option Z :=
  match v with
  | variantBatch => Some (f_batchInterval f)
  | variantCRDT => Some (f_mergePeriod f)
  | variantVSA => Some (f_commitInterval f)
  | _ => None
  end.
Definition startBG (f : HarnessFlags) (v : variantType) : option unit :=
  match bg_interval f v with Some d => if d <=? 0 then None else Some tt | None => Some tt end.

(** ** The run *)
Record BenchWorker := mkWorker { w_ops : list (string * Z); w_i : Z; w_loc : list Z; w_seen : Z; w_stopped : bool }.
Inductive BenchPhase := Measuring | Summarised | Finished.
Record Bench := mkBench { b_prod : Run AnyProducer; b_workers : list BenchWorker; b_opsDone : Z; b_phase : BenchPhase }.

Definition durationMode (f : HarnessFlags) : bool := f_duration f >? 0.
Definition recordLatency (f : HarnessFlags) : bool := negb (f_maxLatSamples f =? 0).
Definition sample_step (f : HarnessFlags) : Z := if f_sampleEvery f <=? 0 then 1 else f_sampleEvery f.
Definition capPerWorker (f : HarnessFlags) : Z :=
  if recordLatency f && (f_maxLatSamples f >? 0) then
    let c := quot64 (f_maxLatSamples f) (f_workers f) in if c <? 1 then 1 else c
  else 0.

(** A worker's slice of latencies, when it is not the reservoir; [make] panics when
    the sum overflows. *)
Definition first_samples (f : HarnessFlags) (ops : list (string * Z)) : option unit :=
  let cap := quot64 (Z.of_nat (length ops) +! sample_step f -! 1) (sample_step f) in
  if recordLatency f && negb (durationMode f && (capPerWorker f >? 0)) && (cap <? 0) then None else Some tt.

Inductive Launch := Usage (* exit code 2 *) | Launched (v : variantType) (b : Bench).
Definition bench_start (gomaxprocs now : Z) (f : HarnessFlags) : option Launch :=
  match variant_of (f_variantStr f) with
  | None => Some Usage
  | Some v =>
      keys ← bench_keys (f_keysN f);
      p ← new_producer gomaxprocs now f v keys;
      _ ← (if f_opCount f <? 0 then None else Some tt);        (* the slice of latencies *)
      share ← opsPerWorker (f_opCount f) (f_workers f) (f_duration f);
      _ ← (if f_workers f <? 0 then None else Some tt);        (* the slices of the workers *)
      opss ← mapM (draw_ops f keys share) (seq 0 (Z.to_nat (f_workers f)));
      _ ← mapM (first_samples f) opss;
      Some (Launched v (mkBench (mkRun p newPersister) ((fun ops => mkWorker ops 0 [] 0 false) <$> opss) 0 Measuring))
  end.

(** The operation of a worker's turn; [None] at the end of its loop.  [late] is
    whether the clock has passed the deadline. *)
Definition turn_index (f : HarnessFlags) (late : bool) (w : BenchWorker) : option Z :=
  if durationMode f then if late then None else Some (rem64 (w_i w) (Z.of_nat (length (w_ops w))))
  else if w_i w <? Z.of_nat (length (w_ops w)) then Some (w_i w) else None.
Definition is_sampled (f : HarnessFlags) (w : BenchWorker) : bool :=
  recordLatency f && ((sample_step f =? 1) || (rem64 (w_i w) (sample_step f) =? 0)).
(** [d] is the latency measured. *)
Definition keep_sample (f : HarnessFlags) (id : nat) (d : Z) (w : BenchWorker) : list Z * Z :=
  if negb (is_sampled f w) then (w_loc w, w_seen w)
  else if durationMode f && (capPerWorker f >? 0) then
    let j := rng (u64_of_int (f_seed f)) (Z.of_nat id + 12345) (Z.to_nat (w_seen w - capPerWorker f)) (w_seen w +! 1) in
    reservoir (capPerWorker f) (w_loc w) (w_seen w) d j
  else (w_loc w ++ [d], w_seen w).

Definition worker_turn (f : HarnessFlags) (id : nat) (late : bool) (e : CallEnv) (d : Z) (b : Bench) : option Bench :=
  match b_workers b !! id with
  | None => Some b
  | Some w =>
      if w_stopped w then Some b
      else match turn_index f late w with
      | None => Some (mkBench (b_prod b) (<[id := mkWorker (w_ops w) (w_i w) (w_loc w) (w_seen w) true]> (b_workers b)) (b_opsDone b) (b_phase b))
      | Some idx =>
          op ← (if idx <? 0 then None else w_ops w !! Z.to_nat idx);
          '(p, _) ← prod_update e op.1 op.2 (b_prod b);
          let '(loc, seen) := keep_sample f id d w in
          Some (mkBench p (<[id := mkWorker (w_ops w) (w_i w +! 1) loc seen false]> (b_workers b)) (b_opsDone b +! 1) (b_phase b))
      end
  end.

(** ** The summary *)

(** Fewer latencies, evenly spread, when there are more than the bound.  [int] of a
    [float64] truncates; out of range it is the least integer (amd64). *)
Definition int_of_float (x : spec_float) : Z :=
  match x with
  | S754_zero _ => 0
  | S754_finite s m e =>
      let a := if e <? 0 then Z.pos m / 2 ^ (- e) else Z.pos m * 2 ^ e in
      let z := if (s : bool) then - a else a in
      if bool_decide (in64 z) then z else MinInt64
  | _ => MinInt64
  end.
Definition reduced_index (n capN : Z) (j : nat) : Z :=
  let step := fdiv (fl n) (fl capN) in
  let idx := int_of_float (fmul (fl (Z.of_nat j)) step) in
  if idx >=? n then n - 1 else idx.
Definition downsample (maxLatSamples : Z) (latencies : list Z) : option (list Z) :=
  let n := Z.of_nat (length latencies) in
  if (maxLatSamples >? 0) && (n >? maxLatSamples) then
    mapM (fun j => let idx := reduced_index n maxLatSamples j in if idx <? 0 then None else latencies !! Z.to_nat idx)
      (seq 0 (Z.to_nat maxLatSamples))
  else Some latencies.

(** What is said of the commits of the VSA producer. *)
Inductive CommitFigures :=
| CommitIntervals (total min avg max : Z)
| CommitAge (total last : Z)
| CommitTotal (total : Z)
| NoCommits.
Definition commit_figures (h : vsaHarness) : CommitFigures :=
  let total := totalCommits h in
  let i := intervals h in
  if (total >=? 2) && (commitCount i >? 0) then
    CommitIntervals total (minCommitNS i) (quot64 (sumCommitNS i) (commitCount i)) (maxCommitNS i)
  else if total >=? 1 then if lastCommitTS i >? 0 then CommitAge total (lastCommitTS i) else CommitTotal total
  else NoCommits.

Record Summary := mkSummary {
  sm_ops : Z; sm_p50 : Z; sm_p95 : Z; sm_p99 : Z; sm_longOps : Z; sm_hist : list histBucket;
  sm_logicalWrites : Z; sm_dbCalls : Z; sm_vsa : option (Z * Z * Z * CommitFigures)
}.
Definition summary (f : HarnessFlags) (b : Bench) : option Summary :=
  latencies ← downsample (f_maxLatSamples f) (concat (w_loc <$> b_workers b));
  p50 ← percentiles latencies 50;
  p95 ← percentiles latencies 95;
  p99 ← percentiles latencies 99;
  Some (mkSummary (b_opsDone b) p50 p95 p99 (longOps latencies p50) (buildLatencyHistogram latencies)
    (logicalWrites (datastore (b_prod b))) (dbCalls (datastore (b_prod b)))
    match prod (b_prod b) with ProdVSA h _ => Some (printed_vectors h, commit_figures h) | _ => None end).

(** ** The command *)
(** Each goroutine of the producer has made its ticker before its first step, and
    before [stopBG] has waited for it. *)
Inductive BenchEvent :=
| BTurn (id : nat) (late : bool) (e : CallEnv) (d : Z)
| BBack (e : Background)
| BSummary                       (* [wg.Wait] returns *)
| BStop (order : list string).   (* the deferred [stopBG] *)
Definition all_stopped (b : Bench) : bool := forallb w_stopped (b_workers b).

Definition bench_event (f : HarnessFlags) (e : BenchEvent) (b : Bench) : option (Bench * option Summary) :=
  match e with
  | BTurn id late e d => b' ← worker_turn f id late e d b; Some (b', None)
  | BBack e =>
      match b_phase b with
      | Finished => Some (b, None)
      | _ => _ ← startBG f (kind_of (prod (b_prod b))); '(p, _) ← prod_background e (b_prod b); Some (mkBench p (b_workers b) (b_opsDone b) (b_phase b), None)
      end
  | BSummary =>
      match b_phase b with
      | Measuring =>
          if all_stopped b then
            s ← summary f b; Some (mkBench (b_prod b) (b_workers b) (b_opsDone b) Summarised, Some s)
          else Some (b, None)
      | _ => Some (b, None)
      end
  | BStop order =>
      match b_phase b with
      | Summarised =>
          _ ← startBG f (kind_of (prod (b_prod b)));
          if stop_waits (prod (b_prod b)) then Some (b, None)
          else '(p, _) ← prod_stopBG order (b_prod b); Some (mkBench p (b_workers b) (b_opsDone b) Finished, None)
      | _ => Some (b, None)
      end
  end.
(** A run, with the summaries it prints. *)
Fixpoint bench_run (f : HarnessFlags) (es : list BenchEvent) (b : Bench) : option (Bench * list Summary) :=
  match es with
  | [] => Some (b, [])
  | e :: es =>
      '(b1, s) ← bench_event f e b;
      '(b2, ss) ← bench_run f es b1;
      Some (b2, match s with Some s => s :: ss | None => ss end)
  end.
End random.

(** ** The text *)
Record MemStats := mkMemStats { Alloc : Z; TotalAlloc : Z; Sys : Z; NumGC : Z }.

Section text.
Context (fmtf : nat -> spec_float -> string).   (* [%.nf] *)

Definition formatMicros (d : Z) : string :=
  let us := fdiv (fl d) (fl 1000) in
  if SFltb us (fl 1) then fmtf 3 us else if SFltb us (fl 100) then fmtf 1 us else fmtf 0 us.
Definition humanRate (x : spec_float) : string :=
  if SFleb (fl 1000000) x then fmtf 1 (fdiv x (fl 1000000)) +:+ "M"
  else if SFleb (fl 1000) x then fmtf 1 (fdiv x (fl 1000)) +:+ "k"
  else fmtf 0 x.

Definition byte_units : list string := ["KiB"; "MiB"; "GiB"; "TiB"].
(** The loop of [humanBytes]: [above] are the units after that of the index. *)
Fixpoint scale_bytes (d : spec_float) (unit : string) (above : list string) : spec_float * string :=
  match above with
  | next :: above => if SFleb (fl 1024) d then scale_bytes (fdiv d (fl 1024)) next above else (d, unit)
  | [] => (d, unit)
  end.
Definition humanBytes (b : Z) : string :=
  if b <? 1024 then pretty b +:+ " B"
  else let '(d, unit) := scale_bytes (fl b) "KiB" (tail byte_units) in fmtf 1 d +:+ " " +:+ unit.

(** [Duration.Round(time.Millisecond)] of a duration that is not negative. *)
Definition round_ms (d : Z) : Z :=
  let r := Z.rem d ms in
  if r + r <? ms then d - r else if d +! ms -! r >? d then d +! ms -! r else MaxInt64.

Definition str_humanInt (n : Z) : string := String.string_of_list_ascii (humanInt n).
Definition per_second (n runDur : Z) : string := humanRate (fdiv (fl n) (Seconds runDur)).

Definition commit_line (age : Z -> Z) (c : CommitFigures) : string :=
  match c with
  | CommitIntervals total min avg max => "VSA commits: total=" +:+ pretty total +:+ " | intervals min=" +:+
      duration_String min +:+ " avg=" +:+ duration_String avg +:+ " max=" +:+ duration_String max
  | CommitAge total last => "VSA commits: total=" +:+ pretty total +:+ " | last age=" +:+ duration_String (age last)
  | CommitTotal total => "VSA commits: total=" +:+ pretty total
  | NoCommits => "VSA commits: none"
  end.
(** The lines of the report; [age] is the time since a moment. *)
Definition report (f : HarnessFlags) (v : variantType) (runDur : Z) (mem : MemStats) (age : Z -> Z) (s : Summary) : list string :=
  [ "Variant: " +:+ variant_name v +:+ "  Ops: " +:+ pretty (sm_ops s) +:+ "  Goroutines: " +:+ pretty (f_workers f) +:+
      "  Keys: " +:+ pretty (f_keysN f) +:+ "  Churn: " +:+ pretty (f_churnPct f) +:+ "%";
    "Duration: " +:+ duration_String (round_ms runDur) +:+ "  Ops/sec: " +:+ per_second (sm_ops s) runDur;
    "Latency p50: " +:+ formatMicros (sm_p50 s) +:+ "µs  p95: " +:+ formatMicros (sm_p95 s) +:+ "µs  p99: " +:+
      formatMicros (sm_p99 s) +:+ "µs";
    "Latency histogram (non-zero buckets):" ] ++
  ((fun b => "  " +:+ label b +:+ ": " +:+ pretty (count b)) <$> sm_hist s) ++
  [ "Writes: logical=" +:+ str_humanInt (sm_logicalWrites s) +:+ " (" +:+ per_second (sm_logicalWrites s) runDur +:+
      "/sec), dbCalls=" +:+ str_humanInt (sm_dbCalls s) +:+ " (" +:+ per_second (sm_dbCalls s) runDur +:+ "/sec)";
    "Memory: Alloc=" +:+ humanBytes (Alloc mem) +:+ "  TotalAlloc=" +:+ humanBytes (TotalAlloc mem) +:+ "  Sys=" +:+
      humanBytes (Sys mem) +:+ "  NumGC=" +:+ pretty (NumGC mem);
    "Contention (long ops >5× median): " +:+ pretty (sm_longOps s);
    "Summary: variant=" +:+ variant_name v +:+ " ops=" +:+ pretty (sm_ops s) +:+ " duration_ns=" +:+ pretty runDur +:+
      " goroutines=" +:+ pretty (f_workers f) +:+ " keys=" +:+ pretty (f_keysN f) +:+ " churn_pct=" +:+ pretty (f_churnPct f) +:+
      " p50_ns=" +:+ pretty (sm_p50 s) +:+ " p95_ns=" +:+ pretty (sm_p95 s) +:+ " p99_ns=" +:+ pretty (sm_p99 s) +:+
      " logical_writes=" +:+ pretty (sm_logicalWrites s) +:+ " db_calls=" +:+ pretty (sm_dbCalls s) +:+
      " write_delay_ns=" +:+ pretty (f_writeDelay f) ] ++
  match sm_vsa s with
  | Some (max, avg, final, c) =>
      [ "VSA |A_net| total: max=" +:+ str_humanInt max +:+ " avg=" +:+ str_humanInt avg +:+ " final=" +:+
          str_humanInt final +:+ " (units)"; commit_line age c ]
  | None => []
  end.

End text.
