(* ===== verification/HarnessFloat.v ===== *)
(** * How large a rounded number can be

    The summary picks its latencies with a product of [float64]s ([reduced_index] of
    [HarnessMain]).  Rounding to the nearest at most doubles a number ([round_below])
    and does not take it below one ([round_above]): enough to keep the product a
    number, not negative, and inside [int].  Numbers are pairs of a mantissa and an
    exponent, as in [SpecFloat]. *)
From Stdlib Require Import Floats.SpecFloat.
From S2P Require Import Prelude ApiMain Effects Vsa Harness HarnessVsa HarnessMain.

(** ** Digits and shifts *)
Lemma digits_bounds m : 0 < m -> 2 ^ (Zdigits2 m - 1) <= m < 2 ^ Zdigits2 m /\ 0 < Zdigits2 m.
Proof.
  intros Hm. destruct m as [|p|p]; try lia. clear Hm. cbn [Zdigits2].
  induction p as [p IH|p IH|]; cbn [digits2_pos]; [| |cbn; lia];
    rewrite Pos2Z.inj_succ; replace (Z.succ (Z.pos (digits2_pos p)) - 1) with (Z.succ (Z.pos (digits2_pos p) - 1)) by lia;
    rewrite !Z.pow_succ_r by lia; lia.
Qed.

Lemma digits_upper m d : 0 <= m < 2 ^ d -> 0 <= d -> Zdigits2 m <= d.
Proof.
  intros Hm Hd. destruct (decide (m = 0)) as [->|Hne]; [cbn; lia|].
  pose proof (digits_bounds m ltac:(lia)) as [[Hl _] _]. destruct (Z.le_gt_cases (Zdigits2 m) d) as [|Hgt]; [done|].
  pose proof (Z.pow_le_mono_r 2 d (Zdigits2 m - 1) ltac:(lia) ltac:(lia)). lia.
Qed.

Lemma shr_1_m mrs : 0 <= shr_m mrs -> shr_m (shr_1 mrs) = shr_m mrs / 2.
Proof.
  destruct mrs as [[|[p|p|]|p] r s]; cbn [shr_1 shr_m]; intros H; try lia; try done.
  - rewrite Pos2Z.inj_xI. apply (Z.div_unique _ _ _ 1); lia.
  - rewrite Pos2Z.inj_xO. apply (Z.div_unique _ _ _ 0); lia.
Qed.

Lemma iter_shr_m p mrs : 0 <= shr_m mrs -> shr_m (SpecFloat.iter_pos shr_1 p mrs) = shr_m mrs / 2 ^ Z.pos p.
Proof.
  revert mrs. induction p as [p IH|p IH|]; intros mrs H; cbn [SpecFloat.iter_pos].
  - pose proof (shr_1_m mrs H) as H1. pose proof (Z.div_pos (shr_m mrs) 2 H ltac:(lia)) as Hp. rewrite <- H1 in Hp.
    pose proof (IH _ Hp) as H2. pose proof (Z.div_pos _ (2 ^ Z.pos p) Hp ltac:(lia)) as Hp2. rewrite <- H2 in Hp2.
    rewrite (IH _ Hp2), H2, H1, !Z.div_div by lia. f_equal.
    replace (Z.pos p~1) with (1 + Z.pos p + Z.pos p) by lia. rewrite !Z.pow_add_r, Z.pow_1_r by lia. ring.
  - pose proof (IH _ H) as H2. pose proof (Z.div_pos _ (2 ^ Z.pos p) H ltac:(lia)) as Hp2. rewrite <- H2 in Hp2.
    rewrite (IH _ Hp2), H2, Z.div_div by lia. f_equal.
    replace (Z.pos p~0) with (Z.pos p + Z.pos p) by lia. by rewrite Z.pow_add_r by lia.
  - by apply shr_1_m.
Qed.

Abbreviation shift m e l := (shr_fexp 53 1024 m e l).
Lemma shift_eq m e l : 0 <= m ->
  (shift m e l).2 = Z.max e (fexp 53 1024 (Zdigits2 m + e)) /\
  shr_m (shift m e l).1 = m / 2 ^ ((shift m e l).2 - e).
Proof.
  intros Hm. unfold shr_fexp, shr. assert (Hr : shr_m (shr_record_of_loc m l) = m) by by destruct l as [|[]].
  set (n := fexp 53 1024 (Zdigits2 m + e) - e). destruct n as [|p|p] eqn:Hn; subst n; cbn [fst snd].
  - rewrite Hr, Z.sub_diag, Z.div_1_r. lia.
  - rewrite iter_shr_m, Hr by by rewrite Hr. replace (e + Z.pos p - e) with (Z.pos p) by lia. lia.
  - rewrite Hr, Z.sub_diag, Z.div_1_r. lia.
Qed.

(** ** From above *)
Definition below (d m e : Z) : Prop := 0 <= m < 2 ^ (d - e) /\ e <= d.
Definition f_below (d : Z) (x : spec_float) : Prop :=
  match x with S754_zero false => True | S754_finite false m e => below d (Z.pos m) e | _ => False end.

Lemma shift_below d m e l : -1000 <= d -> below d m e -> below d (shr_m (shift m e l).1) (shift m e l).2.
Proof.
  intros Hd [[Hm Hlt] He]. destruct (shift_eq m e l Hm) as [He' Hm']. rewrite Hm'. clear Hm'.
  pose proof (digits_upper m (d - e) ltac:(lia) ltac:(lia)) as Hdig.
  assert (Hle : e <= (shift m e l).2 <= d) by (rewrite He'; unfold fexp, emin; lia).
  set (e' := (shift m e l).2) in *. split; [|lia]. split; [apply Z.div_pos; lia|].
  apply Z.div_lt_upper_bound; [lia|]. rewrite <- Z.pow_add_r by lia. by replace (e' - e + (d - e')) with (d - e) by lia.
Qed.

Lemma nearest_cases m l : round_nearest_even m l = m \/ round_nearest_even m l = m + 1.
Proof. destruct l as [|[]]; cbn; auto. by destruct (Z.even m); auto. Qed.

Lemma round_below d m e l : -1000 <= d <= 900 -> below d m e -> f_below (d + 1) (binary_round_aux 53 1024 false m e l).
Proof.
  intros Hd Hb. unfold binary_round_aux. pose proof (shift_below d m e l ltac:(lia) Hb) as Hb1.
  destruct (shift m e l) as [mrs1 e1] eqn:Hs1. cbn [fst snd] in Hb1. destruct Hb1 as [[Hp1 Hl1] He1].
  set (q := round_nearest_even _ _). assert (Hq : below (d + 1) q e1).
  { unfold below. replace (d + 1 - e1) with (Z.succ (d - e1)) by lia. rewrite Z.pow_succ_r by lia.
    subst q. destruct (nearest_cases (shr_m mrs1) (loc_of_shr_record mrs1)) as [-> | ->]; lia. }
  pose proof (shift_below (d + 1) q e1 loc_Exact ltac:(lia) Hq) as Hb2.
  destruct (shift q e1 loc_Exact) as [mrs2 e2] eqn:Hs2. cbn [fst snd] in Hb2.
  destruct (shr_m mrs2) as [|p|p]; [done| |destruct Hb2; lia].
  rewrite (proj2 (Z.leb_le e2 _)) by (destruct Hb2; lia). exact Hb2.
Qed.

(** ** From below *)
Definition above_one (m e : Z) : Prop := 1 <= m /\ (e <= 0 -> 2 ^ (- e) <= m).
Definition f_above_one (x : spec_float) : Prop :=
  match x with S754_finite false m e => above_one (Z.pos m) e | _ => False end.

Lemma shift_above m e l : above_one m e -> above_one (shr_m (shift m e l).1) (shift m e l).2.
Proof.
  intros [Hm Hlow]. destruct (shift_eq m e l ltac:(lia)) as [He' Hm']. rewrite Hm'. clear Hm'.
  pose proof (digits_bounds m ltac:(lia)) as [[Hdl _] Hdp].
  set (e' := (shift m e l).2) in *. destruct (Z.le_gt_cases e' e) as [Hle|Hgt].
  { replace e' with e by lia. rewrite Z.sub_diag, Z.div_1_r. by split. }
  assert (Hlow' : e' <= 0 -> 2 ^ (- e') <= m / 2 ^ (e' - e)).
  { intros H0. apply Z.div_le_lower_bound; [lia|]. rewrite <- Z.pow_add_r by lia.
    replace (e' - e + - e') with (- e) by lia. apply Hlow. lia. }
  split; [|done]. destruct (Z.le_gt_cases e' 0) as [H0|H0].
  - pose proof (Hlow' H0). pose proof (Z.pow_pos_nonneg 2 (- e') ltac:(lia) ltac:(lia)). lia.
  - apply Z.div_le_lower_bound; [lia|]. rewrite Z.mul_1_r. etransitivity; [|exact Hdl]. apply Z.pow_le_mono_r; [lia|].
    unfold fexp, emin in He'. lia.
Qed.

Lemma round_above d m e l : -1000 <= d <= 900 -> below d m e -> above_one m e ->
  f_above_one (binary_round_aux 53 1024 false m e l).
Proof.
  intros Hd Hb Ha. pose proof (round_below d m e l Hd Hb) as Hfin. unfold binary_round_aux in *.
  pose proof (shift_above m e l Ha) as Ha1. destruct (shift m e l) as [mrs1 e1]. cbn [fst snd] in Ha1.
  set (q := round_nearest_even _ _) in *. assert (Hq : above_one q e1).
  { destruct Ha1 as [Hp1 Hl1]. subst q.
    destruct (nearest_cases (shr_m mrs1) (loc_of_shr_record mrs1)) as [-> | ->]; split; lia. }
  pose proof (shift_above q e1 loc_Exact Hq) as Ha2. destruct (shift q e1 loc_Exact) as [mrs2 e2]. cbn [fst snd] in Ha2.
  destruct (shr_m mrs2) as [|p|p]; [destruct Ha2; lia| |done]. by destruct (e2 <=? 1024 - 53).
Qed.

(** ** Conversion, quotient and product *)
Lemma iter_xO d p : Z.pos (Pos.iter xO p d) = Z.pos p * 2 ^ Z.pos d.
Proof.
  induction d as [|d IH] using Pos.peano_ind; [cbn; lia|]. rewrite Pos.iter_succ, Pos2Z.inj_xO, IH, Pos2Z.inj_succ, Z.pow_succ_r by lia. ring.
Qed.

Lemma fl_bounds d z : 1 <= d <= 900 -> 0 <= z < 2 ^ d ->
  f_below (d + 1) (fl z) /\ (0 < z -> f_above_one (fl z)).
Proof.
  intros Hd Hz. unfold fl, binary_normalize. destruct z as [|p|p]; [done| |lia]. unfold binary_round, shl_align.
  rewrite Z.add_0_r, Z.sub_0_r. set (e := fexp 53 1024 (Z.pos (digits2_pos p))).
  assert (Hgo : forall q e0, below d (Z.pos q) e0 -> above_one (Z.pos q) e0 ->
    f_below (d + 1) (binary_round_aux 53 1024 false (Z.pos q) e0 loc_Exact) /\
    (0 < Z.pos p -> f_above_one (binary_round_aux 53 1024 false (Z.pos q) e0 loc_Exact))).
  { intros q e0 Hb Ha. split; [apply round_below|intros _; apply (round_above d)]; done || lia. }
  assert (H0 : below d (Z.pos p) 0 /\ above_one (Z.pos p) 0) by (unfold below, above_one; rewrite Z.sub_0_r; cbn; lia).
  destruct e as [|k|k]; [apply Hgo; apply H0..|]. apply Hgo.
  - unfold below. rewrite iter_xO. replace (d - Z.neg k) with (d + Z.pos k) by lia. rewrite Z.pow_add_r by lia.
    pose proof (Z.pow_pos_nonneg 2 (Z.pos k) ltac:(lia) ltac:(lia)). split; [split; [nia|]|lia]. apply Z.mul_lt_mono_pos_r; lia.
  - unfold above_one. rewrite iter_xO. pose proof (Z.pow_pos_nonneg 2 (Z.pos k) ltac:(lia) ltac:(lia)). change (- Z.neg k) with (Z.pos k). set (t := 2 ^ Z.pos k) in *. split; nia.
Qed.

Lemma mul_below d1 d2 x y : 0 <= d1 -> 0 <= d2 -> d1 + d2 <= 900 -> f_below d1 x -> f_below d2 y -> f_below (d1 + d2 + 1) (fmul x y).
Proof.
  intros H1 H2 H. destruct x as [[]| | |[] m1 e1], y as [[]| | |[] m2 e2]; try done.
  cbn [f_below fmul SFmul xorb]. intros [[_ Hm1] He1] [[_ Hm2] He2]. apply round_below; [lia|].
  unfold below. rewrite Pos2Z.inj_mul. replace (d1 + d2 - (e1 + e2)) with (d1 - e1 + (d2 - e2)) by lia.
  rewrite Z.pow_add_r by lia. split; [split; [lia|]|lia]. apply Z.mul_lt_mono_nonneg; lia.
Qed.

Lemma above_digits m e : above_one m e -> 1 <= Zdigits2 m + e.
Proof.
  intros [Hm Hlow]. pose proof (digits_bounds m ltac:(lia)) as [[_ Hu] Hp].
  destruct (Z.le_gt_cases e 0) as [He|He]; [|lia]. specialize (Hlow He).
  destruct (Z.le_gt_cases (Zdigits2 m) (- e)) as [Hle|]; [|lia].
  pose proof (Z.pow_le_mono_r 2 (Zdigits2 m) (- e) ltac:(lia) Hle). lia.
Qed.

Lemma div_below d x y : 1 <= d <= 900 -> f_below d x -> f_above_one y -> f_below (d + 1) (fdiv x y).
Proof.
  intros Hd. destruct x as [[]| | |[] m1 e1], y as [[]| | |[] m2 e2]; try done.
  cbn [f_below f_above_one fdiv SFdiv xorb]. intros [[_ Hm1] He1] Ha. unfold fdiv, SFdiv, SFdiv_core_binary.
  pose proof (above_digits _ _ Ha) as Hdig2. destruct Ha as [Hm2 Hlow].
  pose proof (digits_upper (Z.pos m1) (d - e1) ltac:(lia) ltac:(lia)) as Hdig1.
  set (e' := Z.min _ _). assert (He' : e' <= e1 - e2 /\ e' <= d) by (subst e'; unfold fexp, emin; lia).
  set (s := e1 - e2 - e'). set (m' := match s with Z0 => _ | _ => _ end).
  assert (Hm' : m' = Z.pos m1 * 2 ^ s).
  { subst m'. destruct s as [|k|k] eqn:Hs; [lia|by rewrite Z.shiftl_mul_pow2 by lia|subst s; lia]. }
  pose proof (Z_div_mod m' (Z.pos m2) ltac:(lia)) as Hqr. destruct (Z.div_eucl m' (Z.pos m2)) as [q r]. destruct Hqr as [Hq Hr].
  apply round_below; [lia|]. split; [|lia].
  assert (0 <= m') by (rewrite Hm'; apply Z.mul_nonneg_nonneg; [lia|apply Z.pow_nonneg; lia]).
  split; [nia|]. assert (Hlt : Z.pos m2 * q < 2 ^ (d - e1) * 2 ^ s).
  { pose proof (Z.pow_pos_nonneg 2 s ltac:(lia) ltac:(subst s; lia)). apply Z.le_lt_trans with m'; [lia|].
    rewrite Hm'. apply Z.mul_lt_mono_pos_r; lia. }
  rewrite <- Z.pow_add_r in Hlt by (subst s; lia). replace (d - e1 + s) with (d - e' - e2) in Hlt by (subst s; lia).
  assert (0 <= q) by nia. destruct (Z.le_gt_cases e2 0) as [H2|H2].
  - specialize (Hlow H2). replace (d - e' - e2) with (- e2 + (d - e')) in Hlt by lia. rewrite Z.pow_add_r in Hlt by lia.
    pose proof (Z.pow_pos_nonneg 2 (- e2) ltac:(lia) ltac:(lia)). pose proof (Z.pow_pos_nonneg 2 (d - e') ltac:(lia) ltac:(lia)). nia.
  - pose proof (Z.pow_le_mono_r 2 (d - e' - e2) (d - e') ltac:(lia) ltac:(lia)). nia.
Qed.

Lemma int_of_below d x : 0 <= d <= 63 -> f_below d x -> 0 <= int_of_float x < 2 ^ d.
Proof.
  intros Hd. destruct x as [[]| | |[] m e]; try done; cbn [f_below int_of_float].
  - intros _. pose proof (Z.pow_pos_nonneg 2 d ltac:(lia) ltac:(lia)). lia.
  - intros [[_ Hm] He]. set (a := if e <? 0 then _ else _). assert (Ha : 0 <= a < 2 ^ d).
    { subst a. destruct (Z.ltb_spec e 0).
      - split; [apply Z.div_pos; lia|]. apply Z.div_lt_upper_bound; [lia|]. rewrite <- Z.pow_add_r by lia.
        by replace (- e + d) with (d - e) by lia.
      - split; [apply Z.mul_nonneg_nonneg; [lia|apply Z.pow_nonneg; lia]|].
        replace d with (d - e + e) by lia. rewrite Z.pow_add_r by lia. pose proof (Z.pow_pos_nonneg 2 e ltac:(lia) ltac:(lia)).
        apply Z.mul_lt_mono_pos_r; lia. }
    pose proof (Z.pow_le_mono_r 2 d 63 ltac:(lia) ltac:(lia)). rewrite bool_decide_true; [done|]. unfold in64. lia.
Qed.

(** ** The latencies that are kept *)
Lemma reduced_index_bounds n capN j : 0 < capN < n -> n < 2 ^ 29 -> Z.of_nat j < capN -> 0 <= reduced_index n capN j < n.
Proof.
  intros Hc Hn Hj. unfold reduced_index.
  destruct (fl_bounds 29 n ltac:(lia) ltac:(lia)) as [Hfn _]. destruct (fl_bounds 29 capN ltac:(lia) ltac:(lia)) as [_ Hfc].
  destruct (fl_bounds 29 (Z.of_nat j) ltac:(lia) ltac:(lia)) as [Hfj _].
  pose proof (div_below (29 + 1) _ _ ltac:(lia) Hfn (Hfc ltac:(lia))) as Hstep.
  pose proof (mul_below (29 + 1) (29 + 1 + 1) _ _ ltac:(lia) ltac:(lia) ltac:(lia) Hfj Hstep) as Hp.
  pose proof (int_of_below (29 + 1 + (29 + 1 + 1) + 1) _ ltac:(lia) Hp) as Hi. rewrite Z.geb_leb. case_Z; lia.
Qed.

(** Fewer latencies, each one of those measured, and never a panic. *)
Lemma downsample_ok max ls : Z.of_nat (length ls) < 2 ^ 29 ->
  exists kept, downsample max ls = Some kept /\ (forall d, d ∈ kept -> d ∈ ls) /\
    Z.of_nat (length kept) = if max >? 0 then Z.min max (Z.of_nat (length ls)) else Z.of_nat (length ls).
Proof.
  intros Hl. unfold downsample. destruct (_ && _) eqn:Hb.
  2: { exists ls. split_and!; [done..|]. apply andb_false_iff in Hb as [Hb|Hb]; rewrite Hb || idtac; [done|].
       revert Hb. rewrite !Z.gtb_ltb. repeat case_Z; lia. }
  apply andb_prop in Hb as [H1 H2]. rewrite H1. rewrite Z.gtb_ltb in H1, H2. apply Z.ltb_lt in H1, H2.
  set (pick := fun j => let idx := reduced_index (Z.of_nat (length ls)) max j in if idx <? 0 then None else ls !! Z.to_nat idx).
  destruct (mapM_is_Some_2 pick (seq 0 (Z.to_nat max))) as [kept Hk].
  { apply list.Forall_forall. intros j Hj. apply elem_of_seq in Hj. change (is_Some (pick j)). unfold pick. cbn beta.
    destruct (reduced_index_bounds (Z.of_nat (length ls)) max j) as [Hlo Hhi]; try lia. cbn zeta.
    rewrite (proj2 (Z.ltb_ge _ 0)) by done. apply lookup_lt_is_Some_2. lia. }
  exists kept. split; [done|]. split.
  - intros d [i Hi]%list_elem_of_lookup_1. apply mapM_Some in Hk. destruct (Forall2_lookup_r _ _ _ _ _ Hk Hi) as (j & _ & Hp).
    subst pick. cbn in Hp. destruct (_ <? 0); [done|]. by eapply list_elem_of_lookup_2.
  - apply mapM_Some, Forall2_length in Hk. rewrite length_seq in Hk. lia.
Qed.
