(* ===== verification/HarnessMainSpec.v ===== *)
(** * What a run of the harness does

    The workers' operations are those drawn for them, each in its order, and the
    producer gets every one of them once: in every interleaving of the workers with
    the background goroutines nothing panics, the figure of the operations is right,
    and after the deferred stop every operation has been written, counted or
    committed ([bench_keeps_every_operation]).  Which flags the command starts with is
    [bench_start_outcome]. *)
From stdpp Require Import sorting pretty.
From S2P Require Import Prelude ApiMain Effects Vsa Harness HarnessSpec HarnessVsa HarnessVsaSpec HarnessMain HarnessFloat.

(** ** The operations that have run *)
Definition ran (w : BenchWorker) : list (string * Z) :=
  omap (fun n => w_ops w !! (n mod length (w_ops w))%nat) (seq 0 (Z.to_nat (w_i w))).
Definition executed (b : Bench) : list (string * Z) := concat (ran <$> b_workers b).
Definition delta_on (ops : list (string * Z)) (k : string) : Z :=
  Zsum ((fun op : string * Z => if decide (op.1 = k) then op.2 else 0) <$> ops).

Lemma ran_next w op loc seen s : 0 <= w_i w -> w_i w + 1 < H64 ->
  w_ops w !! (Z.to_nat (w_i w) mod length (w_ops w))%nat = Some op ->
  ran (mkWorker (w_ops w) (w_i w +! 1) loc seen s) = ran w ++ [op].
Proof.
  intros Hi Hb Hop. unfold ran. cbn [w_ops w_i]. replace (w_i w +! 1) with (w_i w + 1) by (unwrap; lia).
  replace (Z.to_nat (w_i w + 1)) with (S (Z.to_nat (w_i w))) by lia. rewrite seq_S, omap_app. cbn. by rewrite Hop.
Qed.

Lemma concat_insert {A} (ls : list (list A)) i l x : ls !! i = Some l -> concat (<[i := l ++ [x]]> ls) ≡ₚ concat ls ++ [x].
Proof.
  intros Hi. rewrite insert_take_drop by by eapply lookup_lt_Some. rewrite <- (take_drop_middle ls i l Hi) at 3.
  rewrite !concat_app. cbn [concat]. rewrite <- !app_assoc. apply Permutation_app_head, Permutation_app_head, Permutation_app_comm.
Qed.
Lemma concat_insert_same {A} (ls : list (list A)) i l : ls !! i = Some l -> <[i := l]> ls = ls.
Proof. apply list_insert_id. Qed.

Lemma delta_on_perm l1 l2 k : l1 ≡ₚ l2 -> delta_on l1 k = delta_on l2 k.
Proof. intros Hp. apply Zsum_perm. by rewrite Hp. Qed.
Lemma delta_on_snoc l key d k : delta_on (l ++ [(key, d)]) k = with_op key d (delta_on l) k.
Proof.
  unfold delta_on, with_op. rewrite fmap_app, Zsum_app. cbn. rewrite Zsum_cons, Zsum_nil. cbn. repeat case_decide; subst; try done; lia.
Qed.

(** ** The producer *)
Section producer.
Context (keys : list string).

(** [g k] is what the operations on [k] sum to, [n] how many there were. *)
Definition prod_ok (g : string -> Z) (n : Z) (r : Run AnyProducer) : Prop :=
  match prod r with
  | ProdBatch t => in64 (batchSize t) /\ 0 <= buf t < size_of (batchSize t) /\ logicalWrites (datastore r) + buf t ≡ₘ n
  | ProdPN t => 0 < replicas t /\ pn_ok (replicas t) keys g t /\ logicalWrites (datastore r) ≡ₘ n
  | ProdVSA t st => run_inv keys g st (mkRun t (datastore r))
  | _ => logicalWrites (datastore r) ≡ₘ n
  end.

Definition settled (g : string -> Z) (n : Z) (r : Run AnyProducer) : Prop :=
  match prod r with
  | ProdVSA t _ => forall k, k ∈ keys -> exists v, accs t !! k = Some v /\ VsaInv.net (mem v) = 0 /\
      committedOffset (mem v) ≡ₘ g k
  | ProdPN t => (forall k, k ∈ keys -> pn_value t k ≡ₘ g k) /\ logicalWrites (datastore r) ≡ₘ n
  | _ => logicalWrites (datastore r) ≡ₘ n
  end.

Lemma prod_ok_same g g' n r : (forall k, g' k = g k) -> prod_ok g n r -> prod_ok g' n r.
Proof.
  intros He. unfold prod_ok. destruct (prod r); try done.
  - intros (H1 & H2 & H3). split_and!; [done| |done]. by eapply pn_ext.
  - by apply run_inv_same.
Qed.

Lemma p_write_one p : logicalWrites (p_write 1 p) ≡ₘ logicalWrites p + 1.
Proof. apply add64_eqm. Qed.

Lemma prod_update_ok g n r e key d : prod_ok g n r -> key ∈ keys -> in64 d ->
  exists r', prod_update e key d r = Some (r', tt) /\ kind_of (prod r') = kind_of (prod r) /\
    prod_ok (with_op key d g) (n + 1) r'.
Proof.
  unfold prod_ok. intros Hok Hk Hd. unfold prod_update. destruct r as [p ds]. cbn [prod datastore] in *. destruct p as [t|t|t|t|t|t st].
  - eexists. split; [reflexivity|]. split; [done|]. cbn -[Z.add]. by rewrite add64_eqm, Hok.
  - destruct Hok as (Hs & Hb & Hn). destruct t as [sz bf]. cbn [batchSize buf] in *. unfold in64, size_of in *.
    unfold call_of, update, batcher_producer, then_write, on_prod, zoom, update_locked, mbind, SM_bind. cbn -[Z.add add64].
    replace (bf +! 1) with (bf + 1) by (unwrap; lia). rewrite Z.geb_leb. destruct (Z.leb_spec sz (bf + 1)); cbn -[Z.add add64].
    + eexists. split; [reflexivity|]. split; [done|]. cbn -[Z.add add64]. unfold in64, size_of. split_and!; try lia.
      rewrite Z.gtb_ltb, (proj2 (Z.ltb_lt 0 (bf + 1))) by lia. rewrite add64_eqm, <- Hn. eqm_lia.
    + eexists. split; [reflexivity|]. split; [done|]. cbn -[Z.add add64]. unfold in64, size_of. split_and!; try lia.
      rewrite <- Hn. eqm_lia.
  - destruct Hok as (Hr & Hp & Hn). destruct (pn_add_ok (replicas t) keys g t key d Hr Hp Hk Hd) as (t' & Ha & Hp').
    unfold call_of, update, pn_producer, on_prod, zoom, mbind, SM_bind. cbn [prod]. rewrite Ha. eexists. split; [reflexivity|].
    split; [done|]. cbn [prod datastore]. rewrite (pn_replicas _ _ _ _ Hp'). split_and!; [done| |].
    + eapply pn_ext; [|exact Hp']. intros k. unfold with_op. cbn. repeat case_decide; subst; try done; lia.
    + cbn -[Z.add]. by rewrite add64_eqm, Hn.
  - eexists. split; [reflexivity|]. split; [done|]. cbn -[Z.add]. by rewrite add64_eqm, Hok.
  - eexists. split; [reflexivity|]. split; [done|]. cbn -[Z.add]. by rewrite add64_eqm, Hok.
  - destruct (update_run_ok keys g st _ (e_chooser e, e_now e) key d Hok) as (h' & Hu & Hr'). rewrite decide_True in Hr' by done.
    unfold call_of, update, vsa_producer. cbn [prod datastore] in *. rewrite Hu. eexists. split; [reflexivity|]. by split.
Qed.

Definition background_ok (e : Background) : Prop :=
  match e with BgTick _ order | BgSample order => Forall (.∈ keys) order | BgLoop _ => True end.
Lemma prod_background_ok g n r e : prod_ok g n r -> background_ok e ->
  exists r', prod_background e r = Some (r', tt) /\ kind_of (prod r') = kind_of (prod r) /\ prod_ok g n r'.
Proof.
  unfold prod_ok. intros Hok He. unfold prod_background. destruct r as [p ds]. cbn [prod datastore] in *. destruct p as [t|t|t|t|t|t st].
  1, 4-5: by eexists.
  - destruct e; [|by eexists..]. destruct Hok as (Hs & Hb & Hn). destruct t as [sz bf]. cbn [batchSize buf] in *. unfold in64, size_of in *.
    unfold call_of, batcher_tick, then_write, on_prod, zoom, take_locked, mbind, SM_bind. cbn -[Z.add add64].
    rewrite Z.gtb_ltb. destruct (Z.ltb_spec 0 bf); cbn -[Z.add add64].
    + eexists. split; [reflexivity|]. split; [done|]. cbn -[Z.add add64]. unfold in64, size_of. split_and!; try lia.
      rewrite Z.gtb_ltb, (proj2 (Z.ltb_lt 0 bf)) by done. rewrite add64_eqm, <- Hn. eqm_lia.
    + eexists. split; [reflexivity|]. split; [done|]. cbn -[Z.add add64]. unfold in64, size_of. split_and!; try lia.
      rewrite <- Hn. eqm_lia.
  - destruct e; [|by eexists..]. destruct Hok as (Hr & Hp & Hn). 
    destruct (calls_ok (seq 0 (Z.to_nat (replicas t))) (mkRun t ds)) as (q & Hq & Hl & _).
    assert (Hm : pn_merge (mkRun t ds) = Some (mkRun t q, tt)) by exact Hq.
    unfold call_of. cbn [datastore]. rewrite Hm.
    eexists. split; [reflexivity|]. split; [done|]. cbn [prod datastore] in *. by rewrite Hl.
  - unfold call_of. cbn [datastore].
    assert (Hgo : forall h, event_ok keys h -> not_update h -> exists r' st', harness_event st h (mkRun t ds) = Some (r', st') /\
      run_inv keys g st' r') by (intros; by apply background_run_ok).
    destruct e as [now order|ns|order].
    1: destruct (Hgo (HTick now order) He I) as ([t' ds'] & st' & -> & Hr').
    2: destruct (Hgo (HLoop ns) I I) as ([t' ds'] & st' & -> & Hr').
    3: destruct (Hgo (HSample order) He I) as ([t' ds'] & st' & -> & Hr').
    all: eexists; split; [reflexivity|]; by split.
Qed.

Lemma prod_stop_ok g n r order : prod_ok g n r -> stop_waits (prod r) = false ->
  NoDup order -> (forall k, k ∈ order <-> k ∈ keys) ->
  exists r', prod_stopBG order r = Some (r', tt) /\ kind_of (prod r') = kind_of (prod r) /\ settled g n r'.
Proof.
  unfold prod_ok, settled. intros Hok Hw Hnd Hord. unfold prod_stopBG. destruct r as [p ds]. cbn [prod datastore] in *. destruct p as [t|t|t|t|t|t st].
  1, 4-5: by eexists.
  - destruct Hok as (Hs & Hb & Hn). destruct t as [sz bf]. cbn [batchSize buf] in *. unfold in64, size_of in *.
    unfold call_of, stopBG, batcher_producer, then_write, on_prod, zoom, take_locked, mbind, SM_bind. cbn -[Z.add add64].
    rewrite Z.gtb_ltb. destruct (Z.ltb_spec 0 bf); cbn -[Z.add add64]; eexists; (split; [reflexivity|]); (split; [done|]); cbn -[Z.add add64].
    + rewrite Z.gtb_ltb, (proj2 (Z.ltb_lt 0 bf)) by done. by rewrite add64_eqm.
    + rewrite <- Hn. eqm_lia.
  - destruct Hok as (Hr & Hp & Hn). eexists. split; [reflexivity|]. split; [done|]. split; [apply Hp|done].
  - destruct st; try done. destruct (final_flush_ok keys g order _ Hok Hnd Hord) as ([t' ds'] & Hf & Hv & _).
    unfold call_of, stopBG, vsa_producer. cbn [prod datastore] in *. rewrite Hf. eexists. split; [reflexivity|]. by split.
Qed.

Lemma settled_same g g' n r : (forall k, g' k = g k) -> settled g n r -> settled g' n r.
Proof.
  intros He. unfold settled. destruct (prod r); try done.
  - intros [H1 H2]. split; [|done]. intros k Hk. rewrite He. by apply H1.
  - intros H k Hk. rewrite He. by apply H.
Qed.
End producer.

(** ** The workers *)
Definition keys_of (f : HarnessFlags) : list string := default [] (bench_keys (f_keysN f)).
Definition share_of (f : HarnessFlags) : Z := default 0 (opsPerWorker (f_opCount f) (f_workers f) (f_duration f)).

Lemma concat_length_ge {A} (ls : list (list A)) i l : ls !! i = Some l -> (length l <= length (concat ls))%nat.
Proof. intros Hi. rewrite <- (take_drop_middle ls i l Hi), concat_app. cbn [concat]. rewrite !length_app. lia. Qed.

Lemma concat_fmap_insert {A} (g : BenchWorker -> list A) ws i w w' : ws !! i = Some w -> g w' = g w ->
  concat (g <$> <[i := w']> ws) = concat (g <$> ws).
Proof. intros Hi He. rewrite list_fmap_insert, He, list_insert_id; [done|]. by rewrite list_lookup_fmap, Hi. Qed.

Section bench.
Context (rng : Z -> Z -> nat -> Z -> Z) (Hrng : forall a b k n, 0 < n -> 0 <= rng a b k n < n) (f : HarnessFlags).

(** [t] is the number of the worker's turns. *)
Record worker_ok (t : Z) (w : BenchWorker) : Prop := {
  wo_ops : Z.of_nat (length (w_ops w)) = share_of f;
  wo_given : Forall (fun op => op.1 ∈ keys_of f /\ in64 op.2) (w_ops w);
  wo_i : 0 <= w_i w;
  wo_ran : Z.of_nat (length (ran w)) = w_i w;
  wo_timed : durationMode f = true -> 0 < share_of f;
  wo_fixed : durationMode f = false -> w_i w <= share_of f /\ w_i w = if w_stopped w then share_of f else t;
  wo_loc : Z.of_nat (length (w_loc w)) <= w_i w;
  wo_reservoir : durationMode f = true -> 0 < capPerWorker f ->
    Z.of_nat (length (w_loc w)) = Z.min (w_seen w) (capPerWorker f) /\ 0 <= w_seen w <= w_i w
}.

Lemma worker_stopped_ok t t' w : worker_ok t w -> w_stopped w = true -> worker_ok t' w.
Proof. intros [] Hs. split; try done. by rewrite Hs in *. Qed.

Lemma capPerWorker_in : in64 (capPerWorker f).
Proof. unfold capPerWorker. destruct (_ && _); [|done]. cbn zeta. destruct (_ <? 1); [done|apply wrap64_in]. Qed.

(** The operation of a turn, if the worker is not at the end of its loop. *)
Lemma turn_op t late w : worker_ok t w -> turn_index f late w <> None ->
  exists idx op, turn_index f late w = Some idx /\ (idx <? 0) = false /\ w_ops w !! Z.to_nat idx = Some op /\
    w_ops w !! (Z.to_nat (w_i w) mod length (w_ops w))%nat = Some op /\ op.1 ∈ keys_of f /\ in64 op.2 /\
    (durationMode f = false -> w_i w < share_of f).
Proof.
  intros [Ho Hg Hi Hran Ht Hf _ _] Hne. set (len := Z.of_nat (length (w_ops w))) in *.
  assert (Hidx : exists idx, turn_index f late w = Some idx /\ idx = Z.rem (w_i w) len /\ 0 < len /\
    (durationMode f = false -> w_i w < share_of f)).
  { unfold turn_index in *. fold len in Hne |- *. destruct (durationMode f).
    - specialize (Ht eq_refl). destruct late; [done|]. eexists. split_and!; [done..|lia|done].
    - destruct (Z.ltb_spec (w_i w) len); [|done]. eexists. rewrite Z.rem_small by lia. split_and!; [done..|lia|lia]. }
  destruct Hidx as (idx & He & -> & Hl & Hlt). rewrite Z.rem_mod_nonneg in * by lia.
  assert (Hn : Z.to_nat (w_i w mod len) = (Z.to_nat (w_i w) mod length (w_ops w))%nat).
  { subst len. rewrite Z2Nat.inj_mod by lia. by rewrite Nat2Z.id. }
  pose proof (Z.mod_pos_bound (w_i w) len Hl).
  destruct (lookup_lt_is_Some_2 (w_ops w) (Z.to_nat (w_i w mod len))) as [op Hop]; [subst len; lia|].
  rewrite list.Forall_lookup in Hg. destruct (Hg _ _ Hop) as [Hk Hd].
  exists (w_i w mod len), op. split_and!; try done; [apply Z.ltb_ge; lia|by rewrite <- Hn].
Qed.

Lemma keep_sample_ok t id d w loc seen : worker_ok t w -> keep_sample rng f id d w = (loc, seen) -> w_i w + 1 < H64 ->
  Z.of_nat (length loc) <= w_i w + 1 /\
  (durationMode f = true -> 0 < capPerWorker f ->
    Z.of_nat (length loc) = Z.min seen (capPerWorker f) /\ 0 <= seen <= w_i w + 1).
Proof.
  intros [_ _ Hi _ _ _ Hl Hr] Hk Hb. unfold keep_sample in Hk. pose proof capPerWorker_in as Hc. destruct (negb (is_sampled f w)).
  { injection Hk as <- <-. split; [lia|]. intros Hd Hp. specialize (Hr Hd Hp). lia. }
  destruct (durationMode f && (capPerWorker f >? 0)) eqn:Hm.
  - apply andb_prop in Hm as [Hd Hp]. rewrite Z.gtb_ltb in Hp. apply Z.ltb_lt in Hp. destruct (Hr Hd Hp) as [Hlen Hs].
    set (j := rng _ _ _ _) in Hk. assert (Hj : 0 <= j) by (apply Hrng; unwrap; lia).
    pose proof (reservoir_kept (capPerWorker f) [(d, j)] (w_loc w) (w_seen w)) as Hkept.
    cbn [sample_all] in Hkept. rewrite Hk in Hkept. cbn [length] in Hkept.
    destruct Hkept as [Hlen' _]; [unfold in64 in Hc; lia|by repeat constructor|done|lia|lia|].
    assert (Hseen : seen = w_seen w + 1).
    { unfold reservoir in Hk. replace (w_seen w +! 1) with (w_seen w + 1) in Hk by (unwrap; lia). by destruct (_ <=? _); injection Hk. }
    split; [lia|]. intros _ _. lia.
  - injection Hk as <- <-. split; [rewrite length_app; cbn; lia|]. intros Hd Hp. rewrite Hd in Hm. cbn in Hm.
    rewrite Z.gtb_ltb in Hm. apply Z.ltb_ge in Hm. lia.
Qed.

(** ** The invariant: [n] events, [ts i] turns of worker [i] *)
Record bench_ok (v : variantType) (n : Z) (ts : nat -> Z) (b : Bench) : Prop := {
  bo_length : length (b_workers b) = Z.to_nat (f_workers f);
  bo_each i w : b_workers b !! i = Some w -> worker_ok (ts i) w;
  bo_done : b_opsDone b = Z.of_nat (length (executed b));
  bo_events : Z.of_nat (length (executed b)) <= n;
  bo_kind : kind_of (prod (b_prod b)) = v;
  bo_phase : b_phase b <> Measuring -> all_stopped b = true;
  bo_prod : b_phase b <> Finished -> prod_ok (keys_of f) (delta_on (executed b)) (Z.of_nat (length (executed b))) (b_prod b);
  bo_settled : b_phase b = Finished -> settled (keys_of f) (delta_on (executed b)) (Z.of_nat (length (executed b))) (b_prod b);
  bo_ticker : startBG f v = Some tt
}.

Lemma all_stopped_at b i w : all_stopped b = true -> b_workers b !! i = Some w -> w_stopped w = true.
Proof.
  unfold all_stopped. intros Ha Hi. rewrite forallb_forall in Ha. apply Ha. apply list_elem_of_In.
  by eapply list_elem_of_lookup_2.
Qed.

Definition turned (id : nat) (ts : nat -> Z) : nat -> Z := fun i => if decide (i = id) then ts i + 1 else ts i.

Lemma bench_idle v n ts id b : bench_ok v n ts b -> (forall w, b_workers b !! id = Some w -> w_stopped w = true) ->
  bench_ok v (n + 1) (turned id ts) b.
Proof.
  intros [] Hs. split; try done; [|lia]. intros i w Hi. unfold turned. case_decide as Heq; [subst|by auto].
  eapply worker_stopped_ok; eauto.
Qed.

Lemma bench_weaken v n ts b : bench_ok v n ts b -> bench_ok v (n + 1) ts b.
Proof. intros []. split; try done. lia. Qed.

Lemma turn_stops v n ts id w b : bench_ok v n ts b -> b_workers b !! id = Some w -> w_stopped w = false ->
  (durationMode f = false -> w_i w = share_of f) ->
  bench_ok v (n + 1) (turned id ts)
    (mkBench (b_prod b) (<[id := mkWorker (w_ops w) (w_i w) (w_loc w) (w_seen w) true]> (b_workers b)) (b_opsDone b) (b_phase b)).
Proof.
  intros [Hlen Hw Hd Hn Hk Hph Hp Hst] Hid Hs Hend.
  assert (He : executed (mkBench (b_prod b) (<[id := mkWorker (w_ops w) (w_i w) (w_loc w) (w_seen w) true]> (b_workers b))
    (b_opsDone b) (b_phase b)) = executed b) by by eapply (concat_fmap_insert ran).
  split; cbn [b_workers b_opsDone b_prod b_phase]; rewrite ?He; try done; try lia.
  - by rewrite length_insert.
  - intros i w' [(<- & <- & _)|[Hne Hi]]%list_lookup_insert_Some.
    + destruct (Hw _ _ Hid). split; cbn [w_ops w_i w_loc w_seen w_stopped]; try done. intros Hm.
      split; [by apply wo_fixed0|by apply Hend].
    + unfold turned. rewrite decide_False by done. by apply Hw.
  - intros Hne. pose proof (all_stopped_at _ _ _ (Hph Hne) Hid). congruence.
Qed.

Lemma turn_runs v n ts id late e d w b : bench_ok v n ts b -> n + 1 < H64 -> b_workers b !! id = Some w -> w_stopped w = false ->
  turn_index f late w <> None ->
  exists b', worker_turn rng f id late e d b = Some b' /\ bench_ok v (n + 1) (turned id ts) b' /\ b_phase b' = b_phase b.
Proof.
  intros [Hlen Hw Hd Hn Hk Hph Hp Hst] Hb Hid Hs Ht. pose proof (Hw _ _ Hid) as Hwk.
  destruct (turn_op _ late w Hwk Ht) as (idx & op & Hti & Hpos & Hop & Hop' & Hkey & Hin & Hlt).
  assert (Hm : b_phase b = Measuring).
  { destruct (b_phase b) eqn:Hpe; [done|..]; pose proof (all_stopped_at _ _ _ (Hph ltac:(done)) Hid); congruence. }
  destruct (prod_update_ok (keys_of f) _ _ (b_prod b) e op.1 op.2 (Hp ltac:(congruence)) Hkey Hin) as (p' & Hu & Hk' & Hp').
  assert (Hran : Z.of_nat (length (ran w)) <= n).
  { etransitivity; [|exact Hn]. apply inj_le. apply (concat_length_ge _ id). by rewrite list_lookup_fmap, Hid. }
  rewrite (wo_ran _ _ Hwk) in Hran. unfold worker_turn. rewrite Hid, Hs, Hti, Hpos, Hop. cbn [mbind option_bind]. rewrite Hu.
  destruct (keep_sample rng f id d w) as [loc seen] eqn:Hks.
  destruct (keep_sample_ok _ _ _ _ _ _ Hwk Hks ltac:(lia)) as [Hl1 Hl2].
  eexists. split; [reflexivity|]. split; [|done].
  set (w' := mkWorker (w_ops w) (w_i w +! 1) loc seen false).
  assert (Hrw : ran w' = ran w ++ [op]) by (apply ran_next; [apply Hwk|lia|done]).
  set (b' := mkBench p' (<[id := w']> (b_workers b)) (b_opsDone b +! 1) (b_phase b)).
  assert (He : executed b' ≡ₚ executed b ++ [op]).
  { unfold executed. cbn [b_workers b']. rewrite list_fmap_insert, Hrw. apply concat_insert. by rewrite list_lookup_fmap, Hid. }
  pose proof (Permutation_length He) as Hel. rewrite length_app in Hel. cbn [length] in Hel.
  pose proof (wo_i _ _ Hwk) as Hi0. assert (Hi' : w_i w' = w_i w + 1) by (cbn; unwrap; lia).
  split; cbn [b_workers b_opsDone b_prod b_phase b'].
  - by rewrite length_insert.
  - intros i w1 [(<- & <- & _)|[Hne Hi]]%list_lookup_insert_Some.
    + destruct Hwk as [H1 H2 H3 H4 H5 H6 H7 H8]. split; rewrite ?Hi'; try done; try lia.
      * rewrite Hrw, length_app. cbn. lia.
      * intros Hf. specialize (Hlt Hf). specialize (H6 Hf). rewrite Hs in H6. unfold turned. rewrite decide_True by done. cbn. lia.
    + unfold turned. rewrite decide_False by done. by apply Hw.
  - rewrite Hd, Hel. unwrap. lia.
  - lia.
  - congruence.
  - congruence.
  - intros _. replace (Z.of_nat (length (executed b'))) with (Z.of_nat (length (executed b)) + 1) by lia.
    eapply prod_ok_same; [|exact Hp']. intros k. rewrite (delta_on_perm _ _ k He). destruct op. apply delta_on_snoc.
  - congruence.
  - done.
Qed.

(** ** The events *)
Lemma all_latencies v n ts b : bench_ok v n ts b -> Z.of_nat (length (concat (w_loc <$> b_workers b))) <= n.
Proof.
  intros [_ Hw _ Hn _ _ _ _]. etransitivity; [|exact Hn]. apply inj_le. unfold executed.
  assert (Hall : Forall (fun w => (length (w_loc w) <= length (ran w))%nat) (b_workers b)).
  { apply list.Forall_lookup. intros i w Hi. destruct (Hw _ _ Hi). lia. }
  clear Hw. induction Hall as [|w ws Hle _ IH]; [done|]. cbn. rewrite !length_app. lia.
Qed.

Lemma percentiles_Some ds p : 0 <= p <= 100 -> Z.of_nat (length ds) * 100 < H64 -> is_Some (percentiles ds p).
Proof.
  intros Hp Hl. destruct ds as [|d ds]; [by eexists|]. destruct (percentile_rank (d :: ds) p ltac:(done) Hp Hl) as (x & Hx & _).
  by eexists.
Qed.

Lemma summary_ok v n ts b : bench_ok v n ts b -> n < 2 ^ 29 -> exists s, summary f b = Some s /\ sm_ops s = b_opsDone b.
Proof.
  intros Hok Hn. pose proof (all_latencies _ _ _ _ Hok) as Hl. unfold summary.
  destruct (downsample_ok (f_maxLatSamples f) (concat (w_loc <$> b_workers b)) (Z.le_lt_trans _ _ _ Hl Hn)) as (ls & -> & _ & Hlen).
  assert (Hb : Z.of_nat (length ls) * 100 < H64) by (rewrite Hlen; destruct (_ >? 0); lia).
  cbn [mbind option_bind].
  destruct (percentiles_Some ls 50 ltac:(lia) Hb) as [p50 ->]. destruct (percentiles_Some ls 95 ltac:(lia) Hb) as [p95 ->].
  destruct (percentiles_Some ls 99 ltac:(lia) Hb) as [p99 ->]. by eexists.
Qed.

Definition bench_event_ok (e : BenchEvent) : Prop :=
  match e with
  | BTurn _ _ _ _ | BSummary => True
  | BBack e => background_ok (keys_of f) e
  | BStop order => NoDup order /\ (forall k, k ∈ order <-> k ∈ keys_of f)
  end.
Definition turns_after (e : BenchEvent) (ts : nat -> Z) : nat -> Z :=
  match e with BTurn id _ _ _ => turned id ts | _ => ts end.

(** The stop of an event [e] changes no worker once they have all stopped. *)
Record step_ok (v : variantType) (n : Z) (ts : nat -> Z) (b b' : Bench) (s : option Summary) : Prop := {
  so_bench : bench_ok v n ts b';
  so_workers : all_stopped b = true -> b_workers b' = b_workers b;
  so_summary x : s = Some x -> all_stopped b' = true /\ sm_ops x = b_opsDone b'
}.

Lemma bench_event_run v n ts b e : bench_ok v n ts b -> n + 1 < 2 ^ 29 -> bench_event_ok e ->
  exists b' s, bench_event rng f e b = Some (b', s) /\ step_ok v (n + 1) (turns_after e ts) b b' s.
Proof.
  intros Hok Hn He. pose proof (bench_weaken _ _ _ _ Hok) as Hw. destruct e as [id late env d|e| |order]; cbn [bench_event turns_after].
  - assert (Hidle : (forall w, b_workers b !! id = Some w -> w_stopped w = true) -> worker_turn rng f id late env d b = Some b ->
      exists b' s, (b' ← worker_turn rng f id late env d b; Some (b', None)) = Some (b', s) /\ step_ok v (n + 1) (turned id ts) b b' s).
    { intros Hs ->. eexists _, _. split; [reflexivity|]. split; [by apply bench_idle|done|done]. }
    destruct (b_workers b !! id) as [w|] eqn:Hid.
    2: { apply Hidle; [done|]. unfold worker_turn. by rewrite Hid. }
    destruct (w_stopped w) eqn:Hs.
    { apply Hidle; [by intros ? [= <-]|]. unfold worker_turn. by rewrite Hid, Hs. }
    assert (Hrun : all_stopped b = true -> False) by (intros Ha; rewrite (all_stopped_at _ _ _ Ha Hid) in Hs; done).
    destruct (turn_index f late w) as [idx|] eqn:Ht.
    + destruct (turn_runs v n ts id late env d w b Hok ltac:(lia) Hid Hs ltac:(congruence)) as (b' & He' & Hok' & _).
      rewrite He'. eexists _, _. split; [reflexivity|]. split; [done| |done]. intros Ha. by destruct (Hrun Ha).
    + assert (Hend : durationMode f = false -> w_i w = share_of f).
      { intros Hd. unfold turn_index in Ht. rewrite Hd in Ht. destruct (bo_each _ _ _ _ Hok _ _ Hid) as [Ho _ _ _ _ Hf _ _].
        specialize (Hf Hd). destruct (Z.ltb_spec (w_i w) (Z.of_nat (length (w_ops w)))); [done|lia]. }
      unfold worker_turn. rewrite Hid, Hs, Ht. eexists _, _. split; [reflexivity|].
      split; [by apply turn_stops| |done]. intros Ha. by destruct (Hrun Ha).
  - assert (Hgo : b_phase b <> Finished -> exists p, prod_background e (b_prod b) = Some (p, tt) /\
      step_ok v (n + 1) ts b (mkBench p (b_workers b) (b_opsDone b) (b_phase b)) None).
    { intros Hne. destruct (prod_background_ok _ _ _ _ e (bo_prod _ _ _ _ Hok Hne) He) as (p & Hp & Hk & Hp').
      exists p. split; [done|]. split; [|done|done]. destruct Hw. split; try done. by rewrite <- bo_kind0. }
    destruct (b_phase b) eqn:Hph.
    3: { eexists _, _. split; [reflexivity|]. by split. }
    all: rewrite (bo_kind _ _ _ _ Hok), (bo_ticker _ _ _ _ Hok); cbn [mbind option_bind].
    all: destruct (Hgo ltac:(done)) as (p & Hp & Hs); rewrite Hp; eexists _, _; by split.
  - destruct (b_phase b) eqn:Hph; [|eexists _, _; split; [reflexivity|]; by split..].
    destruct (all_stopped b) eqn:Ha; [|eexists _, _; split; [reflexivity|]; by split].
    destruct (summary_ok _ _ _ _ Hok ltac:(lia)) as (s & -> & Hs). eexists _, _. split; [reflexivity|].
    split; [|done|by intros x [= <-]]. destruct Hw. split; try done. cbn. intros _. apply bo_prod0. congruence.
  - destruct (b_phase b) eqn:Hph; [eexists _, _; split; [reflexivity|]; by split| |eexists _, _; split; [reflexivity|]; by split].
    rewrite (bo_kind _ _ _ _ Hok), (bo_ticker _ _ _ _ Hok); cbn [mbind option_bind].
    destruct (stop_waits _) eqn:Hsw; [eexists _, _; split; [reflexivity|]; by split|]. destruct He as [Hnd Hord].
    destruct (prod_stop_ok _ _ _ _ order (bo_prod _ _ _ _ Hok ltac:(congruence)) Hsw Hnd Hord) as (p & Hp & Hk & Hset).
    rewrite Hp. eexists _, _. split; [reflexivity|]. split; [|done|done]. destruct Hw. split; cbn; try done.
    + by rewrite Hk.
    + intros _. apply bo_phase0. congruence.
Qed.

Definition turns_of (es : list BenchEvent) (ts : nat -> Z) : nat -> Z := foldl (fun ts e => turns_after e ts) ts es.

Lemma bench_run_ok v es n ts b : bench_ok v n ts b -> n + Z.of_nat (length es) < 2 ^ 29 -> Forall bench_event_ok es ->
  exists b' ss, bench_run rng f es b = Some (b', ss) /\ bench_ok v (n + Z.of_nat (length es)) (turns_of es ts) b' /\
    (all_stopped b = true -> b_workers b' = b_workers b) /\ Forall (fun s => sm_ops s = b_opsDone b') ss.
Proof.
  revert n ts b. induction es as [|e es IH]; intros n ts b Hok Hn Hes; cbn [bench_run length].
  - exists b, []. split_and!; [done| |done|constructor]. by rewrite Z.add_0_r.
  - inversion_clear Hes as [|?? He Hes']. cbn [length] in Hn.
    destruct (bench_event_run v n ts b e Hok ltac:(lia) He) as (b1 & s & Hev & [Hok1 Hw1 Hs1]).
    destruct (IH _ _ b1 Hok1 ltac:(lia) Hes') as (b2 & ss & Hrun & Hok2 & Hw2 & Hss). rewrite Hev. cbn [mbind option_bind]. rewrite Hrun.
    eexists _, _. split; [reflexivity|]. split.
    { by replace (n + Z.of_nat (S (length es))) with (n + 1 + Z.of_nat (length es)) by lia. }
    assert (Hfr : all_stopped b1 = true -> b_opsDone b2 = b_opsDone b1 /\ b_workers b2 = b_workers b1).
    { intros Ha. pose proof (Hw2 Ha) as Heq. split; [|done]. rewrite (bo_done _ _ _ _ Hok2), (bo_done _ _ _ _ Hok1).
      unfold executed. by rewrite Heq. }
    split.
    + intros Ha. assert (Ha1 : all_stopped b1 = true) by (unfold all_stopped; by rewrite Hw1). rewrite (proj2 (Hfr Ha1)). by apply Hw1.
    + destruct s as [x|]; [|done]. destruct (Hs1 x eq_refl) as [Ha Hx]. constructor; [|done]. by rewrite Hx, (proj1 (Hfr Ha)).
Qed.
End bench.

(** ** The start *)
Lemma bench_keys_eq n : 0 <= n -> exists keys, bench_keys n = Some keys /\ Z.of_nat (length keys) = n.
Proof. intros Hn. unfold bench_keys. rewrite (proj2 (Z.ltb_ge n 0)) by done. eexists. split; [done|]. rewrite length_fmap, length_seq. lia. Qed.

Lemma mapM_None_iff {A B} (g : A -> option B) l : mapM g l = None <-> Exists (fun x => g x = None) l.
Proof.
  split.
  - intros Hn. destruct (decide (Forall (fun x => is_Some (g x)) l)) as [Hall|Hnot].
    + apply (mapM_is_Some_2 g) in Hall as [? ?]. congruence.
    + apply not_Forall_Exists in Hnot; [|intros; apply _]. eapply Exists_impl; [|exact Hnot]. intros x Hx. cbn in Hx.
      by apply eq_None_not_Some.
  - intros He. apply eq_None_not_Some. intros Hs%mapM_is_Some_1. apply list.Exists_exists in He as (x & Hin & Hx).
    rewrite list.Forall_forall in Hs. destruct (Hs x Hin). congruence.
Qed.

Section start.
Context (rng : Z -> Z -> nat -> Z -> Z) (Hrng : forall a b k n, 0 < n -> 0 <= rng a b k n < n).

Lemma drawn_op_ok f keys g i : keys <> [] ->
  exists op, drawn_op rng f keys g i = Some op /\ op.1 ∈ keys /\ in64 op.2.
Proof.
  intros Hk. unfold drawn_op, IntN. assert (0 < Z.of_nat (length keys)) by (destruct keys; [done|cbn; lia]).
  rewrite (proj2 (Z.leb_gt (Z.of_nat (length keys)) 0)) by lia. cbn [mbind option_bind].
  set (ki := rng _ _ _ (Z.of_nat (length keys))). assert (Hki : 0 <= ki < Z.of_nat (length keys)) by by apply Hrng.
  destruct (lookup_lt_is_Some_2 keys (Z.to_nat ki)) as [key Hkey]; [lia|]. rewrite Hkey. cbn.
  eexists. split; [reflexivity|]. split; [by eapply list_elem_of_lookup_2|]. cbn. destruct (_ <? f_churnPct f); unfold in64; lia.
Qed.

Lemma draw_ops_ok f keys share g : keys <> [] \/ share <= 0 ->
  exists ops, draw_ops rng f keys share g = Some ops /\ length ops = Z.to_nat share /\
    Forall (fun op => op.1 ∈ keys /\ in64 op.2) ops.
Proof.
  intros Hk. unfold draw_ops. destruct (decide (share <= 0)) as [Hs|Hs].
  { replace (Z.to_nat share) with 0%nat by lia. exists []. split_and!; [done|done|constructor]. }
  destruct Hk as [Hk|]; [|lia]. destruct (mapM_is_Some_2 (drawn_op rng f keys g) (seq 0 (Z.to_nat share))) as [ops Hops].
  { apply list.Forall_forall. intros i _. destruct (drawn_op_ok f keys g i Hk) as (op & Ho & _). by exists op. }
  exists ops. apply mapM_Some in Hops as Hf. split_and!; [done| |].
  - apply Forall2_length in Hf. by rewrite length_seq in Hf.
  - apply list.Forall_lookup. intros j op Hj. destruct (Forall2_lookup_r _ _ _ _ _ Hf Hj) as (i & _ & Hi).
    destruct (drawn_op_ok f keys g i Hk) as (op' & Ho & Hop). cbn in Hi. by assert (op = op') as -> by congruence.
Qed.

(** A worker's slice of latencies cannot be made. *)
Definition sample_overflows (f : HarnessFlags) (share : Z) : bool :=
  recordLatency f && negb (durationMode f && (capPerWorker f >? 0)) &&
  (quot64 (share +! sample_step f -! 1) (sample_step f) <? 0).

(** The flags with which the start panics, the name of the variant being good. *)
Definition start_panics (f : HarnessFlags) (v : variantType) : Prop :=
  f_keysN f < 0 \/ (v = variantCRDT /\ 0 < f_keysN f /\ f_replicas f < 0) \/
  f_opCount f < 0 \/ f_workers f <= 0 \/
  (f_keysN f = 0 /\ 0 < share_of f) \/ sample_overflows f (Z.max 0 (share_of f)) = true.

Lemma new_producer_None gomaxprocs now f v keys :
  new_producer gomaxprocs now f v keys = None <-> v = variantCRDT /\ keys <> [] /\ f_replicas f < 0.
Proof.
  destruct v; cbn [new_producer]; try (split; [done|intros (? & _); done]). unfold newPN. destruct keys as [|k keys].
  - split; [done|]. by intros (_ & ? & _).
  - destruct (Z.ltb_spec (f_replicas f) 0); cbn; [by split|]. split; [done|]. intros (_ & _ & ?). lia.
Qed.

Lemma startBG_None f v : startBG f v = None <-> exists d, bg_interval f v = Some d /\ d <= 0.
Proof.
  unfold startBG. destruct (bg_interval f v) as [d|]; [|split; [done|by intros (? & ? & _)]].
  destruct (Z.leb_spec d 0); split; intros H0; try done; [by exists d|]. destruct H0 as (? & [= <-] & ?). lia.
Qed.

(** A background goroutine whose interval is not positive. *)
Lemma update_kind e key delta r r' : prod_update e key delta r = Some (r', tt) -> kind_of (prod r') = kind_of (prod r).
Proof.
  unfold prod_update, call_of. destruct (prod r); intros Hu; (destruct (update _ _ _ _) as [[]|]; [|done]); by injection Hu as <-.
Qed.

Lemma turn_kind f id late e d b b' : worker_turn rng f id late e d b = Some b' ->
  kind_of (prod (b_prod b')) = kind_of (prod (b_prod b)) /\ b_phase b' = b_phase b.
Proof.
  unfold worker_turn. destruct (b_workers b !! id) as [w|]; [|by intros [= <-]].
  destruct (w_stopped w); [by intros [= <-]|]. destruct (turn_index f late w) as [idx|]; [|by intros [= <-]].
  destruct (if idx <? 0 then None else _) as [op|]; [|done]. cbn [mbind option_bind].
  destruct (prod_update e op.1 op.2 (b_prod b)) as [[p []]|] eqn:Hu; [|done]. cbn [mbind option_bind].
  destruct (keep_sample _ _ _ _ _). intros [= <-]. cbn. by rewrite (update_kind _ _ _ _ _ Hu).
Qed.

Definition unticked (f : HarnessFlags) (b : Bench) : Prop :=
  startBG f (kind_of (prod (b_prod b))) = None /\ b_phase b <> Finished.

Lemma unticked_event f e b b' s : unticked f b -> bench_event rng f e b = Some (b', s) -> unticked f b'.
Proof.
  intros [Hn Hf]. unfold unticked. destruct e as [id late env d|e| |order]; cbn [bench_event].
  - destruct (worker_turn rng f id late env d b) as [b1|] eqn:Ht; [|done]. intros [= <- <-].
    destruct (turn_kind _ _ _ _ _ _ _ Ht) as [-> ->]. done.
  - rewrite Hn. by destruct (b_phase b).
  - destruct (b_phase b) eqn:Hp; [|by intros [= <- <-]; rewrite Hp..]. destruct (all_stopped b); [|by intros [= <- <-]; rewrite Hp].
    destruct (summary f b); [|done]. by intros [= <- <-].
  - rewrite Hn. destruct (b_phase b) eqn:Hp; [|done..]. by intros [= <- <-]; rewrite Hp.
Qed.

Lemma unticked_run f es b b' ss : unticked f b -> bench_run rng f es b = Some (b', ss) -> unticked f b'.
Proof.
  revert b ss. induction es as [|e es IH]; intros b ss Hu; cbn [bench_run]; [by intros [= <- <-]|].
  destruct (bench_event rng f e b) as [[b1 s]|] eqn:He; [|done]. cbn [mbind option_bind].
  destruct (bench_run rng f es b1) as [[b2 ss2]|] eqn:Hr; [|done]. intros [= <- <-].
  eapply IH; [|done]. by eapply unticked_event.
Qed.

Lemma draws_None f keys share workers : 0 < workers ->
  mapM (draw_ops rng f keys share) (seq 0 (Z.to_nat workers)) = None <-> keys = [] /\ 0 < share.
Proof.
  intros Hw. rewrite mapM_None_iff, list.Exists_exists. split.
  - intros (g & _ & Hg). destruct (decide (keys = [] /\ 0 < share)) as [|Hn]; [done|].
    destruct (draw_ops_ok f keys share g) as (ops & Ho & _); [|congruence].
    destruct (decide (keys = [])); [right|by left]. destruct (Z.le_gt_cases share 0); tauto.
  - intros [-> Hs]. exists 0%nat. split; [apply elem_of_seq; lia|]. unfold draw_ops. apply mapM_None_iff, list.Exists_exists.
    exists 0%nat. split; [apply elem_of_seq; lia|]. done.
Qed.

Lemma producer_kind gomaxprocs now f v keys p : new_producer gomaxprocs now f v keys = Some p -> kind_of p = v.
Proof.
  destruct v; cbn [new_producer]; try (by intros [= <-]). destruct (newPN _ _); [|done]. by intros [= <-].
Qed.

Lemma unticked_start gomaxprocs now f v b0 : bench_start rng gomaxprocs now f = Some (Launched v b0) ->
  startBG f v = None -> unticked f b0.
Proof.
  unfold bench_start. destruct (variant_of (f_variantStr f)) as [v'|]; [|done]. intros H Hn.
  apply option.bind_Some in H as (keys & _ & H). apply option.bind_Some in H as (p & Hp & H).
  do 5 (apply option.bind_Some in H as (? & _ & H)). injection H as -> <-. split; cbn; [|done].
  by rewrite (producer_kind _ _ _ _ _ _ Hp).
Qed.

(** C39: what the harness does with its flags, whatever it draws (numbers from the range asked for).  It answers with its usage exactly when the variant has no such name.  With a good name, [main] panics before the workers run exactly on a negative number of keys or operations, on no worker, on negative replicas of the PN-counter, when operations are to be drawn from no keys, and on a sampling step that overflows.  An interval that is not positive is found out later, by the goroutine that makes its ticker: with one, the first step of a background goroutine is a panic, and the deferred stop is never over. *)
Theorem bench_start_outcome gomaxprocs now f :
  (bench_start rng gomaxprocs now f = Some Usage <-> variant_of (f_variantStr f) = None) /\
  (forall v, variant_of (f_variantStr f) = Some v ->
    (bench_start rng gomaxprocs now f = None <-> start_panics f v) /\
    forall d es b0 b ss, bg_interval f v = Some d -> d <= 0 ->
      bench_start rng gomaxprocs now f = Some (Launched v b0) -> bench_run rng f es b0 = Some (b, ss) ->
      b_phase b <> Finished /\ forall e, bench_event rng f (BBack e) b = None).
Proof.
  pose proof (unticked_start gomaxprocs now f) as Htick.
  unfold bench_start in *. destruct (variant_of (f_variantStr f)) as [v|]; [|by split]. split.
  { split; [|done]. intros Hu. repeat (apply option.bind_Some in Hu as (? & _ & Hu)). done. }
  intros v' [= <-]. split; [clear Htick|].
  2: { intros d es b0 b ss Hd Hle Hst Hrun. destruct (unticked_run f es b0 b ss) as [Hn Hf]; [|done|].
       { apply (Htick v b0); [done|]. apply startBG_None. by exists d. }
       split; [done|]. intros e. cbn [bench_event]. rewrite Hn. by destruct (b_phase b). }
  unfold start_panics.
  destruct (Z.lt_ge_cases (f_keysN f) 0) as [Hk|Hk].
  { unfold bench_keys. rewrite (proj2 (Z.ltb_lt (f_keysN f) 0)) by done. split; [by left|by intros _]. }
  destruct (bench_keys_eq (f_keysN f) Hk) as (keys & -> & Hlen). cbn [mbind option_bind].
  assert (Hnil : keys = [] <-> f_keysN f = 0) by (rewrite <- Hlen; destruct keys; cbn; split; done || lia).
  pose proof (new_producer_None gomaxprocs now f v keys) as Hnp. destruct (new_producer _ _ _ _ _) as [p|]; cbn [mbind option_bind].
  2: { destruct (proj1 Hnp eq_refl) as (? & Hkn & ?). split; [|done]. intros _. right. left. split_and!; [done| |done].
       destruct (Z.eq_dec (f_keysN f) 0); [tauto|lia]. }
  assert (Hc : ~ (v = variantCRDT /\ 0 < f_keysN f /\ f_replicas f < 0)).
  { intros (? & ? & ?). assert (Some p = None); [|done]. apply Hnp. split_and!; [done| |done]. intros ?%Hnil. lia. }
  clear Hnp. destruct (Z.ltb_spec (f_opCount f) 0); cbn [mbind option_bind]; [by split; [tauto|]|].
  unfold share_of in *. destruct (opsPerWorker _ _ _) as [share|] eqn:Hsh; cbn [mbind option_bind default].
  2: { unfold opsPerWorker in Hsh. destruct (Z.eqb_spec (f_workers f) 0); [|done]. split; [|done]. intros _. do 3 right. left. lia. }
  assert (f_workers f <> 0) by (intros He; unfold opsPerWorker in Hsh; by rewrite He in Hsh).
  destruct (Z.ltb_spec (f_workers f) 0); cbn [mbind option_bind]; [split; [|done]; intros _; do 3 right; left; lia|].
  pose proof (draws_None f keys share (f_workers f) ltac:(lia)) as Hdr.
  destruct (mapM (draw_ops _ _ _ _) _) as [opss|] eqn:Hm; cbn [mbind option_bind].
  2: { destruct (proj1 Hdr eq_refl). split; [|done]. intros _. do 4 right. left. tauto. }
  assert (Hno : ~ (f_keysN f = 0 /\ 0 < share)) by (intros [Hz Hs]; assert (Some opss = None); [|done]; tauto).
  assert (Hsame : Forall (fun ops => first_samples f ops = if sample_overflows f (Z.max 0 share) then None else Some tt) opss).
  { apply list.Forall_lookup. intros g ops Hg. apply mapM_Some in Hm. destruct (Forall2_lookup_r _ _ _ _ _ Hm Hg) as (i & _ & Hi).
    cbn in Hi. destruct (draw_ops_ok f keys share i) as (ops' & Ho & Hl & _); [destruct (decide (keys = [])); [right|by left]|].
    { destruct (Z.le_gt_cases share 0); [done|]. tauto. }
    assert (ops' = ops) as -> by congruence. unfold first_samples, sample_overflows. rewrite Hl.
    by replace (Z.of_nat (Z.to_nat share)) with (Z.max 0 share) by lia. }
  assert (Hne : opss <> []).
  { apply mapM_Some, Forall2_length in Hm. rewrite length_seq in Hm. intros ->. cbn in Hm. lia. }
  destruct (sample_overflows f (Z.max 0 share)) eqn:Hov.
  - assert (Hf : mapM (first_samples f) opss = None).
    { apply mapM_None_iff. destruct opss as [|ops opss]; [done|]. inversion_clear Hsame. by constructor. }
    rewrite Hf. split; [tauto|done].
  - assert (Hf : is_Some (mapM (first_samples f) opss)).
    { apply mapM_is_Some_2. eapply list.Forall_impl; [exact Hsame|]. intros ops Ho. cbn. rewrite Ho. by eexists. }
    destruct Hf as [us ->]. cbn [mbind option_bind]. split; [done|]. intros H7; exfalso. destruct H7 as [|[|[|[|[|]]]]]; try done; try lia. all: unfold id in *; congruence || tauto.
Qed.

(** Flags the command runs with. *)
Record flags_ok (f : HarnessFlags) (v : variantType) : Prop := {
  fo_keys : 0 < f_keysN f;
  fo_workers : 0 < f_workers f;
  fo_ops : 0 <= f_opCount f < 2 ^ 62;
  fo_sample : f_sampleEvery f < 2 ^ 62;
  fo_interval d : bg_interval f v = Some d -> 0 < d;
  fo_batch : in64 (f_batchSize f);
  fo_replicas : v = variantCRDT -> 0 < f_replicas f;
  fo_scalar : in64 (f_initialScalar f)
}.

Lemma share_bounds f v : flags_ok f v ->
  opsPerWorker (f_opCount f) (f_workers f) (f_duration f) = Some (share_of f) /\ 0 <= share_of f < 2 ^ 62 /\
  (durationMode f = true -> 0 < share_of f) /\ (durationMode f = false -> share_of f = f_opCount f / f_workers f).
Proof.
  intros [_ Hw Ho _ _ _ _ _]. unfold share_of, opsPerWorker, durationMode. rewrite (proj2 (Z.eqb_neq (f_workers f) 0)) by lia. cbn [default].
  unfold id. destruct (f_duration f >? 0); [split_and!; done || lia|]. unfold quot64. rewrite Z.quot_div_nonneg by lia.
  pose proof (Z.div_pos (f_opCount f) (f_workers f) ltac:(lia) ltac:(lia)).
  assert (f_opCount f / f_workers f <= f_opCount f) by (apply Z.div_le_upper_bound; nia).
  rewrite wrap64_id by (unfold in64; lia). split_and!; done || lia.
Qed.

Lemma no_overflow f v : flags_ok f v -> sample_overflows f (Z.max 0 (share_of f)) = false.
Proof.
  intros Hf. destruct (share_bounds f v Hf) as (_ & Hs & _). destruct Hf as [_ _ _ Hse _ _ _ _]. unfold sample_overflows.
  rewrite Z.max_r by lia. apply andb_false_intro2, Z.ltb_ge.
  assert (Hst : 1 <= sample_step f < 2 ^ 62) by (unfold sample_step; repeat case_Z; lia).
  replace (share_of f +! sample_step f -! 1) with (share_of f + sample_step f - 1) by (unwrap; lia).
  unfold quot64. rewrite Z.quot_div_nonneg by lia.
  pose proof (Z.div_pos (share_of f + sample_step f - 1) (sample_step f) ltac:(lia) ltac:(lia)).
  assert ((share_of f + sample_step f - 1) / sample_step f <= share_of f + sample_step f - 1) by (apply Z.div_le_upper_bound; nia).
  rewrite wrap64_id by (unfold in64; lia). lia.
Qed.

Lemma new_producer_ok gomaxprocs now f v keys : flags_ok f v ->
  exists p, new_producer gomaxprocs now f v keys = Some p /\ kind_of p = v /\ prod_ok keys (fun _ => 0) 0 (mkRun p newPersister).
Proof.
  intros [_ _ _ _ _ Hb Hr Hs]. destruct v; cbn [new_producer].
  - eexists. split; [reflexivity|]. split; [done|]. eapply run_inv_same; [|by apply start_inv]. done.
  - eexists. split; [reflexivity|]. split; [done|]. unfold prod_ok. cbn. reflexivity.
  - eexists. split; [reflexivity|]. split; [done|]. unfold prod_ok, size_of. cbn. split_and!; [done|lia..|done].
  - specialize (Hr eq_refl). destruct (newPN_ok keys (f_replicas f) ltac:(lia)) as (c & -> & Hc). eexists. split; [reflexivity|].
    split; [done|]. unfold prod_ok. cbn [prod datastore]. by rewrite (pn_replicas _ _ _ _ Hc).
  - eexists. split; [reflexivity|]. split; [done|]. unfold prod_ok. cbn. reflexivity.
  - eexists. split; [reflexivity|]. split; [done|]. unfold prod_ok. cbn. reflexivity.
Qed.

Lemma nothing_ran opss : concat (ran <$> ((fun ops => mkWorker ops 0 [] 0 false) <$> opss)) = [].
Proof. by induction opss as [|ops opss IH]; [|cbn]. Qed.

Lemma bench_start_ok gomaxprocs now f v : variant_of (f_variantStr f) = Some v -> flags_ok f v ->
  exists b, bench_start rng gomaxprocs now f = Some (Launched v b) /\ bench_ok f v 0 (fun _ => 0) b.
Proof.
  intros Hv Hf. destruct (share_bounds f v Hf) as (Hsh & Hs & Htimed & _). pose proof (no_overflow f v Hf) as Hov.
  destruct (bench_keys_eq (f_keysN f)) as (keys & Hk & Hlen); [destruct Hf; lia|].
  destruct (new_producer_ok gomaxprocs now f v keys Hf) as (p & Hp & Hkind & Hok).
  assert (Hne : keys <> []) by (intros ->; destruct Hf; cbn in Hlen; lia).
  assert (Hbg : startBG f v = Some tt).
  { destruct (startBG f v) as [[]|] eqn:Hbg; [done|]. apply startBG_None in Hbg as (d & Hd & Hle).
    pose proof (fo_interval _ _ Hf d Hd). lia. }
  destruct (mapM_is_Some_2 (draw_ops rng f keys (share_of f)) (seq 0 (Z.to_nat (f_workers f)))) as [opss Hops].
  { apply list.Forall_forall. intros g _. destruct (draw_ops_ok f keys (share_of f) g) as (ops & Ho & _); [by left|by exists ops]. }
  apply mapM_Some in Hops as Hall.
  assert (Heach : Forall (fun ops => Z.of_nat (length ops) = share_of f /\ Forall (fun op => op.1 ∈ keys /\ in64 op.2) ops) opss).
  { apply list.Forall_lookup. intros i ops Hi. destruct (Forall2_lookup_r _ _ _ _ _ Hall Hi) as (g & _ & Hg). cbn in Hg.
    destruct (draw_ops_ok f keys (share_of f) g) as (ops' & Ho & Hl & Hg'); [by left|].
    assert (ops' = ops) as -> by congruence. split; [lia|done]. }
  destruct (mapM_is_Some_2 (first_samples f) opss) as [us Hus].
  { eapply list.Forall_impl; [exact Heach|]. intros ops [Hl _]. cbn. unfold first_samples. rewrite Hl.
    unfold sample_overflows in Hov. rewrite Z.max_r in Hov by lia. rewrite Hov. by eexists. }
  unfold bench_start. rewrite Hv, Hk. cbn [mbind option_bind]. rewrite Hp. cbn [mbind option_bind].
  rewrite (proj2 (Z.ltb_ge (f_opCount f) 0)) by (destruct Hf; lia). cbn [mbind option_bind]. rewrite Hsh. cbn [mbind option_bind].
  rewrite (proj2 (Z.ltb_ge (f_workers f) 0)) by (destruct Hf; lia). cbn [mbind option_bind]. rewrite Hops. cbn [mbind option_bind].
  rewrite Hus. cbn [mbind option_bind]. eexists. split; [reflexivity|].
  assert (Hkeys : keys_of f = keys) by (unfold keys_of; by rewrite Hk).
  split; cbn [b_workers b_opsDone b_prod b_phase prod]; unfold executed; cbn [b_workers]; rewrite ?nothing_ran; try done.
  - rewrite length_fmap. apply Forall2_length in Hall. by rewrite length_seq in Hall.
  - intros i w Hi. rewrite list_lookup_fmap in Hi. destruct (opss !! i) as [ops|] eqn:Ho; [|done]. injection Hi as <-.
    rewrite list.Forall_lookup in Heach. destruct (Heach _ _ Ho) as [Hl Hg].
    split; cbn [w_ops w_i w_loc w_seen w_stopped]; try done; rewrite ?Hkeys; try done; [cbn; lia|].
    intros _ Hc. cbn. lia.
  - intros _. rewrite Hkeys. exact Hok.
Qed.

(** ** The whole run *)
Definition turns_taken (i : nat) (es : list BenchEvent) : Z :=
  Zsum ((fun e => match e with BTurn j _ _ _ => if decide (i = j) then 1 else 0 | _ => 0 end) <$> es).
Lemma turns_of_eq es ts i : turns_of es ts i = ts i + turns_taken i es.
Proof.
  unfold turns_of, turns_taken. revert ts. induction es as [|e es IH]; intros ts; cbn [foldl fmap list_fmap]; [rewrite Zsum_nil; lia|].
  rewrite IH, Zsum_cons. destruct e; cbn [turns_after]; try lia. unfold turned. case_decide; lia.
Qed.

Lemma ran_prefix w : 0 <= w_i w <= Z.of_nat (length (w_ops w)) -> ran w = take (Z.to_nat (w_i w)) (w_ops w).
Proof.
  intros Hi. unfold ran. assert (Hn : (Z.to_nat (w_i w) <= length (w_ops w))%nat) by lia. revert Hn. generalize (Z.to_nat (w_i w)) as n.
  induction n as [|n IH]; intros Hn; [done|]. rewrite seq_S, omap_app, IH by lia. cbn [Nat.add omap list_omap].
  rewrite Nat.mod_small by lia. destruct (lookup_lt_is_Some_2 (w_ops w) n) as [op Hop]; [lia|].
  rewrite Hop. symmetry. by apply take_S_r.
Qed.

Lemma all_ran f ts ws : (forall i w, ws !! i = Some w -> worker_ok f (ts i) w) -> durationMode f = false -> forallb w_stopped ws = true ->
  Z.of_nat (length (concat (ran <$> ws))) = Z.of_nat (length ws) * share_of f.
Proof.
  intros Hw Hd. revert ts Hw. induction ws as [|w ws IH]; intros ts Hw Hs; [done|]. cbn in Hs. apply andb_prop in Hs as [Hs Hss].
  cbn. rewrite length_app. specialize (IH (fun i => ts (S i)) (fun i => Hw (S i)) Hss).
  destruct (Hw 0%nat w eq_refl) as [_ _ _ Hr _ Hf _ _]. specialize (Hf Hd). rewrite Hs in Hf. lia.
Qed.

(** C30: the harness gives its producer every operation it counts, once, and loses none.
    Take any flags the command runs with, any draws, and any interleaving of the
    workers' turns with the steps of the background goroutines, the summary and the
    deferred stop (fewer than [2^29] events): nothing panics.  The counter printed is
    the number of operations run.  With a number of operations, each worker runs its
    own in order, is done after one turn more than its share, and the total is the
    number of workers times the share; with a duration, no worker keeps more latencies
    than its part of the bound.  Once the stop has run, the writes are the
    operations (batching and the baselines), each key's PN-counter is the sum of the
    operations on it, and so is what the VSA producer has committed for it, with
    nothing pending. *)
Theorem bench_keeps_every_operation gomaxprocs now f v es :
  variant_of (f_variantStr f) = Some v -> flags_ok f v -> Forall (bench_event_ok f) es -> Z.of_nat (length es) < 2 ^ 29 ->
  exists b0 b ss, bench_start rng gomaxprocs now f = Some (Launched v b0) /\ bench_run rng f es b0 = Some (b, ss) /\
    kind_of (prod (b_prod b)) = v /\
    b_opsDone b = Z.of_nat (length (executed b)) /\
    (durationMode f = false ->
      (forall i w, b_workers b !! i = Some w -> ran w = take (Z.to_nat (w_i w)) (w_ops w)) /\
      ((forall i, Z.of_nat i < f_workers f -> f_opCount f / f_workers f < turns_taken i es) -> all_stopped b = true) /\
      (all_stopped b = true -> b_opsDone b = f_workers f * (f_opCount f / f_workers f))) /\
    (durationMode f = true -> 0 < capPerWorker f ->
      Forall (fun w => Z.of_nat (length (w_loc w)) <= capPerWorker f) (b_workers b)) /\
    Forall (fun s => sm_ops s = b_opsDone b) ss /\
    (b_phase b = Finished -> settled (keys_of f) (delta_on (executed b)) (b_opsDone b) (b_prod b)).
Proof.
  intros Hv Hf Hes Hn. destruct (bench_start_ok gomaxprocs now f v Hv Hf) as (b0 & Hst & Hok0).
  destruct (bench_run_ok rng Hrng f v es 0 _ b0 Hok0 ltac:(lia) Hes) as (b & ss & Hrun & Hok & _ & Hss).
  destruct (share_bounds f v Hf) as (_ & Hsh & _ & Hfix). pose proof (fo_workers _ _ Hf) as Hwk.
  exists b0, b, ss. destruct Hok as [Hlen Hw Hd _ Hk Hph _ Hset]. split_and!; try done.
  - intros Hm. rewrite <- (Hfix Hm). split_and!.
    + intros i w Hi. destruct (Hw _ _ Hi) as [Ho _ Hi0 _ _ Hf6 _ _]. apply ran_prefix. specialize (Hf6 Hm). lia.
    + intros Hturns. unfold all_stopped. apply forallb_forall. intros w Hin. apply list_elem_of_In, list_elem_of_lookup_1 in Hin as [i Hi].
      destruct (Hw _ _ Hi) as [_ _ _ _ _ Hf6 _ _]. specialize (Hf6 Hm). destruct (w_stopped w); [done|].
      apply lookup_lt_Some in Hi. specialize (Hturns i ltac:(lia)). rewrite turns_of_eq in Hf6. lia.
    + intros Ha. rewrite Hd. unfold executed. erewrite all_ran by done. rewrite Hlen. lia.
  - intros Hm Hc. apply list.Forall_lookup. intros i w Hi. destruct (wo_reservoir _ _ _ (Hw _ _ Hi) Hm Hc). lia.
  - intros Hfin. rewrite Hd. by apply Hset.
Qed.
End start.

(** ** A run *)
Definition demo_rng (a b : Z) (k : nat) (n : Z) : Z := (Z.of_nat k * 3 + b * 5) mod n.
Lemma demo_rng_ok a b k n : 0 < n -> 0 <= demo_rng a b k n < n.
Proof. intros Hn. apply Z.mod_pos_bound. lia. Qed.

Definition demo_bench_flags : HarnessFlags :=
  mkHarnessFlags "VSA" 5 2 2 9 1 1 0 (10 * ms) (15 * ms) 100 64 (10 * ms) 4 (25 * ms) (fl 10000) 100 0 1 3 0.
Definition demo_turn (id : nat) (d : Z) : BenchEvent := BTurn id false (mkCallEnv 0 (mkChooserEnv (Some 3) 0 0 0)) d.
Definition demo_order : list string := ["key-1"; "key-0"].
Definition demo_bench_events : list BenchEvent :=
  [demo_turn 0 120; demo_turn 1 90; BBack (BgTick 5 demo_order); BBack (BgLoop 6); demo_turn 0 300; BBack (BgLoop 7);
   BBack (BgSample demo_order); BBack (BgLoop 8); demo_turn 1 70; BBack (BgLoop 9); BStop demo_order; BBack (BgLoop 10);
   demo_turn 1 1; BSummary; demo_turn 0 1; demo_turn 0 1; BSummary; BBack (BgLoop 11); BBack (BgLoop 12); BStop demo_order].

Lemma demo_keys k : k ∈ demo_order <-> k ∈ keys_of demo_bench_flags.
Proof. replace (keys_of demo_bench_flags) with ["key-0"; "key-1"] by (vm_compute; reflexivity). unfold demo_order. set_solver. Qed.
Lemma demo_flags_ok : flags_ok demo_bench_flags variantVSA.
Proof. split; try (vm_compute; intuition discriminate). intros d [= <-]. reflexivity. Qed.
Lemma demo_bench_events_ok : Forall (bench_event_ok demo_bench_flags) demo_bench_events.
Proof.
  assert (Ho : Forall (.∈ keys_of demo_bench_flags) demo_order) by (apply list.Forall_forall; intros k; apply demo_keys).
  repeat (apply list.Forall_cons; split; [cbn; first [done|split; [repeat constructor; set_solver|exact demo_keys]]|]). constructor.
Qed.
Lemma demo_bench_ends : match bench_start demo_rng 1 0 demo_bench_flags with
  | Some (Launched _ b0) => (fun bs => (b_phase bs.1, executed bs.1)) <$> bench_run demo_rng demo_bench_flags demo_bench_events b0
  | _ => None
  end = Some (Finished, [("key-1", -1); ("key-1", 1); ("key-0", 1); ("key-0", 1)]).
Proof. vm_compute. reflexivity. Qed.

Lemma bench_keeps_every_operation_witness :
  exists b0 b ss, bench_start demo_rng 1 0 demo_bench_flags = Some (Launched variantVSA b0) /\
    bench_run demo_rng demo_bench_flags demo_bench_events b0 = Some (b, ss) /\ all_stopped b = true /\ b_opsDone b = 4 /\
    Forall (fun s => sm_ops s = b_opsDone b) ss /\
    settled (keys_of demo_bench_flags) (delta_on [("key-1", -1); ("key-1", 1); ("key-0", 1); ("key-0", 1)]) 4 (b_prod b).
Proof.
  destruct (bench_keeps_every_operation demo_rng demo_rng_ok 1 0 demo_bench_flags variantVSA demo_bench_events)
    as (b0 & b & ss & H0 & Hrun & _ & Hd & Hfix & _ & Hss & Hset).
  - vm_compute. reflexivity.
  - exact demo_flags_ok.
  - exact demo_bench_events_ok.
  - vm_compute. reflexivity.
  - pose proof demo_bench_ends as He. rewrite H0, Hrun in He. cbn in He. injection He as Hph Hex.
    destruct (Hfix eq_refl) as (_ & Hstop & Hall).
    assert (Ha : all_stopped b = true).
    { apply Hstop. intros [|[|i]] Hi; [vm_compute; reflexivity..|cbn in Hi; lia]. }
    pose proof (Hall Ha) as H4. change (f_workers _ * _) with 4 in H4.
    exists b0, b, ss. do 5 (split; [assumption|]). rewrite <- Hex, <- H4. apply Hset. exact Hph.
Defined.

(** Without a worker the division of the operations panics; with a commit interval of 0
    the harness starts, and the first step of the commit loop is the panic. *)
Definition no_workers : HarnessFlags := mkHarnessFlags "atomic" 5 0 2 9 1 1 0 0 0 100 64 0 4 0 (fl 10000) 100 0 1 3 0.
Definition no_interval : HarnessFlags := mkHarnessFlags "vsa" 4 2 2 9 10 1 0 0 1000 100 64 0 4 0 (fl 10000) 100 0 1 3 0.
Lemma bench_start_outcome_witness :
  bench_start demo_rng 1 0 no_workers = None /\
  exists b0, bench_start demo_rng 1 0 no_interval = Some (Launched variantVSA b0) /\
    forall e, bench_event demo_rng no_interval (BBack e) b0 = None.
Proof.
  split.
  - refine (proj2 (proj1 (proj2 (bench_start_outcome demo_rng demo_rng_ok 1 0 no_workers) variantAtomic eq_refl)) _).
    do 3 right. left. vm_compute. discriminate.
  - eexists. split; [vm_compute; reflexivity|].
    refine (proj2 (proj2 (proj2 (bench_start_outcome demo_rng demo_rng_ok 1 0 no_interval) variantVSA eq_refl) 0 [] _ _ [] eq_refl _ _ eq_refl)).
    + vm_compute. discriminate.
    + vm_compute. reflexivity.
Defined.

(** ** The figures of memory *)

(** [humanBytes] divides before it first names a unit, and then names the one above:
    one KiB reads as one MiB. *)
Lemma humanBytes_skips_KiB fmtf : humanBytes fmtf 1024 = fmtf 1%nat (fl 1) +:+ (" " +:+ "MiB").
Proof. reflexivity. Qed.
