(* ===== verification/AtomicLimiter.v ===== *)
(** * The baseline limiter of the benchmarks ([benchmarks/atomic_limiter.go])

    One atomic word and a compare-and-swap loop.  Goroutines that each make one
    call are interleaved action by action.  What is proved: every interleaving
    ends, within a bound that depends on the number of calls only, although a
    single loop has none; the word is never negative and accounts for every
    call. *)
From S2P Require Import Prelude.

(** ** The calls, action by action *)
Inductive Call :=
| CTry (n : Z)          (* [TryConsume n], at its entry *)
| CLoad (n : Z)         (* about to load *)
| CSwap (n old : Z)     (* about to compare and swap *)
| CRefund (n : Z)       (* [Refund n], at its entry *)
| CAdd (n : Z)          (* about to add *)
| CDone (taken given : Z) (ok : bool).   (* what it took and gave back, and its result *)

Definition NewAtomicLimiter (initial : Z) : Z := initial.
Definition Available (avail : Z) : Z := avail.

(** One action of a call on the word; a call that has returned has none. *)
Definition action (c : Call) (avail : Z) : option (Call * Z) :=
  match c with
  | CTry n => Some (if n <=? 0 then CDone 0 0 false else CLoad n, avail)
  | CLoad n => let old := avail in Some (if old <? n then CDone 0 0 false else CSwap n old, avail)
  | CSwap n old => if avail =? old then Some (CDone n 0 true, old -! n) else Some (CLoad n, avail)
  | CRefund n => Some (if n >? 0 then CAdd n else CDone 0 0 true, avail)
  | CAdd n => Some (CDone 0 n true, avail +! n)
  | CDone _ _ _ => None
  end.

(** The goroutine [i] runs its next action. *)
Definition act (i : nat) (s : Z * list Call) : option (Z * list Call) :=
  c ← s.2 !! i;
  '(c', avail') ← action c s.1;
  Some (avail', <[i := c']> s.2).

Fixpoint acts (sched : list nat) (s : Z * list Call) : option (Z * list Call) :=
  match sched with
  | [] => Some s
  | i :: sched => s' ← act i s; acts sched s'
  end.

Definition at_entry (c : Call) : Prop := match c with CTry n | CRefund n => in64 n | _ => False end.
Definition finished (c : Call) : bool := match c with CDone _ _ _ => true | _ => false end.

(** ** Termination *)

(** Actions a call needs at most, if nobody else writes. *)
Definition effort (avail : Z) (c : Call) : nat :=
  match c with
  | CTry _ => 4
  | CLoad _ => 2
  | CSwap _ old => if avail =? old then 1 else 3
  | CRefund _ => 4
  | CAdd _ => 1
  | CDone _ _ _ => 0
  end.
Definition unfinished (cs : list Call) : nat := length (filter (fun c => finished c = false) cs).
Definition efforts (avail : Z) (cs : list Call) : nat := sum_list (effort avail <$> cs).
Definition measure (s : Z * list Call) : nat :=
  (unfinished s.2 * (4 * length s.2 + 1) + efforts s.1 s.2)%nat.

Lemma effort_le avail c : (effort avail c <= 4)%nat.
Proof. destruct c; cbn; try lia. destruct (avail =? old); lia. Qed.

Lemma efforts_cons avail c cs : efforts avail (c :: cs) = (effort avail c + efforts avail cs)%nat.
Proof. done. Qed.

Lemma efforts_le avail cs : (efforts avail cs <= 4 * length cs)%nat.
Proof.
  induction cs as [|c cs IH]; [done|]. rewrite efforts_cons. cbn [length]. pose proof (effort_le avail c). lia.
Qed.

Lemma efforts_insert avail cs i c c' : cs !! i = Some c ->
  (efforts avail (<[i := c']> cs) + effort avail c = efforts avail cs + effort avail c')%nat.
Proof.
  revert i. induction cs as [|x cs IH]; intros [|i] H; try done.
  - injection H as ->. change (<[O := c']> (c :: cs)) with (c' :: cs). rewrite !efforts_cons. lia.
  - specialize (IH i H). change (<[S i := c']> (x :: cs)) with (x :: <[i := c']> cs). rewrite !efforts_cons. lia.
Qed.

Lemma unfinished_cons c cs : unfinished (c :: cs) = ((if finished c then 0 else 1) + unfinished cs)%nat.
Proof.
  unfold unfinished. rewrite list.filter_cons. destruct (finished c); [by rewrite decide_False|by rewrite decide_True].
Qed.

Lemma unfinished_insert cs i c c' : cs !! i = Some c ->
  (unfinished (<[i := c']> cs) + (if finished c then 0 else 1) = unfinished cs + (if finished c' then 0 else 1))%nat.
Proof.
  revert i. induction cs as [|x cs IH]; intros [|i] H; try done.
  - injection H as ->. change (<[O := c']> (c :: cs)) with (c' :: cs). rewrite !unfinished_cons. lia.
  - specialize (IH i H). change (<[S i := c']> (x :: cs)) with (x :: <[i := c']> cs).
    rewrite !unfinished_cons. lia.
Qed.

(** An action either ends its call or leaves the word alone and is one action
    less to do. *)
Lemma action_effort c avail c' avail' : action c avail = Some (c', avail') ->
  finished c = false /\
  (finished c' = true \/ (finished c' = false /\ avail' = avail /\ (effort avail c' < effort avail c)%nat)).
Proof.
  destruct c as [n|n|n old|n|n|]; cbn; try done.
  - intros [= <- <-]. split; [done|]. destruct (n <=? 0); cbn; auto with lia.
  - intros [= <- <-]. split; [done|]. destruct (avail <? n); cbn; [auto|]. right. rewrite Z.eqb_refl. split_and!; [done..|lia].
  - destruct (avail =? old) eqn:E; intros [= <- <-]; (split; [done|]); [by left|]. right. cbn. split_and!; [done..|lia].
  - intros [= <- <-]. split; [done|]. destruct (n >? 0); cbn; auto with lia.
  - intros [= <- <-]. split; [done|]. by left.
Qed.

Lemma act_measure i s s' : act i s = Some s' -> (measure s' < measure s)%nat /\ length s'.2 = length s.2.
Proof.
  unfold act. destruct (s.2 !! i) as [c|] eqn:Hc; [|done]. cbn.
  destruct (action c s.1) as [[c' avail']|] eqn:Ha; [|done]. cbn. intros [= <-].
  apply action_effort in Ha as [Hf Ha]. pose proof (unfinished_insert s.2 i c c' Hc) as Hu.
  unfold measure. cbn [fst snd]. rewrite length_insert. split; [|done]. rewrite Hf in Hu. destruct Ha as [Hf'|(Hf' & -> & He)].
  - rewrite Hf' in Hu. pose proof (efforts_le avail' (<[i := c']> s.2)) as Hle. rewrite length_insert in Hle.
    assert (unfinished s.2 = S (unfinished (<[i := c']> s.2))) as -> by lia. rewrite Nat.mul_succ_l. lia.
  - rewrite Hf' in Hu. assert (unfinished (<[i := c']> s.2) = unfinished s.2) as -> by lia.
    pose proof (efforts_insert s.1 s.2 i c c' Hc). lia.
Qed.

Lemma acts_measure sched s s' : acts sched s = Some s' -> (length sched + measure s' <= measure s)%nat.
Proof.
  revert s. induction sched as [|i sched IH]; intros s; cbn; [intros [= <-]; lia|].
  destruct (act i s) as [s1|] eqn:H; [|done]. cbn. intros Hs. apply IH in Hs. apply act_measure in H. lia.
Qed.

(** C27: the compare-and-swap loops end: in any interleaving of [n] calls no more than [n * (4 n + 1) + 4 n] actions ever run, whatever the scheduler does, although a single call has no bound of its own; and as long as a call has not returned, its next action can run. *)
Theorem cas_loops_terminate avail cs sched s :
  acts sched (avail, cs) = Some s ->
  (length sched <= length cs * (4 * length cs + 1) + 4 * length cs)%nat /\
  forall i c, s.2 !! i = Some c -> finished c = false -> is_Some (act i s).
Proof.
  intros Hs. split.
  - apply acts_measure in Hs. unfold measure in Hs. cbn [fst snd] in Hs. pose proof (efforts_le avail cs).
    assert (Hu : (unfinished cs <= length cs)%nat) by apply length_filter.
    apply (Nat.mul_le_mono_r _ _ (4 * length cs + 1)) in Hu. lia.
  - intros i c Hc Hf. unfold act. rewrite Hc. cbn. destruct c as [n|n|n old|n|n|]; cbn; try done; try destruct (s.1 =? old); by eexists.
Qed.

(** ** The account *)
Definition taken (c : Call) : Z := match c with CDone t _ _ => t | _ => 0 end.
Definition given (c : Call) : Z := match c with CDone _ g _ => g | _ => 0 end.
(** What a call may still give back. *)
Definition to_give (c : Call) : Z :=
  match c with CRefund n => Z.max 0 n | CAdd n => n | _ => 0 end.
Definition call_ok (c : Call) : Prop :=
  match c with
  | CTry n | CRefund n => in64 n
  | CLoad n | CAdd n => in64 n /\ 0 < n
  | CSwap n old => in64 n /\ 0 < n <= old
  | CDone t g _ => 0 <= t /\ 0 <= g
  end.

Record account (initial refunds : Z) (s : Z * list Call) : Prop := {
  ac_calls : Forall call_ok s.2;
  ac_word : s.1 = initial - Zsum (taken <$> s.2) + Zsum (given <$> s.2);
  ac_left : Zsum (given <$> s.2) + Zsum (to_give <$> s.2) <= refunds;
  ac_pos : 0 <= s.1
}.

Lemma Zsum_fmap_insert (f : Call -> Z) cs i c c' : cs !! i = Some c ->
  Zsum (f <$> <[i := c']> cs) = Zsum (f <$> cs) - f c + f c'.
Proof.
  intros Hc. rewrite list_fmap_insert. apply Zsum_insert. by rewrite list_lookup_fmap, Hc.
Qed.

Lemma Zsum_fmap_nonneg (f : Call -> Z) cs : Forall (fun c => 0 <= f c) cs -> 0 <= Zsum (f <$> cs).
Proof. intros H. apply Zsum_nonneg. by apply list.Forall_fmap. Qed.

Lemma act_account initial refunds i s s' : 0 <= initial -> initial + refunds < H64 ->
  account initial refunds s -> act i s = Some s' -> account initial refunds s'.
Proof.
  intros Hi Hr [Hcs Hw Hl Hp]. unfold act. destruct (s.2 !! i) as [c|] eqn:Hc; [|done]. cbn.
  destruct (action c s.1) as [[c' avail']|] eqn:Ha; [|done]. cbn. intros [= <-].
  pose proof (list.Forall_lookup_1 _ _ _ _ Hcs Hc) as Hok.
  assert (Htk : 0 <= Zsum (taken <$> s.2) /\ 0 <= Zsum (to_give <$> s.2)).
  { split; apply Zsum_fmap_nonneg; (eapply list.Forall_impl; [exact Hcs|]); intros x Hx; destruct x; cbn in *; lia. }
  assert (Hgc : to_give c <= Zsum (to_give <$> s.2)).
  { pose proof (Zsum_fmap_insert to_give s.2 i c (CDone 0 0 true) Hc) as Hz.
    assert (0 <= Zsum (to_give <$> <[i := CDone 0 0 true]> s.2)); [|cbn in Hz; lia].
    apply Zsum_fmap_nonneg. apply list.Forall_insert; [|cbn; lia].
    eapply list.Forall_impl; [exact Hcs|]. intros x Hx; destruct x; cbn in *; lia. }
  assert (Hstep : call_ok c' /\ avail' = s.1 - taken c' + taken c + given c' - given c /\
    given c' + to_give c' <= given c + to_give c /\ 0 <= avail').
  { destruct c as [n|n|n old|n|n|]; cbn in *; try done.
    - injection Ha as <- <-. destruct (Z.leb_spec n 0); cbn; split_and!; try done; lia.
    - injection Ha as <- <-. destruct (Z.ltb_spec s.1 n); cbn; split_and!; try apply Hok; try done; lia.
    - destruct (Z.eqb_spec s.1 old) as [E|E]; injection Ha as <- <-; cbn; [|split_and!; try apply Hok; try done; lia].
      unfold sub64. rewrite wrap64_id by (unfold in64 in *; lia). split_and!; lia.
    - injection Ha as <- <-. destruct (Z.gtb_spec n 0); cbn; split_and!; try apply Hok; try done; lia.
    - injection Ha as <- <-. cbn. unfold add64. rewrite wrap64_id by (unfold in64; lia). split_and!; lia. }
  destruct Hstep as (Hok' & Hav & Hgiv & Hpos). split; cbn.
  - by apply list.Forall_insert.
  - rewrite !(Zsum_fmap_insert _ s.2 i c c' Hc). lia.
  - rewrite !(Zsum_fmap_insert _ s.2 i c c' Hc). lia.
  - done.
Qed.

Definition refunded (cs : list Call) : Z := Zsum (to_give <$> cs).

Lemma acts_account initial refunds sched s s' : 0 <= initial -> initial + refunds < H64 ->
  account initial refunds s -> acts sched s = Some s' -> account initial refunds s'.
Proof.
  intros Hi Hr. revert s. induction sched as [|i sched IH]; intros s Hs; cbn; [by intros [= <-]|].
  destruct (act i s) as [s1|] eqn:H; [|done]. cbn. apply IH. by eapply act_account.
Qed.

(** The baseline limiter never overspends: in any interleaving of calls, started on a word that is not negative and to which all the refunds can be added, the word is never negative and is exactly what it held, less what the admitted calls took, plus what was refunded. *)
Theorem baseline_never_overspends initial cs sched s :
  0 <= initial -> Forall at_entry cs -> initial + refunded cs < H64 ->
  acts sched (NewAtomicLimiter initial, cs) = Some s ->
  0 <= Available s.1 /\ Available s.1 = initial - Zsum (taken <$> s.2) + Zsum (given <$> s.2).
Proof.
  intros Hi Hcs Hr Hs.
  assert (Hinit : account initial (refunded cs) (NewAtomicLimiter initial, cs)).
  { assert (Hz : Zsum (taken <$> cs) = 0 /\ Zsum (given <$> cs) = 0).
    { clear -Hcs. induction Hcs as [|c cs Hc Hcs [IH1 IH2]]; [done|]. rewrite !fmap_cons, !Zsum_cons, IH1, IH2. by destruct c. }
    destruct Hz as [Hz1 Hz2]. split; cbn; rewrite ?Hz1, ?Hz2; unfold refunded, NewAtomicLimiter in *; try lia.
    eapply list.Forall_impl; [exact Hcs|]. by intros []. }
  destruct (acts_account _ _ _ _ _ Hi Hr Hinit Hs) as [_ Hw _ Hp]. done.
Qed.

(** Two consumers and a refund: the first swap fails because of the second. *)
Definition demo_calls : list Call := [CTry 3; CTry 2; CRefund 1].
Definition demo_sched : list nat := [0; 0; 1; 1; 1; 0; 2; 2; 0; 0]%nat.

Lemma cas_loops_terminate_witness :
  acts demo_sched (4, demo_calls) = Some (0, [CDone 3 0 true; CDone 2 0 true; CDone 0 1 true]) /\
  (length demo_sched <= 51)%nat.
Proof.
  assert (Hs : acts demo_sched (4, demo_calls) = Some (0, [CDone 3 0 true; CDone 2 0 true; CDone 0 1 true])) by (vm_compute; reflexivity).
  split; [exact Hs|]. exact (proj1 (cas_loops_terminate 4 demo_calls demo_sched _ Hs)).
Defined.

Lemma baseline_never_overspends_witness :
  0 <= Available 0 /\ Available 0 = 4 - 5 + 1.
Proof.
  assert (Hs : acts demo_sched (4, demo_calls) = Some (0, [CDone 3 0 true; CDone 2 0 true; CDone 0 1 true])) by (vm_compute; reflexivity).
  refine (baseline_never_overspends 4 demo_calls demo_sched _ _ _ _ Hs).
  - discriminate.
  - repeat constructor; vm_compute; discriminate.
  - vm_compute. reflexivity.
Defined.
